(* ===== verification/_CoqProject ===== *)
-Q . S2P
Prelude.v
Game.v
Player.v
Elo.v
World.v
Threads.v
Critical.v
Objects.v
Protocol.v
PlayerRegistry.v
Invitation.v
Client.v
Sessions.v
ClientRegistry.v
Server.v
Atomic.v
Steps.v
Typing.v
Accounts.v
Framing.v
Options.v
Rio.v
Main.v
Wrappers.v
Wire.v
Accounting.v
Effects.v
Handlers.v
Directory.v
Playing.v
Logout.v
Requests.v
Replies.v
Login.v
Service.v
Lifecycle.v
Lobby.v
Refinement.v
Loop.v
Shutdown.v
System.v
Demo.v
Findings.v
Properties.v
Interleaving.v
Parallel.v
Races.v
