(* ===== verification/Prelude.v ===== *)
(** * The Jeux game server: a verification development

    [src/] is a server in C that lets clients log in over TCP, invite one
    another and play tic-tac-toe, one thread per connection, and keeps their
    ratings.  This library models its functions as definitions that can be
    run, and proves what makes them correct.

    ** The program

    [main] ([src/main.c]) reads the command line ([src/option_processing.c]),
    creates the two registries, and for each connection it accepts starts a
    thread that runs [jeux_client_service] ([src/server.c]).  That function
    registers the client ([src/client_registry.c]), receives packets
    ([src/protocol.c]) and calls a handler for each.  The handlers call the
    operations of [src/client.c] on the client's list of invitations, which
    refer to an invitation ([src/invitation.c]), its two clients and its game
    ([src/game.c]), and a client that has logged in refers to a player
    ([src/player.c]) of the player registry ([src/player_registry.c]).  These
    objects are shared through pointers and counted by references.  SIGHUP
    makes [main] shut the connections down, wait for the threads and free the
    registries.

    ** The model

    A call is a function from a world to an outcome: it returns a value and a
    world, waits for ever on a semaphore or mutex, is undefined behaviour, or
    has run out of the fuel of the model ([World.outcome]).  A world holds a
    heap for each type of object, addressed by pointers, the semaphores of
    [client.c], the connections with the bytes in both directions and the
    choices the kernel will make, the results of [calloc], and the clock.
    An [int] is a [Z] with its overflow or wrap-around
    written out ([Prelude.int_op], [uint8], [uint16], [uint32],
    [Options.int_of_long]): an identifier, a rating, a reference count, the
    length of a registry that leaves the range of [int] is undefined
    behaviour.  A [double] is one of [SpecFloat].

    - [Game], [Player]: [game.c] and [player.c] as pure functions on the
      structures; [Objects] lifts them to pointers.
    - [Elo]: interval arithmetic for the rating formula in binary64.
    - [World]: data, heaps, the monad, system calls.
    - [Threads]: programs of atomic steps, pools of threads that take them in
      any order ([pool_step]), and schedules that can be run ([exec]).
      [Steps]: each function of the server cut into its steps by its own
      definition, an instance of the class [Steps] that type class resolution
      builds along the body; run alone the steps are the function.  [Atomic]
      lists what one step is: an access to one object, an operation on a
      semaphore or mutex, a system call, or what [game.c], [player.c] or the
      player registry does under a mutex of its own.
    - [Protocol]: packets, [create_header] of [includeme.c], the loops of
      [proto_send_packet] and [proto_recv_packet].  [Wire]: the packets a call
      has sent, as a list ([told]).
    - [PlayerRegistry], [Invitation], [Client], [Sessions], [ClientRegistry]:
      the functions of the files of the same names; [client.c] is split into
      [Client] (identifiers, lists, packets), [Sessions] (the operations on
      invitations, reference counts, logout) and [ClientRegistry] (login).
    - [Server]: [server.c], one definition per function, and [terminate].
    - [Options]: [option_processing.c].
    - [Main]: [main.c], from its start on, with [Open_listenfd] of
      [csapp.c], and the thread function cut into turns.
    - [Rio]: the robust I/O of [csapp.c], and [Wrappers]: its wrappers of
      library calls, of which the server uses [Open_listenfd] (in [Main]),
      [Accept] and [Close].

    ** What is shown

    - [Accounting], [Effects], [Handlers], [Directory], [Playing], [Logout],
      [Requests], [Login], [Service], [Lifecycle]: the invariant [serves] of
      the server's memory (exact reference counts, no dangling pointer,
      identifiers and lists that agree, one session per player), that every
      request returns and keeps it, what each request does, and which packets
      it sends to whom, in which order and under which identifiers: the
      answer to the client and, before it, the notifications to the other side
      ([revoke_notices] and the like, next to the [revoke_spec] and the like
      that say what happens to the memory).
    - [Replies]: USERS and a refused request, down to the clock and the rest
      of the world.
    - [Lifecycle] also has the server one call at a time: the events that
      can happen ([happens]: a call that returns, whatever it is given), what
      is assumed of each ([in_order]), and the executions within these
      assumptions ([orderly]).
    - [Lobby]: the abstract server, a transition system on connected clients,
      sessions, accounts, invitations and games.  [Refinement]: every event of
      an orderly execution is steps of the lobby.
    - [Loop]: the service of a connection ends, on every input within the
      guards.
    - [Shutdown], [System]: all the threads, in any order of their turns,
      until the server is down.  A turn is whatever the thread does when it is
      run ([turn]); what is assumed of it is [turn_guard], and the executions
      within it are [sys_orderly].  After [creg_shutdown_all] nothing is
      assumed any more.
    - [Critical], [Parallel]: calls whose single steps interleave.  A call
      that has a lock from its first step to its last is an instance of the
      class [Critical], and a simulation shows that any interleaving of such
      calls is an execution of whole calls.  So for any number of threads the
      logins ([client_login], under [CLIENT_LOGIN_SEM]), the operations on
      invitations (under [CLIENT_INVITE_OP_SEM]) and the packets to one client
      (under its mutex) neither fail nor deadlock, they end, and they keep
      the invariant.
    - [Typing]: whatever the order of all the steps of all the threads, the
      input and the failures of [calloc] and the kernel, every value in memory
      is of its C type: every [int] in range, every name a string, every board
      nine cells.
    - [Accounts]: in the same executions, the player registry has one player
      per name, no mark on a board is taken back and no game reopened, since
      each step of [Atomic] keeps it so.
    - [Framing]: in the same executions, what the peer of a connection is sent
      is whole packets, one after another: a ghost state says which thread
      has the mutex of a client and what it owes of a packet.
    - [Wrappers]: the class [Wraps], what a wrapper promises to its caller.
    - [Rio]: the buffered reader refines a reader of a list of bytes, whatever
      the counts and interruptions of the system calls.
    - [Races]: schedules of the single steps of whole service threads in which
      the server fails, computed by the model: what the locks do not protect.
    - [Demo], [Findings]: a session that is computed by the model, and the
      runs in which the code does not do what it means to.
    - [Properties], [Interleaving]: the theorems about the whole server, each
      with an instance of its hypotheses; those of single components are at
      the end of [Game], [Elo], [Protocol], [Client], [Options] and [Main].
      The instances of [Parallel], [Typing], [Accounts] and [Framing] are in
      [Races].

    ** Bounds and fuel

    - [client_unref] frees a client, which logs it out, which drops
      references again; the recursion has one more step of fuel than there
      are clients, and [server_never_fails] shows that it is enough.
    - [logout_loop] has the length of the list, which shrinks with each turn;
      the write and read loops have the number of bytes and one more;
      [service_loop] has the length of the input and one more, since each
      turn but the last takes a header from it.
    - [MAX_BRK] bounds the number of objects allocated since the start, at
      thirty million: up to it no identifier, no counter and no rating
      overflows, whatever the order of the requests.

    ** What is assumed

    The theorems about the whole server are about the orderly executions of
    [Lifecycle] and [System]; the first five items are what that means.  The
    transitions themselves assume nothing, and [Findings] and [Races] run
    them where the assumptions do not hold.  The theorems of [Typing],
    [Accounts] and [Framing] do not need them.

    - In [System], turns of other threads come between the turns of a thread
      only (a registration, a packet, a leave), in any order; the mutexes and
      semaphores are modelled, and shown to be free between the turns.  Inside
      a turn [Parallel] lets threads interleave that do calls of the same
      kind, and [Typing], [Accounts] and [Framing] all of them.  That calls of different kinds
      interleave without harm is not shown, and not true of all: see [Races].
    - Memory is sequentially consistent: a step sees what the steps before it
      have written.
    - The kernel accepts what is written to a registered client ([writable]);
      [proto_send_packet_correct] covers errors and short writes.  [calloc]
      succeeds on the way of a whole server (its failures are in [Findings]).
      [accept] returns a descriptor that is not open.
    - INVITE is sent by a client that is logged in to one that is, when its
      turn comes
      ([invite_guard]), and USERS is sent while no rating is longer than four
      characters ([users_guard]): the code checks neither, see [Findings].
      [packet_guard], [dispatch_guard] and [loop_guard] say so of a packet, a
      request and an input.
    - When [terminate] begins every thread has registered its client, and the registry has
      not been empty since the first client ([shutdown_guard]): otherwise the
      registry is freed in use, see [Findings].
    - What a peer has sent and the server has not read is dropped when
      [shutdown] closes the reading side of its socket, and nothing more is
      received ([World.sys_shutdown_rd]), which POSIX allows.
    - [pow] gives one for a zero exponent, and on a base of ten a double that
      is neither a NaN nor negative ([LibmLaws]); [Elo.step_pow] is such a
      function, and the one [Demo] runs with.

    ** Not modelled

    - The steps under the mutexes of games, players, invitations and the player
      registry, which are held over no call that waits but
      [player_post_result], where the mutexes of two players are taken; the
      window of two lines in [creg_wait_for_empty] is a turn of [Main] of its
      own.
    - That [close] fails, for which [Close] would end the process: the
      descriptors that are closed are open, which is part of
      [threads_never_fail].  The wrappers of [src/csapp.c] that have no result
      ([Pause], [Free], [Pthread_exit], [Pthread_once]).
    - [getopt] and the socket calls, whose results are arguments;
      [pthread_create] and [pthread_detach]; logging; the tests, which drive a
      running server.

    Next: pools in which calls of different kinds interleave, by the steps of
    each that commute with the others outside the races. *)

From Stdlib Require Export ZArith Lia Bool.
From stdpp Require Export base numbers list list_numbers gmap strings.

#[global] Open Scope Z_scope.

(** ** C data *)

(** A byte of memory or of a stream is a [Z] between 0 and 255; a C string
    is the list of its bytes before the terminating NUL. *)
Abbreviation byte := Z (only parsing).

Definition bytes_of_string (s : String.string) : list byte :=
  (λ a, Z.of_N (Ascii.N_of_ascii a)) <$> String.list_ascii_of_string s.

Declare Scope jeux_scope.
Delimit Scope jeux_scope with jeux.
Notation "'text' s" := (bytes_of_string s%string)
  (at level 1, s at level 0, only parsing) : jeux_scope.
#[global] Open Scope jeux_scope.

(** The string a C function sees in a buffer: what precedes the first NUL. *)
Fixpoint cstr (b : list byte) : list byte :=
  match b with
  | [] => []
  | c :: b' => if c =? 0 then [] else c :: cstr b'
  end.

Definition strlen (s : list byte) : Z := Z.of_nat (length s).

Definition INT_MAX : Z := 2147483647.
Definition INT_MIN : Z := -2147483648.

(** The value of a signed [int] operation, when it is one: a result outside
    the range of [int] is undefined behaviour in C. *)
Definition int_op (z : Z) : option Z :=
  if decide (INT_MIN ≤ z ≤ INT_MAX) then Some z else None.

(** Conversions to the unsigned types of the packet header. *)
Definition uint8 (z : Z) : Z := z mod 256.
Definition uint16 (z : Z) : Z := z mod 65536.
Definition uint32 (z : Z) : Z := z mod 4294967296.

(** [is_byte] and [is_cstring]: what a buffer and a C string hold. *)
Definition is_byte (z : Z) : Prop := 0 ≤ z < 256.
Definition is_cstring (s : list byte) : Prop := Forall (λ c, 0 < c < 256) s.

(** Decimal output, the [%d] of [sprintf]. *)
Fixpoint digits_aux (fuel : nat) (n : Z) (acc : list byte) : list byte :=
  match fuel with
  | O => acc
  | S f =>
      let acc' := (48 + n mod 10) :: acc in
      if n / 10 =? 0 then acc' else digits_aux f (n / 10) acc'
  end.

Definition decimal (n : Z) : list byte :=
  if n <? 0 then 45 :: digits_aux 20 (- n) [] else digits_aux 20 n [].

(** ** Sums over finite maps

    The reference counts of the server are compared with the number of
    pointers stored in other objects, a sum over a heap. *)
Definition msum {V} (f : V → Z) (m : gmap nat V) : Z :=
  map_fold (λ _ v acc, f v + acc) 0 m.

Section msum.
Context {V : Type}.
Implicit Types (f g : V → Z) (m : gmap nat V).

Lemma msum_empty f : msum f ∅ = 0.
Proof. apply map_fold_empty. Qed.

Lemma msum_insert_None f m k v :
  m !! k = None → msum f (<[k:=v]> m) = f v + msum f m.
Proof.
  intros Hk. unfold msum. rewrite map_fold_insert_L; [done| |done].
  intros; lia.
Qed.

Lemma msum_delete f m k v :
  m !! k = Some v → msum f m = f v + msum f (delete k m).
Proof.
  intros Hk. rewrite <-(insert_delete_id m k v) at 1 by done.
  apply msum_insert_None. by rewrite lookup_delete_eq.
Qed.

Lemma msum_insert_Some f m k v v' :
  m !! k = Some v → msum f (<[k:=v']> m) = msum f m - f v + f v'.
Proof.
  intros Hk. rewrite (msum_delete f m k v Hk).
  rewrite <-insert_delete_eq, msum_insert_None by apply lookup_delete_eq.
  lia.
Qed.

Lemma msum_nonneg f m : (∀ k v, m !! k = Some v → 0 ≤ f v) → 0 ≤ msum f m.
Proof.
  induction m as [|k v m Hk IH] using map_ind; intros Hf.
  - by rewrite msum_empty.
  - rewrite msum_insert_None by done.
    assert (0 ≤ f v) by (eapply Hf, lookup_insert_eq).
    assert (0 ≤ msum f m); [|lia].
    apply IH. intros k' v' ?. eapply (Hf k'). rewrite lookup_insert_ne; [done|congruence].
Qed.

(** One stored pointer is enough for a positive sum. *)
Lemma msum_ge f m k v :
  (∀ k v, m !! k = Some v → 0 ≤ f v) → m !! k = Some v → f v ≤ msum f m.
Proof.
  intros Hf Hk. rewrite (msum_delete f m k v Hk).
  assert (0 ≤ msum f (delete k m)); [|lia].
  apply msum_nonneg. intros k' v' ?. eapply (Hf k').
  eapply lookup_delete_Some; eauto.
Qed.

Lemma msum_zero_inv f m k v :
  (∀ k v, m !! k = Some v → 0 ≤ f v) → msum f m = 0 → m !! k = Some v → f v = 0.
Proof. intros Hf Hz Hk. pose proof (msum_ge f m k v Hf Hk). pose proof (Hf k v Hk). lia. Qed.

Lemma msum_ext f g m :
  (∀ k v, m !! k = Some v → f v = g v) → msum f m = msum g m.
Proof.
  induction m as [|k v m Hk IH] using map_ind; intros Hf.
  - by rewrite !msum_empty.
  - rewrite !msum_insert_None by done.
    rewrite (Hf k v) by apply lookup_insert_eq. f_equal.
    apply IH. intros k' v' ?. apply (Hf k'). rewrite lookup_insert_ne; [done|congruence].
Qed.
End msum.

(** ** Strings *)

Lemma cstr_id s : is_cstring s → cstr s = s.
Proof.
  induction 1 as [|c s Hc Hs IH]; [done|]. simpl.
  destruct (Z.eqb_spec c 0); [lia|]. by rewrite IH.
Qed.

Lemma cstr_app_nul s b : is_cstring s → cstr (s ++ 0 :: b) = s.
Proof.
  induction 1 as [|c s Hc Hs IH]; [done|]. simpl.
  destruct (Z.eqb_spec c 0); [lia|]. by rewrite IH.
Qed.

Lemma cstr_length b : (length (cstr b) ≤ length b)%nat.
Proof. induction b as [|c b IH]; simpl; [lia|]. destruct (c =? 0); simpl; lia. Qed.

Lemma cstr_is_cstring b : Forall is_byte b → is_cstring (cstr b).
Proof.
  induction 1 as [|c b Hc Hb IH]; simpl; [constructor|].
  destruct (Z.eqb_spec c 0); constructor; [unfold is_byte in *; lia|done].
Qed.

Lemma strlen_nonneg s : 0 ≤ strlen s.
Proof. unfold strlen. lia. Qed.

Lemma int_op_Some z : INT_MIN ≤ z ≤ INT_MAX → int_op z = Some z.
Proof. intros. unfold int_op. by rewrite decide_True. Qed.

(** ** Automation *)

Create HintDb jeux.
#[export] Hint Resolve strlen_nonneg cstr_is_cstring msum_nonneg : jeux.
Create Rewrite HintDb jeux_rw.
#[export] Hint Rewrite @msum_empty : jeux_rw.

(** Case analysis on the boolean comparisons of the code. *)
Ltac zcase :=
  match goal with
  | |- context [Z.eqb ?a ?b] => destruct (Z.eqb_spec a b)
  | |- context [Z.ltb ?a ?b] => destruct (Z.ltb_spec a b)
  | |- context [Z.leb ?a ?b] => destruct (Z.leb_spec a b)
  | H : context [Z.eqb ?a ?b] |- _ => destruct (Z.eqb_spec a b)
  | H : context [Z.ltb ?a ?b] |- _ => destruct (Z.ltb_spec a b)
  | H : context [Z.leb ?a ?b] |- _ => destruct (Z.leb_spec a b)
  end.

Ltac zcases := repeat (zcase; try lia; simplify_eq/=).
