(* ===== verification/Game.v ===== *)
(** * The tic-tac-toe engine: [src/game.c], [include/game.h]

    A [GAME] is the C structure without its mutex: every function of the
    file takes the mutex on entry and releases it on each return, and calls
    nothing in between, so a call is one step on the structure.  The
    functions are pure here; [World] lifts them to the heap of games.  An
    index that leaves the nine-element array is undefined behaviour, [None]. *)
From S2P Require Import Prelude.

(** ** Data *)

Inductive GAME_ROLE : Set :=
| NULL_ROLE
| FIRST_PLAYER_ROLE
| SECOND_PLAYER_ROLE.

#[export] Instance GAME_ROLE_eq_dec : EqDecision GAME_ROLE.
Proof. solve_decision. Defined.

(** The [int] a [GAME_ROLE] converts to. *)
Definition role_int (r : GAME_ROLE) : Z :=
  match r with
  | NULL_ROLE => 0
  | FIRST_PLAYER_ROLE => 1
  | SECOND_PLAYER_ROLE => 2
  end.

Record GAME : Set := mkGAME {
  g_rows : list Z;
  g_ref_count : Z;
  g_is_over : Z;
  g_current_player : GAME_ROLE;
  g_winner : GAME_ROLE
}.

Record GAME_MOVE : Set := mkMOVE {
  mv_move : Z;
  mv_role : GAME_ROLE
}.

(** ** Operations *)

Definition g_set_ref_count (n : Z) (g : GAME) : GAME :=
  mkGAME (g_rows g) n (g_is_over g) (g_current_player g) (g_winner g).

(** The count is an [int], whose overflow is undefined behaviour. *)
Definition game_ref (g : GAME) : option GAME :=
  n ← int_op (g_ref_count g + 1); Some (g_set_ref_count n g).

Definition game_drop (g : GAME) : option GAME :=
  n ← int_op (g_ref_count g - 1); Some (g_set_ref_count n g).

(** [Some None]: the count reached zero and the game was freed. *)
Definition game_unref (g : GAME) : option (option GAME) :=
  g' ← game_drop g; Some (if g_ref_count g' =? 0 then None else Some g').

(** The new game, and the first reference to it. *)
Definition game_create : GAME :=
  let g := mkGAME (replicate 9 0) 0 0 FIRST_PLAYER_ROLE NULL_ROLE in
  default g (game_ref g).

(** [board[i]] for the constant indices of [game_is_over]. *)
Definition cell (b : list Z) (i : nat) : Z := default 0 (b !! i).

(** [board[i] == board[j] && board[j] == board[k] && board[i] != 0] *)
Definition line_done (b : list Z) (l : nat * nat * nat) : bool :=
  let '(i, j, k) := l in
  (cell b i =? cell b j) && (cell b j =? cell b k) && negb (cell b i =? 0).

Definition row_lines : list (nat * nat * nat) := (λ i, (i, i + 1, i + 2)%nat) <$> [0; 3; 6]%nat.
Definition column_lines : list (nat * nat * nat) := (λ i, (i, i + 3, i + 6)%nat) <$> [0; 1; 2]%nat.
Definition diagonal_lines : list (nat * nat * nat) := [(0, 4, 8); (2, 4, 6)]%nat.

(** The first completed line in the order of the tests. *)
Fixpoint first_line (b : list Z) (ls : list (nat * nat * nat)) : option Z :=
  match ls with
  | [] => None
  | l :: ls' => if line_done b l then Some (cell b l.1.1) else first_line b ls'
  end.

(** [game->winner = w; game->is_over = 1;] *)
Definition end_game (g : GAME) (w : GAME_ROLE) : GAME :=
  mkGAME (g_rows g) (g_ref_count g) 1 (g_current_player g) w.

Definition empty_count (b : list Z) : Z :=
  Z.of_nat (length (filter (λ i, cell b i = 0) (seq 0 9))).

Definition game_is_over (g : GAME) : Z * GAME :=
  match first_line (g_rows g) (row_lines ++ column_lines ++ diagonal_lines) with
  | Some v =>
      let g' := end_game g (if v =? role_int FIRST_PLAYER_ROLE
                            then FIRST_PLAYER_ROLE else SECOND_PLAYER_ROLE) in
      (g_is_over g', g')
  | None =>
      if empty_count (g_rows g) =? 0 then
        let g' := end_game g NULL_ROLE in (g_is_over g', g')
      else (g_is_over g, g)
  end.

(** The mark is set under the mutex of the game, and the end of the game is
    looked for under the mutex again. *)
Definition game_place (g : GAME) (mv : GAME_MOVE) : option (Z * GAME) :=
  if decide (g_current_player g ≠ mv_role mv) then Some (-1, g)
  else if mv_move mv <? 0 then None
  else match g_rows g !! Z.to_nat (mv_move mv) with
  | None => None
  | Some c =>
      if negb (c =? 0) then Some (-1, g)
      else
        let g' := mkGAME (<[Z.to_nat (mv_move mv) := role_int (mv_role mv)]> (g_rows g))
                    (g_ref_count g) (g_is_over g)
                    (if decide (g_current_player g = FIRST_PLAYER_ROLE)
                     then SECOND_PLAYER_ROLE else FIRST_PLAYER_ROLE)
                    (g_winner g) in
        Some (0, g')
  end.

Definition game_apply_move (g : GAME) (mv : GAME_MOVE) : option (Z * GAME) :=
  rg ← game_place g mv;
  if rg.1 =? 0 then Some (0, (game_is_over rg.2).2) else Some rg.

Definition game_resign (g : GAME) (role : GAME_ROLE) : Z * GAME :=
  if decide (g_winner g ≠ NULL_ROLE) then (-1, g)
  else (0, mkGAME (g_rows g) (g_ref_count g) 1 NULL_ROLE
             (if decide (role = FIRST_PLAYER_ROLE)
              then SECOND_PLAYER_ROLE else FIRST_PLAYER_ROLE)).

Definition game_get_winner (g : GAME) : GAME_ROLE := g_winner g.

(** The text of one cell, of one row and of the whole state. *)
Definition cell_char (v : Z) : byte :=
  if v =? 0 then 32 else if v =? 1 then 88 else 79.

Definition row_text (b : list Z) (i : nat) : list byte :=
  [cell_char (cell b i); 124; cell_char (cell b (i + 1)); 124; cell_char (cell b (i + 2)); 10].

Definition floor_text : list byte := replicate 5 45 ++ [10].

Definition game_unparse_state (g : GAME) : list byte :=
  row_text (g_rows g) 0 ++ floor_text ++ row_text (g_rows g) 3 ++ floor_text ++
  row_text (g_rows g) 6 ++
  [if decide (g_current_player g = FIRST_PLAYER_ROLE) then 88 else 79] ++
  text " to move" ++ [10].

(** [atoi]: white space, an optional sign, the digits that follow. *)
Definition isspace (c : byte) : bool := (c =? 32) || ((9 <=? c) && (c <=? 13)).
Definition isdigit (c : byte) : bool := (48 <=? c) && (c <=? 57).

Fixpoint atoi_digits (s : list byte) (acc : Z) : Z :=
  match s with
  | c :: s' => if isdigit c then atoi_digits s' (10 * acc + (c - 48)) else acc
  | [] => acc
  end.

Fixpoint skip_spaces (s : list byte) : list byte :=
  match s with
  | c :: s' => if isspace c then skip_spaces s' else s
  | [] => []
  end.

Definition atoi (s : list byte) : Z :=
  match skip_spaces s with
  | c :: s' => if c =? 45 then - atoi_digits s' 0
               else if c =? 43 then atoi_digits s' 0
               else atoi_digits (c :: s') 0
  | [] => 0
  end.

Definition game_parse_move (g : GAME) (role : GAME_ROLE) (str : list byte) : option GAME_MOVE :=
  if strlen str =? 1 then
    let move := atoi str - 1 in
    if (move <? 0) || (8 <? move) then None else Some (mkMOVE move role)
  else if strlen str =? 4 then
    if negb (nth 1 str 0 =? 60) || negb (nth 2 str 0 =? 45) then None
    else if (nth 3 str 0 =? 88) && bool_decide (g_current_player g ≠ FIRST_PLAYER_ROLE) then None
    else if (nth 3 str 0 =? 79) && bool_decide (g_current_player g ≠ SECOND_PLAYER_ROLE) then None
    else
      let move := atoi str - 1 in
      if (move <? 0) || (8 <? move) then None else Some (mkMOVE move role)
  else None.

(** The string held by the two-byte buffer. *)
Definition game_unparse_move (mv : GAME_MOVE) : list byte :=
  cstr [uint8 (mv_move mv + 1 + 48); 0].

(** ** Specification: the rules of tic-tac-toe *)

Definition win_lines : list (nat * nat * nat) :=
  [(0,1,2); (3,4,5); (6,7,8); (0,3,6); (1,4,7); (2,5,8); (0,4,8); (2,4,6)]%nat.

(** Player [r] holds the three cells of a line. *)
Definition has_line (b : list Z) (r : GAME_ROLE) : Prop :=
  ∃ l, l ∈ win_lines ∧
       cell b l.1.1 = role_int r ∧ cell b l.1.2 = role_int r ∧ cell b l.2 = role_int r.

Definition no_line (b : list Z) : Prop := ∀ r, r ≠ NULL_ROLE → ¬ has_line b r.
Definition board_full (b : list Z) : Prop := ∀ i, (i < 9)%nat → cell b i ≠ 0.
Definition wf_board (b : list Z) : Prop := length b = 9%nat ∧ Forall (λ c, 0 ≤ c ≤ 2) b.

(** Number of cells holding [v]. *)
Definition count (v : Z) (b : list Z) : Z := Z.of_nat (length (filter (λ c, c = v) b)).

Definition opponent_of (r : GAME_ROLE) : GAME_ROLE :=
  if decide (r = FIRST_PLAYER_ROLE) then SECOND_PLAYER_ROLE else FIRST_PLAYER_ROLE.

(** The games the server plays: it starts from [game_create], applies moves
    only while the game is not over (a finished game leaves both invitation
    lists in the same [client_make_move]) and accepts one resignation. *)
Inductive played : GAME → Prop :=
| played_create : played game_create
| played_move g mv g' :
    played g → g_is_over g = 0 → game_apply_move g mv = Some (0, g') → played g'
| played_resign g r g' :
    played g → g_is_over g = 0 → r ≠ NULL_ROLE → game_resign g r = (0, g') → played g'.

(** Runs of successful moves, each applied to a game that is not over. *)
Inductive moves : GAME → list GAME_MOVE → GAME → Prop :=
| moves_nil g : moves g [] g
| moves_cons g mv g1 ms g2 :
    g_is_over g = 0 → game_apply_move g mv = Some (0, g1) → moves g1 ms g2 →
    moves g (mv :: ms) g2.

(** What the four possible situations of a game look like. *)
Inductive situation (g : GAME) : Prop :=
| in_progress :
    g_is_over g = 0 → g_winner g = NULL_ROLE → g_current_player g ≠ NULL_ROLE →
    no_line (g_rows g) → ¬ board_full (g_rows g) →
    count 1 (g_rows g) - count 2 (g_rows g) =
      (if decide (g_current_player g = FIRST_PLAYER_ROLE) then 0 else 1) →
    situation g
| won r :
    g_is_over g = 1 → g_winner g = r → r ≠ NULL_ROLE →
    has_line (g_rows g) r → ¬ has_line (g_rows g) (opponent_of r) → situation g
| drawn :
    g_is_over g = 1 → g_winner g = NULL_ROLE → no_line (g_rows g) →
    board_full (g_rows g) → situation g
| resigned :
    g_is_over g = 1 → g_winner g ≠ NULL_ROLE → g_current_player g = NULL_ROLE →
    no_line (g_rows g) → ¬ board_full (g_rows g) → situation g.

(** ** Lemmas on lines and boards *)

Lemma role_int_inj r r' : role_int r = role_int r' → r = r'.
Proof. by destruct r, r'. Qed.

Lemma role_int_0 r : role_int r = 0 ↔ r = NULL_ROLE.
Proof. by destruct r. Qed.

Lemma opponent_of_ne r : opponent_of r ≠ r.
Proof. by destruct r. Qed.

Lemma role_cases r r' : r ≠ NULL_ROLE → r' ≠ NULL_ROLE → r' = r ∨ r' = opponent_of r.
Proof. destruct r, r'; cbn; auto; done. Qed.

Lemma first_line_Some b ls v :
  first_line b ls = Some v → ∃ l, l ∈ ls ∧ line_done b l = true ∧ v = cell b l.1.1.
Proof.
  induction ls as [|l ls IH]; simpl; [done|].
  destruct (line_done b l) eqn:E; intros H; simplify_eq.
  - exists l. split; [by left|auto].
  - destruct (IH H) as (l' & ? & ? & ?). exists l'. split; [by right|auto].
Qed.

Lemma first_line_None b ls l :
  first_line b ls = None → l ∈ ls → line_done b l = false.
Proof.
  induction ls as [|l' ls IH]; simpl; [set_solver|].
  destruct (line_done b l') eqn:E; [done|].
  intros H [->|?]%elem_of_cons; auto.
Qed.

Lemma line_done_spec b i j k :
  line_done b (i, j, k) = true ↔ cell b i = cell b j ∧ cell b j = cell b k ∧ cell b i ≠ 0.
Proof.
  unfold line_done. rewrite !andb_true_iff, !Z.eqb_eq, negb_true_iff, Z.eqb_neq. tauto.
Qed.

Lemma has_line_done b r :
  r ≠ NULL_ROLE → has_line b r → ∃ l, l ∈ win_lines ∧ line_done b l = true ∧ cell b l.1.1 = role_int r.
Proof.
  intros Hr ([[i j] k] & Hin & H1 & H2 & H3); simpl in *.
  exists (i, j, k). split_and!; [done| |done].
  apply line_done_spec. rewrite H1, H2, H3, role_int_0. auto.
Qed.

Lemma line_done_has b l r :
  l ∈ win_lines → line_done b l = true → cell b l.1.1 = role_int r → has_line b r.
Proof.
  destruct l as [[i j] k]. intros Hin [H1 [H2 H3]]%line_done_spec Hc; simpl in *.
  exists (i, j, k). simpl. split_and!; congruence.
Qed.

Lemma cell_range b i : wf_board b → 0 ≤ cell b i ≤ 2.
Proof.
  intros [_ H]. unfold cell. destruct (b !! i) eqn:E; simpl; [|lia].
  by eapply (Forall_lookup_1 _ _ _ _ H E).
Qed.

(** The value of a completed line identifies the player the code names. *)
Lemma line_role b l :
  wf_board b → line_done b l = true →
  ∃ r, r ≠ NULL_ROLE ∧ cell b l.1.1 = role_int r ∧
       (if cell b l.1.1 =? role_int FIRST_PLAYER_ROLE
        then FIRST_PLAYER_ROLE else SECOND_PLAYER_ROLE) = r.
Proof.
  destruct l as [[i j] k]. intros Hwf [_ [_ H]]%line_done_spec. simpl in *.
  pose proof (cell_range b i Hwf).
  destruct (Z.eqb_spec (cell b i) 1).
  - by exists FIRST_PLAYER_ROLE.
  - exists SECOND_PLAYER_ROLE. split_and!; [done|simpl; lia|done].
Qed.

Lemma empty_count_full b : empty_count b = 0 ↔ board_full b.
Proof.
  unfold empty_count, board_full. split.
  - intros H i Hi Hc.
    assert (i ∈ filter (λ i, cell b i = 0) (seq 0 9)) as Hin.
    { apply list_elem_of_filter. split; [done|]. apply elem_of_seq. lia. }
    destruct (filter (λ i, cell b i = 0) (seq 0 9)); [set_solver|simpl in H; lia].
  - intros H. destruct (filter (λ i, cell b i = 0) (seq 0 9)) as [|i l] eqn:E; [done|].
    assert (i ∈ filter (λ i, cell b i = 0) (seq 0 9)) as Hin by (rewrite E; set_solver).
    apply list_elem_of_filter in Hin as [Hc Hi%elem_of_seq].
    exfalso. eapply (H i); [lia|done].
Qed.

Lemma win_lines_code : row_lines ++ column_lines ++ diagonal_lines = win_lines.
Proof. reflexivity. Qed.

(** ** Lemmas on one move *)

Lemma cell_insert b m v i :
  (m < length b)%nat → cell (<[m:=v]> b) i = if decide (i = m) then v else cell b i.
Proof.
  intros Hm. unfold cell. case_decide; subst.
  - by rewrite list_lookup_insert_eq.
  - by rewrite list_lookup_insert_ne.
Qed.

Lemma wf_board_insert b m r : wf_board b → wf_board (<[m:=role_int r]> b).
Proof.
  intros [Hl Hf]. split; [by rewrite length_insert|].
  apply Forall_insert; [done|]. by destruct r.
Qed.

(** A move of [r] completes no line of another player. *)
Lemma has_line_insert_ne b m r r' :
  (m < length b)%nat → r ≠ r' →
  has_line (<[m:=role_int r]> b) r' → has_line b r'.
Proof.
  intros Hm Hne (l & Hin & H1 & H2 & H3). exists l. split; [done|].
  rewrite !cell_insert in * by done.
  repeat case_decide;
    try (exfalso; match goal with H : role_int _ = role_int _ |- _ => by apply Hne, role_int_inj end).
  done.
Qed.

Lemma count_insert v b m c c' :
  b !! m = Some c → count v (<[m:=c']> b) =
  count v b - (if decide (c = v) then 1 else 0) + (if decide (c' = v) then 1 else 0).
Proof.
  intros Hm. unfold count.
  assert (m < length b)%nat by (by eapply lookup_lt_Some).
  rewrite insert_take_drop by done.
  rewrite <-(take_drop_middle b m c Hm) at 3.
  rewrite !filter_app, !filter_cons, !length_app.
  repeat case_decide; simpl; lia.
Qed.

Lemma count_bounds v b : wf_board b → 0 ≤ count v b ≤ 9.
Proof.
  intros [Hl _]. unfold count. pose proof (length_filter (λ c, c = v) b). lia.
Qed.

(** The cases of [game_apply_move], once for all. *)
Lemma game_apply_move_inv g mv r g' :
  game_apply_move g mv = Some (r, g') →
  (r = -1 ∧ g' = g) ∨
  (r = 0 ∧ g_current_player g = mv_role mv ∧ 0 ≤ mv_move mv ∧
   g_rows g !! Z.to_nat (mv_move mv) = Some 0 ∧
   g' = (game_is_over (mkGAME (<[Z.to_nat (mv_move mv) := role_int (mv_role mv)]> (g_rows g))
           (g_ref_count g) (g_is_over g) (opponent_of (g_current_player g)) (g_winner g))).2).
Proof.
  unfold game_apply_move, game_place. case_decide as Hp; [cbn; intros; simplify_eq; auto|].
  destruct (Z.ltb_spec (mv_move mv) 0); [done|].
  destruct (g_rows g !! _) as [c|] eqn:Hc; [|done].
  destruct (Z.eqb_spec c 0); simpl; intros; simplify_eq; [right|auto].
  split_and!; done.
Qed.

(** [game_is_over] keeps the board, the counter and the turn. *)
Lemma game_is_over_frame g :
  let g' := (game_is_over g).2 in
  g_rows g' = g_rows g ∧ g_ref_count g' = g_ref_count g ∧
  g_current_player g' = g_current_player g.
Proof.
  simpl. unfold game_is_over. destruct (first_line _ _); [done|].
  by destruct (empty_count _ =? 0).
Qed.

Lemma no_line_first b : first_line b win_lines = None → no_line b.
Proof.
  intros H r Hr Hl. destruct (has_line_done b r Hr Hl) as (l & Hin & Hd & _).
  by rewrite (first_line_None b _ l H Hin) in Hd.
Qed.

Lemma first_line_no b : wf_board b → no_line b → first_line b win_lines = None.
Proof.
  intros Hwf Hno. destruct (first_line b win_lines) as [v|] eqn:E; [|done].
  apply first_line_Some in E as (l & Hin & Hd & _).
  destruct (line_role b l Hwf Hd) as (r & Hr & Hc & _).
  exfalso. by eapply (Hno r Hr), line_done_has.
Qed.

Definition after_move (g : GAME) (m : nat) (r : GAME_ROLE) : GAME :=
  mkGAME (<[m:=role_int r]> (g_rows g)) (g_ref_count g) (g_is_over g)
    (opponent_of r) (g_winner g).

(** The test that follows a move sorts the new position. *)
Lemma situation_after_move g m r :
  wf_board (g_rows g) → g_rows g !! m = Some 0 → r ≠ NULL_ROLE →
  g_is_over g = 0 → g_winner g = NULL_ROLE → no_line (g_rows g) →
  count 1 (g_rows g) - count 2 (g_rows g) =
    (if decide (r = FIRST_PLAYER_ROLE) then 0 else 1) →
  situation (game_is_over (after_move g m r)).2.
Proof.
  intros Hwf Hm Hr Ho Hw Hno Hc.
  assert (m < length (g_rows g))%nat as Hlt by (by eapply lookup_lt_Some).
  assert (∀ r', r' ≠ NULL_ROLE → has_line (<[m:=role_int r]> (g_rows g)) r' → r' = r) as Hone.
  { intros r' Hr' Hl. destruct (decide (r = r')); [done|].
    exfalso. by eapply (Hno r' Hr'), has_line_insert_ne. }
  unfold game_is_over. rewrite win_lines_code. simpl g_rows.
  destruct (first_line _ win_lines) as [v|] eqn:E.
  - apply first_line_Some in E as (l & Hin & Hd & ->).
    destruct (line_role _ l (wf_board_insert _ m r Hwf) Hd) as (r0 & Hr0 & Hc0 & Heq).
    pose proof (line_done_has _ l r0 Hin Hd Hc0) as Hl.
    assert (r0 = r) as -> by auto.
    apply (won _ r); [done|exact Heq|done|exact Hl|]. cbn [snd end_game g_rows].
    intros Hl'. apply (Hone _) in Hl'; [by eapply opponent_of_ne|by destruct r].
  - apply no_line_first in E.
    destruct (Z.eqb_spec (empty_count (<[m:=role_int r]> (g_rows g))) 0) as [Hf|Hf];
      rewrite empty_count_full in Hf.
    + by apply drawn.
    + apply in_progress; simpl; try done; [by destruct r|].
      rewrite !(count_insert _ _ _ 0) by done.
      destruct r; [done| |]; simpl in *; repeat case_decide; done || lia.
Qed.

Lemma in_progress_inv g :
  situation g → g_is_over g = 0 →
  g_winner g = NULL_ROLE ∧ g_current_player g ≠ NULL_ROLE ∧
  no_line (g_rows g) ∧ ¬ board_full (g_rows g) ∧
  count 1 (g_rows g) - count 2 (g_rows g) =
    (if decide (g_current_player g = FIRST_PLAYER_ROLE) then 0 else 1).
Proof. intros []; intros; auto; congruence. Qed.

Lemma played_wf g : played g → wf_board (g_rows g).
Proof.
  induction 1 as [|g mv g' _ IH _ Ha|g r g' _ IH _ _ Hr].
  - split; [done|]. simpl. repeat constructor; lia.
  - apply game_apply_move_inv in Ha as [[? _]|(_ & _ & _ & _ & ->)]; [lia|].
    rewrite (proj1 (game_is_over_frame _)). by apply wf_board_insert.
  - unfold game_resign in Hr. case_decide; simplify_eq/=. done.
Qed.

Lemma played_situation g : played g → situation g.
Proof.
  induction 1 as [|g mv g' Hp IH Ho Ha|g r g' Hp IH Ho Hr Hres].
  - apply in_progress; try done.
    + intros r Hr (l & Hin & H1 & _). 
      repeat (apply elem_of_cons in Hin as [->|Hin]; [by destruct r|]). set_solver.
    + intros H. by apply (H 0%nat); [lia|].
  - destruct (in_progress_inv g IH Ho) as (Hw & Hc & Hno & Hf & Hcount).
    apply game_apply_move_inv in Ha as [[? _]|(_ & Hcur & _ & Hm & ->)]; [lia|].
    rewrite <-Hcur. apply situation_after_move; auto. by apply played_wf.
  - destruct (in_progress_inv g IH Ho) as (Hw & Hc & Hno & Hf & _).
    unfold game_resign in Hres. case_decide; simplify_eq/=.
    apply resigned; simpl; try done. by case_decide.
Qed.

(** Each successful move uses one empty cell. *)
Lemma moves_count g ms g' :
  wf_board (g_rows g) → (∀ mv, mv ∈ ms → mv_role mv ≠ NULL_ROLE) → moves g ms g' →
  wf_board (g_rows g') ∧ count 0 (g_rows g') = count 0 (g_rows g) - Z.of_nat (length ms).
Proof.
  intros Hwf Hms H. induction H as [g|g mv g1 ms g2 Ho Ha Hm IH]; [split; [done|simpl; lia]|].
  apply game_apply_move_inv in Ha as [[? _]|(_ & Hcur & _ & Hc & ->)]; [lia|].
  set (g1 := mkGAME _ _ _ _ _) in *.
  destruct (game_is_over_frame g1) as (Hrows & _). rewrite Hrows in IH.
  destruct IH as [Hwf' Hcount]; [by apply wf_board_insert| |split; [done|]].
  - intros mv' ?. apply Hms. by right.
  - rewrite Hcount. unfold g1. simpl g_rows. rewrite (count_insert _ _ _ 0) by done.
    rewrite decide_True by done. rewrite decide_False; [simpl length; lia|].
    rewrite role_int_0. apply Hms. by left.
Qed.

(** ** Lemmas on the texts *)

Lemma atoi_digit c s :
  48 ≤ c ≤ 57 → isdigit (nth 0 s 0) = false → atoi (c :: s) = c - 48.
Proof.
  intros Hc Hs. unfold atoi, skip_spaces, isspace.
  replace (c =? 32) with false by lia.
  replace (c <=? 13) with false by lia. rewrite andb_false_r. cbn [orb].
  replace (c =? 45) with false by lia. replace (c =? 43) with false by lia.
  cbn [atoi_digits]. unfold isdigit at 1.
  replace (48 <=? c) with true by lia. replace (c <=? 57) with true by lia.
  cbn [andb]. destruct s as [|c' s]; cbn [atoi_digits nth] in *; [lia|]. rewrite Hs. lia.
Qed.

Lemma atoi_nondigit c s :
  isdigit c = false → isdigit (nth 0 s 0) = false →
  isspace (nth 0 s 0) = false → nth 0 s 0 ≠ 45 → nth 0 s 0 ≠ 43 → atoi (c :: s) = 0.
Proof.
  intros Hc Hs Hsp H45 H43.
  assert (∀ acc, atoi_digits s acc = acc) as Hd.
  { intros acc. destruct s; cbn [atoi_digits nth] in *; [done|]. by rewrite Hs. }
  unfold atoi. cbn [skip_spaces]. destruct (isspace c).
  - destruct s as [|c' s]; [done|]. cbn [skip_spaces nth] in *. rewrite Hsp.
    replace (c' =? 45) with false by lia. replace (c' =? 43) with false by lia. apply Hd.
  - destruct (c =? 45); [by rewrite Hd|]. destruct (c =? 43); [by rewrite Hd|].
    cbn [atoi_digits]. by rewrite Hc.
Qed.

Lemma cell_char_inj v v' : 0 ≤ v ≤ 2 → 0 ≤ v' ≤ 2 → cell_char v = cell_char v' → v = v'.
Proof. intros. unfold cell_char in *. zcases. Qed.

Lemma row_text_inj b b' i :
  wf_board b → wf_board b' → row_text b i = row_text b' i →
  cell b i = cell b' i ∧ cell b (i + 1) = cell b' (i + 1) ∧ cell b (i + 2) = cell b' (i + 2).
Proof.
  intros Hb Hb' H. unfold row_text in H.
  injection H as H1 H2 H3.
  split_and!; (eapply cell_char_inj; [by apply cell_range..|done]).
Qed.

Lemma board_ext b b' :
  wf_board b → wf_board b' → (∀ i, (i < 9)%nat → cell b i = cell b' i) → b = b'.
Proof.
  intros [Hl _] [Hl' _] H. apply list_eq. intros i.
  destruct (decide (i < 9)%nat) as [Hi|Hi].
  - specialize (H i Hi). unfold cell in H.
    destruct (lookup_lt_is_Some_2 b i) as [x Hx]; [lia|].
    destruct (lookup_lt_is_Some_2 b' i) as [y Hy]; [lia|].
    rewrite Hx, Hy in *. simpl in H. congruence.
  - rewrite !lookup_ge_None_2 by lia. done.
Qed.

(** Reading the result again changes nothing, so the callers of
    [game_is_over] and [game_get_winner] see the verdict of the last move. *)
Lemma game_is_over_stable g : played g → game_is_over g = (g_is_over g, g).
Proof.
  intros Hp. pose proof (played_wf g Hp) as Hwf.
  unfold game_is_over. rewrite win_lines_code.
  destruct (played_situation g Hp) as [Ho Hw _ Hno Hf _|r Ho Hw Hr Hl Hl'|Ho Hw Hno Hf|Ho Hw Hc Hno Hf].
  - rewrite first_line_no by done. rewrite <-empty_count_full in Hf.
    by destruct (Z.eqb_spec (empty_count (g_rows g)) 0).
  - destruct (first_line (g_rows g) win_lines) as [v|] eqn:E.
    + apply first_line_Some in E as (l & Hin & Hd & ->).
      destruct (line_role _ l Hwf Hd) as (r0 & Hr0 & Hc0 & ->).
      pose proof (line_done_has _ l r0 Hin Hd Hc0) as Hl0.
      destruct (role_cases r r0) as [->| ->]; try done.
      destruct g; simpl in *; by subst.
    + apply no_line_first in E. by destruct (E r).
  - rewrite first_line_no by done. apply empty_count_full in Hf. rewrite Hf. simpl.
    destruct g; simpl in *; by subst.
  - rewrite first_line_no by done. rewrite <-empty_count_full in Hf.
    by destruct (Z.eqb_spec (empty_count (g_rows g)) 0).
Qed.

Lemma not_full_cell b : ¬ board_full b → ∃ i, (i < 9)%nat ∧ cell b i = 0.
Proof.
  intros H. rewrite <-empty_count_full in H. unfold empty_count in H.
  destruct (filter (λ i, cell b i = 0) (seq 0 9)) as [|i l] eqn:E; [done|].
  assert (i ∈ filter (λ i, cell b i = 0) (seq 0 9)) as Hin by (rewrite E; by left).
  apply list_elem_of_filter in Hin as [? Hi%elem_of_seq]. exists i. split; [lia|done].
Qed.

Lemma cell_lookup b i : wf_board b → (i < 9)%nat → b !! i = Some (cell b i).
Proof.
  intros [Hl _] Hi. unfold cell. destruct (lookup_lt_is_Some_2 b i) as [x ->]; [lia|done].
Qed.

(** A leading digit followed by something that cannot continue a number. *)
Lemma atoi_lead c s :
  isdigit (nth 0 s 0) = false → isspace (nth 0 s 0) = false →
  nth 0 s 0 ≠ 45 → nth 0 s 0 ≠ 43 →
  atoi (c :: s) = if isdigit c then c - 48 else 0.
Proof.
  intros. destruct (isdigit c) eqn:E.
  - apply atoi_digit; [unfold isdigit in E; lia|done].
  - by apply atoi_nondigit.
Qed.

(** The common tail of both branches of [game_parse_move]. *)
Lemma move_in_range c s role mv :
  isdigit (nth 0 s 0) = false → isspace (nth 0 s 0) = false →
  nth 0 s 0 ≠ 45 → nth 0 s 0 ≠ 43 →
  (let move := atoi (c :: s) - 1 in
   if (move <? 0) || (8 <? move) then None else Some (mkMOVE move role)) = Some mv ↔
  49 ≤ c ≤ 57 ∧ mv = mkMOVE (c - 49) role.
Proof.
  intros. simpl. rewrite atoi_lead by done. unfold isdigit.
  destruct (Z.leb_spec 48 c), (Z.leb_spec c 57); cbn [andb].
  2-4: split; [done|lia].
  destruct (Z.ltb_spec (c - 48 - 1) 0), (Z.ltb_spec 8 (c - 48 - 1)); cbn [orb];
    (split; [intros; simplify_eq; try (split; [lia|f_equal; lia])|]).
  all: intros [? ->]; try lia. do 2 f_equal; lia.
Qed.

Lemma game_parse_move_one g role c mv :
  game_parse_move g role [c] = Some mv ↔ 49 ≤ c ≤ 57 ∧ mv = mkMOVE (c - 49) role.
Proof. by apply (move_in_range c [] role mv). Qed.

Lemma game_parse_move_four g role c c1 c2 c3 mv :
  game_parse_move g role [c; c1; c2; c3] = Some mv ↔
  (49 ≤ c ≤ 57 ∧ mv = mkMOVE (c - 49) role) ∧ c1 = 60 ∧ c2 = 45 ∧
  (c3 = 88 → g_current_player g = FIRST_PLAYER_ROLE) ∧
  (c3 = 79 → g_current_player g = SECOND_PLAYER_ROLE).
Proof.
  unfold game_parse_move. cbn [nth]. change (strlen [c; c1; c2; c3]) with 4. cbn [Z.eqb Pos.eqb].
  destruct (Z.eqb_spec c1 60) as [->|]; cbn [negb orb]; [|split; [done|tauto]].
  destruct (Z.eqb_spec c2 45) as [->|]; cbn [negb orb]; [|split; [done|tauto]].
  destruct (Z.eqb_spec c3 88), (bool_decide_reflect (g_current_player g ≠ FIRST_PLAYER_ROLE));
    cbn [andb]; try (split; [done|naive_solver]);
  destruct (Z.eqb_spec c3 79), (bool_decide_reflect (g_current_player g ≠ SECOND_PLAYER_ROLE));
    cbn [andb]; try (split; [done|naive_solver]); try lia;
  rewrite (move_in_range c [60; 45; c3] role mv) by done.
  all: split; [intros Hc; split_and!; auto; intros; try lia|tauto].
  all: destruct (g_current_player g); naive_solver.
Qed.

(** ** Theorems *)

(** C16: whatever sequence of accepted moves and one resignation the server
    applies to a new game, the board stays a 3x3 board of 0, 1 and 2, and
    the recorded verdict is the one the rules of tic-tac-toe give: in
    progress with the piece counts matching the turn, won by the only player
    with a line, drawn on a full board without a line, or resigned; a game in
    progress can be resigned by either role, and then the other role is the
    winner, on the same board; and [game_is_over] reports the verdict without
    changing the game. *)
Theorem game_verdict_correct g :
  played g →
  wf_board (g_rows g) ∧ situation g ∧ game_is_over g = (g_is_over g, g) ∧
  (g_is_over g = 0 → ∀ r, ∃ g', game_resign g r = (0, g') ∧ g_is_over g' = 1 ∧
     g_winner g' = opponent_of r ∧ g_rows g' = g_rows g).
Proof.
  intros H. split_and!;
    [by apply played_wf|by apply played_situation|by apply game_is_over_stable|].
  intros Ho r. destruct (in_progress_inv g (played_situation g H) Ho) as (Hw & _).
  unfold game_resign. rewrite decide_False by naive_solver. eauto.
Qed.

Definition first_wins_game : GAME :=
  mkGAME [1; 1; 1; 2; 2; 0; 0; 0; 0] 1 1 SECOND_PLAYER_ROLE FIRST_PLAYER_ROLE.

Definition first_wins_moves : list GAME_MOVE :=
  [mkMOVE 0 FIRST_PLAYER_ROLE; mkMOVE 3 SECOND_PLAYER_ROLE; mkMOVE 1 FIRST_PLAYER_ROLE;
   mkMOVE 4 SECOND_PLAYER_ROLE; mkMOVE 2 FIRST_PLAYER_ROLE].

Lemma first_wins_moves_run : moves game_create first_wins_moves first_wins_game.
Proof. repeat (eapply moves_cons; [reflexivity|reflexivity|]). constructor. Defined.

Lemma moves_played g ms g' : played g → moves g ms g' → played g'.
Proof. intros Hp Hm. induction Hm; eauto using played. Defined.

Lemma game_verdict_correct_witness :
  played first_wins_game ∧
  (wf_board (g_rows first_wins_game) ∧ situation first_wins_game ∧
   game_is_over first_wins_game = (1, first_wins_game)) ∧
  ∃ g', game_resign game_create SECOND_PLAYER_ROLE = (0, g') ∧ g_winner g' = FIRST_PLAYER_ROLE.
Proof.
  assert (played first_wins_game) as Hp
    by exact (moves_played _ _ _ played_create first_wins_moves_run).
  destruct (game_verdict_correct first_wins_game Hp) as (H1 & H2 & H3 & _).
  split; [exact Hp|]. split; [split; [exact H1|split; [exact H2|exact H3]]|].
  destruct (game_verdict_correct game_create played_create) as (_ & _ & _ & H4).
  destruct (H4 eq_refl SECOND_PLAYER_ROLE) as (g' & E & _ & Ew & _). exists g'. split; [exact E|exact Ew].
Defined.

(** C32: a game takes at most nine moves, and as long as it is not over the
    player on turn has a legal move, which [game_apply_move] accepts; a move
    is refused, leaving the game as it was, exactly when it is not that
    player's turn or the cell is taken. *)
Theorem game_terminates_with_progress g ms :
  moves game_create ms g → (∀ mv, mv ∈ ms → mv_role mv ≠ NULL_ROLE) →
  (length ms ≤ 9)%nat ∧
  (g_is_over g = 0 →
   (∃ i g', (i < 9)%nat ∧
      game_apply_move g (mkMOVE (Z.of_nat i) (g_current_player g)) = Some (0, g')) ∧
   ∀ i r, (i < 9)%nat →
     game_apply_move g (mkMOVE (Z.of_nat i) r) = Some (-1, g) ↔
     r ≠ g_current_player g ∨ cell (g_rows g) i ≠ 0).
Proof.
  intros Hm Hr.
  assert (played g) as Hp by exact (moves_played _ _ _ played_create Hm).
  destruct (moves_count _ _ _ (played_wf _ played_create) Hr Hm) as [Hwf Hcount].
  pose proof (count_bounds 0 _ Hwf). pose proof (count_bounds 0 _ (played_wf _ played_create)).
  split; [lia|]. intros Ho.
  destruct (in_progress_inv g (played_situation g Hp) Ho) as (_ & _ & _ & Hf & _).
  split.
  - destruct (not_full_cell _ Hf) as (i & Hi & Hc). exists i. eexists. split; [done|].
    unfold game_apply_move, game_place. simpl. rewrite decide_False by auto.
    rewrite Nat2Z.id, (cell_lookup _ i Hwf Hi), Hc. zcases. reflexivity.
  - intros i r Hi. unfold game_apply_move, game_place. simpl. rewrite Nat2Z.id, (cell_lookup _ i Hwf Hi).
    case_decide as Hd; [split; auto|]. zcases; split; intros; simplify_eq; try tauto; auto.
Qed.

Lemma game_terminates_with_progress_witness :
  moves game_create [mkMOVE 4 FIRST_PLAYER_ROLE]
    (mkGAME [0; 0; 0; 0; 1; 0; 0; 0; 0] 1 0 SECOND_PLAYER_ROLE NULL_ROLE) ∧
  (1 ≤ 9)%nat.
Proof.
  assert (moves game_create [mkMOVE 4 FIRST_PLAYER_ROLE]
    (mkGAME [0; 0; 0; 0; 1; 0; 0; 0; 0] 1 0 SECOND_PLAYER_ROLE NULL_ROLE)) as Hm
    by (eapply moves_cons; [reflexivity..|constructor]).
  split; [exact Hm|].
  refine (proj1 (game_terminates_with_progress _ _ Hm _)).
  intros mv Hin. apply elem_of_cons in Hin as [->|Hin]; [discriminate|by apply not_elem_of_nil in Hin].
Defined.

(** C33: the strings [game_parse_move] accepts are exactly one digit 1-9, or
    such a digit followed by an arrow [<-] and one more character, which
    must be the player on turn when it is X or O; the text printed by
    [game_unparse_move] parses back to the same move.  Against the comment in
    [game.h], the role given need not be the one on the move; a move parsed
    for another role is refused by [game_apply_move], which leaves the game as
    it was, so that the caller, [client_make_move], refuses it all the same. *)
Theorem game_parse_move_correct g role str :
  (∀ mv, game_parse_move g role str = Some mv ↔
     ∃ d, 49 ≤ d ≤ 57 ∧ mv = mkMOVE (d - 49) role ∧
       (str = [d] ∨
        ∃ c, str = [d; 60; 45; c] ∧
          (c = 88 → g_current_player g = FIRST_PLAYER_ROLE) ∧
          (c = 79 → g_current_player g = SECOND_PLAYER_ROLE))) ∧
  (∀ m, 0 ≤ m ≤ 8 →
     game_parse_move g role (game_unparse_move (mkMOVE m role)) = Some (mkMOVE m role)) ∧
  (∀ mv, game_parse_move g role str = Some mv → role ≠ g_current_player g →
     game_apply_move g mv = Some (-1, g)).
Proof.
  assert (∀ mv, game_parse_move g role str = Some mv ↔
     ∃ d, 49 ≤ d ≤ 57 ∧ mv = mkMOVE (d - 49) role ∧
       (str = [d] ∨
        ∃ c, str = [d; 60; 45; c] ∧
          (c = 88 → g_current_player g = FIRST_PLAYER_ROLE) ∧
          (c = 79 → g_current_player g = SECOND_PLAYER_ROLE))) as Hparse; [|split; [exact Hparse|split]].
  - intros mv.
    destruct str as [|c [|c1 [|c2 [|c3 [|c4 s]]]]];
      [|rewrite game_parse_move_one; naive_solver| | |rewrite game_parse_move_four; naive_solver|].
    all: split; [|naive_solver].
    1-3: done.
    unfold game_parse_move. assert (4 < strlen (c :: c1 :: c2 :: c3 :: c4 :: s))
      by (unfold strlen; simpl length; lia).
    destruct (Z.eqb_spec (strlen (c :: c1 :: c2 :: c3 :: c4 :: s)) 1); [lia|].
    destruct (Z.eqb_spec (strlen (c :: c1 :: c2 :: c3 :: c4 :: s)) 4); [lia|done].
  - intros m Hm. unfold game_unparse_move, uint8. simpl mv_move.
    rewrite Z.mod_small by lia. cbn [cstr].
    replace (m + 1 + 48 =? 0) with false by lia. cbn [cstr Z.eqb].
    apply game_parse_move_one. split; [lia|f_equal; lia].
  - intros mv (d & _ & -> & _)%Hparse Hr. unfold game_apply_move, game_place. cbn [mv_role].
    by rewrite decide_True by done.
Qed.

Example parse_arrow :
  game_parse_move game_create FIRST_PLAYER_ROLE (text "5<-X") = Some (mkMOVE 4 FIRST_PLAYER_ROLE).
Proof. reflexivity. Qed.

(** C34: the state text always has 40 characters, so it fits the 50 bytes
    allocated for it with its NUL, and it determines the board and whose
    turn the text announces. *)
Theorem game_unparse_state_faithful g g' :
  (length (game_unparse_state g) + 1 ≤ 50)%nat ∧
  (wf_board (g_rows g) → wf_board (g_rows g') →
   game_unparse_state g = game_unparse_state g' →
   g_rows g = g_rows g' ∧
   (g_current_player g = FIRST_PLAYER_ROLE ↔ g_current_player g' = FIRST_PLAYER_ROLE)).
Proof.
  split; [destruct g; cbv; lia|]. intros Hb Hb' H.
  unfold game_unparse_state in H.
  apply (app_inj_1 _ (row_text (g_rows g') 0)) in H as [H0 H]; [|done].
  apply (app_inj_1 _ floor_text) in H as [_ H]; [|done].
  apply (app_inj_1 _ (row_text (g_rows g') 3)) in H as [H3 H]; [|done].
  apply (app_inj_1 _ floor_text) in H as [_ H]; [|done].
  apply (app_inj_1 _ (row_text (g_rows g') 6)) in H as [H6 H]; [|done].
  apply row_text_inj in H0, H3, H6; [|done..]. split.
  - apply board_ext; [done..|]. intros i Hi.
    do 9 (destruct i as [|i]; [tauto|]). lia.
  - injection H as H. repeat case_decide; naive_solver.
Qed.

Lemma game_unparse_state_faithful_witness :
  wf_board (g_rows game_create) ∧ g_rows game_create = replicate 9 0.
Proof.
  assert (wf_board (g_rows game_create)) as H
    by (split; [reflexivity|]; simpl; repeat constructor; lia).
  split; [exact H|].
  exact (proj1 (proj2 (game_unparse_state_faithful game_create game_create) H H eq_refl)).
Defined.

(** The engine itself does not stop a finished game: after a win it still
    accepts the moves of the player on turn, and a drawn game can still be
    resigned.  The server never does either: it drops the invitation. *)
Lemma move_accepted_after_win :
  played first_wins_game ∧ g_is_over first_wins_game = 1 ∧
  ∃ g', game_apply_move first_wins_game (mkMOVE 5 SECOND_PLAYER_ROLE) = Some (0, g') ∧
        g_winner g' = FIRST_PLAYER_ROLE.
Proof.
  split_and!; [exact (moves_played _ _ _ played_create first_wins_moves_run)|done|].
  eexists. split; reflexivity.
Qed.

Lemma resign_accepted_after_draw :
  (game_resign (mkGAME [1; 2; 1; 1; 2; 2; 2; 1; 1] 1 1 SECOND_PLAYER_ROLE NULL_ROLE)
     FIRST_PLAYER_ROLE).1 = 0.
Proof. reflexivity. Qed.
