(* ===== verification/Player.v ===== *)
(** * Players and their ratings: [src/player.c], [include/player.h]

    The fields of a [PLAYER] and the pure part of each operation.  The
    rating formula is computed in C doubles: the binary64 operations are
    those of [SpecFloat] (round to nearest even), [pow] of the mathematical
    library is a parameter, and conversions between [int] and [double]
    follow C, out of range being undefined behaviour ([None]). *)
From S2P Require Import Prelude.
From Stdlib Require Import SpecFloat.

(** ** Doubles *)

Definition double := spec_float.

Definition d_add : double → double → double := SFadd 53 1024.
Definition d_sub : double → double → double := SFsub 53 1024.
Definition d_mul : double → double → double := SFmul 53 1024.
Definition d_div : double → double → double := SFdiv 53 1024.

(** Conversion of an [int], and a literal [m * 2^e]. *)
Definition d_lit (m e : Z) : double := binary_normalize 53 1024 m e false.
Definition d_of_int (z : Z) : double := d_lit z 0.

(** [(int) d]: truncation towards zero. *)
Definition d_trunc (m : positive) (e : Z) : Z :=
  if 0 <=? e then Z.pos m * 2 ^ e else Z.pos m / 2 ^ (- e).

Definition int_of_double (d : double) : option Z :=
  match d with
  | S754_zero _ => Some 0
  | S754_finite s m e => int_op (if s then - d_trunc m e else d_trunc m e)
  | _ => None
  end.

(** [pow] of the C library, and what the C standard (Annex F) says of it on
    the calls of [player_post_result]: the zeroth power is one, and a power
    of ten is never negative or a NaN. *)
Class Libm := pow : double → double → double.

Definition d_nonneg (d : double) : Prop :=
  match d with
  | S754_zero _ => True
  | S754_infinity s | S754_finite s _ _ => s = false
  | S754_nan => False
  end.

Class LibmLaws `{Libm} : Prop := {
  pow_zero s : pow (d_of_int 10) (S754_zero s) = d_of_int 1;
  pow_ten_nonneg y : y ≠ S754_nan → d_nonneg (pow (d_of_int 10) y);
  pow_ten_valid y : valid_binary 53 1024 (pow (d_of_int 10) y) = true
}.

(** ** Data *)

Definition PLAYER_INITIAL_RATING : Z := 1500.

Record PLAYER : Set := mkPLAYER {
  p_name : list byte;
  p_ref_count : Z;
  p_rating : Z
}.

(** ** Operations *)

(** The player with [d] more references. *)
Definition player_add (d : Z) (p : PLAYER) : PLAYER :=
  mkPLAYER (p_name p) (p_ref_count p + d) (p_rating p).

(** The count is an [int], whose overflow is undefined behaviour. *)
Definition player_ref (p : PLAYER) : option PLAYER :=
  n ← int_op (p_ref_count p + 1); Some (mkPLAYER (p_name p) n (p_rating p)).

Definition player_drop (p : PLAYER) : option PLAYER :=
  n ← int_op (p_ref_count p - 1); Some (mkPLAYER (p_name p) n (p_rating p)).

(** [Some None]: the count reached zero and the player was freed. *)
Definition player_unref (p : PLAYER) : option (option PLAYER) :=
  p' ← player_drop p; Some (if p_ref_count p' =? 0 then None else Some p').

(** [strdup] copies the string, so the name is a value of its own. *)
Definition player_create (name : list byte) : PLAYER :=
  let p := mkPLAYER name 0 PLAYER_INITIAL_RATING in
  default p (player_ref p).

Definition player_get_name (p : PLAYER) : list byte := p_name p.
Definition player_get_rating (p : PLAYER) : Z := p_rating p.

(** The scores [S1], [S2] of the [switch] on the result. *)
Definition score1 (result : Z) : double :=
  if result =? 0 then d_lit 1 (-1) else if result =? 1 then d_of_int 1 else S754_zero false.

(** The two ratings after a game: the arithmetic between the two locks of
    [player_post_result].  Sums and differences of ratings are [int]s. *)
Definition elo_update `{Libm} (r1 r2 result : Z) : option (Z * Z) :=
  R3 ← int_op (r1 + r2);
  diff ← int_op (r2 - r1);
  let E1 := d_div (d_of_int 1)
              (d_add (d_of_int 1)
                 (pow (d_of_int 10) (d_div (d_of_int diff) (d_of_int 400)))) in
  let RP1 := d_add (d_of_int r1) (d_mul (d_of_int 32) (d_sub (score1 result) E1)) in
  n1 ← int_of_double RP1;
  n2 ← int_of_double (d_sub (d_of_int R3) RP1);
  Some (n1, n2).

Definition player_set_rating (p : PLAYER) (r : Z) : PLAYER :=
  mkPLAYER (p_name p) (p_ref_count p) r.
