(* ===== verification/Elo.v ===== *)
(** * The rating formula in binary64

    What rounding can do to [player_post_result]: the interval arithmetic,
    with integer bounds, of the operations of [SpecFloat] that the formula
    uses, and from it the bounds on the new ratings.  The only hypothesis on
    [pow] is that a power of ten is not negative (and that the zeroth power
    is one). *)
From S2P Require Import Prelude Player.
From Stdlib Require Import SpecFloat.

(** ** Values and bounds *)

(** [2^k], and 1 for a negative [k]. *)
Definition two (k : Z) : Z := 2 ^ Z.max k 0.

(** The real number [m * 2^e], [e] not positive, is between the integers [a]
    and [b]. *)
Definition between (a b m e : Z) : Prop := a * 2 ^ (- e) ≤ m ≤ b * 2 ^ (- e).

(** A double with a finite value between [a] and [b]. *)
Definition in_range (a b : Z) (d : double) : Prop :=
  match d with
  | S754_zero _ => a ≤ 0 ≤ b
  | S754_finite s m e => e ≤ 0 ∧ between a b (if s then Z.neg m else Z.pos m) e
  | _ => False
  end.

(** A double that is at least one, possibly infinite. *)
Definition at_least_one (d : double) : Prop :=
  match d with
  | S754_infinity s => s = false
  | S754_finite s m e => s = false ∧ two (- e) ≤ Z.pos m
  | _ => False
  end.

(** The mantissa of a shift record, and the part shifted out, are at most [T]. *)
Definition at_most (r : shr_record) (T : Z) : Prop :=
  shr_m r < T ∨ (shr_m r = T ∧ shr_r r = false ∧ shr_s r = false).

(** ** Shifting and rounding *)

Lemma pow2_pos n : 0 < 2 ^ n ∨ n < 0.
Proof. destruct (Z.le_gt_cases 0 n); [left|by right]. by apply Z.pow_pos_nonneg. Qed.

Lemma digits_bounds (m : positive) :
  2 ^ (Z.pos (digits2_pos m) - 1) ≤ Z.pos m < 2 ^ Z.pos (digits2_pos m).
Proof.
  induction m as [m IH|m IH|]; simpl digits2_pos; [| |done].
  all: rewrite Pos2Z.inj_succ, Z.pow_succ_r by done;
    replace (Z.succ (Z.pos (digits2_pos m)) - 1) with (Z.succ (Z.pos (digits2_pos m) - 1)) by lia;
    rewrite Z.pow_succ_r by lia; lia.
Qed.

Lemma Zdigits2_bounds m : 0 < m → 0 < Zdigits2 m ∧ 2 ^ (Zdigits2 m - 1) ≤ m < 2 ^ Zdigits2 m.
Proof. destruct m as [|m|m]; try lia. intros _. split; [done|apply digits_bounds]. Qed.

Lemma shr_1_spec r : 0 ≤ shr_m r →
  shr_m (shr_1 r) = shr_m r / 2 ∧ (∀ T, at_most r (2 * T) → at_most (shr_1 r) T).
Proof.
  destruct r as [m r s]. unfold at_most. cbn [shr_m shr_r shr_s]. intros Hm.
  destruct m as [|[p|p|]|p]; cbn; try lia.
  - split; [done|]. intros T [?|(? & -> & ->)]; [left; lia|right; split; [lia|done]].
  - split; [apply Z.div_unique with 1; lia|]. intros T [?|(? & _)]; left; lia.
  - split; [apply Z.div_unique with 0; lia|].
    intros T [?|(? & -> & ->)]; [left; lia|right; split; [lia|done]].
  - split; [done|]. intros T [?|(? & _)]; left; lia.
Qed.

Lemma shr_iter_spec p r : 0 ≤ shr_m r →
  shr_m (iter_pos shr_1 p r) = shr_m r / 2 ^ Z.pos p ∧
  (∀ T, at_most r (T * 2 ^ Z.pos p) → at_most (iter_pos shr_1 p r) T).
Proof.
  revert r. induction p as [p IH|p IH|]; intros r Hr; simpl iter_pos.
  - destruct (shr_1_spec r Hr) as [E1 H1].
    assert (0 ≤ shr_m (shr_1 r)) as Hr1 by (rewrite E1; apply Z.div_pos; lia).
    destruct (IH _ Hr1) as [E2 H2].
    assert (0 ≤ shr_m (iter_pos shr_1 p (shr_1 r))) as Hr2
      by (rewrite E2; apply Z.div_pos; [done|by apply Z.pow_pos_nonneg]).
    destruct (IH _ Hr2) as [E3 H3].
    replace (Z.pos p~1) with (Z.pos p + Z.pos p + 1) by lia.
    rewrite !Z.pow_add_r by lia.
    assert (0 < 2 ^ Z.pos p) by (by apply Z.pow_pos_nonneg). split.
    + rewrite E3, E2, E1, !Z.div_div by lia. f_equal. change (2 ^ 1) with 2. ring.
    + intros T HT. apply H3, H2, H1.
      by replace (2 * _) with (T * (2 ^ Z.pos p * 2 ^ Z.pos p * 2 ^ 1)) by (change (2 ^ 1) with 2; ring).
  - destruct (IH _ Hr) as [E2 H2].
    assert (0 < 2 ^ Z.pos p) by (by apply Z.pow_pos_nonneg).
    assert (0 ≤ shr_m (iter_pos shr_1 p r)) as Hr2 by (rewrite E2; apply Z.div_pos; lia).
    destruct (IH _ Hr2) as [E3 H3].
    replace (Z.pos p~0) with (Z.pos p + Z.pos p) by lia.
    rewrite Z.pow_add_r by lia. split.
    + rewrite E3, E2, Z.div_div by lia. done.
    + intros T HT. apply H3, H2. by replace (T * _ * _) with (T * (2 ^ Z.pos p * 2 ^ Z.pos p)) by ring.
  - destruct (shr_1_spec r Hr) as [E1 H1]. rewrite Z.pow_1_r. split; [done|].
    intros T HT. apply H1. by rewrite Z.mul_comm.
Qed.

(** ** One rounding step keeps integer bounds *)

Definition record_ok (a b e : Z) (r : shr_record) : Prop :=
  0 ≤ shr_m r ∧ a * 2 ^ (- e) ≤ shr_m r ∧ at_most r (b * 2 ^ (- e)).

Abbreviation rnd_exp := (fexp 53 1024) (only parsing).

Lemma record_of_loc_m m l : shr_m (shr_record_of_loc m l) = m.
Proof. by destruct l as [|[]]. Qed.

(** The exponent of a number below [2^53] is not positive. *)
Lemma exponent_le m e b :
  0 ≤ m → e ≤ 0 → b < 2 ^ 53 → m ≤ b * 2 ^ (- e) → rnd_exp (Zdigits2 m + e) ≤ 0.
Proof.
  intros Hm He Hb Hle. unfold fexp, emin. apply Z.max_lub; [|lia].
  destruct (Z.eq_dec m 0) as [->|Hne]; [simpl; lia|].
  destruct (Zdigits2_bounds m) as (Hd & Hlo & Hhi); [lia|].
  assert (Zdigits2 m + e ≤ 53); [|lia].
  apply Z.nlt_ge. intros Hlt.
  assert (2 ^ 53 * 2 ^ (- e) ≤ 2 ^ (Zdigits2 m - 1)) as Hp.
  { rewrite <-Z.pow_add_r by lia. apply Z.pow_le_mono_r; lia. }
  assert (0 < 2 ^ (- e)) by (apply Z.pow_pos_nonneg; lia). nia.
Qed.

Lemma shr_fexp_range a b m e l :
  0 ≤ a → b < 2 ^ 53 → e ≤ 0 → record_ok a b e (shr_record_of_loc m l) →
  let '(r, e') := shr_fexp 53 1024 m e l in e' ≤ 0 ∧ record_ok a b e' r.
Proof.
  intros Ha Hb He (Hm & Hlo & Hhi). unfold shr_fexp.
  assert (m ≤ b * 2 ^ (- e)) as Hle.
  { rewrite <-(record_of_loc_m m l). destruct Hhi as [?|[? _]]; lia. }
  rewrite record_of_loc_m in *.
  pose proof (exponent_le m e b Hm He Hb Hle) as Hf.
  destruct (rnd_exp (Zdigits2 m + e) - e) as [|p|p] eqn:Hn; cbn [shr];
    [by split; [|split_and!; rewrite ?record_of_loc_m]| |by split; [|split_and!; rewrite ?record_of_loc_m]].
  destruct (shr_iter_spec p (shr_record_of_loc m l)) as [E HT]; [by rewrite record_of_loc_m|].
  rewrite record_of_loc_m in E. split; [lia|].
  assert (0 < 2 ^ Z.pos p) by (by apply Z.pow_pos_nonneg).
  assert (2 ^ (- e) = 2 ^ (- (e + Z.pos p)) * 2 ^ Z.pos p) as Hpow.
  { rewrite <-Z.pow_add_r by lia. f_equal. lia. }
  split; [|split].
  - rewrite E. apply Z.div_pos; lia.
  - rewrite E. apply Z.div_le_lower_bound; [lia|]. rewrite Hpow in Hlo. lia.
  - apply HT. by rewrite <-Z.mul_assoc, <-Hpow.
Qed.

Lemma round_at_most r T : at_most r T → 
  shr_m r ≤ round_nearest_even (shr_m r) (loc_of_shr_record r) ≤ T.
Proof.
  destruct r as [m r s]. unfold at_most. cbn [shr_m shr_r shr_s].
  intros [?|(-> & -> & ->)]; [|simpl; lia].
  destruct r, s; simpl; try lia. destruct (Z.even m); lia.
Qed.

(** The magnitude of a rounded result. *)
Lemma round_range a b (sx : bool) m e l :
  0 ≤ a → b < 2 ^ 53 → e ≤ 0 → record_ok a b e (shr_record_of_loc m l) →
  in_range (if sx then - b else a) (if sx then - a else b) (binary_round_aux 53 1024 sx m e l).
Proof.
  intros Ha Hb He Hr. unfold binary_round_aux.
  pose proof (shr_fexp_range a b m e l Ha Hb He Hr) as H1.
  destruct (shr_fexp 53 1024 m e l) as [r1 e1]. destruct H1 as (He1 & Hm1 & Hlo1 & Hhi1).
  pose proof (round_at_most _ _ Hhi1) as Hround.
  set (m1 := round_nearest_even _ _) in *.
  assert (record_ok a b e1 (shr_record_of_loc m1 loc_Exact)) as Hr2.
  { split; [cbn; lia|]. split; [cbn; lia|]. unfold at_most. cbn.
    destruct (Z.eq_dec m1 (b * 2 ^ (- e1))); [right; done|left; lia]. }
  pose proof (shr_fexp_range a b m1 e1 loc_Exact Ha Hb He1 Hr2) as H2.
  destruct (shr_fexp 53 1024 m1 e1 loc_Exact) as [r2 e2]. destruct H2 as (He2 & Hm2 & Hlo2 & Hhi2).
  assert (shr_m r2 ≤ b * 2 ^ (- e2)) as Hle by (destruct Hhi2 as [?|[? _]]; lia).
  assert (0 < 2 ^ (- e2)) by (apply Z.pow_pos_nonneg; lia).
  destruct (shr_m r2) as [|m2|m2]; [| |lia].
  - cbn. destruct sx; nia.
  - destruct (Z.leb_spec e2 (1024 - 53)); [|lia]. cbn. split; [done|]. unfold between.
    destruct sx; nia.
Qed.

Lemma two_pos k : 1 ≤ two k.
Proof. unfold two. assert (0 < 2 ^ Z.max k 0) by (apply Z.pow_pos_nonneg; lia). lia. Qed.

(** A step keeps a number of at least one there. *)
Lemma shr_fexp_one m e l :
  two (- e) ≤ m → let '(r, e') := shr_fexp 53 1024 m e l in two (- e') ≤ shr_m r.
Proof.
  intros Hm. pose proof (two_pos (- e)). unfold shr_fexp.
  destruct (rnd_exp (Zdigits2 m + e) - e) as [|p|p] eqn:Hn; cbn [shr];
    [by rewrite record_of_loc_m| |by rewrite record_of_loc_m].
  destruct (shr_iter_spec p (shr_record_of_loc m l)) as [E _]; [rewrite record_of_loc_m; lia|].
  rewrite record_of_loc_m in E. rewrite E.
  destruct (Zdigits2_bounds m) as (Hd & Hlo & Hhi); [lia|].
  apply Z.div_le_lower_bound; [by apply Z.pow_pos_nonneg|].
  unfold two in *. unfold fexp, emin in Hn.
  destruct (Z.le_gt_cases (e + Z.pos p) 0) as [He|He].
  - rewrite Z.max_l by lia. rewrite Z.max_l in Hm by lia. rewrite <-Z.pow_add_r by lia.
    replace (Z.pos p + - (e + Z.pos p)) with (- e) by lia. done.
  - rewrite Z.max_r by lia. rewrite Z.mul_1_r.
    assert (Z.pos p = Zdigits2 m - 53) as Hp by lia.
    trans (2 ^ (Zdigits2 m - 1)); [apply Z.pow_le_mono_r; lia|done].
Qed.

Lemma round_at_least_one m e l :
  two (- e) ≤ m → at_least_one (binary_round_aux 53 1024 false m e l).
Proof.
  intros Hm. unfold binary_round_aux.
  pose proof (shr_fexp_one m e l Hm) as H1.
  destruct (shr_fexp 53 1024 m e l) as [r1 e1].
  assert (shr_m r1 ≤ round_nearest_even (shr_m r1) (loc_of_shr_record r1)) as Hr.
  { destruct r1 as [m1 [|] [|]]; cbn; try lia. destruct (Z.even m1); lia. }
  set (m1 := round_nearest_even _ _) in *.
  pose proof (shr_fexp_one m1 e1 loc_Exact ltac:(lia)) as H2.
  destruct (shr_fexp 53 1024 m1 e1 loc_Exact) as [r2 e2].
  pose proof (two_pos (- e2)). destruct (shr_m r2) as [|m2|m2]; [lia| |lia].
  destruct (Z.leb_spec e2 (1024 - 53)); [|done]. split; [done|lia].
Qed.

(** ** Sums *)

Lemma shl_align_spec mx ex ex' :
  Z.pos (shl_align mx ex ex').1 = Z.pos mx * 2 ^ Z.max (ex - ex') 0 ∧
  (shl_align mx ex ex').2 = Z.min ex ex'.
Proof.
  unfold shl_align. destruct (ex' - ex) as [|d|d] eqn:Hd; cbn [fst snd].
  - rewrite Z.max_r, Z.mul_1_r by lia. split; [done|lia].
  - rewrite Z.max_r, Z.mul_1_r by lia. split; [done|lia].
  - rewrite Z.max_l by lia. replace (ex - ex') with (Z.pos d) by lia. split; [|lia].
    clear Hd. induction d as [|d IH] using Pos.peano_ind; [simpl; lia|].
    rewrite Pos.iter_succ, Pos2Z.inj_succ, Z.pow_succ_r by done. lia.
Qed.

Lemma in_range_weaken a b a' b' d : in_range a b d → a' ≤ a → b ≤ b' → in_range a' b' d.
Proof.
  intros Hd Ha Hb. destruct d as [| | |s m e]; cbn in *; try done; [lia|].
  destruct Hd as [He [Hlo Hhi]]. split; [done|].
  assert (0 < 2 ^ (- e)) by (apply Z.pow_pos_nonneg; lia). unfold between. nia.
Qed.

Lemma exact_record a b m e :
  0 ≤ m → a * 2 ^ (- e) ≤ m → m ≤ b * 2 ^ (- e) → record_ok a b e (shr_record_of_loc m loc_Exact).
Proof.
  intros Hm Ha Hb. split; [done|]. split; [done|]. unfold at_most. cbn.
  destruct (Z.eq_dec m (b * 2 ^ (- e))); [right; done|left; lia].
Qed.

(** Normalising an exact value. *)
Lemma normalize_range a b m e szero :
  - 2 ^ 53 < a → b < 2 ^ 53 → e ≤ 0 → between a b m e →
  in_range a b (binary_normalize 53 1024 m e szero).
Proof.
  intros Ha Hb He [Hlo Hhi]. assert (0 < 2 ^ (- e)) by (apply Z.pow_pos_nonneg; lia).
  assert (∀ p : positive, ∃ m' e', shl_align p e (rnd_exp (Z.pos (digits2_pos p) + e)) = (m', e') ∧
    e' ≤ e ∧ Z.pos m' = Z.pos p * 2 ^ (e - e')) as Halign.
  { intros p. destruct (shl_align_spec p e (rnd_exp (Z.pos (digits2_pos p) + e))) as [H1 H2].
    destruct (shl_align _ _ _) as [m' e']. exists m', e'. cbn in *. split; [done|]. split; [lia|].
    rewrite H1. do 2 f_equal. lia. }
  assert (∀ x p m' e', e' ≤ e → Z.pos m' = Z.pos p * 2 ^ (e - e') →
    (x * 2 ^ (- e) ≤ Z.pos p → x * 2 ^ (- e') ≤ Z.pos m') ∧
    (Z.pos p ≤ x * 2 ^ (- e) → Z.pos m' ≤ x * 2 ^ (- e'))) as Hscale.
  { intros x p m' e' He' ->. assert (0 < 2 ^ (e - e')) by (apply Z.pow_pos_nonneg; lia).
    replace (- e') with (- e + (e - e')) by lia. rewrite Z.pow_add_r by lia. nia. }
  destruct m as [|p|p]; cbn [binary_normalize].
  - cbn. nia.
  - unfold binary_round. destruct (Halign p) as (m' & e' & -> & He' & Hm').
    destruct (Hscale (Z.max a 0) p m' e' He' Hm') as [H1 _]. destruct (Hscale b p m' e' He' Hm') as [_ H2].
    apply (in_range_weaken (Z.max a 0) b); [|lia..].
    apply (round_range (Z.max a 0) b false); [lia|done|lia|]. apply exact_record; [lia|apply H1; nia|auto].
  - unfold binary_round. destruct (Halign p) as (m' & e' & -> & He' & Hm').
    destruct (Hscale (Z.max (- b) 0) p m' e' He' Hm') as [H1 _].
    destruct (Hscale (- a) p m' e' He' Hm') as [_ H2].
    apply (in_range_weaken (- (- a)) (- Z.max (- b) 0)); [|lia..].
    apply (round_range (Z.max (- b) 0) (- a) true); [lia|lia|lia|].
    apply exact_record; [lia|apply H1; nia|apply H2; lia].
Qed.

(** The exact sum, over the smaller exponent. *)
Lemma add_exact a b c d m1 e1 m2 e2 :
  e1 ≤ 0 → e2 ≤ 0 → between a b m1 e1 → between c d m2 e2 →
  between (a + c) (b + d)
    (m1 * 2 ^ Z.max (e1 - Z.min e1 e2) 0 + m2 * 2 ^ Z.max (e2 - Z.min e1 e2) 0) (Z.min e1 e2).
Proof.
  intros He1 He2 [Ha Hb] [Hc Hd]. unfold between.
  set (e := Z.min e1 e2). rewrite (Z.max_l (e1 - e)), (Z.max_l (e2 - e)) by lia.
  assert (0 < 2 ^ (e1 - e)) by (apply Z.pow_pos_nonneg; lia).
  assert (0 < 2 ^ (e2 - e)) by (apply Z.pow_pos_nonneg; lia).
  assert (2 ^ (- e) = 2 ^ (- e1) * 2 ^ (e1 - e)) as E1 by (rewrite <-Z.pow_add_r by lia; f_equal; lia).
  assert (2 ^ (- e) = 2 ^ (- e2) * 2 ^ (e2 - e)) as E2 by (rewrite <-Z.pow_add_r by lia; f_equal; lia).
  rewrite !Z.mul_add_distr_r. split; apply Z.add_le_mono.
  - rewrite E1. nia.
  - rewrite E2. nia.
  - rewrite E1. nia.
  - rewrite E2. nia.
Qed.

Lemma add_range a b c d x y :
  in_range a b x → in_range c d y → - 2 ^ 53 < a + c → b + d < 2 ^ 53 →
  in_range (a + c) (b + d) (d_add x y).
Proof.
  intros Hx Hy Hl Hh. destruct x as [sx| | |sx mx ex], y as [sy| | |sy my ey]; try done.
  - cbn in *. destruct sx, sy; cbn; lia.
  - cbn in Hx. eapply in_range_weaken; [exact Hy|lia|lia].
  - cbn in Hy. eapply in_range_weaken; [exact Hx|lia|lia].
  - destruct Hx as [Hex Hx], Hy as [Hey Hy]. unfold d_add, SFadd.
    destruct (shl_align_spec mx ex (Z.min ex ey)) as [-> _].
    destruct (shl_align_spec my ey (Z.min ex ey)) as [-> _].
    apply normalize_range; [done|done|lia|].
    pose proof (add_exact a b c d _ _ _ _ Hex Hey Hx Hy) as Hsum.
    assert (∀ s p k, cond_Zopp s (Z.pos p * k) = (if s then Z.neg p else Z.pos p) * k) as Hopp
      by (intros [|] p k; cbn [cond_Zopp]; [rewrite <-Pos2Z.opp_pos; ring|done]).
    by rewrite !Hopp.
Qed.

Lemma sub_range a b c d x y :
  in_range a b x → in_range c d y → - 2 ^ 53 < a - d → b - c < 2 ^ 53 →
  in_range (a - d) (b - c) (d_sub x y).
Proof.
  intros Hx Hy Hl Hh.
  assert (in_range (- d) (- c) (SFopp y)) as Hy'.
  { destruct y as [| | |sy my ey]; cbn in *; try done; [lia|]. destruct Hy as [He [H1 H2]].
    split; [done|]. unfold between. destruct sy; cbn; lia. }
  pose proof (add_range a b (- d) (- c) x (SFopp y) Hx Hy' ltac:(lia) ltac:(lia)) as H.
  enough (d_sub x y = d_add x (SFopp y)) as -> by done.
  destruct x as [sx| | |sx mx ex], y as [sy| | |sy my ey]; try done.
  - by destruct sx, sy.
  - unfold d_sub, d_add, SFsub, SFadd, SFopp. by destruct sx, sy.
Qed.

(** ** Products *)

Lemma mul_range a b x y :
  in_range (- a) a x → in_range (- b) b y → 0 ≤ a → 0 ≤ b → a * b < 2 ^ 53 →
  in_range (- (a * b)) (a * b) (d_mul x y).
Proof.
  intros Hx Hy Ha Hb Hab. destruct x as [sx| | |sx mx ex], y as [sy| | |sy my ey]; try done;
    try (cbn; nia).
  destruct Hx as [Hex [Hx1 Hx2]], Hy as [Hey [Hy1 Hy2]]. unfold d_mul, SFmul.
  assert (Z.pos mx ≤ a * 2 ^ (- ex)) as Hmx by (destruct sx; lia).
  assert (Z.pos my ≤ b * 2 ^ (- ey)) as Hmy by (destruct sy; lia).
  assert (in_range (if xorb sx sy then - (a * b) else 0) (if xorb sx sy then - 0 else a * b)
    (binary_round_aux 53 1024 (xorb sx sy) (Z.pos (mx * my)) (ex + ey) loc_Exact)) as Hr.
  { apply round_range; [done|done|lia|]. apply exact_record; [lia|lia|].
    rewrite Pos2Z.inj_mul. replace (- (ex + ey)) with (- ex + - ey) by lia.
    rewrite Z.pow_add_r by lia. nia. }
  eapply in_range_weaken; [exact Hr|destruct (xorb sx sy); nia..].
Qed.

(** A product with a number that is not negative. *)
Lemma mul_range_nonneg a b x y :
  in_range 0 a x → in_range 0 b y → a * b < 2 ^ 53 → in_range 0 (a * b) (d_mul x y).
Proof.
  intros Hx Hy Hab. destruct x as [sx| | |sx mx ex], y as [sy| | |sy my ey]; try done.
  - cbn in *. nia.
  - cbn in *. destruct Hy as [He [H1 H2]]. assert (0 < 2 ^ (- ey)) by (apply Z.pow_pos_nonneg; lia). destruct sy; nia.
  - cbn in *. destruct Hx as [He [H1 H2]]. assert (0 < 2 ^ (- ex)) by (apply Z.pow_pos_nonneg; lia). destruct sx; nia.
  - destruct Hx as [Hex [Hx1 Hx2]], Hy as [Hey [Hy1 Hy2]].
    destruct sx; [lia|]. destruct sy; [lia|]. unfold d_mul, SFmul. cbn [xorb].
    apply (round_range 0 (a * b) false); [done|done|lia|]. apply exact_record; [lia|lia|].
    rewrite Pos2Z.inj_mul. replace (- (ex + ey)) with (- ex + - ey) by lia.
    rewrite Z.pow_add_r by lia. nia.
Qed.

(** A product with a number that is not positive. *)
Lemma mul_range_nonpos a b x y :
  in_range 0 a x → in_range (- b) 0 y → a * b < 2 ^ 53 → in_range (- (a * b)) 0 (d_mul x y).
Proof.
  intros Hx Hy Hab. destruct x as [sx| | |sx mx ex], y as [sy| | |sy my ey]; try done.
  - cbn in *. nia.
  - cbn in *. destruct Hy as [He [H1 H2]]. assert (0 < 2 ^ (- ey)) by (apply Z.pow_pos_nonneg; lia). destruct sy; nia.
  - cbn in *. destruct Hx as [He [H1 H2]]. assert (0 < 2 ^ (- ex)) by (apply Z.pow_pos_nonneg; lia). destruct sx; nia.
  - destruct Hx as [Hex [Hx1 Hx2]], Hy as [Hey [Hy1 Hy2]].
    destruct sx; [lia|]. destruct sy; [|lia]. unfold d_mul, SFmul. cbn [xorb].
    apply (round_range 0 (a * b) true); [done|done|lia|]. apply exact_record; [lia|lia|].
    rewrite Pos2Z.inj_mul. replace (- (ex + ey)) with (- ex + - ey) by lia.
    rewrite Z.pow_add_r by lia. nia.
Qed.

(** ** The expected score *)

Definition one : double := S754_finite false 4503599627370496 (-52).

Lemma d_one : d_of_int 1 = one.
Proof. reflexivity. Qed.

Lemma normalize_one m e szero :
  two (- e) ≤ m → at_least_one (binary_normalize 53 1024 m e szero).
Proof.
  intros Hm. pose proof (two_pos (- e)). destruct m as [|p|p]; try lia.
  cbn [binary_normalize]. unfold binary_round.
  destruct (shl_align_spec p e (rnd_exp (Z.pos (digits2_pos p) + e))) as [H1 H2].
  destruct (shl_align _ _ _) as [m' e']. cbn [fst snd] in *. apply round_at_least_one.
  rewrite H1. set (f := rnd_exp _) in *. unfold two in *.
  destruct (Z.le_gt_cases e f).
  - rewrite (Z.max_r (e - f)), Z.mul_1_r by lia. replace e' with e by lia. done.
  - assert (0 < 2 ^ (e - f)) by (apply Z.pow_pos_nonneg; lia). replace e' with f by lia.
    rewrite (Z.max_l (e - f)) by lia. destruct (Z.le_gt_cases f 0).
    + rewrite Z.max_l by lia. destruct (Z.le_gt_cases e 0).
      * rewrite Z.max_l in Hm by lia. replace (- f) with (- e + (e - f)) by lia.
        rewrite Z.pow_add_r by lia. nia.
      * trans (2 ^ (e - f)); [apply Z.pow_le_mono_r; lia|nia].
    + rewrite Z.max_r by lia. nia.
Qed.

Lemma one_plus x : d_nonneg x → at_least_one (d_add one x).
Proof.
  destruct x as [| | |s m e]; cbn [d_nonneg]; intros Hs; try done; subst.
  unfold d_add, one, SFadd.
  destruct (shl_align_spec 4503599627370496 (-52) (Z.min (-52) e)) as [-> _].
  destruct (shl_align_spec m e (Z.min (-52) e)) as [-> _]. cbn [cond_Zopp].
  apply normalize_one. unfold two. rewrite Z.max_l by lia.
  rewrite (Z.max_l (-52 - _)) by lia.
  assert (0 < 2 ^ Z.max (e - Z.min (-52) e) 0) by (apply Z.pow_pos_nonneg; lia).
  replace (- Z.min (-52) e) with (52 + (-52 - Z.min (-52) e)) by lia.
  rewrite Z.pow_add_r by lia. change (2 ^ 52) with 4503599627370496. nia.
Qed.

Lemma new_location_exact n r : 0 < n → 0 ≤ r → new_location n r = loc_Exact ↔ r = 0.
Proof.
  intros Hn Hr. unfold new_location, new_location_even, new_location_odd.
  destruct (Z.even n), (Z.eqb_spec r 0); split; try done; intros; by subst.
Qed.

Lemma at_most_loc m l T : m < T ∨ (m = T ∧ l = loc_Exact) → at_most (shr_record_of_loc m l) T.
Proof.
  intros [H|[-> ->]]; unfold at_most; rewrite ?record_of_loc_m; [by left|by right].
Qed.

Lemma inverse_range y : at_least_one y → in_range 0 1 (d_div one y).
Proof.
  destruct y as [|s| |s m e]; cbn [at_least_one]; try done. intros [-> Hm].
  unfold d_div, one, SFdiv. cbn [xorb].
  assert (∃ q e' r, SFdiv_core_binary 53 1024 4503599627370496 (-52) (Z.pos m) e = (q, e', new_location (Z.pos m) r) ∧
    e' ≤ 0 ∧ 0 ≤ q ∧ 0 ≤ r ∧ q * Z.pos m + r ≤ Z.pos m * 2 ^ (- e')) as (q & e' & r & -> & He' & Hq & Hr & Hle).
  { destruct (Zdigits2_bounds (Z.pos m)) as (Hd & Hlo & Hhi); [done|].
    unfold SFdiv_core_binary. set (d := Zdigits2 (Z.pos m)) in *.
    change (Zdigits2 4503599627370496) with 53.
    set (e' := Z.min _ _).
    assert (0 < d + e) as Hde.
    { unfold two in Hm. destruct (Z.le_gt_cases e 0); [|lia]. rewrite Z.max_l in Hm by lia.
      apply Z.nle_gt. intros Hn. assert (2 ^ d ≤ 2 ^ (- e)) by (apply Z.pow_le_mono_r; lia). lia. }
    assert (e' ≤ -52 - e) by lia.
    assert (e' ≤ 0) as He'.
    { assert (rnd_exp (53 + -52 - (d + e)) ≤ 0); [unfold fexp, emin|]; lia. }
    set (m' := match -52 - e - e' with Zpos _ => _ | Z0 => _ | Zneg _ => _ end).
    assert (m' = 2 ^ (- e - e')) as Em'.
    { unfold m'. change 4503599627370496 with (2 ^ 52).
      destruct (-52 - e - e') as [|s|s] eqn:Es; [f_equal; lia| |lia].
      rewrite Z.shiftl_mul_pow2, <-Z.pow_add_r by lia. f_equal. lia. }
    pose proof (Z_div_mod m' (Z.pos m) ltac:(lia)) as Hdiv.
    destruct (Z.div_eucl m' (Z.pos m)) as [q r]. destruct Hdiv as [Hdiv Hr].
    exists q, e', r. split; [done|]. split; [done|].
    assert (0 < m') by (rewrite Em'; apply Z.pow_pos_nonneg; lia).
    split; [nia|]. split; [lia|]. rewrite (Z.mul_comm q), <-Hdiv, Em'.
    unfold two in Hm. destruct (Z.le_gt_cases e 0).
    - rewrite Z.max_l in Hm by lia. replace (- e - e') with (- e + - e') by lia.
      rewrite Z.pow_add_r by lia. assert (0 < 2 ^ (- e')) by (apply Z.pow_pos_nonneg; lia). nia.
    - assert (2 ^ (- e - e') ≤ 2 ^ (- e')) by (apply Z.pow_le_mono_r; lia).
      assert (0 < 2 ^ (- e')) by (apply Z.pow_pos_nonneg; lia). nia. }
  apply (round_range 0 1 false); [done|done|done|].
  assert (0 < 2 ^ (- e')) by (apply Z.pow_pos_nonneg; lia).
  split; [by rewrite record_of_loc_m|]. split; [rewrite record_of_loc_m; lia|].
  apply at_most_loc. rewrite Z.mul_1_l.
  destruct (Z.eq_dec r 0) as [Er|Hr0]; [|left; nia].
  destruct (Z.eq_dec q (2 ^ (- e'))); [|left; nia]. right.
  split; [done|]. by apply new_location_exact.
Qed.

(** ** The new ratings *)

(** Conversions from and to [int]. *)
Lemma of_int_range z : Z.abs z < 2 ^ 53 → in_range z z (d_of_int z).
Proof.
  intros Hz. unfold d_of_int, d_lit. apply normalize_range; [lia|lia|lia|]. unfold between. simpl. lia.
Qed.

Lemma to_int_range a b d :
  in_range a b d → INT_MIN ≤ a → b ≤ INT_MAX → ∃ n, int_of_double d = Some n ∧ a ≤ n ≤ b.
Proof.
  intros Hd Ha Hb. destruct d as [| | |s m e]; cbn in *; try done; [exists 0; done|].
  destruct Hd as [He [Hlo Hhi]].
  assert (a ≤ (if s then - d_trunc m e else d_trunc m e) ≤ b) as Hr.
  { unfold d_trunc. destruct (Z.leb_spec 0 e).
    - assert (e = 0) as -> by lia. change (2 ^ (- 0)) with 1 in *. change (2 ^ 0) with 1. destruct s; lia.
    - assert (0 < 2 ^ (- e)) by (apply Z.pow_pos_nonneg; lia).
      pose proof (Z.mul_div_le (Z.pos m) (2 ^ (- e)) ltac:(lia)).
      pose proof (Z.mul_succ_div_gt (Z.pos m) (2 ^ (- e)) ltac:(lia)).
      assert (0 ≤ Z.pos m / 2 ^ (- e)) by (apply Z.div_pos; lia).
      destruct s; nia. }
  exists (if s then - d_trunc m e else d_trunc m e). split; [|done]. apply int_op_Some. lia.
Qed.

(** Truncation moves a value by less than one. *)
Lemma to_int_near a b d n : in_range a b d → int_of_double d = Some n → in_range (n - 1) (n + 1) d.
Proof.
  intros Hd Hn. destruct d as [| | |s m e]; cbn in *; try done; [simplify_eq; lia|].
  destruct Hd as [He _]. unfold int_op in Hn. case_decide; [|done]. simplify_eq. split; [done|].
  unfold d_trunc, between in *. destruct (Z.leb_spec 0 e).
  - assert (e = 0) as -> by lia. change (2 ^ (- 0)) with 1 in *. change (2 ^ 0) with 1 in *.
    destruct s; lia.
  - assert (0 < 2 ^ (- e)) by (apply Z.pow_pos_nonneg; lia).
    pose proof (Z.mul_div_le (Z.pos m) (2 ^ (- e)) ltac:(lia)).
    pose proof (Z.mul_succ_div_gt (Z.pos m) (2 ^ (- e)) ltac:(lia)).
    destruct s; nia.
Qed.

(** ** The formula *)

Section Formula.
Context `{LibmLaws}.

Definition expected (diff : Z) : double :=
  d_div (d_of_int 1) (d_add (d_of_int 1) (pow (d_of_int 10) (d_div (d_of_int diff) (d_of_int 400)))).

Lemma round_not_nan sx m e l : 0 ≤ m → binary_round_aux 53 1024 sx m e l ≠ S754_nan.
Proof.
  intros Hm. unfold binary_round_aux. destruct (shr_fexp 53 1024 m e l) as [r1 e1] eqn:E1.
  assert (0 ≤ shr_m r1) as H1.
  { unfold shr_fexp in E1. destruct (rnd_exp _ - _); cbn [shr] in E1; simplify_eq;
      rewrite ?record_of_loc_m; try done.
    rewrite (proj1 (shr_iter_spec _ _ ltac:(by rewrite record_of_loc_m))), record_of_loc_m.
    apply Z.div_pos; [done|by apply Z.pow_pos_nonneg]. }
  assert (0 ≤ round_nearest_even (shr_m r1) (loc_of_shr_record r1)) as H2.
  { destruct r1 as [m1 [|] [|]]; cbn in *; try lia. destruct (Z.even m1); lia. }
  set (m1 := round_nearest_even _ _) in *.
  destruct (shr_fexp 53 1024 m1 e1 loc_Exact) as [r2 e2] eqn:E2.
  assert (0 ≤ shr_m r2) as H3.
  { unfold shr_fexp in E2. destruct (rnd_exp _ - _); cbn [shr] in E2; simplify_eq;
      rewrite ?record_of_loc_m; try done.
    rewrite (proj1 (shr_iter_spec _ _ ltac:(by rewrite record_of_loc_m))), record_of_loc_m.
    apply Z.div_pos; [done|by apply Z.pow_pos_nonneg]. }
  destruct (shr_m r2); [done| |lia]. by destruct (e2 <=? _).
Qed.

Lemma expected_arg diff : Z.abs diff < 2 ^ 53 → d_div (d_of_int diff) (d_of_int 400) ≠ S754_nan.
Proof.
  intros Hd. pose proof (of_int_range diff Hd) as Hr.
  change (d_of_int 400) with (S754_finite false 7036874417766400 (-44)).
  destruct (d_of_int diff) as [| | |s m e]; try done. unfold d_div, SFdiv.
  destruct (SFdiv_core_binary _ _ _ _ _ _) as [[q e'] l] eqn:E. apply round_not_nan.
  unfold SFdiv_core_binary in E. set (e1 := Z.min _ _) in E.
  set (m' := match _ - _ - e1 with Zpos _ => _ | Z0 => _ | Zneg _ => _ end) in E.
  assert (0 ≤ m') as Hm'.
  { unfold m'. destruct (_ - _ - e1); [done|apply Z.shiftl_nonneg; lia|done]. }
  pose proof (Z_div_mod m' 7036874417766400 ltac:(lia)) as Hdiv.
  destruct (Z.div_eucl m' 7036874417766400) as [q1 r1]. simplify_eq. lia.
Qed.

(** The expected score is between zero and one. *)
Lemma expected_range diff : Z.abs diff < 2 ^ 53 → in_range 0 1 (expected diff).
Proof.
  intros Hd. unfold expected. rewrite d_one. apply inverse_range, one_plus.
  by apply pow_ten_nonneg, expected_arg.
Qed.

Lemma score1_range result : in_range 0 1 (score1 result).
Proof. unfold score1. repeat case_match; vm_compute; repeat split; discriminate. Qed.

(** The largest ratings for which the sums below are no overflow. *)
Definition MAX_RATING : Z := 1000000000.

(** What the first player gains. *)
Definition gain (r1 r2 result : Z) : double :=
  d_mul (d_of_int 32) (d_sub (score1 result) (expected (r2 - r1))).

(** From the range of the gain to the new ratings. *)
Lemma elo_update_gain r1 r2 result a b :
  Z.abs r1 ≤ MAX_RATING → Z.abs r2 ≤ MAX_RATING → -32 ≤ a → b ≤ 32 →
  in_range a b (gain r1 r2 result) →
  ∃ n1 n2, elo_update r1 r2 result = Some (n1, n2) ∧
    r1 + a ≤ n1 ≤ r1 + b ∧ r2 - b ≤ n2 ≤ r2 - a ∧ Z.abs (n1 + n2 - (r1 + r2)) ≤ 1.
Proof.
  unfold MAX_RATING. intros H1 H2 Ha Hb Hg. unfold elo_update.
  rewrite !int_op_Some by (unfold INT_MIN, INT_MAX; lia).
  cbn [mbind option_bind]. cbv zeta.
  fold (expected (r2 - r1)). fold (gain r1 r2 result).
  assert (in_range (r1 + a) (r1 + b) (d_add (d_of_int r1) (gain r1 r2 result))) as HRP.
  { apply add_range; [apply of_int_range; lia|done|lia|lia]. }
  destruct (to_int_range _ _ _ HRP) as (n1 & E1 & Hn1); [unfold INT_MIN, INT_MAX; lia..|].
  pose proof (to_int_near _ _ _ _ HRP E1) as Hnear.
  assert (in_range (r1 + r2) (r1 + r2) (d_of_int (r1 + r2))) as HR3 by (apply of_int_range; lia).
  destruct (to_int_range (r1 + r2 - (r1 + b)) (r1 + r2 - (r1 + a))
    (d_sub (d_of_int (r1 + r2)) (d_add (d_of_int r1) (gain r1 r2 result)))) as (n2 & E2 & Hn2);
    [apply sub_range; [done|done|lia|lia]|unfold INT_MIN, INT_MAX; lia..|].
  destruct (to_int_range (r1 + r2 - (n1 + 1)) (r1 + r2 - (n1 - 1))
    (d_sub (d_of_int (r1 + r2)) (d_add (d_of_int r1) (gain r1 r2 result)))) as (n2' & E2' & Hn2');
    [apply sub_range; [done|done|lia|lia]|unfold INT_MIN, INT_MAX; lia..|].
  exists n1, n2. rewrite E1, E2. simplify_eq. split; [done|]. lia.
Qed.

Lemma gain_range r1 r2 result :
  Z.abs r1 ≤ MAX_RATING → Z.abs r2 ≤ MAX_RATING → in_range (-32) 32 (gain r1 r2 result).
Proof.
  unfold MAX_RATING. intros H1 H2. unfold gain. change (-32) with (- (32 * 1)).
  apply mul_range; [|change (-1) with (0 - 1)|done..].
  - apply in_range_weaken with 32 32; [apply of_int_range; lia|lia..].
  - apply (sub_range 0 1 0 1); [apply score1_range|apply expected_range; lia|lia..].
Qed.

Lemma gain_win r1 r2 :
  Z.abs r1 ≤ MAX_RATING → Z.abs r2 ≤ MAX_RATING → in_range 0 32 (gain r1 r2 1).
Proof.
  unfold MAX_RATING. intros H1 H2. unfold gain. apply (mul_range_nonneg 32 1); [| |done].
  - apply in_range_weaken with 32 32; [apply of_int_range; lia|lia..].
  - change (in_range (1 - 1) (1 - 0) (d_sub (score1 1) (expected (r2 - r1)))).
    apply sub_range; [vm_compute; repeat split; discriminate|apply expected_range; lia|lia..].
Qed.

Lemma gain_loss r1 r2 :
  Z.abs r1 ≤ MAX_RATING → Z.abs r2 ≤ MAX_RATING → in_range (-32) 0 (gain r1 r2 2).
Proof.
  unfold MAX_RATING. intros H1 H2. unfold gain. apply (mul_range_nonpos 32 1); [| |done].
  - apply in_range_weaken with 32 32; [apply of_int_range; lia|lia..].
  - change (in_range (0 - 1) (0 - 0) (d_sub (score1 2) (expected (r2 - r1)))).
    apply sub_range; [by cbn|apply expected_range; lia|lia..].
Qed.

(** Between equal ratings the expected score is a half. *)
Lemma gain_equal r result :
  gain r r result = d_mul (d_of_int 32) (d_sub (score1 result) (d_lit 1 (-1))).
Proof.
  unfold gain. do 2 f_equal. unfold expected. rewrite Z.sub_diag.
  change (d_div (d_of_int 0) (d_of_int 400)) with (S754_zero false). by rewrite pow_zero.
Qed.

(** Neither rating changes by more than 32 points. *)
Lemma elo_update_range r1 r2 result :
  Z.abs r1 ≤ MAX_RATING → Z.abs r2 ≤ MAX_RATING →
  ∃ n1 n2, elo_update r1 r2 result = Some (n1, n2) ∧
    Z.abs (n1 - r1) ≤ 32 ∧ Z.abs (n2 - r2) ≤ 32 ∧ Z.abs (n1 + n2 - (r1 + r2)) ≤ 1.
Proof.
  intros H1 H2.
  destruct (elo_update_gain r1 r2 result (-32) 32) as (n1 & n2 & E & ?); [done..| |].
  { by apply gain_range. }
  exists n1, n2. split; [done|]. lia.
Qed.

(** The winner's rating never falls and the loser's never rises. *)
Lemma elo_update_winner r1 r2 :
  Z.abs r1 ≤ MAX_RATING → Z.abs r2 ≤ MAX_RATING →
  (∃ n1 n2, elo_update r1 r2 1 = Some (n1, n2) ∧ r1 ≤ n1 ∧ n2 ≤ r2) ∧
  (∃ n1 n2, elo_update r1 r2 2 = Some (n1, n2) ∧ n1 ≤ r1 ∧ r2 ≤ n2).
Proof.
  intros H1 H2. split.
  - destruct (elo_update_gain r1 r2 1 0 32) as (n1 & n2 & E & ?); [done..|lia|lia|by apply gain_win|].
    exists n1, n2. split; [done|]. lia.
  - destruct (elo_update_gain r1 r2 2 (-32) 0) as (n1 & n2 & E & ?); [done..|lia|lia|by apply gain_loss|].
    exists n1, n2. split; [done|]. lia.
Qed.

(** Between players of the same rating the winner takes exactly 16 points
    from the loser, and a draw changes nothing. *)
Lemma elo_update_equal r :
  Z.abs r ≤ MAX_RATING →
  elo_update r r 0 = Some (r, r) ∧ elo_update r r 1 = Some (r + 16, r - 16) ∧
  elo_update r r 2 = Some (r - 16, r + 16).
Proof.
  intros Hr.
  assert (∀ result k, -32 ≤ k ≤ 32 → in_range k k (gain r r result) →
    elo_update r r result = Some (r + k, r - k)) as Hk.
  { intros result k Hk Hg.
    destruct (elo_update_gain r r result k k) as (n1 & n2 & -> & ?); [done..|lia|lia|done|].
    do 2 f_equal; lia. }
  split_and!.
  - rewrite (Hk 0 0); [do 2 f_equal; lia|lia|]. rewrite gain_equal. vm_compute. split; discriminate.
  - apply Hk; [lia|]. rewrite gain_equal. vm_compute. repeat split; discriminate.
  - rewrite (Hk 2 (-16)); [do 2 f_equal; lia|lia|]. rewrite gain_equal. vm_compute. repeat split; discriminate.
Qed.

(** C31: a finished game changes neither rating by more than 32 points, keeps
    the sum of the two up to one point (the conversions to [int] truncate),
    and computes both without overflow or an undefined conversion, whatever
    the rounding of the double arithmetic does and however far apart the two
    players are.  The winner's rating never falls and the loser's never rises;
    between players of the same rating the winner takes exactly 16 points
    from the loser, and a draw changes nothing. *)
Theorem elo_update_bounded r1 r2 result :
  Z.abs r1 ≤ MAX_RATING → Z.abs r2 ≤ MAX_RATING →
  ∃ n1 n2, elo_update r1 r2 result = Some (n1, n2) ∧
    Z.abs (n1 - r1) ≤ 32 ∧ Z.abs (n2 - r2) ≤ 32 ∧ Z.abs (n1 + n2 - (r1 + r2)) ≤ 1 ∧
    (result = 1 → r1 ≤ n1 ∧ n2 ≤ r2) ∧ (result = 2 → n1 ≤ r1 ∧ r2 ≤ n2) ∧
    (r1 = r2 → result = 0 → n1 = r1 ∧ n2 = r2) ∧
    (r1 = r2 → result = 1 → n1 = r1 + 16 ∧ n2 = r2 - 16) ∧
    (r1 = r2 → result = 2 → n1 = r1 - 16 ∧ n2 = r2 + 16).
Proof.
  intros H1 H2. destruct (elo_update_range r1 r2 result H1 H2) as (n1 & n2 & E & Hb). exists n1, n2.
  destruct (elo_update_winner r1 r2 H1 H2) as [(a1 & a2 & Ea & Ha) (b1 & b2 & Eb & Hb')].
  destruct (elo_update_equal r1 H1) as (E0 & E1 & E2).
  split; [done|]. split_and!; try lia; intros; subst; simplify_eq; lia.
Qed.

End Formula.

(** ** A power function *)

(** A function with the properties asked of [pow]: right at zero, and with
    the sign and the direction of the powers of ten elsewhere. *)
Definition step_pow : Libm := λ _ y,
  match y with
  | S754_zero _ => d_of_int 1
  | S754_infinity false => S754_infinity false
  | S754_infinity true => S754_zero false
  | S754_finite false _ _ => d_of_int 10
  | S754_finite true _ _ => d_div (d_of_int 1) (d_of_int 10)
  | S754_nan => S754_nan
  end.

Lemma step_pow_laws : @LibmLaws step_pow.
Proof.
  split.
  - by intros [].
  - intros [|[]| |[]]; try done.
  - intros [|[]| |[]]; vm_compute; done.
Qed.

Lemma elo_update_bounded_witness :
  ∃ n1 n2, @elo_update step_pow 1600 1400 2 = Some (n1, n2) ∧ 1568 ≤ n1 ≤ 1600 ∧ 1400 ≤ n2 ≤ 1432.
Proof.
  destruct (@elo_update_bounded step_pow step_pow_laws 1600 1400 2) as (n1 & n2 & E & H1 & H2 & _ & _ & Hw & _);
    [vm_compute; discriminate..|].
  exists n1, n2. split; [exact E|]. destruct (Hw eq_refl). lia.
Defined.
