(* ===== verification/World.v ===== *)
(** * The shared state of the server and the effects of its code

    The heap of objects the functions share through pointers, the global
    semaphores of [src/client.c], the connections, and a small state monad
    with the outcomes a C call can have.  A pointer is an address, [NULL] is
    0, and an access to an address that holds no live object is undefined
    behaviour, so that the theorems speak of dangling pointers. *)
From S2P Require Import Prelude Game Player.

(** ** Data *)

Abbreviation ptr := nat (only parsing).
Definition NULL : ptr := 0%nat.

Inductive INVITATION_STATE : Set := INV_OPEN_STATE | INV_ACCEPTED_STATE | INV_CLOSED_STATE.
Inductive CLIENT_STATE : Set := CLIENT_LOGGED_OUT | CLIENT_LOGGED_IN.

#[export] Instance INVITATION_STATE_eq_dec : EqDecision INVITATION_STATE.
Proof. solve_decision. Defined.
#[export] Instance CLIENT_STATE_eq_dec : EqDecision CLIENT_STATE.
Proof. solve_decision. Defined.

(** One node of the linked list of a client: its own address, the identifier
    the client knows the invitation by, and the invitation. *)
Record INVITATION_NODE : Set := mkNODE {
  n_addr : ptr;
  n_id : Z;
  n_invitation : ptr
}.

Record INVITATION : Set := mkINV {
  i_state : INVITATION_STATE;
  i_ref_count : Z;
  i_source : ptr;
  i_target : ptr;
  i_game : ptr;
  i_source_role : GAME_ROLE;
  i_target_role : GAME_ROLE
}.

(** [c_lock] is true while the mutex is held; [c_invite_head] is the chain of
    nodes that starts at [invite_head]. *)
Record CLIENT : Set := mkCLIENT {
  c_lock : bool;
  c_cr : ptr;
  c_fd : Z;
  c_ref_count : Z;
  c_player : ptr;
  c_logged_in : CLIENT_STATE;
  c_available_ids : list Z;
  c_id_usage : Z;
  c_current_id_size : Z;
  c_invite_head : list INVITATION_NODE
}.

Definition MAX_CLIENTS : Z := 64.

(** [cr_clients] is the whole array, of [MAX_CLIENTS] entries. *)
Record CLIENT_REGISTRY : Set := mkCREG {
  cr_mutex : bool;
  cr_sem : Z;
  cr_length : Z;
  cr_no : Z;
  cr_clients : list ptr;
  cr_login_queue : Z
}.

(** The chain of nodes of the registry, as the players they hold. *)
Record PLAYER_REGISTRY : Set := mkPREG {
  pr_head : list ptr;
  pr_length : Z
}.

(** One connection: the bytes sent to the peer, those still to be read, and
    the results the kernel will give to the next [write] and [read] calls; a
    call past the end of its script transfers all it can. *)
Record CONN : Set := mkCONN {
  k_out : list byte;
  k_wscript : list Z;
  k_in : list byte;
  k_rscript : list Z
}.

Record world : Type := mkWORLD {
  w_brk : ptr;                         (** next free address *)
  w_clients : gmap nat CLIENT;
  w_invs : gmap nat INVITATION;
  w_games : gmap nat GAME;
  w_players : gmap nat PLAYER;
  w_cregs : gmap nat CLIENT_REGISTRY;
  w_pregs : gmap nat PLAYER_REGISTRY;
  w_sems : list Z;                     (** [semaphores] of [client.c] *)
  w_is_sem_init : Z;
  w_net : gmap Z CONN;
  w_oom : list bool;                   (** does the next [calloc] fail? *)
  w_clock : list (Z * Z)               (** readings of [clock_gettime] *)
}.

(** The indices of [semaphores]. *)
Definition CLIENT_SEM_FUNCTIONS : nat := 10.
Definition CLIENT_LOGIN_SEM : nat := 0.
Definition CLIENT_LOGOUT_SEM : nat := 1.
Definition CLIENT_INVITE_SEM : nat := 2.
Definition CLIENT_INVITE_OP_SEM : nat := 6.
Definition CLIENT_UPDATE_ELO : nat := 8.

(** ** Outcomes and the monad *)

Inductive outcome (A : Type) : Type :=
| Ret (a : A) (w : world)     (** the call returned [a] *)
| Stuck                       (** it waits for ever on a semaphore or mutex *)
| Undef                       (** undefined behaviour *)
| OutOfFuel.                  (** the bound on the recursion was too small *)
Arguments Ret {A} _ _.
Arguments Stuck {A}.
Arguments Undef {A}.
Arguments OutOfFuel {A}.

Definition M (A : Type) : Type := world → outcome A.

#[export] Instance M_ret : MRet M := λ A a w, Ret a w.
#[export] Instance M_bind : MBind M := λ A B f m w,
  match m w with
  | Ret a w' => f a w'
  | Stuck => Stuck
  | Undef => Undef
  | OutOfFuel => OutOfFuel
  end.

Definition stuck {A} : M A := λ _, Stuck.
Definition undef {A} : M A := λ _, Undef.
Definition out_of_fuel {A} : M A := λ _, OutOfFuel.
Definition gets {A} (f : world → A) : M A := λ w, Ret (f w) w.
Definition modify (f : world → world) : M () := λ w, Ret () (f w).

(** A partial C operation: [None] is undefined behaviour. *)
Definition defined {A} (o : option A) : M A := match o with Some a => mret a | None => undef end.

(** ** Heaps *)

Definition set_brk (b : ptr) (w : world) : world :=
  mkWORLD b (w_clients w) (w_invs w) (w_games w) (w_players w) (w_cregs w) (w_pregs w)
    (w_sems w) (w_is_sem_init w) (w_net w) (w_oom w) (w_clock w).
Definition set_clients (h : gmap nat CLIENT) (w : world) : world :=
  mkWORLD (w_brk w) h (w_invs w) (w_games w) (w_players w) (w_cregs w) (w_pregs w)
    (w_sems w) (w_is_sem_init w) (w_net w) (w_oom w) (w_clock w).
Definition set_invs (h : gmap nat INVITATION) (w : world) : world :=
  mkWORLD (w_brk w) (w_clients w) h (w_games w) (w_players w) (w_cregs w) (w_pregs w)
    (w_sems w) (w_is_sem_init w) (w_net w) (w_oom w) (w_clock w).
Definition set_games (h : gmap nat GAME) (w : world) : world :=
  mkWORLD (w_brk w) (w_clients w) (w_invs w) h (w_players w) (w_cregs w) (w_pregs w)
    (w_sems w) (w_is_sem_init w) (w_net w) (w_oom w) (w_clock w).
Definition set_players (h : gmap nat PLAYER) (w : world) : world :=
  mkWORLD (w_brk w) (w_clients w) (w_invs w) (w_games w) h (w_cregs w) (w_pregs w)
    (w_sems w) (w_is_sem_init w) (w_net w) (w_oom w) (w_clock w).
Definition set_cregs (h : gmap nat CLIENT_REGISTRY) (w : world) : world :=
  mkWORLD (w_brk w) (w_clients w) (w_invs w) (w_games w) (w_players w) h (w_pregs w)
    (w_sems w) (w_is_sem_init w) (w_net w) (w_oom w) (w_clock w).
Definition set_pregs (h : gmap nat PLAYER_REGISTRY) (w : world) : world :=
  mkWORLD (w_brk w) (w_clients w) (w_invs w) (w_games w) (w_players w) (w_cregs w) h
    (w_sems w) (w_is_sem_init w) (w_net w) (w_oom w) (w_clock w).
Definition set_sems (s : list Z) (w : world) : world :=
  mkWORLD (w_brk w) (w_clients w) (w_invs w) (w_games w) (w_players w) (w_cregs w) (w_pregs w)
    s (w_is_sem_init w) (w_net w) (w_oom w) (w_clock w).
Definition set_net (n : gmap Z CONN) (w : world) : world :=
  mkWORLD (w_brk w) (w_clients w) (w_invs w) (w_games w) (w_players w) (w_cregs w) (w_pregs w)
    (w_sems w) (w_is_sem_init w) n (w_oom w) (w_clock w).
Definition set_oom (l : list bool) (w : world) : world :=
  mkWORLD (w_brk w) (w_clients w) (w_invs w) (w_games w) (w_players w) (w_cregs w) (w_pregs w)
    (w_sems w) (w_is_sem_init w) (w_net w) l (w_clock w).
Definition set_clock (l : list (Z * Z)) (w : world) : world :=
  mkWORLD (w_brk w) (w_clients w) (w_invs w) (w_games w) (w_players w) (w_cregs w) (w_pregs w)
    (w_sems w) (w_is_sem_init w) (w_net w) (w_oom w) l.

(** A type of objects with its own heap in the world. *)
Class Heap (V : Type) := {
  heap : world → gmap nat V;
  set_heap : gmap nat V → world → world;
  heap_set_heap h w : heap (set_heap h w) = h;
  set_heap_set_heap h h' w : set_heap h (set_heap h' w) = set_heap h w;
  set_heap_heap w : set_heap (heap w) w = w
}.

#[export] Program Instance client_heap : Heap CLIENT :=
  {| heap := w_clients; set_heap := set_clients |}.
#[export] Program Instance inv_heap : Heap INVITATION :=
  {| heap := w_invs; set_heap := set_invs |}.
#[export] Program Instance game_heap : Heap GAME :=
  {| heap := w_games; set_heap := set_games |}.
#[export] Program Instance player_heap : Heap PLAYER :=
  {| heap := w_players; set_heap := set_players |}.
#[export] Program Instance creg_heap : Heap CLIENT_REGISTRY :=
  {| heap := w_cregs; set_heap := set_cregs |}.
#[export] Program Instance preg_heap : Heap PLAYER_REGISTRY :=
  {| heap := w_pregs; set_heap := set_pregs |}.
Solve All Obligations with try (by intros); try (by intros []).

Section heap_ops.
Context `{Heap V}.

(** Reading and writing through a pointer, allocating and freeing. *)
Definition load (p : ptr) : M V := λ w,
  match heap w !! p with Some v => Ret v w | None => Undef end.

Definition store (p : ptr) (v : V) : M () := λ w,
  match heap w !! p with
  | Some _ => Ret () (set_heap (<[p := v]> (heap w)) w)
  | None => Undef
  end.

Definition update (p : ptr) (f : V → V) : M () :=
  v ← load p; store p (f v).

(** An update that can overflow an [int]: then it is undefined. *)
Definition update_opt (p : ptr) (f : V → option V) : M () :=
  v ← load p; v' ← defined (f v); store p v'.

Definition alloc (v : V) : M ptr := λ w,
  Ret (w_brk w) (set_brk (S (w_brk w)) (set_heap (<[w_brk w := v]> (heap w)) w)).

Definition free (p : ptr) : M () := λ w,
  match heap w !! p with
  | Some _ => Ret () (set_heap (delete p (heap w)) w)
  | None => Undef
  end.
End heap_ops.

(** [calloc]: does it succeed this time? *)
Definition calloc : M bool := λ w,
  match w_oom w with
  | [] => Ret true w
  | b :: l => Ret (negb b) (set_oom l w)
  end.

(** A [calloc] whose result the code uses without a test. *)
Definition calloc_unchecked : M () :=
  ok ← calloc; if ok : bool then mret () else undef.

(** An allocated object, or [NULL]. *)
Definition calloc_obj `{Heap V} (v : V) : M ptr :=
  ok ← calloc; if ok : bool then alloc v else mret NULL.

Definition clock_gettime : M (Z * Z) := λ w,
  match w_clock w with
  | [] => Ret (0, 0) w
  | t :: l => Ret t (set_clock l w)
  end.

(** ** Semaphores and mutexes *)

Definition sem_wait (i : nat) : M () := λ w,
  match w_sems w !! i with
  | Some v => if 0 <? v then Ret () (set_sems (<[i := v - 1]> (w_sems w)) w) else Stuck
  | None => Undef
  end.

Definition sem_post (i : nat) : M () := λ w,
  match w_sems w !! i with
  | Some v => Ret () (set_sems (<[i := v + 1]> (w_sems w)) w)
  | None => Undef
  end.

Definition c_set_lock (b : bool) (c : CLIENT) : CLIENT :=
  mkCLIENT b (c_cr c) (c_fd c) (c_ref_count c) (c_player c) (c_logged_in c)
    (c_available_ids c) (c_id_usage c) (c_current_id_size c) (c_invite_head c).

Definition lock_client (c : ptr) : M () :=
  cl ← load c; if c_lock cl then stuck else store c (c_set_lock true cl).
Definition unlock_client (c : ptr) : M () := update c (c_set_lock false).

Definition cr_set_mutex (b : bool) (cr : CLIENT_REGISTRY) : CLIENT_REGISTRY :=
  mkCREG b (cr_sem cr) (cr_length cr) (cr_no cr) (cr_clients cr) (cr_login_queue cr).

Definition lock_creg (p : ptr) : M () :=
  cr ← load p; if cr_mutex cr then stuck else store p (cr_set_mutex true cr).
Definition unlock_creg (p : ptr) : M () := update p (cr_set_mutex false).

(** ** System calls on connections *)

Definition set_conn (fd : Z) (k : CONN) (w : world) : world := set_net (<[fd := k]> (w_net w)) w.

(** [write(fd, buf, n)]: nothing is written on an error; a short count is the
    kernel's choice.  Reading past the buffer is undefined behaviour. *)
Definition sys_write (fd : Z) (buf : list byte) (n : Z) : M Z := λ w,
  if Z.of_nat (length buf) <? n then Undef else
  match w_net w !! fd with
  | None => Ret (-1) w
  | Some k =>
      match k_wscript k with
      | [] => Ret n (set_conn fd (mkCONN (k_out k ++ take (Z.to_nat n) buf) [] (k_in k) (k_rscript k)) w)
      | r :: rs =>
          if r <=? 0 then Ret (if r <? 0 then -1 else 0)
            (set_conn fd (mkCONN (k_out k) rs (k_in k) (k_rscript k)) w)
          else let c := Z.min r n in
            Ret c (set_conn fd (mkCONN (k_out k ++ take (Z.to_nat c) buf) rs (k_in k) (k_rscript k)) w)
      end
  end.

(** [read(fd, buf, n)]: the count returned and the bytes stored; 0 is the end
    of the stream. *)
Definition sys_read (fd : Z) (n : Z) : M (Z * list byte) := λ w,
  match w_net w !! fd with
  | None => Ret (-1, []) w
  | Some k =>
      let avail := Z.min n (Z.of_nat (length (k_in k))) in
      match k_rscript k with
      | [] => Ret (avail, take (Z.to_nat avail) (k_in k))
                (set_conn fd (mkCONN (k_out k) (k_wscript k) (drop (Z.to_nat avail) (k_in k)) []) w)
      | r :: rs =>
          if r <=? 0 then Ret (if r <? 0 then -1 else 0, [])
            (set_conn fd (mkCONN (k_out k) (k_wscript k) (k_in k) rs) w)
          else let c := Z.min r avail in
            Ret (c, take (Z.to_nat c) (k_in k))
              (set_conn fd (mkCONN (k_out k) (k_wscript k) (drop (Z.to_nat c) (k_in k)) rs) w)
      end
  end.

(** [shutdown(fd, SHUT_RD)]: the next read sees the end of the stream. *)
Definition sys_shutdown_rd (fd : Z) : M () := λ w,
  match w_net w !! fd with
  | None => Ret () w
  | Some k => Ret () (set_conn fd (mkCONN (k_out k) (k_wscript k) [] []) w)
  end.

(** [close(fd)]. *)
Definition sys_close (fd : Z) : M () := λ w, Ret () (set_net (delete fd (w_net w)) w).

(** ** Total correctness

    [wp m w Q]: from [w] the call returns, with a result and a world that
    satisfy [Q]: it neither blocks, nor runs out of fuel, nor is undefined. *)
Definition wp {A} (m : M A) (w : world) (Q : A → world → Prop) : Prop :=
  match m w with Ret a w' => Q a w' | _ => False end.

Lemma wp_ret {A} (a : A) w (Q : A → world → Prop) : Q a w → wp (mret a) w Q.
Proof. done. Qed.

Lemma wp_bind {A B} (m : M A) (k : A → M B) w (Q : B → world → Prop) :
  wp m w (λ a w', wp (k a) w' Q) → wp (m ≫= k) w Q.
Proof. unfold wp, mbind, M_bind. by destruct (m w). Qed.

Lemma wp_mono {A} (m : M A) w (P Q : A → world → Prop) :
  wp m w P → (∀ a w', P a w' → Q a w') → wp m w Q.
Proof. unfold wp. destruct (m w); auto. Qed.

(** The same, with the equation of the run. *)
Lemma wp_mono_run {A} (m : M A) w (P Q : A → world → Prop) :
  wp m w P → (∀ a w', m w = Ret a w' → P a w' → Q a w') → wp m w Q.
Proof. unfold wp. destruct (m w); auto. Qed.

(** A call whose result is known is a rewriting step. *)
Lemma wp_run {A} (m : M A) w a w' (Q : A → world → Prop) :
  m w = Ret a w' → Q a w' → wp m w Q.
Proof. unfold wp. by intros ->. Qed.

Lemma bind_run {A B} (m : M A) (k : A → M B) w a w' :
  m w = Ret a w' → (m ≫= k) w = k a w'.
Proof. unfold mbind, M_bind. by intros ->. Qed.

Lemma wp_inv {A} (m : M A) w (Q : A → world → Prop) :
  wp m w Q → ∃ a w', m w = Ret a w' ∧ Q a w'.
Proof. unfold wp. destruct (m w); naive_solver. Qed.

(** ** Heaps *)

Section heap_lemmas.
Context `{HV : Heap V}.
Implicit Types (p : ptr) (v : V) (w : world).

Lemma load_run p v w : heap w !! p = Some v → load p w = Ret v w.
Proof. unfold load. by intros ->. Qed.

Lemma store_run p v v' w :
  heap w !! p = Some v → store p v' w = Ret () (set_heap (<[p := v']> (heap w)) w).
Proof. unfold store. by intros ->. Qed.

Lemma update_run p f v w :
  heap w !! p = Some v → update p f w = Ret () (set_heap (<[p := f v]> (heap w)) w).
Proof. intros Hp. unfold update. rewrite (bind_run _ _ _ _ _ (load_run p v w Hp)). by eapply store_run. Qed.

Lemma update_opt_run p f v v' w :
  heap w !! p = Some v → f v = Some v' → update_opt p f w = Ret () (set_heap (<[p := v']> (heap w)) w).
Proof.
  intros Hp Hf. unfold update_opt. rewrite (bind_run _ _ _ _ _ (load_run p v w Hp)), Hf. by eapply store_run.
Qed.

Lemma update_opt_ret p (f : V → option V) w u w' : update_opt p f w = Ret u w' →
  ∃ v v', heap w !! p = Some v ∧ f v = Some v' ∧ w' = set_heap (<[p := v']> (heap w)) w.
Proof.
  unfold update_opt, mbind, M_bind, load. destruct (heap w !! p) as [v|] eqn:Hp; [|done].
  destruct (f v) as [v'|] eqn:Hf; [|done]. cbn. unfold store. rewrite Hp. intros [= _ <-]. eauto.
Qed.

Lemma free_run p v w :
  heap w !! p = Some v → free (V:=V) p w = Ret () (set_heap (delete p (heap w)) w).
Proof. unfold free. by intros ->. Qed.
End heap_lemmas.

(** ** Connections *)

(** The kernel accepts bytes on this connection. *)
Definition writable (k : CONN) : Prop := Forall (λ r, 0 < r) (k_wscript k).
Definition readable (k : CONN) : Prop := Forall (λ r, 0 < r) (k_rscript k).

(** Only the output side of a connection has changed. *)
Definition same_input (k k' : CONN) : Prop :=
  k_in k' = k_in k ∧ k_rscript k' = k_rscript k.
Definition same_output (k k' : CONN) : Prop :=
  k_out k' = k_out k ∧ k_wscript k' = k_wscript k.

#[export] Instance same_input_preorder : PreOrder same_input.
Proof. split; unfold same_input; [intros k|intros k1 k2 k3]; naive_solver congruence. Qed.
#[export] Instance same_output_preorder : PreOrder same_output.
Proof. split; unfold same_output; [intros k|intros k1 k2 k3]; naive_solver congruence. Qed.

Lemma set_conn_id fd k w : w_net w !! fd = Some k → set_conn fd k w = w.
Proof. intros H. unfold set_conn, set_net. rewrite insert_id by done. by destruct w. Qed.

Lemma set_conn_twice fd k k' w : set_conn fd k' (set_conn fd k w) = set_conn fd k' w.
Proof. unfold set_conn, set_net. simpl. by rewrite insert_insert_eq. Qed.

Lemma set_conn_lookup fd k w : w_net (set_conn fd k w) !! fd = Some k.
Proof. simpl. apply lookup_insert_eq. Qed.

Lemma sys_write_wp fd buf n w k :
  w_net w !! fd = Some k → 0 < n ≤ Z.of_nat (length buf) →
  wp (sys_write fd buf n) w (λ r w', ∃ k',
    w' = set_conn fd k' w ∧ same_input k k' ∧ r ≤ n ∧
    k_out k' = k_out k ++ take (Z.to_nat r) buf ∧
    (writable k → 0 < r ∧ writable k')).
Proof.
  intros Hk Hn. unfold wp, sys_write.
  destruct (Z.ltb_spec (Z.of_nat (length buf)) n); [lia|]. rewrite Hk.
  destruct (k_wscript k) as [|r rs] eqn:Hs.
  - eexists. split_and!; [done|done|lia|done|]. intros _. split; [lia|]. by constructor.
  - destruct (Z.leb_spec r 0).
    + eexists. split_and!; [done|done|zcases|simpl|].
      * replace (Z.to_nat _) with 0%nat by zcases. by rewrite app_nil_r.
      * intros Hw. unfold writable in Hw. rewrite Hs in Hw. inversion Hw; lia.
    + eexists. split_and!; [done|done|lia|done|].
      intros Hw. unfold writable in *. rewrite Hs in Hw. inversion Hw. split; [lia|done].
Qed.

Lemma sys_read_wp fd n w k :
  w_net w !! fd = Some k → 0 < n →
  wp (sys_read fd n) w (λ r w', ∃ k' : CONN,
    w' = set_conn fd k' w ∧ same_output k k' ∧ r.1 ≤ n ∧
    k_in k = r.2 ++ k_in k' ∧ Z.of_nat (length r.2) = Z.max 0 r.1 ∧
    (readable k → readable k' ∧ 0 ≤ r.1 ∧ (k_in k ≠ [] → 0 < r.1))).
Proof.
  intros Hk Hn. unfold wp, sys_read. rewrite Hk.
  assert (∀ l : list byte, l ≠ [] → 0 < Z.of_nat (length l)) as Hpos
    by (intros [|??]; simpl; [done|lia]).
  destruct (k_rscript k) as [|r rs] eqn:Hs.
  - eexists. split_and!; [done|done|cbn; lia|symmetry; apply take_drop|cbn|].
    + rewrite length_take. lia.
    + intros _. cbn. split_and!; [constructor|lia|]. intros Hin. specialize (Hpos _ Hin). lia.
  - destruct (Z.leb_spec r 0).
    + eexists. split_and!; [done|done|cbn; zcases|done|cbn; zcases|].
      intros Hw. unfold readable in Hw. rewrite Hs in Hw. inversion Hw; lia.
    + eexists. split_and!; [done|done|cbn; lia|symmetry; apply take_drop|cbn|].
      * rewrite length_take. lia.
      * intros Hw. unfold readable in *. rewrite Hs in Hw. inversion Hw. cbn.
        split_and!; [done|lia|]. intros Hin. specialize (Hpos _ Hin). lia.
Qed.

(** ** One client at a time *)

Definition upd_client (p : ptr) (c : CLIENT) (w : world) : world :=
  set_clients (<[p := c]> (w_clients w)) w.

Lemma upd_client_lookup p c w : w_clients (upd_client p c w) !! p = Some c.
Proof. apply lookup_insert_eq. Qed.

Lemma upd_client_twice p c c' w : upd_client p c' (upd_client p c w) = upd_client p c' w.
Proof. unfold upd_client, set_clients. simpl. by rewrite insert_insert_eq. Qed.

Lemma upd_client_id p c w : w_clients w !! p = Some c → upd_client p c w = w.
Proof. intros H. unfold upd_client, set_clients. rewrite insert_id by done. by destruct w. Qed.

Lemma load_client_run p c w : w_clients w !! p = Some c → load p w = Ret c w.
Proof. exact (load_run (V:=CLIENT) p c w). Qed.

Lemma store_client_run p c c' w :
  w_clients w !! p = Some c → store p c' w = Ret () (upd_client p c' w).
Proof. exact (store_run (V:=CLIENT) p c c' w). Qed.

Lemma update_client_run p f c w :
  w_clients w !! p = Some c → update p f w = Ret () (upd_client p (f c) w).
Proof. exact (update_run (V:=CLIENT) p f c w). Qed.

Lemma lock_client_run p c w :
  w_clients w !! p = Some c → c_lock c = false →
  lock_client p w = Ret () (upd_client p (c_set_lock true c) w).
Proof.
  intros Hp Hl. unfold lock_client. rewrite (bind_run _ _ _ _ _ (load_client_run _ _ _ Hp)), Hl.
  by apply store_client_run with c.
Qed.

Lemma unlock_client_run p c w :
  w_clients w !! p = Some c → unlock_client p w = Ret () (upd_client p (c_set_lock false c) w).
Proof. apply update_client_run. Qed.

Lemma c_set_lock_twice b b' c : c_set_lock b (c_set_lock b' c) = c_set_lock b c.
Proof. done. Qed.

Lemma c_set_lock_id c b : c_lock c = b → c_set_lock b c = c.
Proof. destruct c; simpl. by intros <-. Qed.

Lemma calloc_run w : w_oom w = [] → calloc w = Ret true w.
Proof. unfold calloc. by intros ->. Qed.

Lemma calloc_unchecked_run w : w_oom w = [] → calloc_unchecked w = Ret () w.
Proof. intros H. unfold calloc_unchecked. by rewrite (bind_run _ _ _ _ _ (calloc_run w H)). Qed.

Lemma bind_ret {A B} (a : A) (k : A → M B) w : (mret a ≫= k) w = k a w.
Proof. done. Qed.

Lemma bind_assoc {A B C} (m : M A) (f : A → M B) (g : B → M C) w :
  ((m ≫= f) ≫= g) w = (m ≫= (λ x, f x ≫= g)) w.
Proof. unfold mbind, M_bind. by destruct (m w). Qed.

Lemma defined_run {A} (o : option A) a w : o = Some a → defined o w = Ret a w.
Proof. by intros ->. Qed.

(** Run the next call of a straight-line body: [run lemma]; [flat] puts the
    next call at the head. *)
Ltac flat :=
  cbn [negb]; cbv beta iota;
  repeat (first [ rewrite bind_assoc | rewrite bind_ret ]; cbn [negb]; cbv beta iota).
Tactic Notation "run" uconstr(lem) :=
  flat; erewrite bind_run; [|by eapply lem]; cbv beta iota; flat.
Tactic Notation "run" uconstr(lem) "by" tactic3(t) :=
  flat; erewrite bind_run; [|eapply lem; t]; cbv beta iota; flat.

Lemma sem_wait_run i v w :
  w_sems w !! i = Some v → 0 < v → sem_wait i w = Ret () (set_sems (<[i := v - 1]> (w_sems w)) w).
Proof. intros H Hv. unfold sem_wait. rewrite H. by destruct (Z.ltb_spec 0 v); [|lia]. Qed.

Lemma sem_post_run i v w :
  w_sems w !! i = Some v → sem_post i w = Ret () (set_sems (<[i := v + 1]> (w_sems w)) w).
Proof. intros H. unfold sem_post. by rewrite H. Qed.
