(* ===== verification/Threads.v ===== *)
(** * Threads that interleave

    A [prog] is a call cut into its atomic steps: single accesses to the
    shared memory, single operations on a lock or a semaphore, single system
    calls.  [alone] runs its steps without interruption, which is what the
    functions of the model do; a pool of programs takes the steps of its
    threads in any order ([pool_step]), a step that waits being not possible.
    The generic facts about pools: a schedule can be computed ([exec]), and
    every execution of a pool ends. *)
From stdpp Require Import relations.
From S2P Require Import Prelude Game Player World.

(** ** Programs *)

Inductive prog (A : Type) : Type :=
| Done (a : A)
| Act {B : Type} (m : M B) (k : B → prog A).
Arguments Done {A} _.
Arguments Act {A B} _ _.

(** The steps of a program that runs alone. *)
Fixpoint alone {A} (p : prog A) : M A :=
  match p with
  | Done a => mret a
  | Act m k => m ≫= λ b, alone (k b)
  end.

Fixpoint pbind {A B} (p : prog A) (f : A → prog B) : prog B :=
  match p with
  | Done a => f a
  | Act m k => Act m (λ b, pbind (k b) f)
  end.

(** The next step of a program, and what is left of it. *)
Definition advance {A} (p : prog A) : M (prog A) :=
  match p with
  | Done _ => stuck
  | Act m k => m ≫= λ b, mret (k b)
  end.

Definition finished {A} (p : prog A) : bool := match p with Done _ => true | Act _ _ => false end.

Lemma alone_pbind {A B} (p : prog A) (f : A → prog B) w :
  alone (pbind p f) w = (alone p ≫= λ a, alone (f a)) w.
Proof.
  revert w. induction p as [a|B' m k IH]; intros w; [done|]. cbn [pbind alone]. rewrite bind_assoc.
  unfold mbind, M_bind. destruct (m w) as [b w'| | |]; [apply IH|done..].
Qed.

(** A program does its next step and then the rest. *)
Lemma alone_advance {A} (p : prog A) w :
  finished p = false → alone p w = (advance p ≫= alone) w.
Proof. destruct p as [a|B m k]; [done|]. intros _. cbn. by rewrite bind_assoc. Qed.

Lemma advance_pbind {A B} (p : prog A) (f : A → prog B) w :
  finished p = false → advance (pbind p f) w = (advance p ≫= λ p', mret (pbind p' f)) w.
Proof. destruct p as [a|B' m k]; [done|]. intros _. cbn. rewrite bind_assoc. done. Qed.

(** The orders in which the elements of several lists can come, each list in
    its own order. *)
Inductive shuffle {A} : list (list A) → list A → Prop :=
| shuffle_nil ls : Forall (λ l, l = []) ls → shuffle ls []
| shuffle_cons ls i x l rest : ls !! i = Some (x :: l) → shuffle (<[i := l]> ls) rest → shuffle ls (x :: rest).

(** ** Pools of threads *)

Section pools.
Context {A : Type}.
Implicit Types (ts : list (prog A)) (w : world).

(** Any thread may take its next step. *)
Inductive pool_step : relation (list (prog A) * world) :=
| pool_step_thread i p p' ts w w' :
    ts !! i = Some p → advance p w = Ret p' w' → pool_step (ts, w) (<[i := p']> ts, w').

(** A thread is about to do what is undefined. *)
Definition faulty (c : list (prog A) * world) : Prop :=
  ∃ i p, c.1 !! i = Some p ∧ advance p c.2 = Undef.

Definition all_finished (ts : list (prog A)) : Prop := Forall (λ p, finished p = true) ts.

(** What every step preserves holds of all that is reached. *)
Lemma pool_invariant (J : list (prog A) * world → Prop) c c' :
  (∀ ts w i p p' w', J (ts, w) → ts !! i = Some p → advance p w = Ret p' w' → J (<[i := p']> ts, w')) →
  J c → rtc pool_step c c' → J c'.
Proof. intros Hstep HJ Hr. induction Hr as [|c1 c2 c3 Hs _ IH]; [done|]. apply IH. destruct Hs. by eapply Hstep. Qed.

Lemma all_finished_lookup ts t p : all_finished ts → ts !! t = Some p → finished p = true.
Proof. intros Hall Ht. exact (proj1 (Forall_lookup _ ts) Hall t p Ht). Qed.

Lemma not_all_finished ts : ¬ all_finished ts → ∃ t p, ts !! t = Some p ∧ finished p = false.
Proof.
  intros Hn. apply not_Forall_Exists in Hn; [|intros p; apply _].
  apply Exists_exists in Hn as (p & [t Ht]%list_elem_of_lookup & Hp). exists t, p.
  split; [done|]. by apply not_true_is_false.
Qed.

#[export] Instance all_finished_dec ts : Decision (all_finished ts).
Proof. unfold all_finished. apply _. Defined.

(** The threads take the steps that a schedule names. *)
Fixpoint exec (schedule : list nat) (ts : list (prog A)) : M (list (prog A)) :=
  match schedule with
  | [] => mret ts
  | i :: schedule' =>
      p ← default stuck (mret <$> ts !! i);
      p' ← advance p;
      exec schedule' (<[i := p']> ts)
  end.

Lemma exec_steps schedule : ∀ ts w ts' w',
  exec schedule ts w = Ret ts' w' → rtc pool_step (ts, w) (ts', w').
Proof.
  induction schedule as [|i schedule IH]; intros ts w ts' w' E; cbn in E; [by injection E as <- <-|].
  destruct (ts !! i) as [p|] eqn:Hi; [|done]. cbn in E. rewrite bind_ret in E.
  unfold mbind at 1, M_bind at 1 in E. destruct (advance p w) as [p' w1| | |] eqn:Ep; try done.
  eapply rtc_l; [by apply (pool_step_thread i p p')|by apply IH].
Qed.

Lemma exec_reaches schedule ts w (P : world → Prop) :
  match exec schedule ts w with Ret _ w' => P w' | _ => False end →
  ∃ ts' w', rtc pool_step (ts, w) (ts', w') ∧ P w'.
Proof.
  destruct (exec schedule ts w) as [ts' w'| | |] eqn:E; intros HP; try done.
  exists ts', w'. split; [by apply (exec_steps schedule)|done].
Qed.

(** A schedule whose last step is undefined leads to a fault. *)
Lemma exec_faults schedule : ∀ ts w,
  exec schedule ts w = Undef → ∃ c, rtc pool_step (ts, w) c ∧ faulty c.
Proof.
  induction schedule as [|i schedule IH]; intros ts w E; cbn in E; [done|].
  destruct (ts !! i) as [p|] eqn:Hi; [|done]. cbn in E. rewrite bind_ret in E.
  unfold mbind at 1, M_bind at 1 in E. destruct (advance p w) as [p' w1| | |] eqn:Ep; try done.
  - destruct (IH _ _ E) as (c & Hc & Hf). exists c. split; [|done].
    eapply rtc_l; [by apply (pool_step_thread i p p')|done].
  - exists (ts, w). split; [done|]. by exists i, p.
Qed.

(** ** Every execution ends

    A step replaces a program by one of its subterms, so the pool cannot go
    on for ever, whatever the order of the steps. *)
Inductive subprog : relation (prog A) :=
| subprog_step {B} (m : M B) k b : subprog (k b) (Act m k).

Lemma subprog_wf : well_founded subprog.
Proof.
  intros p. induction p as [a|B m k IH]; constructor; intros q Hq.
  - by inversion Hq.
  - refine (match Hq in subprog q' p' return
      match p' with Act m' k' => (∀ b, Acc subprog (k' b)) → Acc subprog q' | Done _ => True end
      with subprog_step m' k' b => λ H, H b end IH).
Qed.

Lemma advance_subprog p w p' w' : advance p w = Ret p' w' → subprog p' p.
Proof.
  destruct p as [a|B m k]; [done|]. cbn. unfold mbind, M_bind.
  destruct (m w); intros [= <- <-]. constructor.
Qed.

Definition pool_prec : relation (list (prog A)) := λ ts' ts,
  ∃ i p p', ts !! i = Some p ∧ subprog p' p ∧ ts' = <[i := p']> ts.

Lemma pool_prec_wf : well_founded pool_prec.
Proof.
  intros ts. induction ts as [|p ts IH]; [constructor; intros ts' (i & q & q' & Hi & _); done|].
  revert ts IH. induction (subprog_wf p) as [p _ IHp]. intros ts IH.
  induction IH as [ts Hts IHts]. constructor. intros ts' ([|i] & q & q' & Hi & Hq & ->).
  - injection Hi as <-. apply IHp; [done|]. by constructor.
  - apply IHts. by exists i, q, q'.
Qed.

Theorem pool_terminates c : Acc (flip pool_step) c.
Proof.
  destruct c as [ts w]. revert w. induction (pool_prec_wf ts) as [ts _ IH]. intros w.
  constructor. intros [ts' w'] Hs. inversion Hs as [i p p' ts0 w0 w0' Hi Hp]; subst.
  apply IH. exists i, p, p'. split_and!; [done|by eapply advance_subprog|done].
Qed.
End pools.
