(* ===== verification/Critical.v ===== *)
(** * Critical sections serialize

    What a lock that is taken at the start of a call and given back at its end
    does for threads that run at the same time: every interleaving of the
    steps of such calls is, state for state, an execution in which the calls
    run whole, one after another in the order in which they get the lock.  The
    proof is a simulation that commits a call when it ends.  The semaphores of
    [src/client.c] and the mutex of a client are such locks. *)
From stdpp Require Import relations.
From S2P Require Import Prelude Game Player World Threads.

(** ** Locks *)

(** What the code promises of a lock: who finds it taken waits, and who
    acquires it has taken it. *)
Record Lock : Type := {
  acquire : M ();
  taken : world → Prop;
  untaken : world → Prop;
  taken_waits w u w' : taken w → acquire w ≠ Ret u w';
  untaken_takes w u w' : untaken w → acquire w = Ret u w' → taken w';
  acquire_defined w : taken w ∨ untaken w → acquire w ≠ Undef
}.

(** A semaphore that is 0 or 1. *)
Program Definition semaphore (i : nat) : Lock := {|
  acquire := sem_wait i;
  taken w := w_sems w !! i = Some 0;
  untaken w := w_sems w !! i = Some 1
|}.
Next Obligation. intros i w u w' H. unfold sem_wait. by rewrite H. Qed.
Next Obligation.
  intros i w u w' H E. cbv beta in H. unfold sem_wait in E. rewrite H in E. injection E as _ <-. cbn.
  apply list_lookup_insert_eq. by eapply lookup_lt_Some.
Qed.
Next Obligation. intros i w [H|H]; unfold sem_wait; by rewrite H. Qed.

(** The mutex of a live client. *)
Definition locked_client (p : ptr) (b : bool) (w : world) : Prop := c_lock <$> w_clients w !! p = Some b.

Program Definition client_mutex (p : ptr) : Lock := {|
  acquire := lock_client p;
  taken := locked_client p true;
  untaken := locked_client p false
|}.
Next Obligation.
  intros p w u w' (c & Hp & Hl)%fmap_Some. unfold lock_client. rewrite (bind_run _ _ _ _ _ (load_client_run p c w Hp)).
  by rewrite <-Hl.
Qed.
Next Obligation.
  intros p w u w' (c & Hp & Hl)%fmap_Some E. rewrite (lock_client_run p c w Hp) in E by done. injection E as _ <-.
  unfold locked_client. by rewrite upd_client_lookup.
Qed.
Next Obligation.
  intros p w [(c & Hp & Hl)%fmap_Some|(c & Hp & Hl)%fmap_Some]; unfold lock_client;
    rewrite (bind_run _ _ _ _ _ (load_client_run p c w Hp)); rewrite <-Hl; [done|].
  by rewrite (store_client_run p c _ w Hp).
Qed.

Section critical.
Context (L : Lock).

(** While the lock is taken, the program leaves it taken. *)
Fixpoint keeps {A} (p : prog A) : Prop :=
  match p with
  | Done _ => True
  | Act m k => ∀ w b w', taken L w → m w = Ret b w' → taken L w' ∧ keeps (k b)
  end.

(** The program holds the lock, and gives it back in its last step if it
    gives it back. *)
Fixpoint inside {A} (p : prog A) : Prop :=
  match p with
  | Done _ => True
  | Act m k => ∀ w b w', taken L w → m w = Ret b w' →
      (taken L w' ∧ inside (k b)) ∨ (untaken L w' ∧ finished (k b) = true)
  end.

Lemma keeps_pbind {A B} (p : prog A) (f : A → prog B) :
  keeps p → (∀ a, keeps (f a)) → keeps (pbind p f).
Proof.
  intros Hp Hf. induction p as [a|C m k IH]; [apply Hf|]. intros w b w' H0 E.
  destruct (Hp w b w' H0 E) as [H1 Hk]. split; [done|]. by apply IH.
Qed.

Lemma inside_pbind {A B} (p : prog A) (f : A → prog B) :
  keeps p → (∀ a, inside (f a)) → inside (pbind p f).
Proof.
  intros Hp Hf. induction p as [a|C m k IH]; [apply Hf|]. intros w b w' H0 E.
  destruct (Hp w b w' H0 E) as [H1 Hk]. left. split; [done|]. by apply IH.
Qed.

Lemma inside_map {A B} (p : prog A) (f : A → B) : inside p → inside (pbind p (λ a, Done (f a))).
Proof.
  intros Hp. induction p as [a|C m k IH]; [done|]. intros w b w' H0 E.
  destruct (Hp w b w' H0 E) as [[H1 Hk]|[H1 Hk]]; [left|right]; (split; [done|]); [by apply IH|].
  by destruct (k b).
Qed.

(** A call that begins with taking the lock, cut into its steps. *)
Class Critical {A} (m : M A) := {
  body : prog A;
  body_alone w : (acquire L;; alone body) w = m w;
  body_inside : inside body
}.

(** A thread that makes such calls, the next one depending on the results of
    the earlier ones. *)
Inductive script (A : Type) : Type :=
| Halt (a : A)
| Call {B : Type} (m : M B) (C : Critical m) (k : B → script A).
#[global] Arguments Halt {A} _.
#[global] Arguments Call {A B} _ {C} _.

(** Its steps, and its calls as single steps. *)
Fixpoint fine {A} (s : script A) : prog A :=
  match s with
  | Halt a => Done a
  | Call m k => Act (acquire L) (λ _, pbind (body (m:=m)) (λ b, fine (k b)))
  end.

Fixpoint whole {A} (s : script A) : prog A :=
  match s with
  | Halt a => Done a
  | Call m k => Act m (λ b, whole (k b))
  end.

(** The lock is free or taken. *)
Definition binary (w : world) : Prop := taken L w ∨ untaken L w.

Section simulation.
Context {A : Type}.
Implicit Types (fs cs : list (prog A)) (ss : list (script A)) (w : world).

(** The steps taken so far [(fs, w)] and the calls that have ended [(ss, w0)]:
    nobody is in a call, or one thread is and holds the lock. *)
Inductive serial : list (prog A) → world → list (script A) → world → Prop :=
| serial_idle ss w : binary w → serial (fine <$> ss) w ss w
| serial_busy ss j B (m : M B) (C : Critical m) k p w w0 :
    ss !! j = Some (Call m k) → finished p = false → inside p → taken L w →
    m w0 = alone p w →
    serial (<[j := pbind p (λ b, fine (k b))]> (fine <$> ss)) w ss w0.

Lemma fine_list_insert ss j s : <[j := fine s]> (fine <$> ss) = fine <$> <[j := s]> ss.
Proof. by rewrite list_fmap_insert. Qed.

Lemma insert_whole ss j s : <[j := whole s]> (whole <$> ss) = whole <$> <[j := s]> ss.
Proof. by rewrite list_fmap_insert. Qed.

(** The step that ends a call is the call. *)
Lemma whole_call ss j B (m : M B) (C : Critical m) k w b w' :
  ss !! j = Some (Call m k) → m w = Ret b w' →
  pool_step (whole <$> ss, w) (whole <$> <[j := k b]> ss, w').
Proof.
  intros Hj E. rewrite <-insert_whole. eapply pool_step_thread.
  - rewrite list_lookup_fmap, Hj. done.
  - cbn. by rewrite (bind_run _ _ _ _ _ E).
Qed.

(** Where a thread in a call is after a step of it. *)
Lemma serial_resume ss j B (m : M B) (C : Critical m) k p w w0 :
  ss !! j = Some (Call m k) → m w0 = alone p w →
  (taken L w ∧ inside p) ∨ (untaken L w ∧ finished p = true) →
  ∃ ss' w0', serial (<[j := pbind p (λ b, fine (k b))]> (fine <$> ss)) w ss' w0' ∧
    rtc pool_step (whole <$> ss, w0) (whole <$> ss', w0').
Proof.
  intros Hj Em Hcase. destruct (finished p) eqn:Hp.
  - destruct p as [b|? ? ?]; [|done]. cbn [pbind alone] in *.
    exists (<[j := k b]> ss), w. rewrite fine_list_insert. split.
    + constructor. destruct Hcase as [[? _]|[? _]]; [by left|by right].
    + apply rtc_once. by eapply whole_call.
  - destruct Hcase as [[H0 Hin]|[_ ?]]; [|done]. exists ss, w0. split; [|done]. by eapply serial_busy.
Qed.

Lemma fine_advance (s : script A) w p' w' :
  advance (fine s) w = Ret p' w' →
  ∃ B (m : M B) (C : Critical m) k, s = Call m k ∧ acquire L w = Ret () w' ∧
    p' = pbind (body (m:=m)) (λ b, fine (k b)).
Proof.
  destruct s as [a|B m C k]; [done|]. cbn. unfold mbind, M_bind.
  destruct (acquire L w) as [[] w1| | |]; intros [= <- <-]. by exists B, m, C, k.
Qed.

Lemma binary_takes w u w' : binary w → acquire L w = Ret u w' → taken L w'.
Proof. intros [H|H] E; [by apply (taken_waits L) in E|by eapply untaken_takes]. Qed.

(** The thread in a call is the only one that can take a step. *)
Lemma serial_step fs w ss w0 fs' w' :
  serial fs w ss w0 → pool_step (fs, w) (fs', w') →
  ∃ ss' w0', serial fs' w' ss' w0' ∧ rtc pool_step (whole <$> ss, w0) (whole <$> ss', w0').
Proof.
  intros Hs Hst. inversion Hst as [t p p' ts0 w1 w1' Ht Hp]; subst.
  destruct Hs as [ss w Hb|ss j B m C k q w w0 Hj Hq Hin H0 Em].
  - rewrite list_lookup_fmap in Ht. apply fmap_Some in Ht as (s & Hs & ->).
    apply fine_advance in Hp as (B & m & C & k & -> & Ew & ->).
    pose proof (binary_takes _ _ _ Hb Ew) as H0.
    apply (serial_resume ss t B m C k); [done| |left; split; [done|apply body_inside]].
    rewrite <-body_alone. by rewrite (bind_run _ _ _ _ _ Ew).
  - destruct (decide (t = j)) as [->|Hne].
    + rewrite list_lookup_insert_eq in Ht by (rewrite length_fmap; by eapply lookup_lt_Some).
      injection Ht as <-. rewrite (advance_pbind _ _ _ Hq) in Hp. rewrite list_insert_insert_eq.
      rewrite (alone_advance _ _ Hq) in Em. unfold mbind at 1, M_bind at 1 in Hp. unfold mbind, M_bind in Em.
      destruct (advance q w) as [q' w2| | |] eqn:Eq; try done. injection Hp as <- <-.
      apply (serial_resume ss j B m C k); [done|done|].
      destruct q as [?|D m' k']; [done|]. cbn in Eq. unfold mbind, M_bind in Eq.
      destruct (m' w) as [d w3| | |] eqn:Em'; try done. injection Eq as <- <-. by apply (Hin w d w3).
    + rewrite list_lookup_insert_ne, list_lookup_fmap in Ht by done.
      apply fmap_Some in Ht as (s & Hs & ->).
      apply fine_advance in Hp as (? & ? & ? & ? & _ & Ew & _). by apply (taken_waits L) in Ew.
Qed.

Lemma serial_steps fs w ss w0 fs' w' :
  serial fs w ss w0 → rtc pool_step (fs, w) (fs', w') →
  ∃ ss' w0', serial fs' w' ss' w0' ∧ rtc pool_step (whole <$> ss, w0) (whole <$> ss', w0').
Proof.
  intros Hs Hr. remember (fs, w) as c eqn:Ec. remember (fs', w') as c' eqn:Ec'.
  revert fs w ss w0 Ec Hs. induction Hr as [c|c [fs1 w1] c' Hst Hr IH]; intros fs w ss w0 -> Hs.
  - injection Ec' as -> ->. exists ss, w0. split; [done|reflexivity].
  - destruct (serial_step _ _ _ _ _ _ Hs Hst) as (ss1 & w01 & Hs1 & Hr1).
    destruct (IH Ec' _ _ _ _ eq_refl Hs1) as (ss2 & w02 & Hs2 & Hr2).
    exists ss2, w02. split; [done|]. by etrans.
Qed.

(** In a simulated state a finished thread is one that makes no more calls. *)
Lemma fine_finished (s : script A) : finished (fine s) = true → fine s = whole s.
Proof. by destruct s. Qed.

Lemma serial_finished fs w ss w0 : serial fs w ss w0 → all_finished fs → fs = whole <$> ss ∧ w = w0.
Proof.
  intros Hs Hall. destruct Hs as [ss w Hb|ss j B m C k q w w0 Hj Hq Hin H0 Em].
  - split; [|done]. apply list_eq. intros t. rewrite !list_lookup_fmap.
    destruct (ss !! t) as [s|] eqn:Ht; [|done]. cbn. f_equal. apply fine_finished.
    apply (all_finished_lookup _ t _ Hall). by rewrite list_lookup_fmap, Ht.
  - exfalso. assert (finished (pbind q (λ b, fine (k b))) = true) as Hf.
    { apply (all_finished_lookup _ j _ Hall). apply list_lookup_insert_eq. rewrite length_fmap. by eapply lookup_lt_Some. }
    by destruct q.
Qed.

(** Every thread that has not finished can take its next step. *)
Definition all_ready (c : list (prog A) * world) : Prop :=
  ∀ j p, c.1 !! j = Some p → finished p = false → ∃ p' w', advance p c.2 = Ret p' w'.

Lemma ready_call ss w0 j B (m : M B) (C : Critical m) k :
  all_ready (whole <$> ss, w0) → ss !! j = Some (Call m k) → ∃ b w', m w0 = Ret b w'.
Proof.
  intros Hr Hj. destruct (Hr j (whole (Call m k))) as (p' & w' & E); [by cbn; rewrite list_lookup_fmap, Hj|done|].
  cbn in E. unfold mbind, M_bind in E. destruct (m w0); try done. eauto.
Qed.

(** The thread in a call, or else any thread that has not finished, has a
    next step. *)
Lemma serial_ready fs w ss w0 :
  serial fs w ss w0 → all_ready (whole <$> ss, w0) →
  ¬ faulty (fs, w) ∧ (all_finished fs ∨ ∃ c', pool_step (fs, w) c').
Proof.
  intros Hs Hr. destruct Hs as [ss w Hb|ss j B m C k q w w0 Hj Hq Hin H0 Em].
  - split.
    + intros (t & p & Ht & Hu). cbn in Ht, Hu. rewrite list_lookup_fmap in Ht.
      apply fmap_Some in Ht as (s & _ & ->). destruct s as [a|B m C k]; [done|]. cbn in Hu.
      unfold mbind, M_bind in Hu.
      destruct (acquire L w) eqn:Ea; try done. by apply (acquire_defined L w Hb) in Ea.
    + destruct (decide (all_finished (fine <$> ss))) as [?|Hn]; [by left|right].
      apply not_all_finished in Hn as (t & p & Ht & Hp). pose proof Ht as Ht'. rewrite list_lookup_fmap in Ht.
      apply fmap_Some in Ht as (s & Hs & ->). destruct s as [a|B m C k]; [done|].
      destruct (ready_call _ _ _ _ _ _ _ Hr Hs) as (b & w' & E). rewrite <-body_alone in E.
      unfold mbind, M_bind in E. destruct (acquire L w) as [u w1| | |] eqn:Ew; try done.
      eexists. eapply pool_step_thread; [exact Ht'|]. cbn. by rewrite (bind_run _ _ _ _ _ Ew).
  - destruct (ready_call _ _ _ _ _ _ _ Hr Hj) as (b & w' & E). rewrite E in Em.
    rewrite (alone_advance _ _ Hq) in Em. unfold mbind, M_bind in Em.
    destruct (advance q w) as [q' w1| | |] eqn:Eq; try done.
    assert (advance (pbind q (λ b, fine (k b))) w = Ret (pbind q' (λ b, fine (k b))) w1) as Ea
      by (rewrite (advance_pbind _ _ _ Hq); by rewrite (bind_run _ _ _ _ _ Eq)).
    assert ((<[j := pbind q (λ b, fine (k b))]> (fine <$> ss)) !! j = Some (pbind q (λ b, fine (k b)))) as Hjl
      by (apply list_lookup_insert_eq; rewrite length_fmap; by eapply lookup_lt_Some).
    split.
    + intros (t & p & Ht & Hu). cbn in Ht, Hu. destruct (decide (t = j)) as [->|Hne]; [congruence|].
      rewrite list_lookup_insert_ne, list_lookup_fmap in Ht by done. apply fmap_Some in Ht as (s & _ & ->).
      destruct s as [a|? ? ? ?]; [done|]. cbn in Hu. unfold mbind, M_bind in Hu.
      destruct (acquire L w) eqn:Eq'; try done. by apply (acquire_defined L w (or_introl H0)) in Eq'.
    + right. eexists. by eapply pool_step_thread.
Qed.

(** The steps of calls in any order, once every thread has finished, have
    done what some order of the whole calls does. *)
Theorem serializable ss w fs w' :
  binary w → rtc pool_step (fine <$> ss, w) (fs, w') → all_finished fs →
  rtc pool_step (whole <$> ss, w) (fs, w').
Proof.
  intros Hb Hr Hall. destruct (serial_steps _ _ _ _ _ _ (serial_idle ss w Hb) Hr) as (ss' & w0' & Hs & Hr').
  by destruct (serial_finished _ _ _ _ Hs Hall) as [-> ->].
Qed.

(** When the whole calls return in every order, so do their interleavings:
    no step of them is undefined, and no state is a deadlock. *)
Theorem interleaved_ready ss w c :
  binary w → (∀ c', rtc pool_step (whole <$> ss, w) c' → all_ready c') →
  rtc pool_step (fine <$> ss, w) c → ¬ faulty c ∧ (all_finished c.1 ∨ ∃ c', pool_step c c').
Proof.
  intros Hb Hsure Hr. destruct c as [fs w'].
  destruct (serial_steps _ _ _ _ _ _ (serial_idle ss w Hb) Hr) as (ss' & w0' & Hs & Hr').
  by apply (serial_ready fs w' ss' w0'); [|apply Hsure].
Qed.
End simulation.
End critical.

Arguments body {L A} m {_}.
Arguments body_alone {L A} m {_} w.
Arguments body_inside {L A} m {_}.
Arguments Halt {L A} _.
Arguments Call {L A B} _ {C} _.
Arguments fine {L A} _.
Arguments whole {L A} _.

Lemma insert_zip_with {A B C} (f : A → B → C) (l : list A) (k : list B) i x y :
  <[i := f x y]> (zip_with f l k) = zip_with f (<[i := x]> l) (<[i := y]> k).
Proof. revert l k. induction i; intros [|? l] [|? k]; cbn; try done; by rewrite ?IHi. Qed.

(** ** Threads with lists of calls

    Each thread makes its calls [do] one after another and keeps their
    results.  [J] is an invariant of the calls still to be made and the
    state, kept by every next call. *)
Section calls.
Context {O R : Type} (L : Lock) (do : O → M R) `{!∀ o, Critical L (do o)}.

Fixpoint calls_script (results : list R) (os : list O) : script L (list R) :=
  match os with
  | [] => Halt results
  | o :: os' => Call (do o) (λ a, calls_script (results ++ [a]) os')
  end.

Definition calls (threads : list (list O)) : list (prog (list R)) := fine <$> (calls_script [] <$> threads).
Definition calls_in_turn (threads : list (list O)) : list (prog (list R)) := whole <$> (calls_script [] <$> threads).

Context (J : list (list O) → world → Prop).
Context (J_call : ∀ rest w i o os, J rest w → rest !! i = Some (o :: os) →
  ∃ a w', do o w = Ret a w' ∧ J (<[i := os]> rest) w').

(** The threads between two whole calls. *)
Definition calling (c : list (prog (list R)) * world) : Prop :=
  ∃ rest results, c.1 = zip_with (λ res os, whole (calls_script res os)) results rest ∧ length results = length rest ∧
    J rest c.2.

Lemma calling_thread rest results ts i t :
  ts = zip_with (λ res os, whole (calls_script res os)) results rest → ts !! i = Some t →
  ∃ res os, results !! i = Some res ∧ rest !! i = Some os ∧ t = whole (calls_script res os).
Proof. intros -> Hi. apply lookup_zip_with_Some in Hi as (res & os & -> & H1 & H2). eauto. Qed.

Lemma calling_step ts w i t t' w' :
  calling (ts, w) → ts !! i = Some t → advance t w = Ret t' w' → calling (<[i := t']> ts, w').
Proof.
  intros (rest & results & Ets & Hlen & HJ) Hi Ht. cbn in *.
  destruct (calling_thread _ _ _ _ _ Ets Hi) as (res & os & Hres & Hos & ->).
  destruct os as [|o os]; [done|]. cbn in Ht. unfold mbind, M_bind in Ht.
  destruct (J_call rest w i o os HJ Hos) as (a & w1 & E & HJ').
  rewrite E in Ht. injection Ht as <- <-. exists (<[i := os]> rest), (<[i := res ++ [a]]> results). cbn.
  split; [rewrite Ets; by rewrite (insert_zip_with (λ res os, whole (calls_script res os)))|].
  split; [by rewrite !length_insert|done].
Qed.

Lemma calling_ready c : calling c → all_ready c.
Proof.
  intros (rest & results & Ets & Hlen & HJ) i t Hi Hf.
  destruct (calling_thread _ _ _ _ _ Ets Hi) as (res & os & Hres & Hos & ->). destruct os as [|o os]; [done|].
  destruct (J_call rest c.2 i o os HJ Hos) as (a & w1 & E & _).
  cbn. rewrite (bind_run _ _ _ _ _ E). eauto.
Qed.

Lemma calling_start threads w : J threads w → calling (calls_in_turn threads, w).
Proof.
  intros HJ. exists threads, (replicate (length threads) []). cbn.
  split; [|split; [by rewrite length_replicate|done]].
  unfold calls_in_turn. clear. induction threads as [|os l IH]; [done|]. cbn. by f_equal.
Qed.

Lemma calling_finished c : calling c → all_finished c.1 → ∃ rest, Forall (λ os, os = []) rest ∧ J rest c.2.
Proof.
  intros (rest & results & Ets & Hlen & HJ) Hall. exists rest. split; [|done].
  apply Forall_lookup. intros i os Hi. destruct (lookup_lt_is_Some_2 results i) as [res Hres].
  { rewrite Hlen. by eapply lookup_lt_Some. }
  assert (finished (whole (calls_script res os)) = true) as Hf.
  { apply (all_finished_lookup c.1 i); [done|]. rewrite Ets. apply lookup_zip_with_Some. eauto 6. }
  by destruct os.
Qed.

(** Their interleavings neither fail nor deadlock, they end, and in the end
    they are an order of the whole calls. *)
Theorem calls_serialize threads w ts w' :
  binary L w → J threads w → rtc pool_step (calls threads, w) (ts, w') →
  ¬ faulty (ts, w') ∧ (all_finished ts ∨ ∃ c, pool_step (ts, w') c) ∧ Acc (flip pool_step) (ts, w') ∧
  (all_finished ts → rtc pool_step (calls_in_turn threads, w) (ts, w') ∧
    ∃ rest, Forall (λ os, os = []) rest ∧ J rest w').
Proof.
  intros Hb HJ Hr.
  assert (∀ c, rtc pool_step (calls_in_turn threads, w) c → calling c) as Hreach.
  { intros c. apply pool_invariant; [|by apply calling_start]. intros ts0 w0 i t t' w1. by apply calling_step. }
  assert (∀ c, rtc pool_step (calls_in_turn threads, w) c → all_ready c) as Hsure
    by (intros c Hc; by eapply calling_ready, Hreach).
  destruct (interleaved_ready _ _ _ _ Hb Hsure Hr) as [Hnf Hgo].
  split; [done|]. split; [done|]. split; [apply pool_terminates|]. intros Hfin.
  pose proof (serializable _ _ _ _ _ Hb Hr Hfin) as Hr'. split; [done|].
  by apply (calling_finished (ts, w')); [apply Hreach|].
Qed.
End calls.

Arguments calls {O R L} do {_} threads.
Arguments calls_in_turn {O R L} do {_} threads.
