(* ===== verification/Objects.v ===== *)
(** * Games, players and clients behind pointers

    The operations of [src/game.c] and [src/player.c] on an address of the
    heap.  What the code does under the mutex of a game or a player has no
    other lock inside; it is one step, a pure function of [Game] or [Player]
    between a load and a store.  An operation may be several: the object
    is freed after its mutex has been released, a move takes the mutex twice,
    and a resignation not at all.  The mutex of a client is explicit
    ([lock_client]): two paths of [src/client.c] return with it held. *)
From S2P Require Import Prelude Game Player World.

(** ** Games: [src/game.c] *)

(** [pthread_mutex_init] is taken to succeed. *)
Definition game_create_at : M ptr := calloc_obj game_create.

Definition game_ref_at (game : ptr) : M ptr := update_opt game game_ref;; mret game.

(** What is done under the mutex, with the count that is left. *)
Definition game_drop_at (game : ptr) : M Z :=
  g ← load game;
  g' ← defined (game_drop g);
  store game g';; mret (g_ref_count g').

Definition game_unref_at (game : ptr) : M () :=
  ref_count ← game_drop_at game;
  if ref_count =? 0 then free (V:=GAME) game else mret ().

(** The result is read after the mutex has been released. *)
Definition game_is_over_at (game : ptr) : M Z :=
  update game (λ g, (game_is_over g).2);;
  g ← load game; mret (g_is_over g).

Definition game_place_at (game : ptr) (mv : GAME_MOVE) : M Z :=
  g ← load game;
  rg ← defined (game_place g mv);
  store game rg.2;; mret rg.1.

Definition game_apply_move_at (game : ptr) (mv : GAME_MOVE) : M Z :=
  r ← game_place_at game mv;
  if r =? 0 then game_is_over_at game;; mret 0 else mret r.

Definition game_resign_at (game : ptr) (role : GAME_ROLE) : M Z :=
  g ← load game;
  if decide (g_winner g ≠ NULL_ROLE) then mret (-1) else
  update game (λ g, mkGAME (g_rows g) (g_ref_count g) (g_is_over g) NULL_ROLE (g_winner g));;
  update game (λ g, mkGAME (g_rows g) (g_ref_count g) 1 (g_current_player g) (g_winner g));;
  update game (λ g, mkGAME (g_rows g) (g_ref_count g) (g_is_over g) (g_current_player g)
    (if decide (role = FIRST_PLAYER_ROLE) then SECOND_PLAYER_ROLE else FIRST_PLAYER_ROLE));;
  mret 0.

Definition game_get_winner_at (game : ptr) : M GAME_ROLE :=
  g ← load game; mret (game_get_winner g).

(** The buffer is written without testing the result of [calloc]; the
    shrinking [realloc] is taken to succeed. *)
Definition game_unparse_state_at (game : ptr) : M (list byte) :=
  calloc_unchecked;; g ← load game; mret (game_unparse_state g).

Definition game_parse_move_at (game : ptr) (role : GAME_ROLE) (str : list byte)
    : M (option GAME_MOVE) :=
  ok ← calloc;
  if ok : bool then g ← load game; mret (game_parse_move g role str) else mret None.

(** ** Players: [src/player.c] *)

(** A failing [strdup] would leave a NULL name for the next [strcmp]; here
    the fault is immediate. *)
Definition player_create_at (name : list byte) : M ptr :=
  p ← calloc_obj (player_create name);
  if decide (p = NULL) then mret NULL else calloc_unchecked;; mret p.

Definition player_ref_at (player : ptr) : M ptr := update_opt player player_ref;; mret player.

Definition player_drop_at (player : ptr) : M Z :=
  p ← load player;
  p' ← defined (player_drop p);
  store player p';; mret (p_ref_count p').

Definition player_unref_at (player : ptr) : M () :=
  ref_count ← player_drop_at player;
  if ref_count =? 0 then free (V:=PLAYER) player else mret ().

Definition player_get_name_at (player : ptr) : M (list byte) :=
  p ← load player; mret (player_get_name p).

Definition player_get_rating_at (player : ptr) : M Z :=
  p ← load player; mret (player_get_rating p).

Definition player_post_result `{Libm} (player1 player2 : ptr) (result : Z) : M () :=
  if decide (player1 = NULL ∨ player2 = NULL) then mret ()
  else if decide (player1 = player2) then mret ()
  else if (result <? 0) || (2 <? result) then mret ()
  else
    p1 ← load player1;
    p2 ← load player2;
    n ← defined (elo_update (p_rating p1) (p_rating p2) result);
    store player1 (player_set_rating p1 n.1);;
    store player2 (player_set_rating p2 n.2).

(** ** Clients: the reference count and the getters of [src/client.c] *)

Definition c_set_ref_count (n : Z) (c : CLIENT) : CLIENT :=
  mkCLIENT (c_lock c) (c_cr c) (c_fd c) n (c_player c) (c_logged_in c)
    (c_available_ids c) (c_id_usage c) (c_current_id_size c) (c_invite_head c).

(** The count is an [int], whose overflow is undefined behaviour. *)
Definition c_count (d : Z) (c : CLIENT) : option CLIENT :=
  n ← int_op (c_ref_count c + d); Some (c_set_ref_count n c).

Definition client_ref (client : ptr) : M ptr :=
  lock_client client;;
  update_opt client (c_count 1);;
  unlock_client client;;
  mret client.

Definition client_get_player (client : ptr) : M ptr :=
  if decide (client = NULL) then mret NULL
  else c ← load client; mret (c_player c).

Definition client_get_fd (client : ptr) : M Z := c ← load client; mret (c_fd c).

(** ** The operations alone

    A thread that runs alone sees the pure operation. *)
Definition put {V} (p : ptr) (o : option V) (h : gmap ptr V) : gmap ptr V :=
  match o with Some v => <[p := v]> h | None => delete p h end.

Lemma game_unref_at_run g v o w :
  w_games w !! g = Some v → game_unref v = Some o → game_unref_at g w = Ret () (set_games (put g o (w_games w)) w).
Proof.
  intros Hg Ho. unfold game_unref in Ho. apply bind_Some in Ho as (v' & Hd & [= <-]).
  unfold game_unref_at, game_drop_at. run (load_run (V:=GAME)). run defined_run by exact Hd. run (store_run (V:=GAME)) by exact Hg.
  destruct (_ =? 0); [|done].
  rewrite (free_run (V:=GAME) g v') by apply lookup_insert_eq. cbn. by rewrite delete_insert_eq.
Qed.

Lemma player_unref_at_run p v o w :
  w_players w !! p = Some v → player_unref v = Some o →
  player_unref_at p w = Ret () (set_players (put p o (w_players w)) w).
Proof.
  intros Hp Ho. unfold player_unref in Ho. apply bind_Some in Ho as (v' & Hd & [= <-]).
  unfold player_unref_at, player_drop_at. run (load_run (V:=PLAYER)). run defined_run by exact Hd. run (store_run (V:=PLAYER)) by exact Hp.
  destruct (_ =? 0); [|done].
  rewrite (free_run (V:=PLAYER) p v') by apply lookup_insert_eq. cbn. by rewrite delete_insert_eq.
Qed.

(** Counts that are in range. *)
Lemma player_ref_add v : 0 ≤ p_ref_count v < INT_MAX → player_ref v = Some (player_add 1 v).
Proof. intros Hv. unfold player_ref. by rewrite int_op_Some by (unfold INT_MIN; lia). Qed.

Lemma player_unref_add v : 0 < p_ref_count v ≤ INT_MAX →
  player_unref v = Some (if p_ref_count v =? 1 then None else Some (player_add (-1) v)).
Proof.
  intros Hv. unfold player_unref, player_drop. rewrite int_op_Some by (unfold INT_MIN; lia). cbn.
  destruct (Z.eqb_spec (p_ref_count v) 1), (Z.eqb_spec (p_ref_count v - 1) 0); (done || lia).
Qed.

Lemma c_count_add d c : INT_MIN ≤ c_ref_count c + d ≤ INT_MAX →
  c_count d c = Some (c_set_ref_count (c_ref_count c + d) c).
Proof. intros Hc. unfold c_count. by rewrite int_op_Some. Qed.

Lemma game_apply_move_at_run g v mv r v' w :
  w_games w !! g = Some v → game_apply_move v mv = Some (r, v') →
  game_apply_move_at g mv w = Ret r (set_games (<[g := v']> (w_games w)) w).
Proof.
  intros Hg E. unfold game_apply_move_at, game_place_at. run (load_run (V:=GAME)). unfold game_apply_move in E.
  destruct (game_place v mv) as [[r1 v1]|]; [|done]. cbn in E. run defined_run. cbn [fst snd].
  run (store_run (V:=GAME)) by exact Hg. destruct (Z.eqb_spec r1 0) as [->|]; injection E as <- <-; [|done].
  unfold game_is_over_at. run (update_run (V:=GAME) g _ v1) by apply lookup_insert_eq.
  run (load_run (V:=GAME) g) by apply lookup_insert_eq. cbn. by rewrite insert_insert_eq.
Qed.

Lemma game_resign_at_run g v role w :
  w_games w !! g = Some v →
  game_resign_at g role w = Ret (game_resign v role).1 (set_games (<[g := (game_resign v role).2]> (w_games w)) w).
Proof.
  intros Hg. unfold game_resign_at, game_resign. run (load_run (V:=GAME)). case_decide.
  - cbn. rewrite insert_id by done. by destruct w.
  - run (update_run (V:=GAME)) by exact Hg. run (update_run (V:=GAME)) by apply lookup_insert_eq.
    run (update_run (V:=GAME)) by apply lookup_insert_eq. cbn. by rewrite !insert_insert_eq.
Qed.
