(* ===== verification/Protocol.v ===== *)
(** * Packets: [src/protocol.c], [include/protocol.h], [create_header]

    A [JEUX_PACKET_HEADER] as the structure lies in memory on the
    little-endian machine: 16 bytes with one byte of padding after [role]
    and two after [size], the multi-byte fields already in network order. *)
From S2P Require Import Prelude Game Player World.

(** ** Bytes of the machine's integers *)

Fixpoint le_bytes (n : nat) (z : Z) : list byte :=
  match n with
  | O => []
  | S n' => z mod 256 :: le_bytes n' (z / 256)
  end.

Fixpoint le_value (b : list byte) : Z :=
  match b with
  | [] => 0
  | c :: b' => c + 256 * le_value b'
  end.

(** On a little-endian host the conversions reverse the bytes. *)
Definition swap_bytes (n : nat) (z : Z) : Z := le_value (reverse (le_bytes n z)).
Definition htons (z : Z) : Z := swap_bytes 2 (uint16 z).
Definition ntohs (z : Z) : Z := swap_bytes 2 (uint16 z).
Definition htonl (z : Z) : Z := swap_bytes 4 (uint32 z).
Definition ntohl (z : Z) : Z := swap_bytes 4 (uint32 z).

(** ** Data *)

Record JEUX_PACKET_HEADER : Set := mkHDR {
  h_type : Z;
  h_id : Z;
  h_role : Z;
  h_size : Z;
  h_timestamp_sec : Z;
  h_timestamp_nsec : Z
}.

Definition JEUX_NO_PKT : Z := 0.
Definition JEUX_LOGIN_PKT : Z := 1.
Definition JEUX_USERS_PKT : Z := 2.
Definition JEUX_INVITE_PKT : Z := 3.
Definition JEUX_REVOKE_PKT : Z := 4.
Definition JEUX_ACCEPT_PKT : Z := 5.
Definition JEUX_DECLINE_PKT : Z := 6.
Definition JEUX_MOVE_PKT : Z := 7.
Definition JEUX_RESIGN_PKT : Z := 8.
Definition JEUX_ACK_PKT : Z := 9.
Definition JEUX_NACK_PKT : Z := 10.
Definition JEUX_INVITED_PKT : Z := 11.
Definition JEUX_REVOKED_PKT : Z := 12.
Definition JEUX_ACCEPTED_PKT : Z := 13.
Definition JEUX_DECLINED_PKT : Z := 14.
Definition JEUX_MOVED_PKT : Z := 15.
Definition JEUX_RESIGNED_PKT : Z := 16.
Definition JEUX_ENDED_PKT : Z := 17.

Definition SIZEOF_HEADER : Z := 16.

(** The memory image of a header, padding zeroed by [calloc]. *)
Definition header_bytes (h : JEUX_PACKET_HEADER) : list byte :=
  [h_type h; h_id h; h_role h; 0] ++ le_bytes 2 (h_size h) ++ [0; 0] ++
  le_bytes 4 (h_timestamp_sec h) ++ le_bytes 4 (h_timestamp_nsec h).

(** The header a filled 16-byte structure holds, whatever its padding. *)
Definition header_of_bytes (b : list byte) : JEUX_PACKET_HEADER :=
  mkHDR (nth 0 b 0) (nth 1 b 0) (nth 2 b 0)
    (le_value (take 2 (drop 4 b))) (le_value (take 4 (drop 8 b))) (le_value (take 4 (drop 12 b))).

(** ** Operations *)

(** [create_header]: the stores truncate to the width of the fields; the
    result of [calloc] is not tested. *)
Definition create_header (type id role size : Z) : M JEUX_PACKET_HEADER :=
  calloc_unchecked;;
  ts ← clock_gettime;
  mret (mkHDR (uint8 type) (uint8 id) (uint8 role) (htons size)
          (htonl ts.1) (htonl ts.2)).

(** One [while (bytes_sent < bytes_to_send)] loop of [proto_send_packet]:
    0 when all is sent, -1 on an error or an end of file.  Every iteration
    that goes on sends at least one byte, so [bytes_to_send] iterations and
    the final test are enough. *)
Fixpoint write_loop (fuel : nat) (fd : Z) (buf : list byte)
    (bytes_sent bytes_to_send bytes_left : Z) : M Z :=
  match fuel with
  | O => out_of_fuel
  | S fuel' =>
      if bytes_sent <? bytes_to_send then
        bytes_written ← sys_write fd (drop (Z.to_nat bytes_sent) buf) bytes_left;
        if bytes_written <=? 0 then mret (-1)
        else write_loop fuel' fd buf (bytes_sent + bytes_written) bytes_to_send
               (bytes_left - bytes_written)
      else mret 0
  end.

Definition write_all (fd : Z) (buf : list byte) (n : Z) : M Z :=
  write_loop (S (Z.to_nat n)) fd buf 0 n n.

Definition proto_send_packet (fd : Z) (hdr : JEUX_PACKET_HEADER) (data : option (list byte)) : M Z :=
  r ← write_all fd (header_bytes hdr) SIZEOF_HEADER;
  if r =? -1 then mret (-1) else
  let bytes_size := ntohs (h_size hdr) in
  match data with
  | None => if bytes_size =? 0 then mret 0 else mret (-1)
  | Some buf => if bytes_size =? 0 then mret (-1) else write_all fd buf bytes_size
  end.

(** One reading loop of [proto_recv_packet]: the status and the bytes read. *)
Fixpoint read_loop (fuel : nat) (fd : Z) (got : list byte)
    (bytes_read bytes_to_read bytes_left : Z) : M (Z * list byte) :=
  match fuel with
  | O => out_of_fuel
  | S fuel' =>
      if bytes_read <? bytes_to_read then
        r ← sys_read fd bytes_left;
        if r.1 <=? 0 then mret (-1, got)
        else read_loop fuel' fd (got ++ r.2) (bytes_read + r.1) bytes_to_read (bytes_left - r.1)
      else mret (0, got)
  end.

Definition read_all (fd : Z) (n : Z) : M (Z * list byte) :=
  read_loop (S (Z.to_nat n)) fd [] 0 n n.

(** [payloadp] says whether the caller gave a place for the payload. *)
Definition proto_recv_packet (fd : Z) (payloadp : bool)
    : M (Z * JEUX_PACKET_HEADER * option (list byte)) :=
  rh ← read_all fd SIZEOF_HEADER;
  let hdr := header_of_bytes rh.2 in
  if rh.1 =? -1 then mret (-1, hdr, None) else
  let bytes_size := ntohs (h_size hdr) in
  if bytes_size <=? 0 then
    if payloadp then mret (0, hdr, None) else undef
  else if negb payloadp then mret (-1, hdr, None)
  else
    ok ← calloc;
    if negb ok then mret (-1, hdr, None)
    else
      rp ← read_all fd bytes_size;
      mret (rp.1, hdr, Some rp.2).

(** ** Lemmas: bytes and byte order *)

Lemma length_le_bytes n z : length (le_bytes n z) = n.
Proof. revert z. induction n; intros; simpl; auto. Qed.

Lemma le_bytes_range n z : Forall is_byte (le_bytes n z).
Proof.
  revert z. induction n; intros; simpl; constructor; [|done].
  apply Z.mod_pos_bound. lia.
Qed.

Lemma le_value_bytes n z : le_value (le_bytes n z) = z mod 256 ^ Z.of_nat n.
Proof.
  revert z. induction n as [|n IH]; intros z.
  - change (256 ^ Z.of_nat 0) with 1. by rewrite Z.mod_1_r.
  - simpl le_bytes. simpl le_value. rewrite IH, Nat2Z.inj_succ, Z.pow_succ_r by lia.
    rewrite Z.rem_mul_r by lia. lia.
Qed.

Lemma le_bytes_value b : Forall is_byte b → le_bytes (length b) (le_value b) = b.
Proof.
  induction 1 as [|c b Hc Hb IH]; [done|]. simpl. unfold is_byte in Hc.
  replace ((c + 256 * le_value b) mod 256) with c
    by (rewrite Z.mul_comm, Z.mod_add by lia; symmetry; by apply Z.mod_small).
  replace ((c + 256 * le_value b) / 256) with (le_value b)
    by (rewrite Z.mul_comm, Z.div_add, Z.div_small by lia; lia).
  by rewrite IH.
Qed.

Lemma le_value_range b : Forall is_byte b → 0 ≤ le_value b < 256 ^ Z.of_nat (length b).
Proof.
  induction 1 as [|c b Hc Hb IH]; [done|]. simpl length. simpl le_value.
  rewrite Nat2Z.inj_succ, Z.pow_succ_r by lia. unfold is_byte in Hc. lia.
Qed.

Lemma swap_bytes_range n z : 0 ≤ swap_bytes n z < 256 ^ Z.of_nat n.
Proof.
  unfold swap_bytes. rewrite <-(length_le_bytes n z) at 3. rewrite <-length_reverse.
  apply le_value_range, Forall_reverse, le_bytes_range.
Qed.

Lemma le_bytes_swap n z : le_bytes n (swap_bytes n z) = reverse (le_bytes n z).
Proof.
  unfold swap_bytes. rewrite <-(length_le_bytes n z) at 1. rewrite <-length_reverse.
  apply le_bytes_value, Forall_reverse, le_bytes_range.
Qed.

Lemma swap_bytes_involutive n z : swap_bytes n (swap_bytes n z) = z mod 256 ^ Z.of_nat n.
Proof.
  unfold swap_bytes at 1. rewrite le_bytes_swap, reverse_involutive. apply le_value_bytes.
Qed.

(** What a field holds after [htons] is read back by [ntohs]. *)
Lemma ntohs_htons z : ntohs (htons z) = uint16 z.
Proof.
  unfold ntohs, htons. pose proof (swap_bytes_range 2 (uint16 z)).
  unfold uint16 at 1. rewrite Z.mod_small by done.
  rewrite swap_bytes_involutive. apply Z.mod_small. unfold uint16. apply Z.mod_pos_bound. lia.
Qed.

Lemma ntohs_range z : 0 ≤ ntohs z < 65536.
Proof. apply swap_bytes_range. Qed.

(** ** Headers *)

(** The fields are within their C types. *)
Definition header_ok (h : JEUX_PACKET_HEADER) : Prop :=
  is_byte (h_type h) ∧ is_byte (h_id h) ∧ is_byte (h_role h) ∧
  0 ≤ h_size h < 65536 ∧ 0 ≤ h_timestamp_sec h < 4294967296 ∧
  0 ≤ h_timestamp_nsec h < 4294967296.

Lemma length_header_bytes h : length (header_bytes h) = 16%nat.
Proof. reflexivity. Qed.

Lemma header_of_header_bytes h : header_ok h → header_of_bytes (header_bytes h) = h.
Proof.
  intros (Ht & Hi & Hr & Hs & H1 & H2). destruct h as [t i r s t1 t2]. simpl in *.
  unfold header_of_bytes, header_bytes. cbn [h_type h_id h_role h_size h_timestamp_sec h_timestamp_nsec].
  f_equal.
  - change (take 2 (drop 4 _)) with (le_bytes 2 s). rewrite le_value_bytes. by apply Z.mod_small.
  - change (take 4 (drop 8 _)) with (le_bytes 4 t1). rewrite le_value_bytes. by apply Z.mod_small.
  - change (take 4 (drop 12 _)) with (le_bytes 4 t2). rewrite le_value_bytes. by apply Z.mod_small.
Qed.

(** The size field travels in network order: high byte first. *)
Lemma header_size_big_endian h :
  h_size h = htons (ntohs (h_size h)) → 0 ≤ h_size h < 65536 →
  take 2 (drop 4 (header_bytes h)) =
    [ntohs (h_size h) / 256; ntohs (h_size h) mod 256].
Proof.
  intros Hs Hr. change (take 2 _) with (le_bytes 2 (h_size h)). rewrite Hs at 1.
  unfold htons. rewrite le_bytes_swap. simpl. unfold reverse; simpl.
  pose proof (ntohs_range (h_size h)).
  unfold uint16. rewrite (Z.mod_small (ntohs (h_size h))) by lia.
  do 2 f_equal. apply Z.mod_small. split; [apply Z.div_pos; lia|apply Z.div_lt_upper_bound; lia].
Qed.

(** ** The loops *)

Lemma write_loop_wp fuel fd buf sent n w k :
  w_net w !! fd = Some k → 0 ≤ sent ≤ n → n ≤ Z.of_nat (length buf) →
  (Z.to_nat (n - sent) < fuel)%nat →
  wp (write_loop fuel fd buf sent n (n - sent)) w (λ r w', ∃ k' m,
    w' = set_conn fd k' w ∧ same_input k k' ∧ 0 ≤ m ≤ n - sent ∧
    k_out k' = k_out k ++ take (Z.to_nat m) (drop (Z.to_nat sent) buf) ∧
    ((r = 0 ∧ m = n - sent) ∨ (r = -1 ∧ m < n - sent)) ∧
    (writable k → r = 0 ∧ writable k')).
Proof.
  revert sent w k. induction fuel as [|fuel IH]; intros sent w k Hk Hs Hn Hf; [lia|].
  cbn [write_loop]. destruct (Z.ltb_spec sent n) as [Hlt|Hge].
  - apply wp_bind. eapply wp_mono; [apply (sys_write_wp _ _ _ _ k Hk)|].
    { rewrite length_drop. lia. }
    intros r w1 (k1 & -> & Hin & Hr & Hout & Hw).
    destruct (Z.leb_spec r 0) as [Hr0|Hr0].
    + exists k1, 0. replace (Z.to_nat r) with 0%nat in Hout by lia.
      split_and!; [done|done|lia|lia|done|right; lia|]. intros Hk'. destruct (Hw Hk'); lia.
    + replace (n - sent - r) with (n - (sent + r)) by lia.
      eapply wp_mono; [apply (IH _ _ k1); [apply set_conn_lookup|lia|lia|lia]|].
      intros r' w2 (k2 & m & -> & Hin2 & Hm & Hout2 & Hres & Hw2).
      exists k2, (r + m). rewrite set_conn_twice.
      split_and!; [done|by trans k1|lia|lia| |destruct Hres; [left|right]; lia|].
      2: { intros Hk0. apply Hw2, Hw, Hk0. }
      rewrite Hout2, Hout, <-app_assoc. f_equal. rewrite !Z2Nat.inj_add, <-drop_drop by lia.
      apply take_take_drop.
  - exists k, 0. rewrite set_conn_id by done.
    split_and!; [done|done|lia|lia|by rewrite app_nil_r|left; lia|done].
Qed.

Lemma write_all_wp fd buf n w k :
  w_net w !! fd = Some k → 0 ≤ n ≤ Z.of_nat (length buf) →
  wp (write_all fd buf n) w (λ r w', ∃ k' m,
    w' = set_conn fd k' w ∧ same_input k k' ∧ 0 ≤ m ≤ n ∧
    k_out k' = k_out k ++ take (Z.to_nat m) buf ∧
    ((r = 0 ∧ m = n) ∨ (r = -1 ∧ m < n)) ∧ (writable k → r = 0 ∧ writable k')).
Proof.
  intros Hk Hn. unfold write_all. rewrite <-(Z.sub_0_r n) at 3.
  eapply wp_mono; [apply (write_loop_wp _ _ _ _ _ _ k Hk); lia|].
  intros r w' (k' & m & ? & ? & ? & Hout & ? & ?). exists k', m.
  rewrite drop_0 in Hout. split_and!; [done|done|lia|lia|done|lia|done].
Qed.

(** What the caller of [proto_send_packet] must provide, and the bytes of
    the packet it asks for. *)
Definition payload_ok (h : JEUX_PACKET_HEADER) (data : option (list byte)) : Prop :=
  match data with
  | None => ntohs (h_size h) = 0
  | Some buf => 0 < ntohs (h_size h) ≤ Z.of_nat (length buf)
  end.

Definition payload_of (h : JEUX_PACKET_HEADER) (data : option (list byte)) : list byte :=
  match data with
  | None => []
  | Some buf => take (Z.to_nat (ntohs (h_size h))) buf
  end.

Definition packet_bytes (h : JEUX_PACKET_HEADER) (data : option (list byte)) : list byte :=
  header_bytes h ++ payload_of h data.

(** Every outcome of [proto_send_packet] on an open connection. *)
Definition send_outcome (fd : Z) (h : JEUX_PACKET_HEADER) (data : option (list byte))
    (w : world) (k : CONN) (r : Z) (w' : world) : Prop :=
  ∃ k' out,
    w' = set_conn fd k' w ∧ same_input k k' ∧ k_out k' = k_out k ++ out ∧
    out `prefix_of` packet_bytes h data ∧
    ((r = 0 ∧ out = packet_bytes h data ∧ payload_ok h data) ∨
     (r = -1 ∧ (out ≠ packet_bytes h data ∨ ¬ payload_ok h data))) ∧
    (writable k → writable k' ∧ out = packet_bytes h data).

Lemma take_ne {A} (l : list A) (m : Z) :
  0 ≤ m < Z.of_nat (length l) → take (Z.to_nat m) l ≠ l.
Proof. intros Hm H. apply (f_equal length) in H. rewrite length_take in H. lia. Qed.

Lemma app_take_ne {A} (l1 l2 : list A) (m : Z) :
  0 ≤ m < Z.of_nat (length l1) → take (Z.to_nat m) l1 ≠ l1 ++ l2.
Proof. intros Hm H. apply (f_equal length) in H. rewrite length_app, length_take in H. lia. Qed.

Lemma take_prefix_le {A} (l : list A) (m n : Z) :
  0 ≤ m ≤ n → take (Z.to_nat m) l `prefix_of` take (Z.to_nat n) l.
Proof.
  intros Hm. replace (take (Z.to_nat m) l) with (take (Z.to_nat m) (take (Z.to_nat n) l))
    by (rewrite take_take; f_equal; lia). apply prefix_take.
Qed.

(** The header is through: what is left is the payload. *)
Lemma send_outcome_header fd h data w k k1 r :
  same_input k k1 → k_out k1 = k_out k ++ header_bytes h → payload_of h data = [] →
  (writable k → writable k1) →
  (r = 0 ∧ payload_ok h data ∨ r = -1 ∧ ¬ payload_ok h data) →
  send_outcome fd h data w k r (set_conn fd k1 w).
Proof.
  intros Hin Hout Hp Hw Hr. exists k1, (header_bytes h).
  unfold packet_bytes. rewrite Hp, app_nil_r.
  split_and!; [done|done|done|done|tauto|tauto].
Qed.

Lemma proto_send_packet_wp fd h data w k :
  w_net w !! fd = Some k →
  (∀ buf, data = Some buf → ntohs (h_size h) ≤ Z.of_nat (length buf)) →
  wp (proto_send_packet fd h data) w (send_outcome fd h data w k).
Proof.
  intros Hk Hd. unfold proto_send_packet. apply wp_bind.
  eapply wp_mono; [apply (write_all_wp _ _ _ _ k Hk)|].
  { rewrite length_header_bytes. unfold SIZEOF_HEADER. lia. }
  intros r w1 (k1 & m & -> & Hin & Hm & Hout & Hres & Hw). unfold SIZEOF_HEADER in *.
  destruct (Z.eqb_spec r (-1)) as [->|Hr].
  - exists k1, (take (Z.to_nat m) (header_bytes h)).
    assert (take (Z.to_nat m) (header_bytes h) ≠ packet_bytes h data)
      by (apply app_take_ne; rewrite length_header_bytes; lia).
    split_and!; [done|done|done| |by right; auto|].
    + unfold packet_bytes. apply prefix_app_r, prefix_take.
    + intros Hk0. destruct (Hw Hk0). lia.
  - destruct Hres as [[-> ->]|]; [|lia].
    change (take (Z.to_nat 16) (header_bytes h)) with (header_bytes h) in Hout.
    pose proof (ntohs_range (h_size h)) as Hrange.
    destruct data as [buf|]; cbn [payload_ok payload_of] in *.
    + specialize (Hd buf eq_refl).
      destruct (Z.eqb_spec (ntohs (h_size h)) 0) as [H0|H0].
      * apply wp_ret, send_outcome_header;
          [done|done|unfold payload_of; by rewrite H0| |right; split; [done|unfold payload_ok; lia]].
        intros Hk0. by apply Hw.
      * eapply wp_mono; [apply (write_all_wp _ _ _ _ k1 (set_conn_lookup _ _ _)); lia|].
        intros r w2 (k2 & m & -> & Hin2 & Hm2 & Hout2 & Hres & Hw2).
        rewrite set_conn_twice. exists k2, (header_bytes h ++ take (Z.to_nat m) buf).
        assert (same_input k k2) as Hin3 by (by trans k1).
        split_and!; [done|done| | | |].
        -- by rewrite Hout2, Hout, app_assoc.
        -- unfold packet_bytes. apply prefix_app. cbn [payload_of].
           by apply take_prefix_le.
        -- destruct Hres as [[-> ->]|[-> Hlt]]; [left|right]; (split; [done|]).
           ++ split; [done|]. unfold payload_ok. lia.
           ++ left. intros H. apply app_inv_head in H. cbn [payload_of] in H.
              apply (f_equal length) in H. rewrite !length_take in H. lia.
        -- intros Hk0. destruct (Hw2 (proj2 (Hw Hk0))) as [-> Hw3].
           destruct Hres as [[_ ->]|]; [by split|lia].
    + destruct (Z.eqb_spec (ntohs (h_size h)) 0) as [H0|H0];
        (apply wp_ret, send_outcome_header; [done|done|done| |unfold payload_ok; tauto]);
        intros Hk0; by apply Hw.
Qed.

Lemma read_loop_wp fuel fd got nread n w k :
  w_net w !! fd = Some k → 0 ≤ nread ≤ n → (Z.to_nat (n - nread) < fuel)%nat →
  wp (read_loop fuel fd got nread n (n - nread)) w (λ r w', ∃ k' bs,
    w' = set_conn fd k' w ∧ same_output k k' ∧ k_in k = bs ++ k_in k' ∧ r.2 = got ++ bs ∧
    ((r.1 = 0 ∧ Z.of_nat (length bs) = n - nread) ∨ r.1 = -1) ∧
    (readable k → readable k' ∧ (n - nread ≤ Z.of_nat (length (k_in k)) → r.1 = 0))).
Proof.
  revert got nread w k. induction fuel as [|fuel IH]; intros got nread w k Hk Hn Hf; [lia|].
  cbn [read_loop]. destruct (Z.ltb_spec nread n) as [Hlt|Hge].
  - apply wp_bind. eapply wp_mono; [apply (sys_read_wp _ _ _ k Hk); lia|].
    intros [r bs] w1 (k1 & -> & Hout & Hr & Hin & Hlen & Hrd). cbn [fst snd] in *.
    destruct (Z.leb_spec r 0) as [Hr0|Hr0].
    + assert (bs = []) as -> by (destruct bs; [done|simpl in Hlen; lia]).
      exists k1, []. split_and!; [done|done|done|by rewrite app_nil_r|by right|].
      intros Hk0. destruct (Hrd Hk0) as (? & Hr1 & Hpos). split; [done|]. intros Hlong.
      exfalso. assert (k_in k ≠ []) as Hne by (intros Hnil; rewrite Hnil in Hlong; simpl in Hlong; lia).
      specialize (Hpos Hne). lia.
    + replace (n - nread - r) with (n - (nread + r)) by lia.
      eapply wp_mono; [apply (IH _ _ _ k1); [apply set_conn_lookup|lia|lia]|].
      intros [r' got'] w2 (k2 & bs2 & -> & Hout2 & Hin2 & Hgot & Hres & Hrd2). cbn [fst snd] in *.
      exists k2, (bs ++ bs2). rewrite set_conn_twice, length_app, Nat2Z.inj_add.
      split_and!; [done|by trans k1|by rewrite Hin, Hin2, app_assoc|by rewrite Hgot, app_assoc| |].
      * destruct Hres as [[-> Hl]|]; [left|by right]. split; [done|lia].
      * intros Hk0. destruct (Hrd Hk0) as (Hk1 & _ & _). destruct (Hrd2 Hk1) as [Hk2 Hz].
        split; [done|]. intros Hlong. apply Hz. rewrite Hin, length_app in Hlong. lia.
  - exists k, []. rewrite set_conn_id by done.
    split_and!; [done|done|done|by rewrite app_nil_r|left; simpl; lia|done].
Qed.

Lemma read_all_wp fd n w k :
  w_net w !! fd = Some k → 0 ≤ n →
  wp (read_all fd n) w (λ r w', ∃ k' bs,
    w' = set_conn fd k' w ∧ same_output k k' ∧ k_in k = bs ++ k_in k' ∧ r.2 = bs ∧
    ((r.1 = 0 ∧ Z.of_nat (length bs) = n) ∨ r.1 = -1) ∧
    (readable k → readable k' ∧ (n ≤ Z.of_nat (length (k_in k)) → r.1 = 0))).
Proof.
  intros Hk Hn. unfold read_all. rewrite <-(Z.sub_0_r n) at 3.
  eapply wp_mono; [apply (read_loop_wp _ _ _ _ _ _ k Hk); lia|].
  intros r w' (k' & bs & ? & ? & ? & ? & Hres & Hrd). exists k', bs.
  rewrite Z.sub_0_r in *. done.
Qed.

(** Reading back a packet another connection wrote. *)
Lemma read_all_prefix fd bs rest w k :
  w_net w !! fd = Some k → readable k → k_in k = bs ++ rest →
  wp (read_all fd (Z.of_nat (length bs))) w (λ r w', ∃ k',
    w' = set_conn fd k' w ∧ same_output k k' ∧ readable k' ∧ k_in k' = rest ∧ r = (0, bs)).
Proof.
  intros Hk Hrd Hin. eapply wp_mono; [apply (read_all_wp _ _ _ k Hk); lia|].
  intros [r got] w' (k' & bs' & -> & Hout & Hin' & Hgot & Hres & Hrd'). cbn [fst snd] in *. subst.
  destruct (Hrd' Hrd) as [Hk' Hr]. rewrite Hin, length_app in Hr.
  specialize (Hr ltac:(lia)). destruct Hres as [[_ Hl]|]; [|lia].
  exists k'. rewrite Hin in Hin'. apply app_inj_1 in Hin' as [-> ->]; [|lia].
  subst r. done.
Qed.

Lemma proto_recv_packet_read fd h data rest w k :
  w_net w !! fd = Some k → readable k → w_oom w = [] →
  k_in k = packet_bytes h data ++ rest → header_ok h → payload_ok h data →
  wp (proto_recv_packet fd true) w (λ r w', ∃ k',
    w' = set_conn fd k' w ∧ same_output k k' ∧ readable k' ∧ k_in k' = rest ∧
    r = (0, h, match data with None => None | Some _ => Some (payload_of h data) end)).
Proof.
  intros Hk Hrd Hoom Hin Hh Hp. unfold proto_recv_packet.
  unfold packet_bytes in Hin. rewrite <-app_assoc in Hin.
  apply wp_bind. eapply wp_mono; [apply (read_all_prefix _ _ _ _ k Hk Hrd Hin)|].
  intros rh w1 (k1 & -> & Hout & Hrd1 & Hin1 & ->). cbn [fst snd].
  rewrite header_of_header_bytes by done. change (0 =? -1) with false. cbv iota.
  pose proof (ntohs_range (h_size h)) as Hrange.
  destruct data as [buf|]; cbn [payload_ok payload_of] in *.
  - destruct (Z.leb_spec (ntohs (h_size h)) 0); [lia|]. cbn [negb].
    apply wp_bind. unfold calloc at 1. simpl. unfold wp at 1. simpl. rewrite Hoom. cbn [negb].
    apply wp_bind.
    assert (ntohs (h_size h) = Z.of_nat (length (take (Z.to_nat (ntohs (h_size h))) buf))) as Hl
      by (rewrite length_take; lia).
    rewrite Hl at 1.
    eapply wp_mono; [apply (read_all_prefix _ _ _ _ k1 (set_conn_lookup _ _ _) Hrd1 Hin1)|].
    intros rp w2 (k2 & -> & Hout2 & Hrd2 & Hin2 & ->). apply wp_ret.
    exists k2. rewrite set_conn_twice. split_and!; [done|by trans k1|done|done|done].
  - destruct (Z.leb_spec (ntohs (h_size h)) 0); [|lia]. apply wp_ret.
    exists k1. split_and!; done.
Qed.

Lemma created_header_ok type id role size (ts : Z * Z) :
  header_ok (mkHDR (uint8 type) (uint8 id) (uint8 role) (htons size) (htonl ts.1) (htonl ts.2)).
Proof.
  split; [|split; [|split; [|split; [|split]]]].
  1-3: apply Z.mod_pos_bound; lia.
  - apply (swap_bytes_range 2).
  - apply (swap_bytes_range 4).
  - apply (swap_bytes_range 4).
Qed.

Lemma create_header_wp type id role size w :
  w_oom w = [] →
  wp (create_header type id role size) w (λ h w',
    h_type h = uint8 type ∧ h_id h = uint8 id ∧ h_role h = uint8 role ∧
    ntohs (h_size h) = uint16 size ∧ header_ok h ∧
    w' = set_clock (tail (w_clock w)) w).
Proof.
  intros Hoom. unfold create_header, calloc_unchecked, calloc, clock_gettime, wp, mbind, M_bind.
  rewrite Hoom. cbn [mret M_ret]. pose proof (created_header_ok type id role size) as Hok.
  destruct (w_clock w) as [|ts l] eqn:Hc.
  - cbn [h_type h_id h_role h_size]. do 3 (split; [done|]). split; [apply ntohs_htons|].
    split; [apply (Hok (0, 0))|]. destruct w; simpl in *. by subst.
  - cbn [h_type h_id h_role h_size]. do 3 (split; [done|]). split; [apply ntohs_htons|].
    split; [apply Hok|done].
Qed.

(** ** Theorems *)

(** One open connection, of descriptor 4, and nothing else. *)
Definition wire (k : CONN) : world :=
  mkWORLD 1 ∅ ∅ ∅ ∅ ∅ ∅ (replicate 10 1) 0 {[4 := k]} [] [].

Definition hello_header : JEUX_PACKET_HEADER := mkHDR 1 0 0 (htons 5) 0 0.

(** C35: on an open connection, whatever counts and errors the kernel returns,
    [proto_send_packet] terminates with 0 or -1 having appended a prefix of
    the packet (16 header bytes, then as many payload bytes as the size
    field says) to the stream; it returns 0 exactly when the size field
    agrees with the presence of a payload and the whole packet is out, and
    a kernel that keeps accepting bytes always gets the whole packet. *)
Theorem proto_send_packet_correct fd h data w k :
  w_net w !! fd = Some k →
  (∀ buf, data = Some buf → ntohs (h_size h) ≤ Z.of_nat (length buf)) →
  wp (proto_send_packet fd h data) w (λ r w', ∃ k' out,
    w' = set_conn fd k' w ∧ k_in k' = k_in k ∧ k_out k' = k_out k ++ out ∧
    out `prefix_of` packet_bytes h data ∧
    (r = 0 ∨ r = -1) ∧ (r = 0 ↔ out = packet_bytes h data ∧ payload_ok h data) ∧
    (writable k → out = packet_bytes h data)).
Proof.
  intros Hk Hd. eapply wp_mono; [by apply (proto_send_packet_wp fd h data w k)|].
  intros r w' (k' & out & -> & [Hin _] & Hout & Hpre & Hres & Hw). exists k', out.
  split_and!; [done|done|done|done| | |tauto].
  - destruct Hres as [[-> _]|[-> _]]; auto.
  - destruct Hres as [(-> & ? & ?)|(-> & [?|?])]; split; intros; try tauto; lia.
Qed.

Lemma proto_send_packet_correct_witness :
  w_net (wire (mkCONN [] [3; 20; 1] [] [])) !! 4 = Some (mkCONN [] [3; 20; 1] [] []) ∧
  wp (proto_send_packet 4 hello_header (Some (text "alice"))) (wire (mkCONN [] [3; 20; 1] [] []))
    (λ r w', r = 0 ∨ r = -1).
Proof.
  split; [reflexivity|].
  eapply wp_mono;
    [apply (proto_send_packet_correct 4 hello_header (Some (text "alice"))
              (wire (mkCONN [] [3; 20; 1] [] [])) (mkCONN [] [3; 20; 1] [] []))|].
  - reflexivity.
  - intros buf H. injection H as <-. vm_compute. discriminate.
  - intros r w' (k' & out & _ & _ & _ & _ & Hr & _). exact Hr.
Defined.

(** C36: a well-formed packet written by [proto_send_packet] on a connection
    that accepts bytes is read back by [proto_recv_packet] from a peer that
    receives those bytes, however the kernel splits the writes and the
    reads: same header, same payload, and the bytes that follow are left in
    the stream. *)
Theorem packet_roundtrip fd h data w k fd2 w2 k2 rest :
  w_net w !! fd = Some k → writable k → header_ok h → payload_ok h data →
  w_net w2 !! fd2 = Some k2 → readable k2 → w_oom w2 = [] →
  wp (proto_send_packet fd h data) w (λ r w', ∃ k' out,
    r = 0 ∧ w_net w' !! fd = Some k' ∧ k_out k' = k_out k ++ out ∧
    (k_in k2 = out ++ rest →
     wp (proto_recv_packet fd2 true) w2 (λ r2 w2', ∃ k2',
       r2 = (0, h, match data with None => None | Some _ => Some (payload_of h data) end) ∧
       w_net w2' !! fd2 = Some k2' ∧ k_in k2' = rest))).
Proof.
  intros Hk Hw Hh Hp Hk2 Hr2 Hoom.
  eapply wp_mono; [apply (proto_send_packet_wp fd h data w k Hk)|].
  { intros buf ->. unfold payload_ok in Hp. lia. }
  intros r w' (k' & out & -> & _ & Hout & _ & Hres & Hwr). destruct (Hwr Hw) as [_ ->].
  exists k', (packet_bytes h data). split_and!; [tauto|apply set_conn_lookup|done|].
  intros Hin. eapply wp_mono; [by eapply (proto_recv_packet_read fd2 h data rest w2 k2)|].
  intros r2 w2' (k2' & -> & _ & _ & ? & ->). exists k2'.
  split_and!; [done|apply set_conn_lookup|done].
Qed.

Lemma packet_roundtrip_witness :
  let k := mkCONN [] [1; 2; 7] [] [] in
  let k2 := mkCONN [] [] (packet_bytes hello_header (Some (text "alice")) ++ [42]) [5; 1; 30] in
  header_ok hello_header ∧
  wp (proto_send_packet 4 hello_header (Some (text "alice"))) (wire k) (λ r w', ∃ k' out,
    r = 0 ∧ w_net w' !! 4 = Some k' ∧ k_out k' = k_out k ++ out ∧
    (k_in k2 = out ++ [42] →
     wp (proto_recv_packet 4 true) (wire k2) (λ r2 w2', ∃ k2',
       r2 = (0, hello_header, Some (payload_of hello_header (Some (text "alice")))) ∧
       w_net w2' !! 4 = Some k2' ∧ k_in k2' = [42]))).
Proof.
  intros k k2.
  assert (header_ok hello_header) as Hh
    by (vm_compute; repeat split; discriminate).
  split; [exact Hh|].
  apply (packet_roundtrip 4 hello_header (Some (text "alice")) (wire k) k 4 (wire k2) k2 [42]).
  - reflexivity.
  - repeat constructor.
  - exact Hh.
  - vm_compute. split; [reflexivity|discriminate].
  - reflexivity.
  - repeat constructor.
  - reflexivity.
Defined.

(** [create_header] keeps the low byte of its identifier and role and the
    low 16 bits of its size, which [ntohs] gives back, and the size travels
    high byte first; so an invitation identifier of 256 or more, or a
    payload of 65536 bytes or more, is announced truncated. *)
Theorem create_header_truncates type id role size w :
  w_oom w = [] →
  wp (create_header type id role size) w (λ h w',
    header_ok h ∧ h_type h = type mod 256 ∧ h_id h = id mod 256 ∧ h_role h = role mod 256 ∧
    ntohs (h_size h) = size mod 65536 ∧
    take 2 (drop 4 (header_bytes h)) = [size mod 65536 / 256; size mod 65536 mod 256] ∧
    w' = set_clock (tail (w_clock w)) w).
Proof.
  intros Hoom. eapply wp_mono; [by apply create_header_wp|].
  intros h w' (Ht & Hi & Hr & Hs & Hok & Hw). split_and!; try done.
  unfold uint16 in Hs. rewrite <-Hs. apply header_size_big_endian; [|apply Hok].
  symmetry. unfold htons, ntohs. rewrite <-(Z.mod_small (h_size h) 65536) at 2 by apply Hok.
  unfold uint16. pose proof (swap_bytes_range 2 (h_size h mod 65536)).
  rewrite (Z.mod_small (swap_bytes 2 _)) by done. rewrite swap_bytes_involutive.
  change (256 ^ Z.of_nat 2) with 65536. rewrite !Z.mod_mod by lia. done.
Qed.

Lemma create_header_truncates_witness :
  w_oom (wire (mkCONN [] [] [] [])) = [] ∧
  wp (create_header JEUX_ACK_PKT 256 0 65537) (wire (mkCONN [] [] [] [])) (λ h w',
    h_id h = 0 ∧ ntohs (h_size h) = 1).
Proof.
  split; [reflexivity|].
  eapply wp_mono; [apply (create_header_truncates JEUX_ACK_PKT 256 0 65537); reflexivity|].
  intros h w' (_ & _ & Hi & _ & Hs & _). split; [exact Hi|exact Hs].
Defined.
