(* ===== verification/PlayerRegistry.v ===== *)
(** * The player registry: [src/player_registry.c]

    The linked list is the list of the players its nodes hold.  The mutex is
    released on every path, and what [preg_register] does under it
    ([preg_enter]) is one step; the reference that is returned is counted
    after it. *)
From S2P Require Import Prelude Game Player World Objects.

(** [length] is an [int], whose overflow is undefined behaviour. *)
Definition pr_count (d : Z) (pr : PLAYER_REGISTRY) : option PLAYER_REGISTRY :=
  n ← int_op (pr_length pr + d); Some (mkPREG (pr_head pr) n).

(** A node at the end of the list. *)
Definition pr_append (player : ptr) (pr : PLAYER_REGISTRY) : option PLAYER_REGISTRY :=
  pr_count 1 (mkPREG (pr_head pr ++ [player]) (pr_length pr)).

Definition preg_init : M ptr := calloc_obj (mkPREG [] 0).

(** The loop of [preg_fini] drops the reference of every node and counts it;
    the list itself is not used again. *)
Fixpoint preg_unref_all (preg : ptr) (l : list ptr) : M () :=
  match l with
  | [] => mret ()
  | p :: l' => player_unref_at p;; update_opt preg (pr_count (-1));; preg_unref_all preg l'
  end.

Definition preg_fini (preg : ptr) : M () :=
  pr ← load preg;
  preg_unref_all preg (pr_head pr);;
  free (V:=PLAYER_REGISTRY) preg.

(** The search of [preg_register]: the player of that name, or [NULL]. *)
Fixpoint preg_find (l : list ptr) (name : list byte) : M ptr :=
  match l with
  | [] => mret NULL
  | p :: l' =>
      n ← player_get_name_at p;
      if decide (n = name) then mret p else preg_find l' name
  end.

(** The player of that name, or a new one at the end of the list. *)
Definition preg_enter (preg : ptr) (name : list byte) : M ptr :=
  pr ← load preg;
  current ← preg_find (pr_head pr) name;
  if decide (current ≠ NULL) then mret current
  else
    player ← player_create_at name;
    if decide (player = NULL) then mret NULL else
    new_player ← calloc;
    if negb new_player then mret NULL else
    pr' ← defined (pr_append player pr);
    store preg pr';;
    mret player.

Definition preg_register (preg : ptr) (name : list byte) : M ptr :=
  player ← preg_enter preg name;
  if decide (player = NULL) then mret NULL else player_ref_at player.
