(* ===== verification/Invitation.v ===== *)
(** * Invitations: [src/invitation.c], [include/invitation.h]

    Everything but [inv_unref], which frees clients and so belongs to the
    recursion of [Sessions].  [inv_close] and [inv_accept] do not take the
    mutex of the invitation; the other functions hold it for one update. *)
From S2P Require Import Prelude Game Player World Objects.

Definition i_set_state (s : INVITATION_STATE) (i : INVITATION) : INVITATION :=
  mkINV s (i_ref_count i) (i_source i) (i_target i) (i_game i) (i_source_role i) (i_target_role i).
Definition i_set_ref_count (n : Z) (i : INVITATION) : INVITATION :=
  mkINV (i_state i) n (i_source i) (i_target i) (i_game i) (i_source_role i) (i_target_role i).
Definition i_set_source (p : ptr) (i : INVITATION) : INVITATION :=
  mkINV (i_state i) (i_ref_count i) p (i_target i) (i_game i) (i_source_role i) (i_target_role i).
Definition i_set_target (p : ptr) (i : INVITATION) : INVITATION :=
  mkINV (i_state i) (i_ref_count i) (i_source i) p (i_game i) (i_source_role i) (i_target_role i).
Definition i_set_game (p : ptr) (i : INVITATION) : INVITATION :=
  mkINV (i_state i) (i_ref_count i) (i_source i) (i_target i) p (i_source_role i) (i_target_role i).
Definition i_set_roles (s t : GAME_ROLE) (i : INVITATION) : INVITATION :=
  mkINV (i_state i) (i_ref_count i) (i_source i) (i_target i) (i_game i) s t.

(** The count is an [int], whose overflow is undefined behaviour. *)
Definition i_count (d : Z) (i : INVITATION) : option INVITATION :=
  n ← int_op (i_ref_count i + d); Some (i_set_ref_count n i).

Definition inv_ref (inv : ptr) : M ptr := update_opt inv (i_count 1);; mret inv.

Definition inv_create (source target : ptr) (source_role target_role : GAME_ROLE) : M ptr :=
  inv ← calloc_obj (mkINV INV_OPEN_STATE 0 NULL NULL NULL NULL_ROLE NULL_ROLE);
  if decide (inv = NULL) then mret NULL
  else
    inv_ref inv;;
    update inv (i_set_source source);;
    client_ref source;;
    update inv (i_set_target target);;
    client_ref target;;
    update inv (i_set_roles source_role target_role);;
    mret inv.

Definition inv_get_source (inv : ptr) : M ptr :=
  if decide (inv = NULL) then mret NULL else i ← load inv; mret (i_source i).
Definition inv_get_target (inv : ptr) : M ptr :=
  if decide (inv = NULL) then mret NULL else i ← load inv; mret (i_target i).
Definition inv_get_source_role (inv : ptr) : M GAME_ROLE := i ← load inv; mret (i_source_role i).
Definition inv_get_target_role (inv : ptr) : M GAME_ROLE := i ← load inv; mret (i_target_role i).
Definition inv_get_game (inv : ptr) : M ptr :=
  if decide (inv = NULL) then mret NULL else i ← load inv; mret (i_game i).

Definition inv_accept (inv : ptr) : M Z :=
  if decide (inv = NULL) then mret (-1) else
  i ← load inv;
  if decide (i_state i ≠ INV_OPEN_STATE) then mret (-1) else
  update inv (i_set_state INV_ACCEPTED_STATE);;
  game ← game_create_at;
  update inv (i_set_game game);;
  if decide (game = NULL) then mret (-1) else mret 0.

Definition inv_close (inv : ptr) (role : GAME_ROLE) : M Z :=
  if decide (inv = NULL) then mret (-1) else
  i ← load inv;
  if decide (i_state i ≠ INV_OPEN_STATE ∧ i_state i ≠ INV_ACCEPTED_STATE) then mret (-1) else
  if decide (i_state i = INV_ACCEPTED_STATE ∧ i_game i = NULL) then mret (-1) else
  if decide (i_state i = INV_ACCEPTED_STATE ∧ role = NULL_ROLE) then mret (-1) else
  (if decide (i_state i = INV_ACCEPTED_STATE)
   then game_resign_at (i_game i) role;; mret () else mret ());;
  if decide (i_state i = INV_OPEN_STATE ∧ role ≠ NULL_ROLE) then mret (-1) else
  if decide (i_state i = INV_OPEN_STATE ∧ i_game i ≠ NULL) then mret (-1) else
  update inv (i_set_state INV_CLOSED_STATE);;
  mret 0.
