(* ===== verification/Client.v ===== *)
(** * Clients: identifiers, invitation lists, packets ([src/client.c])

    The functions of [src/client.c] below the operations on invitations. *)
From S2P Require Import Prelude Game Player World Objects Protocol Invitation.

Definition c_set_ids (ids : list Z) (usage size : Z) (c : CLIENT) : CLIENT :=
  mkCLIENT (c_lock c) (c_cr c) (c_fd c) (c_ref_count c) (c_player c) (c_logged_in c)
    ids usage size (c_invite_head c).
Definition c_set_invites (l : list INVITATION_NODE) (c : CLIENT) : CLIENT :=
  mkCLIENT (c_lock c) (c_cr c) (c_fd c) (c_ref_count c) (c_player c) (c_logged_in c)
    (c_available_ids c) (c_id_usage c) (c_current_id_size c) l.
Definition c_set_player (p : ptr) (c : CLIENT) : CLIENT :=
  mkCLIENT (c_lock c) (c_cr c) (c_fd c) (c_ref_count c) p (c_logged_in c)
    (c_available_ids c) (c_id_usage c) (c_current_id_size c) (c_invite_head c).
Definition c_set_logged_in (s : CLIENT_STATE) (c : CLIENT) : CLIENT :=
  mkCLIENT (c_lock c) (c_cr c) (c_fd c) (c_ref_count c) (c_player c) s
    (c_available_ids c) (c_id_usage c) (c_current_id_size c) (c_invite_head c).

(** ** Creation *)

(** The global semaphores are initialised when [is_sem_init] is 0; nothing
    ever sets it.  [sem_init] and [pthread_mutex_init] are taken to succeed. *)
Definition init_semaphores : M () := λ w,
  if w_is_sem_init w =? 0 then Ret () (set_sems (replicate CLIENT_SEM_FUNCTIONS 1) w)
  else Ret () w.

Definition initial_ids (n : nat) : list Z := Z.of_nat <$> seq 0 n.

Definition client_create (creg : ptr) (fd : Z) : M ptr :=
  init_semaphores;;
  ok ← calloc;
  if negb ok then mret NULL else
  ok_ids ← calloc;
  if negb ok_ids then mret NULL else
  client ← alloc (mkCLIENT false creg fd 0 NULL CLIENT_LOGGED_OUT (initial_ids 100) 0 100 []);
  client_ref client.

(** ** Identifiers *)

(** The search for an entry other than -1 among the first [n] from [i] on;
    the outer [None] is a read out of bounds. *)
Fixpoint find_id (n i : nat) (ids : list Z) : option (option nat) :=
  match n with
  | O => Some None
  | S n' =>
      match ids !! i with
      | None => None
      | Some v => if v =? -1 then find_id n' (S i) ids else Some (Some i)
      end
  end.

Definition get_available_id (client : ptr) : M Z :=
  lock_client client;;
  c ← load client;
  grown ← (if c_current_id_size c <=? c_id_usage c then
             size ← defined (int_op (c_current_id_size c * 2));
             ok ← calloc;
             if ok : bool then
               update client (c_set_ids
                 (c_available_ids c ++
                  (Z.of_nat <$> seq (Z.to_nat (size / 2)) (Z.to_nat (size / 2))))
                 (c_id_usage c) size);;
               mret true
             else
               update client (c_set_ids [] (c_id_usage c) size);; mret false
           else mret true);
  if negb grown then mret (-1) else
  c ← load client;
  found ← defined (find_id (Z.to_nat (c_current_id_size c)) 0 (c_available_ids c));
  id ← (match found with
        | None => mret (-1)
        | Some i =>
            id ← defined (c_available_ids c !! i);
            usage ← defined (int_op (c_id_usage c + 1));
            update client (c_set_ids (<[i := -1]> (c_available_ids c)) usage (c_current_id_size c));;
            mret id
        end);
  unlock_client client;;
  mret id.

Definition purge_id (client : ptr) (id : Z) : M () :=
  lock_client client;;
  c ← load client;
  if c_current_id_size c <=? id then mret ()
  else if (id <? 0) || (Z.of_nat (length (c_available_ids c)) <=? id) then undef
  else
    usage ← defined (int_op (c_id_usage c - 1));
    update client (c_set_ids (<[Z.to_nat id := id]> (c_available_ids c)) usage (c_current_id_size c));;
    unlock_client client.

(** ** The list of invitations *)

Definition find_node (P : INVITATION_NODE → bool) (l : list INVITATION_NODE)
    : option INVITATION_NODE := List.find P l.

Definition client_get_invitation_id (client inv : ptr) : M Z :=
  lock_client client;;
  c ← load client;
  unlock_client client;;
  match find_node (λ n, Nat.eqb (n_invitation n) inv) (c_invite_head c) with
  | Some node => mret (n_id node)
  | None => mret (-1)
  end.

Definition client_get_invitation (client : ptr) (id : Z) : M ptr :=
  lock_client client;;
  c ← load client;
  unlock_client client;;
  match find_node (λ n, n_id n =? id) (c_invite_head c) with
  | Some node => mret (n_invitation node)
  | None => mret NULL
  end.

(** The address of a fresh list node. *)
Definition fresh_addr : M ptr := λ w, Ret (w_brk w) (set_brk (S (w_brk w)) w).

Definition client_add_invitation (client inv : ptr) : M Z :=
  sem_wait CLIENT_INVITE_SEM;;
  calloc_unchecked;;
  node ← fresh_addr;
  id ← get_available_id client;
  inv_ref inv;;
  c ← load client;
  let next := c_invite_head c in
  lock_client client;;
  update client (c_set_invites (mkNODE node id inv :: next));;
  unlock_client client;;
  sem_post CLIENT_INVITE_SEM;;
  mret id.

(** ** Packets *)

Definition client_send_packet (player : ptr) (pkt : JEUX_PACKET_HEADER)
    (data : option (list byte)) : M Z :=
  lock_client player;;
  c ← load player;
  ret ← proto_send_packet (c_fd c) pkt data;
  unlock_client player;;
  mret ret.

Definition client_send_ack (client : ptr) (data : option (list byte)) (datalen : Z) : M Z :=
  lock_client client;;
  pkt ← create_header JEUX_ACK_PKT 0 0 datalen;
  c ← load client;
  ret ← proto_send_packet (c_fd c) pkt data;
  unlock_client client;;
  mret ret.

Definition client_send_nack (client : ptr) : M Z :=
  lock_client client;;
  pkt ← create_header JEUX_NACK_PKT 0 0 0;
  c ← load client;
  ret ← proto_send_packet (c_fd c) pkt None;
  unlock_client client;;
  mret ret.

(** ** Results *)

Definition post_player_results `{Libm} (client opponent : ptr)
    (client_role winner : GAME_ROLE) : M Z :=
  sem_wait CLIENT_UPDATE_ELO;;
  players ← (if decide (client_role = FIRST_PLAYER_ROLE) then
               player1 ← client_get_player client;
               player2 ← client_get_player opponent;
               mret (player1, player2)
             else
               player1 ← client_get_player opponent;
               player2 ← client_get_player client;
               mret (player1, player2));
  if decide (players.1 = NULL ∨ players.2 = NULL) then
    sem_post CLIENT_UPDATE_ELO;; mret (-1)
  else
    player_post_result players.1 players.2 (role_int winner);;
    sem_post CLIENT_UPDATE_ELO;;
    mret 0.

(** ** The identifiers of a client, as a set *)

(** The table is the identity except for the entries in use, which are -1;
    [id_usage] counts them. *)
Definition ids_ok (c : CLIENT) : Prop :=
  Z.of_nat (length (c_available_ids c)) = c_current_id_size c ∧
  100 ≤ c_current_id_size c ≤ INT_MAX ∧
  (∀ i v, c_available_ids c !! i = Some v → v = -1 ∨ v = Z.of_nat i) ∧
  c_id_usage c = Z.of_nat (length (filter (λ v, v = -1) (c_available_ids c))).

(** The identifier is in use. *)
Definition id_used (c : CLIENT) (id : Z) : Prop :=
  0 ≤ id ∧ c_available_ids c !! Z.to_nat id = Some (-1).

(** What [get_available_id] does to the client, as a pure function. *)
Definition grow_ids (c : CLIENT) : CLIENT :=
  if c_current_id_size c <=? c_id_usage c then
    let size := c_current_id_size c * 2 in
    c_set_ids (c_available_ids c ++
               (Z.of_nat <$> seq (Z.to_nat (size / 2)) (Z.to_nat (size / 2))))
      (c_id_usage c) size c
  else c.

Definition take_id (c : CLIENT) : option (Z * CLIENT) :=
  let c' := grow_ids c in
  found ← find_id (Z.to_nat (c_current_id_size c')) 0 (c_available_ids c');
  i ← found;
  id ← c_available_ids c' !! i;
  Some (id, c_set_ids (<[i := -1]> (c_available_ids c')) (c_id_usage c' + 1)
              (c_current_id_size c') c').

Definition give_id (id : Z) (c : CLIENT) : CLIENT :=
  c_set_ids (<[Z.to_nat id := id]> (c_available_ids c)) (c_id_usage c - 1) (c_current_id_size c) c.

(** ** Lemmas on the table *)

Lemma find_id_Some n i ids j :
  find_id n i ids = Some (Some j) →
  (i ≤ j < i + n)%nat ∧ (∃ v, ids !! j = Some v ∧ v ≠ -1) ∧
  (∀ k, (i ≤ k < j)%nat → ids !! k = Some (-1)).
Proof.
  revert i. induction n as [|n IH]; intros i; simpl; [done|].
  destruct (ids !! i) as [v|] eqn:Hi; [|done].
  destruct (Z.eqb_spec v (-1)) as [->|Hv].
  - intros H. destruct (IH _ H) as (? & ? & Hall). split_and!; [lia|lia|done|].
    intros k Hk. destruct (decide (k = i)) as [->|]; [done|]. apply Hall. lia.
  - intros; simplify_eq. split_and!; [lia|lia|eauto|intros; lia].
Qed.

Lemma find_id_all n i ids :
  (i + n ≤ length ids)%nat →
  (∃ j, find_id n i ids = Some (Some j)) ∨
  (find_id n i ids = Some None ∧ ∀ k, (i ≤ k < i + n)%nat → ids !! k = Some (-1)).
Proof.
  revert i. induction n as [|n IH]; intros i Hn; simpl; [right; split; [done|intros; lia]|].
  destruct (lookup_lt_is_Some_2 ids i) as [v Hi]; [lia|]. rewrite Hi.
  destruct (Z.eqb_spec v (-1)) as [->|Hv]; [|eauto].
  destruct (IH (S i)) as [?|[-> Hall]]; [lia|by left|]. right. split; [done|].
  intros k Hk. destruct (decide (k = i)) as [->|]; [done|]. apply Hall. lia.
Qed.

Lemma filter_all_length (l : list Z) :
  (∀ i, (i < length l)%nat → l !! i = Some (-1)) → length (filter (λ v, v = -1) l) = length l.
Proof.
  induction l as [|v l IH]; intros H; [done|].
  assert (v = -1) as -> by (specialize (H 0%nat ltac:(simpl; lia)); by simplify_eq/=).
  rewrite filter_cons_True by done. simpl. f_equal. apply IH.
  intros i Hi. apply (H (S i)). simpl. lia.
Qed.

Lemma filter_full (l : list Z) i v :
  length (filter (λ v, v = -1) l) = length l → l !! i = Some v → v = -1.
Proof.
  revert i. induction l as [|x l IH]; intros i Hl Hi; [done|].
  pose proof (length_filter (λ v, v = -1) l).
  rewrite filter_cons in Hl. case_decide; simpl in Hl; [|lia].
  destruct i; simplify_eq/=; [done|]. eapply IH; [lia|done].
Qed.

Lemma filter_none (l : list Z) : (∀ v, v ∈ l → v ≠ -1) → filter (λ v, v = -1) l = [].
Proof.
  induction l as [|x l IH]; intros H; [done|].
  rewrite filter_cons_False by (apply H; by left). apply IH. intros v Hv. apply H. by right.
Qed.

Lemma filter_insert (l : list Z) i v v' :
  l !! i = Some v →
  Z.of_nat (length (filter (λ v, v = -1) (<[i:=v']> l))) =
  Z.of_nat (length (filter (λ v, v = -1) l)) - (if decide (v = -1) then 1 else 0)
  + (if decide (v' = -1) then 1 else 0).
Proof.
  revert i. induction l as [|x l IH]; intros i Hi; [done|].
  destruct i as [|i]; simplify_eq/=.
  - rewrite !filter_cons. repeat case_decide; simpl; lia.
  - rewrite !filter_cons. specialize (IH i Hi). destruct (decide (x = -1)); cbn [length]; lia.
Qed.

(** Growing keeps the table well formed and leaves a free entry. *)
Lemma grow_ids_ok c :
  ids_ok c → c_current_id_size c * 2 ≤ INT_MAX →
  ids_ok (grow_ids c) ∧ c_id_usage (grow_ids c) = c_id_usage c ∧
  c_id_usage (grow_ids c) < c_current_id_size (grow_ids c) ∧
  (∀ id, id_used (grow_ids c) id ↔ id_used c id).
Proof.
  intros Hok Hmax. pose proof Hok as (Hlen & Hsize & Hval & Huse). unfold grow_ids.
  destruct (Z.leb_spec (c_current_id_size c) (c_id_usage c)) as [Hfull|Hfree];
    [|split; [exact Hok|]; split; [done|]; split; [lia|done]].
  cbn.
  rewrite Z.div_mul by lia.
  set (ids := c_available_ids c) in *.
  set (n := Z.to_nat (c_current_id_size c)) in *.
  assert (length ids = n) as Hn by lia.
  assert (filter (λ v, v = -1) (Z.of_nat <$> seq n n) = []) as Hnone.
  { apply filter_none. intros v Hv. apply list_elem_of_fmap in Hv as (x & -> & _). lia. }
  pose proof (length_filter (λ v, v = -1) ids).
  split; [|split; [done|split; [cbn; lia|]]].
  - unfold ids_ok. cbn. split; [|split; [lia|split]].
    + rewrite length_app, length_fmap, length_seq. lia.
    + intros i v Hi. apply lookup_app_Some in Hi as [Hi|[Hge Hi]]; [by apply Hval|].
      apply list_lookup_fmap_Some in Hi as (x & -> & [-> Hx]%lookup_seq). right. lia.
    + by rewrite filter_app, Hnone, app_nil_r.
  - intros id. unfold id_used. cbn. split; intros [H0 Hi]; (split; [done|]).
    + apply lookup_app_Some in Hi as [Hi|[Hge Hi]]; [done|].
      apply list_lookup_fmap_Some in Hi as (x & ? & _). lia.
    + by apply lookup_app_l_Some.
Qed.

(** [take_id] finds the lowest free identifier. *)
Lemma take_id_spec c :
  ids_ok c → c_current_id_size c * 2 ≤ INT_MAX →
  ∃ id c', take_id c = Some (id, c') ∧ ids_ok c' ∧ 0 ≤ id ∧ ¬ id_used c id ∧
    (∀ j, 0 ≤ j < id → id_used c j) ∧
    (∀ j, id_used c' j ↔ j = id ∨ id_used c j) ∧
    c' = c_set_ids (c_available_ids c') (c_id_usage c + 1) (c_current_id_size c') c.
Proof.
  intros Hok Hmax. destruct (grow_ids_ok c Hok Hmax) as (Hok' & Husage & Hfree & Hused).
  unfold take_id. remember (grow_ids c) as g eqn:Hg.
  destruct Hok' as (Hlen & Hsize & Hval & Huse).
  destruct (find_id_all (Z.to_nat (c_current_id_size g)) 0 (c_available_ids g)) as [[i Hf]|[_ Hall]];
    [lia| |].
  2: { rewrite filter_all_length in Huse; [lia|]. intros k Hk. apply Hall. lia. }
  rewrite Hf. cbn. apply find_id_Some in Hf as (Hi & (v & Hv & Hne) & Hlow).
  rewrite Hv. cbn. destruct (Hval i v Hv) as [?| ->]; [done|].
  exists (Z.of_nat i), (c_set_ids (<[i := -1]> (c_available_ids g)) (c_id_usage g + 1) (c_current_id_size g) g).
  split; [done|]. split_and!.
  - unfold ids_ok. cbn. split; [by rewrite length_insert|]. split; [done|]. split.
    + intros j x Hj. destruct (decide (i = j)) as [->|].
      * rewrite list_lookup_insert_eq in Hj by (by eapply lookup_lt_Some). left. by simplify_eq.
      * rewrite list_lookup_insert_ne in Hj by done. by apply Hval.
    + rewrite (filter_insert _ _ _ _ Hv). rewrite decide_False by done.
      rewrite decide_True by done. lia.
  - lia.
  - rewrite <-Hused. intros [_ H]. rewrite Nat2Z.id in H. congruence.
  - intros j Hj. rewrite <-Hused. split; [lia|]. apply Hlow. lia.
  - intros j. rewrite <-Hused. unfold id_used. cbn.
    split; [intros [H0 Hj]|intros [->|[H0 Hj]]].
    + destruct (decide (i = Z.to_nat j)) as [->|]; [left; lia|right].
      by rewrite list_lookup_insert_ne in Hj.
    + split; [lia|]. rewrite Nat2Z.id, list_lookup_insert_eq; [done|by eapply lookup_lt_Some].
    + split; [done|]. destruct (decide (i = Z.to_nat j)) as [->|]; [congruence|].
      by rewrite list_lookup_insert_ne.
  - rewrite Hg. unfold grow_ids. by destruct (_ <=? _).
Qed.

Lemma give_id_spec c id :
  ids_ok c → id_used c id →
  ids_ok (give_id id c) ∧ (∀ j, id_used (give_id id c) j ↔ id_used c j ∧ j ≠ id).
Proof.
  intros (Hlen & Hsize & Hval & Huse) [H0 Hid].
  pose proof (lookup_lt_Some _ _ _ Hid) as Hlt. split.
  - unfold ids_ok, give_id. cbn. split; [by rewrite length_insert|]. split; [done|]. split.
    + intros j x Hj. destruct (decide (Z.to_nat id = j)) as [<-|].
      * rewrite list_lookup_insert_eq in Hj by done. right. simplify_eq. lia.
      * rewrite list_lookup_insert_ne in Hj by done. by apply Hval.
    + rewrite (filter_insert _ _ _ _ Hid). rewrite decide_True by done.
      rewrite decide_False by lia. lia.
  - intros j. unfold id_used, give_id. cbn. split.
    + intros [Hj Hl]. destruct (decide (Z.to_nat id = Z.to_nat j)) as [E|E].
      * rewrite E, list_lookup_insert_eq in Hl by (by rewrite <-E). simplify_eq. lia.
      * rewrite list_lookup_insert_ne in Hl by done. split; [done|]. by intros ->.
    + intros [[Hj Hl] Hne]. split; [done|].
      rewrite list_lookup_insert_ne; [done|]. intros E. apply Hne. lia.
Qed.

(** ** The calls are these functions *)

Lemma upd_client_mem p c w :
  w_oom (upd_client p c w) = w_oom w ∧ w_sems (upd_client p c w) = w_sems w.
Proof. done. Qed.

(** [get_available_id] is [take_id], under the mutex. *)
Lemma get_available_id_run p c w :
  w_clients w !! p = Some c → c_lock c = false → w_oom w = [] → ids_ok c →
  c_current_id_size c * 2 ≤ INT_MAX →
  ∃ id c', take_id c = Some (id, c') ∧ get_available_id p w = Ret id (upd_client p c' w).
Proof.
  intros Hp Hl Hoom Hok Hmax.
  destruct (take_id_spec c Hok Hmax) as (id & c' & Htake & _). exists id, c'. split; [done|].
  destruct (grow_ids_ok c Hok Hmax) as ((_ & Hgsize & _ & Hguse) & Hgsame & Hgfree & _).
  destruct Hok as (Hlen & Hsize & _).
  unfold take_id in Htake. apply bind_Some in Htake as (found & Hf & Htake).
  apply bind_Some in Htake as (i & -> & Htake).
  apply bind_Some in Htake as (v & Hv & Htake). injection Htake as -> <-.
  unfold get_available_id. run lock_client_run.
  run load_client_run by (apply upd_client_lookup).
  unfold grow_ids in *.
  cbn [c_set_lock c_current_id_size c_id_usage c_available_ids].
  destruct (c_current_id_size c <=? c_id_usage c).
  - run defined_run by (apply int_op_Some; unfold INT_MIN; lia).
    run calloc_run by done.
    run update_client_run by (apply upd_client_lookup).
    rewrite upd_client_twice. cbn [negb]. cbv iota.
    run load_client_run by (apply upd_client_lookup).
    run defined_run by exact Hf.
    run defined_run by exact Hv.
    run defined_run by (apply int_op_Some; cbn in Hgsize, Hguse, Hgsame, Hgfree |- *; unfold INT_MIN; lia).
    run update_client_run by (apply upd_client_lookup).
    run unlock_client_run by (apply upd_client_lookup).
    rewrite !upd_client_twice. by destruct c; simplify_eq/=.
  - cbn [negb]. flat.
    run load_client_run by (apply upd_client_lookup).
    run defined_run by exact Hf.
    run defined_run by exact Hv.
    run defined_run by (apply int_op_Some; cbn in Hgsize, Hguse, Hgsame, Hgfree |- *; unfold INT_MIN; lia).
    run update_client_run by (apply upd_client_lookup).
    run unlock_client_run by (apply upd_client_lookup).
    rewrite !upd_client_twice. by destruct c; simplify_eq/=.
Qed.

(** [purge_id] on an identifier in use is [give_id]. *)
Lemma purge_id_run p c id w :
  w_clients w !! p = Some c → c_lock c = false → ids_ok c → id_used c id →
  purge_id p id w = Ret () (upd_client p (give_id id c) w).
Proof.
  intros Hp Hl (Hlen & Hsize & _ & Huse) [H0 Hid]. pose proof (lookup_lt_Some _ _ _ Hid) as Hlt.
  pose proof (length_filter (λ v, v = -1) (c_available_ids c)) as Hle.
  unfold purge_id. run lock_client_run. run load_client_run by (apply upd_client_lookup).
  cbn [c_set_lock c_current_id_size c_id_usage c_available_ids].
  destruct (Z.leb_spec (c_current_id_size c) id); [lia|].
  destruct (Z.ltb_spec id 0); [lia|]. cbn [orb].
  destruct (Z.leb_spec (Z.of_nat (length (c_available_ids c))) id); [lia|].
  run defined_run by (apply int_op_Some; unfold INT_MIN; lia).
  run update_client_run by (apply upd_client_lookup).
  erewrite unlock_client_run by (apply upd_client_lookup).
  rewrite !upd_client_twice. by destruct c; simplify_eq/=.
Qed.

(** C38: While memory lasts, [get_available_id] returns the lowest identifier
    the client has not in use, doubling the table when it is full, marks
    exactly that one used and changes nothing else; [purge_id] of it then
    gives it back.  The mutex is free again after both. *)
Theorem available_ids_correct p c w :
  w_clients w !! p = Some c → c_lock c = false → w_oom w = [] → ids_ok c →
  c_current_id_size c * 2 ≤ INT_MAX →
  ∃ id ids size,
    let c' := c_set_ids ids (c_id_usage c + 1) size c in
    get_available_id p w = Ret id (upd_client p c' w) ∧ ids_ok c' ∧
    0 ≤ id ∧ ¬ id_used c id ∧ (∀ j, 0 ≤ j < id → id_used c j) ∧
    (∀ j, id_used c' j ↔ j = id ∨ id_used c j) ∧
    purge_id p id (upd_client p c' w) = Ret () (upd_client p (give_id id c') w) ∧
    ids_ok (give_id id c') ∧ (∀ j, id_used (give_id id c') j ↔ id_used c j).
Proof.
  intros Hp Hl Hoom Hok Hmax.
  destruct (get_available_id_run p c w Hp Hl Hoom Hok Hmax) as (id & c' & Htake & Hrun).
  destruct (take_id_spec c Hok Hmax) as (id2 & c2 & Htake' & Hok' & H0 & Hfree & Hlow & Hused & Hc').
  rewrite Htake in Htake'. injection Htake' as <- <-.
  assert (id_used c' id) as Hid by (apply Hused; by left).
  destruct (give_id_spec c' id Hok' Hid) as [Hgok Hgused].
  exists id, (c_available_ids c'), (c_current_id_size c'). cbv zeta. rewrite <-Hc'.
  assert (c_lock c' = false) as Hl2 by (rewrite Hc'; exact Hl).
  split; [done|]. do 5 (split; [done|]). split; [|split; [done|]].
  - rewrite (purge_id_run p c') by (try apply upd_client_lookup; done).
    by rewrite upd_client_twice.
  - intros j. rewrite Hgused, Hused. split; [|intros Hj; split; [by right|congruence]].
    by intros [[->|?] ?].
Qed.

(** A world with one new client, at address 1. *)
Definition one_client : world :=
  mkWORLD 2 {[1%nat := mkCLIENT false 0 3 1 0 CLIENT_LOGGED_OUT (initial_ids 100) 0 100 []]}
    ∅ ∅ ∅ ∅ ∅ (replicate CLIENT_SEM_FUNCTIONS 1) 0 ∅ [] [].

Lemma initial_ids_ok lock cr fd n p l inv :
  ids_ok (mkCLIENT lock cr fd n p l (initial_ids 100) 0 100 inv).
Proof.
  unfold ids_ok. cbn [c_available_ids c_current_id_size c_id_usage].
  split; [reflexivity|]. split; [unfold INT_MAX; lia|]. split; [|reflexivity].
  intros i v Hi. unfold initial_ids in Hi. apply list_lookup_fmap_Some in Hi as (x & -> & Hx).
  apply lookup_seq in Hx as [-> _]. by right.
Qed.

Lemma available_ids_correct_witness :
  ∃ id ids size,
    let c := mkCLIENT false 0 3 1 0 CLIENT_LOGGED_OUT (initial_ids 100) 0 100 [] in
    let c' := c_set_ids ids 1 size c in
    get_available_id 1 one_client = Ret id (upd_client 1 c' one_client) ∧ ids_ok c'.
Proof.
  destruct (available_ids_correct 1
    (mkCLIENT false 0 3 1 0 CLIENT_LOGGED_OUT (initial_ids 100) 0 100 []) one_client)
    as (id & ids & size & H1 & H2 & _).
  - reflexivity.
  - reflexivity.
  - reflexivity.
  - apply initial_ids_ok.
  - vm_compute. discriminate.
  - exists id, ids, size. split; [exact H1|exact H2].
Defined.
