(* ===== verification/Sessions.v ===== *)
(** * The life of an invitation: make, accept, decline, revoke, resign, move

    The operations of [src/client.c] that the packets of a client trigger,
    with [inv_unref] of [src/invitation.c].  [client_unref] frees a client
    whose count reaches zero, logging it out first, and a logout resigns and
    removes invitations, which drops references to clients again: the cycle
    is cut by a fuel, and [client_unref] starts it with more than the number
    of clients that could be freed in turn. *)
From S2P Require Import Prelude Game Player World Objects Protocol Invitation Client.

Section recursion.
Context `{Libm}.
(** [client_unref] at the next depth. *)
Context (client_unref' : ptr → M ()).

Definition inv_unref' (inv : ptr) : M () :=
  update_opt inv (i_count (-1));;
  i ← load inv;
  if i_ref_count i =? 0 then
    (if decide (i_game i ≠ NULL) then game_unref_at (i_game i) else mret ());;
    client_unref' (i_source i);;
    client_unref' (i_target i);;
    free (V:=INVITATION) inv
  else mret ().

(** The list without its first node for [inv]. *)
Fixpoint unlink (inv : ptr) (l : list INVITATION_NODE) : list INVITATION_NODE :=
  match l with
  | [] => []
  | n :: l' => if Nat.eqb (n_invitation n) inv then l' else n :: unlink inv l'
  end.

Definition client_remove_invitation' (client inv : ptr) : M Z :=
  sem_wait CLIENT_INVITE_SEM;;
  c ← load client;
  match find_node (λ n, Nat.eqb (n_invitation n) inv) (c_invite_head c) with
  | None => sem_post CLIENT_INVITE_SEM;; mret (-1)
  | Some node =>
      update client (λ c', c_set_invites (unlink inv (c_invite_head c')) c');;
      inv_unref' inv;;
      let id := n_id node in
      purge_id client id;;
      sem_post CLIENT_INVITE_SEM;;
      mret id
  end.

Definition client_make_invitation' (source target : ptr)
    (source_role target_role : GAME_ROLE) : M Z :=
  sem_wait CLIENT_INVITE_OP_SEM;;
  invite ← inv_create source target source_role target_role;
  if decide (invite = NULL) then sem_post CLIENT_INVITE_OP_SEM;; mret (-1) else
  source_id ← client_add_invitation source invite;
  if source_id =? -1 then
    inv_unref' invite;; sem_post CLIENT_INVITE_OP_SEM;; mret (-1)
  else
  target_id ← client_add_invitation target invite;
  if target_id =? -1 then sem_post CLIENT_INVITE_OP_SEM;; mret (-1) else
  c ← load source;
  playername ← player_get_name_at (c_player c);
  pkt ← create_header JEUX_INVITED_PKT target_id (role_int target_role) (strlen playername);
  client_send_packet target pkt (Some playername);;
  inv_unref' invite;;
  sem_post CLIENT_INVITE_OP_SEM;;
  mret source_id.

Definition client_revoke_invitation' (client : ptr) (id : Z) : M Z :=
  sem_wait CLIENT_INVITE_OP_SEM;;
  inv ← client_get_invitation client id;
  r ← inv_close inv NULL_ROLE;
  if r =? -1 then sem_post CLIENT_INVITE_OP_SEM;; mret (-1) else
  target ← inv_get_target inv;
  target_id ← client_get_invitation_id target inv;
  pkt ← create_header JEUX_REVOKED_PKT target_id 0 0;
  s ← client_send_packet target pkt None;
  if s =? -1 then sem_post CLIENT_INVITE_OP_SEM;; mret (-1) else
  r1 ← client_remove_invitation' client inv;
  if r1 =? -1 then sem_post CLIENT_INVITE_OP_SEM;; mret (-1) else
  r2 ← client_remove_invitation' target inv;
  if r2 =? -1 then sem_post CLIENT_INVITE_OP_SEM;; mret (-1) else
  sem_post CLIENT_INVITE_OP_SEM;;
  mret 0.

Definition client_decline_invitation' (client : ptr) (id : Z) : M Z :=
  sem_wait CLIENT_INVITE_OP_SEM;;
  inv ← client_get_invitation client id;
  r ← inv_close inv NULL_ROLE;
  if r =? -1 then sem_post CLIENT_INVITE_OP_SEM;; mret (-1) else
  source ← inv_get_source inv;
  source_id ← client_get_invitation_id source inv;
  pkt ← create_header JEUX_DECLINED_PKT source_id 0 0;
  client_send_packet source pkt None;;
  client_remove_invitation' client inv;;
  client_remove_invitation' source inv;;
  sem_post CLIENT_INVITE_OP_SEM;;
  mret 0.

Definition client_resign_game' (client : ptr) (id : Z) : M Z :=
  sem_wait CLIENT_INVITE_OP_SEM;;
  inv ← client_get_invitation client id;
  source ← inv_get_source inv;
  target ← inv_get_target inv;
  if decide (client ≠ source ∧ client ≠ target) then
    sem_post CLIENT_INVITE_OP_SEM;; mret (-1)
  else
  source_role ← inv_get_source_role inv;
  target_role ← inv_get_target_role inv;
  let role := if decide (client = source) then source_role else target_role in
  let opponent := if decide (client = source) then target else source in
  let opp_role := if decide (client = source) then target_role else source_role in
  r ← inv_close inv role;
  if r =? -1 then sem_post CLIENT_INVITE_OP_SEM;; mret (-1) else
  opponent_id ← client_get_invitation_id opponent inv;
  pkt ← create_header JEUX_RESIGNED_PKT opponent_id 0 0;
  s ← client_send_packet opponent pkt None;
  if negb (s =? 0) then sem_post CLIENT_INVITE_OP_SEM;; mret (-1) else
  p ← post_player_results client opponent role opp_role;
  if p =? -1 then sem_post CLIENT_INVITE_OP_SEM;; mret (-1) else
  r1 ← client_remove_invitation' client inv;
  if r1 =? -1 then sem_post CLIENT_INVITE_OP_SEM;; mret (-1) else
  r2 ← client_remove_invitation' opponent inv;
  if r2 =? -1 then sem_post CLIENT_INVITE_OP_SEM;; mret (-1) else
  sem_post CLIENT_INVITE_OP_SEM;;
  mret 0.

(** The node at address [a] in a list, and the address of the next one. *)
Fixpoint node_at (a : ptr) (l : list INVITATION_NODE) : option (INVITATION_NODE * ptr) :=
  match l with
  | [] => None
  | n :: l' =>
      if Nat.eqb (n_addr n) a
      then Some (n, match l' with n' :: _ => n_addr n' | [] => NULL end)
      else node_at a l'
  end.

Definition head_addr (l : list INVITATION_NODE) : ptr :=
  match l with n :: _ => n_addr n | [] => NULL end.

(** The loop of [client_logout]: reading a node that has left the list is
    reading freed memory. *)
Fixpoint logout_loop (fuel : nat) (client node : ptr) : M () :=
  if decide (node = NULL) then mret () else
  match fuel with
  | O => out_of_fuel
  | S fuel' =>
      c ← load client;
      nn ← defined (node_at node (c_invite_head c));
      let inv := n_invitation nn.1 in
      game ← inv_get_game inv;
      (if decide (game ≠ NULL) then client_resign_game' client (n_id nn.1)
       else
         source ← inv_get_source inv;
         if decide (source = client) then client_revoke_invitation' client (n_id nn.1)
         else client_decline_invitation' client (n_id nn.1));;
      logout_loop fuel' client nn.2
  end.

Definition client_logout' (client : ptr) : M Z :=
  c ← load client;
  if decide (c_logged_in c ≠ CLIENT_LOGGED_IN) then mret (-1) else
  sem_wait CLIENT_LOGOUT_SEM;;
  c ← load client;
  logout_loop (length (c_invite_head c)) client (head_addr (c_invite_head c));;
  c ← load client;
  player_unref_at (c_player c);;
  update client (c_set_logged_in CLIENT_LOGGED_OUT);;
  sem_post CLIENT_LOGOUT_SEM;;
  mret 0.
End recursion.

(** [client_unref] with at most [fuel] nested logouts. *)
Fixpoint client_unref_fuel `{Libm} (fuel : nat) (client : ptr) : M () :=
  match fuel with
  | O => out_of_fuel
  | S fuel' =>
      lock_client client;;
      update_opt client (c_count (-1));;
      unlock_client client;;
      c ← load client;
      if c_ref_count c =? 0 then
        (if decide (c_logged_in c = CLIENT_LOGGED_IN)
         then client_logout' (client_unref_fuel fuel') client;; mret ()
         else mret ());;
        free (V:=CLIENT) client
      else mret ()
  end.

Section operations.
Context `{Libm}.

Definition client_unref (client : ptr) : M () :=
  n ← gets (λ w, size (w_clients w)); client_unref_fuel (S n) client.

Definition inv_unref (inv : ptr) : M () := inv_unref' client_unref inv.
Definition client_remove_invitation := client_remove_invitation' client_unref.
Definition client_make_invitation := client_make_invitation' client_unref.
Definition client_revoke_invitation := client_revoke_invitation' client_unref.
Definition client_decline_invitation := client_decline_invitation' client_unref.
Definition client_resign_game := client_resign_game' client_unref.
Definition client_logout := client_logout' client_unref.

(** The status, and the string stored through [strp]. *)
Definition client_accept_invitation (client : ptr) (id : Z) : M (Z * option (list byte)) :=
  sem_wait CLIENT_INVITE_OP_SEM;;
  inv ← client_get_invitation client id;
  target ← inv_get_target inv;
  if decide (target ≠ client) then sem_post CLIENT_INVITE_OP_SEM;; mret (-1, None) else
  r ← inv_accept inv;
  if r =? -1 then sem_post CLIENT_INVITE_OP_SEM;; mret (-1, None) else
  game ← inv_get_game inv;
  source ← inv_get_source inv;
  source_id ← client_get_invitation_id source inv;
  role ← inv_get_target_role inv;
  game_state ← game_unparse_state_at game;
  let strp := if decide (role ≠ FIRST_PLAYER_ROLE) then None else Some game_state in
  let source_game_state :=
    if decide (role ≠ FIRST_PLAYER_ROLE) then Some game_state else None in
  let source_length :=
    if decide (role ≠ FIRST_PLAYER_ROLE) then strlen game_state else 0 in
  pkt ← create_header JEUX_ACCEPTED_PKT source_id 0 source_length;
  s ← client_send_packet source pkt source_game_state;
  if s =? -1 then sem_post CLIENT_INVITE_OP_SEM;; mret (-1, strp) else
  sem_post CLIENT_INVITE_OP_SEM;;
  mret (0, strp).

Definition client_make_move (client : ptr) (id : Z) (move : list byte) : M Z :=
  sem_wait CLIENT_INVITE_OP_SEM;;
  inv ← client_get_invitation client id;
  game ← inv_get_game inv;
  if decide (game = NULL) then sem_post CLIENT_INVITE_OP_SEM;; mret (-1) else
  source ← inv_get_source inv;
  target ← inv_get_target inv;
  if decide (client ≠ source ∧ client ≠ target) then
    sem_post CLIENT_INVITE_OP_SEM;; mret (-1)
  else
  source_role ← inv_get_source_role inv;
  target_role ← inv_get_target_role inv;
  let role := if decide (client = source) then source_role else target_role in
  let opponent := if decide (client = source) then target else source in
  game_move ← game_parse_move_at game role move;
  match game_move with
  | None => sem_post CLIENT_INVITE_OP_SEM;; mret (-1)
  | Some mv =>
  a ← game_apply_move_at game mv;
  if a =? -1 then sem_post CLIENT_INVITE_OP_SEM;; mret (-1) else
  state ← game_unparse_state_at game;
  opponent_id ← client_get_invitation_id opponent inv;
  pkt ← create_header JEUX_MOVED_PKT opponent_id 0 (strlen state);
  s ← client_send_packet opponent pkt (Some state);
  if s =? -1 then sem_post CLIENT_INVITE_OP_SEM;; mret (-1) else
  over ← game_is_over_at game;
  if over =? 0 then sem_post CLIENT_INVITE_OP_SEM;; mret 0 else
  winner ← game_get_winner_at game;
  pkt ← create_header JEUX_ENDED_PKT opponent_id (role_int winner) 0;
  s1 ← client_send_packet opponent pkt None;
  if s1 =? -1 then sem_post CLIENT_INVITE_OP_SEM;; mret (-1) else
  let pkt := mkHDR (h_type pkt) (uint8 id) (h_role pkt) (h_size pkt)
               (h_timestamp_sec pkt) (h_timestamp_nsec pkt) in
  s2 ← client_send_packet client pkt None;
  if s2 =? -1 then sem_post CLIENT_INVITE_OP_SEM;; mret (-1) else
  post_player_results client opponent role winner;;
  r1 ← client_remove_invitation client inv;
  if r1 =? -1 then sem_post CLIENT_INVITE_OP_SEM;; mret (-1) else
  r2 ← client_remove_invitation opponent inv;
  if r2 =? -1 then sem_post CLIENT_INVITE_OP_SEM;; mret (-1) else
  sem_post CLIENT_INVITE_OP_SEM;;
  mret 0
  end.
End operations.
