(* ===== verification/ClientRegistry.v ===== *)
(** * The client registry, and logging in: [src/client_registry.c]

    The array of clients, its mutex and its two semaphores; [client_login]
    of [src/client.c] is here because it searches the registry. *)
From S2P Require Import Prelude Game Player World Objects Protocol Invitation Client Sessions.

Definition cr_set_sem (n : Z) (cr : CLIENT_REGISTRY) : CLIENT_REGISTRY :=
  mkCREG (cr_mutex cr) n (cr_length cr) (cr_no cr) (cr_clients cr) (cr_login_queue cr).
Definition cr_set_length (n : Z) (cr : CLIENT_REGISTRY) : CLIENT_REGISTRY :=
  mkCREG (cr_mutex cr) (cr_sem cr) n (cr_no cr) (cr_clients cr) (cr_login_queue cr).
Definition cr_set_no (n : Z) (cr : CLIENT_REGISTRY) : CLIENT_REGISTRY :=
  mkCREG (cr_mutex cr) (cr_sem cr) (cr_length cr) n (cr_clients cr) (cr_login_queue cr).
Definition cr_set_clients (l : list ptr) (cr : CLIENT_REGISTRY) : CLIENT_REGISTRY :=
  mkCREG (cr_mutex cr) (cr_sem cr) (cr_length cr) (cr_no cr) l (cr_login_queue cr).
Definition cr_set_login_queue (n : Z) (cr : CLIENT_REGISTRY) : CLIENT_REGISTRY :=
  mkCREG (cr_mutex cr) (cr_sem cr) (cr_length cr) (cr_no cr) (cr_clients cr) n.

(** [length] is an [int], whose overflow is undefined behaviour. *)
Definition cr_count (d : Z) (cr : CLIENT_REGISTRY) : option CLIENT_REGISTRY :=
  n ← int_op (cr_length cr + d); Some (cr_set_length n cr).

(** The clients the registry holds: the first [length] entries. *)
Definition cr_registered (cr : CLIENT_REGISTRY) : list ptr :=
  take (Z.to_nat (cr_length cr)) (cr_clients cr).

(** [sem_init] and [pthread_mutex_init] are taken to succeed. *)
Definition creg_init : M ptr :=
  calloc_obj (mkCREG false 0 0 0 (replicate (Z.to_nat MAX_CLIENTS) NULL) MAX_CLIENTS).

Definition creg_fini (cr : ptr) : M () := free (V:=CLIENT_REGISTRY) cr.

(** [sem_wait] and [sem_post] on the semaphores of the registry. *)
Definition creg_wait_login_queue (cr : ptr) : M () :=
  r ← load cr;
  if 0 <? cr_login_queue r then store cr (cr_set_login_queue (cr_login_queue r - 1) r) else stuck.
Definition creg_post_login_queue (cr : ptr) : M () :=
  update cr (λ r, cr_set_login_queue (cr_login_queue r + 1) r).
Definition creg_wait_sem (cr : ptr) : M () :=
  r ← load cr;
  if 0 <? cr_sem r then store cr (cr_set_sem (cr_sem r - 1) r) else stuck.
Definition creg_post_sem (cr : ptr) : M () := update cr (λ r, cr_set_sem (cr_sem r + 1) r).

Definition creg_register (cr : ptr) (fd : Z) : M ptr :=
  if decide (cr = NULL) then mret NULL else
  r ← load cr;
  if MAX_CLIENTS <=? cr_length r then mret NULL else
  if cr_no r =? 1 then mret NULL else
  creg_wait_login_queue cr;;
  lock_creg cr;;
  client ← client_create cr fd;
  r ← load cr;
  (if (cr_length r <? 0) || (MAX_CLIENTS <=? cr_length r) then undef else mret ());;
  update cr (λ r', cr_set_clients (<[Z.to_nat (cr_length r) := client]> (cr_clients r')) r');;
  update_opt cr (cr_count 1);;
  unlock_creg cr;;
  mret client.

(** [clients[i] = NULL] and the loop that moves the later entries up. *)
Fixpoint shift_up (l : list ptr) (js : list nat) : list ptr :=
  match js with
  | [] => l
  | j :: js' => shift_up (<[j := default NULL (l !! S j)]> l) js'
  end.

Definition remove_slot (l : list ptr) (i len : nat) : list ptr :=
  shift_up (<[i := NULL]> l) (seq i (len - 1 - i)).

(** The index at which a client is registered. *)
Fixpoint slot_of (client : ptr) (l : list ptr) : option nat :=
  match l with
  | [] => None
  | c :: l' => if Nat.eqb c client then Some 0%nat else S <$> slot_of client l'
  end.

Section creg.
Context `{Libm}.

Definition creg_unregister (cr client : ptr) : M Z :=
  if decide (cr = NULL ∨ client = NULL) then mret (-1) else
  lock_creg cr;;
  r ← load cr;
  match slot_of client (cr_registered r) with
  | None => unlock_creg cr;; mret (-1)
  | Some i =>
      update cr (λ r', cr_set_clients (remove_slot (cr_clients r') i (Z.to_nat (cr_length r))) r');;
      client_logout client;;
      client_unref client;;
      update_opt cr (cr_count (-1));;
      creg_post_login_queue cr;;
      r ← load cr;
      (if cr_length r =? 0 then creg_post_sem cr else mret ());;
      unlock_creg cr;;
      mret 0
  end.
End creg.

(** The search of [creg_lookup] over the registered clients. *)
Fixpoint lookup_user (l : list ptr) (user : list byte) : M ptr :=
  match l with
  | [] => mret NULL
  | c :: l' =>
      if decide (c = NULL) then lookup_user l' user else
      player ← client_get_player c;
      if decide (player = NULL) then lookup_user l' user else
      name ← player_get_name_at player;
      if decide (name = user) then client_ref c else lookup_user l' user
  end.

Definition creg_lookup (cr : ptr) (user : list byte) : M ptr :=
  if decide (cr = NULL) then mret NULL else
  lock_creg cr;;
  r ← load cr;
  c ← lookup_user (cr_registered r) user;
  unlock_creg cr;;
  mret c.

(** The loop of [creg_all_players]: each player gets a reference. *)
Fixpoint collect_players (l : list ptr) : M (list ptr) :=
  match l with
  | [] => mret []
  | c :: l' =>
      if decide (c = NULL) then collect_players l' else
      player ← client_get_player c;
      if decide (player = NULL) then collect_players l' else
      player_ref_at player;;
      ps ← collect_players l';
      mret (player :: ps)
  end.

(** [None]: the array could not be allocated, and the mutex stays locked.
    The shrinking [realloc] is taken to succeed. *)
Definition creg_all_players (cr : ptr) : M (option (list ptr)) :=
  lock_creg cr;;
  ok ← calloc;
  if negb ok then mret None else
  r ← load cr;
  players ← collect_players (cr_registered r);
  unlock_creg cr;;
  mret (Some players).

Definition creg_wait_for_empty (cr : ptr) : M () :=
  r ← load cr;
  if 0 <? cr_length r then creg_wait_sem cr else mret ().

Fixpoint shutdown_clients (l : list ptr) : M () :=
  match l with
  | [] => mret ()
  | c :: l' =>
      (if decide (c = NULL) then mret () else fd ← client_get_fd c; sys_shutdown_rd fd);;
      shutdown_clients l'
  end.

Definition creg_shutdown_all (cr : ptr) : M () :=
  lock_creg cr;;
  update cr (cr_set_no 1);;
  r ← load cr;
  shutdown_clients (cr_registered r);;
  unlock_creg cr.

(** ** Logging in *)

(** The loop of [client_login]: does a logged-in player have this name?  The
    references of [creg_all_players] are dropped on the way. *)
Fixpoint name_taken (players : list ptr) (name : list byte) : M bool :=
  match players with
  | [] => mret false
  | p :: ps =>
      n ← player_get_name_at p;
      player_unref_at p;;
      rest ← name_taken ps name;
      mret (bool_decide (n = name) || rest)
  end.

(** The first return leaves [CLIENT_LOGIN_SEM] taken. *)
Definition client_login (client player : ptr) : M Z :=
  sem_wait CLIENT_LOGIN_SEM;;
  c ← load client;
  if decide (c_logged_in c ≠ CLIENT_LOGGED_OUT) then mret (-1) else
  players ← creg_all_players (c_cr c);
  players ← defined players;
  name ← player_get_name_at player;
  logged_in ← name_taken players name;
  if logged_in : bool then sem_post CLIENT_LOGIN_SEM;; mret (-1) else
  lock_client client;;
  update client (c_set_player player);;
  player_ref_at player;;
  unlock_client client;;
  update client (c_set_logged_in CLIENT_LOGGED_IN);;
  sem_post CLIENT_LOGIN_SEM;;
  mret 0.

(** The array keeps its length. *)
Lemma length_shift_up l js : length (shift_up l js) = length l.
Proof. revert l. induction js as [|j js IH]; intros l; cbn; [done|]. by rewrite IH, length_insert. Qed.
