(* ===== verification/Server.v ===== *)
(** * The service of a client: [src/server.c], and [terminate] of [src/main.c]

    One function per packet type, the dispatch of [jeux_client_service], and
    its loop.  [client_registry] and [player_registry] are the globals of
    [include/jeux_globals.h].  A payload is the NUL-terminated copy the loop
    makes of the bytes received, [None] for a null pointer. *)
From S2P Require Import Prelude Game Player World Objects Protocol PlayerRegistry Invitation Client Sessions ClientRegistry.

Section server.
Context `{Libm}.
Context (client_registry player_registry : ptr).

(** [strncpy(calloc(n + 1), s, n)] *)
Definition strncpy_copy (s : list byte) (n : Z) : M (list byte) :=
  calloc_unchecked;; mret (cstr (take (Z.to_nat n) s)).

Definition process_login (payload : option (list byte)) (hdr : JEUX_PACKET_HEADER)
    (client : ptr) : M Z :=
  p ← client_get_player client;
  if decide (p ≠ NULL) then client_send_nack client;; mret (-1) else
  match payload with
  | None => client_send_nack client;; mret (-1)
  | Some payload =>
      username ← strncpy_copy payload (ntohs (h_size hdr));
      if strlen payload =? 0 then client_send_nack client;; mret (-1) else
      new_player ← preg_register player_registry username;
      if decide (new_player = NULL) then client_send_nack client;; mret (-1) else
      r ← client_login client new_player;
      (if r =? -1 then client_send_nack client;; mret () else mret ());;
      player_unref_at new_player;;
      client_send_ack client None 0;;
      mret 1
  end.

(** The buffer of one line holds the name, four digits, a tab, a newline
    and the NUL; a longer line overflows it. *)
Definition user_line (name : list byte) (rating : Z) : option (list byte) :=
  let needed_size := strlen name + 4 + 2 + 1 in
  let line := name ++ [9] ++ decimal rating ++ [10] in
  if needed_size <? strlen line + 1 then None else Some line.

Fixpoint users_lines (players : list ptr) : M (list byte) :=
  match players with
  | [] => mret []
  | p :: ps =>
      name ← player_get_name_at p;
      rating ← player_get_rating_at p;
      line ← defined (user_line name rating);
      player_unref_at p;;
      rest ← users_lines ps;
      mret (line ++ rest)
  end.

Definition process_users (payload : option (list byte)) (client : ptr) : M Z :=
  if decide (payload ≠ None) then client_send_nack client;; mret (-1) else
  players ← creg_all_players client_registry;
  players ← defined players;
  send_payload ← users_lines players;
  client_send_ack client (Some send_payload) (strlen send_payload);;
  mret 0.

Definition process_invite (payload : option (list byte)) (client : ptr)
    (hdr : JEUX_PACKET_HEADER) : M Z :=
  match payload with
  | None => client_send_nack client;; mret (-1)
  | Some payload =>
      invitee ← creg_lookup client_registry payload;
      if decide (invitee = NULL) then client_send_nack client;; mret (-1) else
      client_unref invitee;;
      if decide (client = invitee) then client_send_nack client;; mret (-1) else
      let their_role := h_role hdr in
      if their_role =? role_int FIRST_PLAYER_ROLE then
        invitation_id ← client_make_invitation client invitee SECOND_PLAYER_ROLE FIRST_PLAYER_ROLE;
        send_hdr ← create_header JEUX_ACK_PKT invitation_id 0 0;
        client_send_packet client send_hdr None;; mret 0
      else if their_role =? role_int SECOND_PLAYER_ROLE then
        invitation_id ← client_make_invitation client invitee FIRST_PLAYER_ROLE SECOND_PLAYER_ROLE;
        send_hdr ← create_header JEUX_ACK_PKT invitation_id 0 0;
        client_send_packet client send_hdr None;; mret 0
      else client_send_nack client;; mret (-1)
  end.

Definition process_revoke (payload : option (list byte)) (client : ptr)
    (hdr : JEUX_PACKET_HEADER) : M Z :=
  if decide (payload ≠ None) then client_send_nack client;; mret (-1) else
  revoke_result ← client_revoke_invitation client (h_id hdr);
  if revoke_result =? -1 then client_send_nack client;; mret (-1) else
  client_send_ack client None 0;; mret 0.

Definition process_decline (payload : option (list byte)) (client : ptr)
    (hdr : JEUX_PACKET_HEADER) : M Z :=
  if decide (payload ≠ None) then client_send_nack client;; mret (-1) else
  decline_result ← client_decline_invitation client (h_id hdr);
  if decline_result =? -1 then client_send_nack client;; mret (-1) else
  client_send_ack client None 0;; mret 0.

Definition process_accept (payload : option (list byte)) (client : ptr)
    (hdr : JEUX_PACKET_HEADER) : M Z :=
  if decide (payload ≠ None) then client_send_nack client;; mret (-1) else
  accept ← client_accept_invitation client (h_id hdr);
  if accept.1 =? -1 then client_send_nack client;; mret (-1) else
  match accept.2 with
  | None => client_send_ack client None 0;; mret 0
  | Some game_state => client_send_ack client (Some game_state) (strlen game_state);; mret 0
  end.

Definition process_move (payload : option (list byte)) (client : ptr)
    (hdr : JEUX_PACKET_HEADER) : M Z :=
  match payload with
  | None => client_send_nack client;; mret (-1)
  | Some payload =>
      move ← strncpy_copy payload (ntohs (h_size hdr));
      move_result ← client_make_move client (h_id hdr) move;
      if move_result =? -1 then client_send_nack client;; mret (-1) else
      client_send_ack client None 0;; mret 0
  end.

Definition process_resign (payload : option (list byte)) (client : ptr)
    (hdr : JEUX_PACKET_HEADER) : M Z :=
  if decide (payload ≠ None) then client_send_nack client;; mret (-1) else
  resign_result ← client_resign_game client (h_id hdr);
  if resign_result =? -1 then client_send_nack client;; mret (-1) else
  client_send_ack client None 0;; mret 0.

(** A request other than LOGIN is refused until [process_login] has
    returned something else than 0. *)
Definition if_logged_in (process_login_packet : Z) (client : ptr) (m : M Z) : M () :=
  if process_login_packet =? 0 then client_send_nack client;; mret () else m;; mret ().

(** The [switch] of the service loop: the new values of [cont] and of
    [process_login_packet]. *)
Definition dispatch (client : ptr) (hdr : JEUX_PACKET_HEADER)
    (payload : option (list byte)) (process_login_packet : Z) : M (Z * Z) :=
  let request m := if_logged_in process_login_packet client m;; mret (1, process_login_packet) in
  let type := h_type hdr in
  if type =? JEUX_LOGIN_PKT then r ← process_login payload hdr client; mret (1, r)
  else if type =? JEUX_USERS_PKT then request (process_users None client)
  else if type =? JEUX_INVITE_PKT then request (process_invite payload client hdr)
  else if type =? JEUX_REVOKE_PKT then request (process_revoke None client hdr)
  else if type =? JEUX_ACCEPT_PKT then request (process_accept None client hdr)
  else if type =? JEUX_DECLINE_PKT then request (process_decline None client hdr)
  else if type =? JEUX_MOVE_PKT then request (process_move payload client hdr)
  else if type =? JEUX_RESIGN_PKT then request (process_resign None client hdr)
  else if type =? JEUX_NO_PKT then client_logout client;; mret (0, process_login_packet)
  else mret (1, process_login_packet).

(** One iteration of the loop: receive, copy the payload, dispatch. *)
Definition service_iteration (connfd : Z) (client : ptr) (process_login_packet : Z)
    : M (Z * Z) :=
  r ← proto_recv_packet connfd true;
  if r.1.1 =? -1 then client_logout client;; mret (0, process_login_packet)
  else
    let hdr := r.1.2 in
    payload ← (match r.2 with
               | None => mret None
               | Some p => s ← strncpy_copy p (ntohs (h_size hdr)); mret (Some s)
               end);
    dispatch client hdr payload process_login_packet.

Fixpoint service_loop (fuel : nat) (connfd : Z) (client : ptr) (process_login_packet : Z) : M () :=
  match fuel with
  | O => out_of_fuel
  | S fuel' =>
      r ← service_iteration connfd client process_login_packet;
      if r.1 =? 0 then mret () else service_loop fuel' connfd client r.2
  end.

Definition jeux_client_service (fuel : nat) (connfd : Z) : M () :=
  client ← creg_register client_registry connfd;
  if decide (client = NULL) then sys_close connfd else
  service_loop fuel connfd client 0;;
  creg_unregister client_registry client;;
  sys_close connfd.

Definition terminate : M () :=
  creg_shutdown_all client_registry;;
  creg_wait_for_empty client_registry;;
  creg_fini client_registry;;
  preg_fini player_registry.
End server.
