(* ===== verification/Atomic.v ===== *)
(** * The atomic steps

    What a thread of the server does between two points at which another
    thread can run: the list of the calls that are one step, each an access to
    one object, an operation on a semaphore or a mutex, a system call, or what
    runs under the mutex of a game, of players or of the player registry.
    [Steps] cuts every function into these and no others, so that what each of
    them keeps is kept by all the threads in any order. *)
From stdpp Require Import relations.
From S2P Require Import Prelude Game Player World Threads Objects Protocol PlayerRegistry Client ClientRegistry.

(** Objects that are neither games, nor players, nor their registry. *)
Class Plain (V : Type) `{Heap V} : Prop := {
  plain_games h w : w_games (set_heap h w) = w_games w;
  plain_players h w : w_players (set_heap h w) = w_players w;
  plain_pregs h w : w_pregs (set_heap h w) = w_pregs w;
  plain_brk h w : w_brk (set_heap h w) = w_brk w
}.
#[export] Instance client_plain : Plain CLIENT. Proof. done. Qed.
#[export] Instance inv_plain : Plain INVITATION. Proof. done. Qed.
#[export] Instance creg_plain : Plain CLIENT_REGISTRY. Proof. done. Qed.

(** A game as it can become: no mark is taken back, and over is over. *)
Record game_later (g g' : GAME) : Prop := {
  later_marks i c : g_rows g !! i = Some c → c ≠ 0 → g_rows g' !! i = Some c;
  later_board : length (g_rows g') = length (g_rows g);
  later_over : g_is_over g ≠ 0 → g_is_over g' ≠ 0
}.
#[export] Instance game_later_preorder : PreOrder game_later.
Proof.
  split; [by split|]. intros g1 g2 g3 [Hm Hl Ho] [Hm' Hl' Ho']. split; [|congruence|auto].
  intros i c Hi Hc. auto.
Qed.

(** What is written to a game, apart from its count and the next mark. *)
Class Later (f : GAME → GAME) : Prop := later g : game_later g (f g).
#[export] Instance game_is_over_later : Later (λ g, (game_is_over g).2).
Proof.
  intros g. split; rewrite ?(proj1 (game_is_over_frame g)); try done.
  unfold game_is_over. destruct (first_line _ _); [done|]. by destruct (_ =? 0).
Qed.
#[export] Instance current_player_later f : Later (λ g, mkGAME (g_rows g) (g_ref_count g) (g_is_over g) (f g) (g_winner g)).
Proof. by split. Qed.
#[export] Instance over_later : Later (λ g, mkGAME (g_rows g) (g_ref_count g) 1 (g_current_player g) (g_winner g)).
Proof. by split. Qed.
#[export] Instance winner_later f : Later (λ g, mkGAME (g_rows g) (g_ref_count g) (g_is_over g) (g_current_player g) (f g)).
Proof. by split. Qed.

Inductive atomic : ∀ {A}, M A → Prop :=
| at_load `{Heap V} p : atomic (load (V:=V) p)
| at_store `{Plain V} p (v : V) : atomic (store p v)
| at_update `{Plain V} p (f : V → V) : atomic (update p f)
| at_update_opt `{Plain V} p (f : V → option V) : atomic (update_opt p f)
| at_alloc `{Plain V} (v : V) : atomic (alloc v)
| at_calloc_obj `{Plain V} (v : V) : atomic (calloc_obj v)
| at_free `{Plain V} p : atomic (free (V:=V) p)
| at_player_ref p : atomic (update_opt p player_ref)
| at_player_drop p : atomic (player_drop_at p)
| at_player_post_result `{Libm} p1 p2 r : atomic (player_post_result p1 p2 r)
| at_free_player p : atomic (free (V:=PLAYER) p)
| at_preg_enter p name : atomic (preg_enter p name)
| at_preg_count p d : atomic (update_opt p (pr_count d))
| at_free_preg p : atomic (free (V:=PLAYER_REGISTRY) p)
| at_game_ref p : atomic (update_opt p game_ref)
| at_game_create : atomic (calloc_obj game_create)
| at_game_update `{Later f} p : atomic (update p f)
| at_free_game p : atomic (free (V:=GAME) p)
| at_game_drop g : atomic (game_drop_at g)
| at_game_place g mv : atomic (game_place_at g mv)
| at_undef {A} : atomic (undef (A:=A))
| at_stuck {A} : atomic (stuck (A:=A))
| at_out_of_fuel {A} : atomic (out_of_fuel (A:=A))
| at_defined {A} (o : option A) : atomic (defined o)
| at_gets {A} (f : world → A) : atomic (gets f)
| at_calloc : atomic calloc
| at_calloc_unchecked : atomic calloc_unchecked
| at_clock : atomic clock_gettime
| at_fresh_addr : atomic fresh_addr
| at_sem_wait i : atomic (sem_wait i)
| at_sem_post i : atomic (sem_post i)
| at_init_semaphores : atomic init_semaphores
| at_write fd buf n : atomic (sys_write fd buf n)
| at_read fd n : atomic (sys_read fd n)
| at_shutdown fd : atomic (sys_shutdown_rd fd)
| at_close fd : atomic (sys_close fd)
| at_lock_client p : atomic (lock_client p)
| at_unlock_client p : atomic (unlock_client p)
| at_lock_creg p : atomic (lock_creg p)
| at_unlock_creg p : atomic (unlock_creg p)
| at_wait_queue p : atomic (creg_wait_login_queue p)
| at_post_queue p : atomic (creg_post_login_queue p)
| at_wait_sem p : atomic (creg_wait_sem p)
| at_post_sem p : atomic (creg_post_sem p).

(** A program of such steps. *)
Fixpoint made {A} (q : prog A) : Prop :=
  match q with
  | Done _ => True
  | Act m k => atomic m ∧ ∀ b, made (k b)
  end.

Lemma made_pbind {A B} (q : prog A) (f : A → prog B) : made q → (∀ a, made (f a)) → made (pbind q f).
Proof. intros Hq Hf. induction q as [a|C m k IH]; [apply Hf|]. destruct Hq as [Hm Hk]. split; [done|]. intros b. by apply IH. Qed.

(** Resolution finds the step, and does not look inside it. *)
Existing Class atomic.
#[export] Existing Instances at_load at_store at_update at_update_opt at_alloc at_calloc_obj at_free at_player_ref at_player_drop
  at_player_post_result at_free_player at_preg_enter at_preg_count at_free_preg at_game_ref at_game_create at_game_update at_free_game at_game_drop at_game_place at_undef at_stuck
  at_out_of_fuel at_defined at_gets at_calloc at_calloc_unchecked at_clock at_fresh_addr at_sem_wait at_sem_post
  at_init_semaphores at_write at_read at_shutdown at_close at_lock_client at_unlock_client at_lock_creg
  at_unlock_creg at_wait_queue at_post_queue at_wait_sem at_post_sem.
#[export] Hint Opaque mret mbind load store update update_opt alloc free undef stuck out_of_fuel defined gets calloc
  clock_gettime fresh_addr sys_write sys_read sys_shutdown_rd sys_close sem_wait sem_post init_semaphores
  lock_client unlock_client lock_creg unlock_creg creg_wait_login_queue creg_post_login_queue
  creg_wait_sem creg_post_sem game_drop_at game_place_at player_drop_at player_post_result
  calloc_unchecked calloc_obj player_create_at preg_enter
  : typeclass_instances.

