(* ===== verification/Steps.v ===== *)
(** * The steps of the server's functions

    Each function of the model is cut into its atomic steps by its own
    definition: an instance of [Steps] is a program that, run alone, is the
    function, and type class resolution builds it along the body.  What is
    one step is listed in [Atomic].  The instances also show that no function
    gives back a semaphore it has not taken. *)
From S2P Require Import Prelude Game Player World Objects Protocol PlayerRegistry Invitation Client Sessions ClientRegistry Server Threads Critical Atomic.

(** ** Calls cut into steps *)

(** The locks of [H] are left alone while they are taken. *)
Class Steps (H : Lock → Prop) {A} (m : M A) := {
  steps : prog A;
  steps_alone w : alone steps w = m w;
  steps_keeps L : H L → keeps L steps;
  steps_made : made steps
}.
Arguments steps {H A} m {_}.
Arguments steps_alone {H A} m {_} w.
Arguments steps_keeps {H A} m {_} L _.
Arguments steps_made {H A} m {_}.

(** A part of a call that is made with the lock taken. *)
Class Inside (L : Lock) {A} (m : M A) := {
  insides : prog A;
  insides_alone w : alone insides w = m w;
  insides_inside : inside L insides
}.
Arguments insides {L A} m {_}.
Arguments insides_alone {L A} m {_} w.
Arguments insides_inside {L A} m {_}.

(** Sets of semaphores, and the mutex of one client. *)
Definition sems (S : nat → Prop) : Lock → Prop := λ L, ∃ i, S i ∧ L = semaphore i.
Definition mutex (p : ptr) : Lock → Prop := λ L, L = client_mutex p.
Definition nobody : nat → Prop := λ _, False.
Definition only (i : nat) : nat → Prop := λ j, j = i.
Definition except (S : nat → Prop) (j : nat) : nat → Prop := λ i, S i ∧ i ≠ j.

(** The semaphore is not one of the set: the code has it itself. *)
Class Taken (S : nat → Prop) (j : nat) : Prop := not_member : ¬ S j.
#[export] Instance taken_except S j : Taken (except S j) j.
Proof. intros [_ ?]. done. Qed.
#[export] Instance taken_weaken S j j' : Taken S j → Taken (except S j') j.
Proof. intros Ht [? _]. by apply Ht. Qed.
#[export] Instance taken_nobody j : Taken nobody j.
Proof. by intros []. Qed.

(** A single step that leaves the locks alone. *)
Class Single (H : Lock → Prop) {A} (m : M A) : Prop :=
  single L w b w' : H L → taken L w → m w = Ret b w' → taken L w'.

(** One that is no operation on a semaphore of [semaphores]. *)
Class SemFree {A} (m : M A) : Prop := sem_free w b w' : m w = Ret b w' → w_sems w' = w_sems w.
#[export] Instance single_sems S `{SemFree A m} : Single (sems S) m.
Proof. intros L w b w' (i & _ & ->) H0 E. cbn in *. by rewrite (sem_free w b w' E). Qed.

(** For the calls below; resolution does not use these. *)
Lemma sem_free_ret {A} (a : A) : SemFree (mret a).
Proof. intros w b w' E. by injection E as _ <-. Qed.
Lemma sem_free_bind {A B} (m : M A) (k : A → M B) : SemFree m → (∀ a, SemFree (k a)) → SemFree (m ≫= k).
Proof.
  intros Hm Hk w b w' E. unfold mbind, M_bind in E. destruct (m w) as [a w1| | |] eqn:Em; try done.
  rewrite (Hk a w1 b w' E). exact (Hm w a w1 Em).
Qed.

#[export] Program Instance steps_single {H : Lock → Prop} {A} (m : M A) (Hs : Single H m) (Ha : atomic m) : Steps H m | 20 :=
  {| steps := Act m Done |}.
Next Obligation. intros H A m Hs Ha w. cbn. unfold mbind, M_bind. by destruct (m w). Qed.
Next Obligation. intros H A m Hs Ha L HL w b w' H0 E. split; [by eapply Hs|done]. Qed.
Next Obligation. done. Qed.

#[export] Program Instance steps_ret {H : Lock → Prop} {A} (a : A) : Steps H (mret a) | 0 := {| steps := Done a |}.
Next Obligation. done. Qed.
Next Obligation. done. Qed.
Next Obligation. done. Qed.

#[export] Program Instance steps_bind {H : Lock → Prop} {A B} (m : M A) (k : A → M B)
    (Sm : Steps H m) (Sk : ∀ a, Steps H (k a)) : Steps H (m ≫= k) | 10 :=
  {| steps := pbind (steps m) (λ a, steps (k a)) |}.
Next Obligation.
  intros H A B m k Sm Sk w. rewrite alone_pbind. unfold mbind, M_bind. rewrite steps_alone.
  destruct (m w); try done. apply steps_alone.
Qed.
Next Obligation. intros H A B m k Sm Sk L HL. apply keeps_pbind; [by apply steps_keeps|]. intros a. by apply steps_keeps. Qed.
Next Obligation. intros H A B m k Sm Sk. apply made_pbind; [apply steps_made|]. intros a. apply steps_made. Qed.

(** From the [sem_wait] on the code has the semaphore; nobody else does. *)
#[export] Program Instance steps_section {S : nat → Prop} {A} (j : nat) (k : () → M A)
    (Sk : ∀ u, Steps (sems (except S j)) (k u)) : Steps (sems S) (sem_wait j ≫= k) | 1 :=
  {| steps := Act (sem_wait j) (λ u, steps (k u)) |}.
Next Obligation. intros S A j k Sk w. cbn. unfold mbind, M_bind. destruct (sem_wait j w); try done. apply steps_alone. Qed.
Next Obligation.
  intros S A j k Sk L (i & Hi & ->) w [] w' H0 E. destruct (decide (i = j)) as [->|Hne].
  - by apply (taken_waits (semaphore j)) in E.
  - split; [|by apply steps_keeps; exists i]. cbn in *. unfold sem_wait in E. destruct (w_sems w !! j) as [v|]; [|done].
    destruct (0 <? v); [|done]. injection E as <-. cbn. by rewrite list_lookup_insert_ne.
Qed.
Next Obligation. intros S A j k Sk. split; [apply _|]. intros u. apply steps_made. Qed.

#[export] Program Instance steps_post {S : nat → Prop} (j : nat) (Ht : Taken S j) : Steps (sems S) (sem_post j) | 1 :=
  {| steps := Act (sem_post j) Done |}.
Next Obligation. intros S j Ht w. cbn. unfold mbind, M_bind. by destruct (sem_post j w) as [[] ?| | |]. Qed.
Next Obligation.
  intros S j Ht L (i & Hi & ->) w [] w' H0 E. split; [|done]. cbn in *. unfold sem_post in E.
  destruct (w_sems w !! j) as [v|]; [|done]. injection E as <-. cbn.
  rewrite list_lookup_insert_ne; [done|]. intros ->. by apply Ht.
Qed.
Next Obligation. intros S j Ht. split; [apply _|done]. Qed.

(** [sem_init] may give back a semaphore that is taken. *)
#[export] Program Instance steps_init_semaphores : Steps (sems nobody) init_semaphores :=
  {| steps := Act init_semaphores Done |}.
Next Obligation. intros w. cbn. unfold mbind, M_bind. by destruct (init_semaphores w) as [[] ?| | |]. Qed.
Next Obligation. by intros L (i & [] & _). Qed.
Next Obligation. split; [apply _|done]. Qed.

(** ** Calls that are critical sections *)

#[export] Program Instance inside_ret {L : Lock} {A} (a : A) : Inside L (mret a) | 0 := {| insides := Done a |}.
Next Obligation. done. Qed.
Next Obligation. done. Qed.

Program Definition inside_bind {L : Lock} {A B} (H : Lock → Prop) (HL : H L) (m : M A) (k : A → M B)
    (Sm : Steps H m) (Sk : ∀ a, Inside L (k a)) : Inside L (m ≫= k) :=
  {| insides := pbind (steps m) (λ a, insides (k a)) |}.
Next Obligation.
  intros L A B H HL m k Sm Sk w. rewrite alone_pbind. unfold mbind, M_bind. rewrite steps_alone.
  destruct (m w); try done. apply insides_alone.
Qed.
Next Obligation.
  intros L A B H HL m k Sm Sk. apply inside_pbind; [by apply steps_keeps|]. intros a. apply insides_inside.
Qed.

#[export] Instance inside_bind_sem i {A B} (m : M A) (k : A → M B)
    (Sm : Steps (sems (only i)) m) (Sk : ∀ a, Inside (semaphore i) (k a)) : Inside (semaphore i) (m ≫= k) | 10 :=
  inside_bind (sems (only i)) (ex_intro _ i (conj eq_refl eq_refl)) m k Sm Sk.
#[export] Instance inside_bind_mutex p {A B} (m : M A) (k : A → M B)
    (Sm : Steps (mutex p) m) (Sk : ∀ a, Inside (client_mutex p) (k a)) : Inside (client_mutex p) (m ≫= k) | 10 :=
  inside_bind (mutex p) eq_refl m k Sm Sk.

(** The end of a section. *)
#[export] Program Instance inside_post i {A} (a : A) : Inside (semaphore i) (sem_post i ≫= λ _, mret a) | 0 :=
  {| insides := Act (sem_post i) (λ _, Done a) |}.
Next Obligation. done. Qed.
Next Obligation.
  intros i A a w [] w' H0 E. right. split; [|done]. cbn in *. unfold sem_post in E. rewrite H0 in E.
  injection E as <-. cbn. apply list_lookup_insert_eq. by eapply lookup_lt_Some.
Qed.

#[export] Program Instance inside_unlock p {A} (a : A) : Inside (client_mutex p) (unlock_client p ≫= λ _, mret a) | 0 :=
  {| insides := Act (unlock_client p) (λ _, Done a) |}.
Next Obligation. done. Qed.
Next Obligation.
  intros p A a w [] w' (c & Hp & Hl)%fmap_Some E. right. split; [|done].
  rewrite (unlock_client_run p c w Hp) in E. injection E as <-. cbn. unfold locked_client. by rewrite upd_client_lookup.
Qed.

Program Definition critical_section {L : Lock} {A} (k : () → M A) (Sk : Inside L (k ())) :
    Critical L (acquire L ≫= k) := {| body := insides (k ()) |}.
Next Obligation.
  intros L A k Sk w. unfold mbind, M_bind. destruct (acquire L w) as [[] w'| | |]; try done. apply insides_alone.
Qed.
Next Obligation. intros L A k Sk. apply insides_inside. Qed.

#[export] Instance critical_sem i {A} (k : () → M A) (Sk : Inside (semaphore i) (k ())) :
  Critical (semaphore i) (sem_wait i ≫= k) := critical_section k Sk.
#[export] Instance critical_mutex p {A} (k : () → M A) (Sk : Inside (client_mutex p) (k ())) :
  Critical (client_mutex p) (lock_client p ≫= k) := critical_section k Sk.

(** What the caller makes of the result. *)
#[export] Program Instance critical_map {L : Lock} {A B} (m : M A) (f : A → B) (C : Critical L m) :
    Critical L (m ≫= λ a, mret (f a)) | 20 := {| body := pbind (body m) (λ a, Done (f a)) |}.
Next Obligation.
  intros L A B m f C w. assert ((m ≫= λ a, mret (f a)) w = ((acquire L;; alone (body m)) ≫= λ a, mret (f a)) w) as ->
    by (unfold mbind at 1 2, M_bind at 1 2; by rewrite <-(body_alone m)).
  rewrite bind_assoc. unfold mbind, M_bind. destruct (acquire L w) as [[] w'| | |]; try done.
  exact (alone_pbind (body m) (λ a, Done (f a)) w').
Qed.
Next Obligation. intros L A B m f C. apply inside_map, body_inside. Qed.

(** Branches of the code: one program for each. *)
Ltac steps_branch :=
  cbv zeta beta;
  lazymatch goal with
  | |- Steps _ (match ?x with _ => _ end) => destruct x
  | |- Steps _ ((match ?x with _ => _ end) _) => destruct x
  | |- Inside _ (match ?x with _ => _ end) => destruct x
  end.
#[export] Hint Extern 5 (Steps _ _) => steps_branch : typeclass_instances.
#[export] Hint Extern 5 (Inside _ _) => steps_branch : typeclass_instances.

(** ** What is one step *)

Ltac sem_free := intros w b w' E;
  repeat (first [done | match type of E with
    | Ret _ _ = Ret _ _ => injection E as ? ?; subst
    | context [match ?x with _ => _ end] => destruct x
    end]).

(** A heap apart from the semaphores. *)
Class HeapApart (V : Type) `{Heap V} : Prop := set_heap_sems h w : w_sems (set_heap h w) = w_sems w.
#[export] Instance client_apart : HeapApart CLIENT. Proof. done. Qed.
#[export] Instance inv_apart : HeapApart INVITATION. Proof. done. Qed.
#[export] Instance game_apart : HeapApart GAME. Proof. done. Qed.
#[export] Instance player_apart : HeapApart PLAYER. Proof. done. Qed.
#[export] Instance creg_apart : HeapApart CLIENT_REGISTRY. Proof. done. Qed.
#[export] Instance preg_apart : HeapApart PLAYER_REGISTRY. Proof. done. Qed.

Section accesses.
Context `{HeapApart V}.
#[export] Instance load_sem_free p : SemFree (load (V:=V) p).
Proof. unfold load. sem_free. Qed.
#[export] Instance store_sem_free p (v : V) : SemFree (store p v).
Proof. unfold store. sem_free; apply set_heap_sems. Qed.
#[export] Instance update_sem_free p (f : V → V) : SemFree (update p f).
Proof. apply sem_free_bind; [apply _|]. intros v. apply _. Qed.
#[export] Instance alloc_sem_free (v : V) : SemFree (alloc v).
Proof. unfold alloc. sem_free; apply set_heap_sems. Qed.
#[export] Instance free_sem_free p : SemFree (free (V:=V) p).
Proof. unfold free. sem_free; apply set_heap_sems. Qed.
End accesses.

#[export] Instance undef_sem_free {A} : SemFree (undef (A:=A)).
Proof. unfold undef. sem_free. Qed.
#[export] Instance stuck_sem_free {A} : SemFree (stuck (A:=A)).
Proof. unfold stuck. sem_free. Qed.
#[export] Instance out_of_fuel_sem_free {A} : SemFree (out_of_fuel (A:=A)).
Proof. unfold out_of_fuel. sem_free. Qed.
#[export] Instance defined_sem_free {A} (o : option A) : SemFree (defined o).
Proof. unfold defined, mret, M_ret, undef. sem_free. Qed.
#[export] Instance update_opt_sem_free `{HeapApart V} p (f : V → option V) : SemFree (update_opt p f).
Proof. apply sem_free_bind; [apply _|]. intros v. apply sem_free_bind; [apply _|]. intros v'. apply _. Qed.
#[export] Instance gets_sem_free {A} (f : world → A) : SemFree (gets f).
Proof. unfold gets. sem_free. Qed.
#[export] Instance calloc_sem_free : SemFree calloc.
Proof. unfold calloc. sem_free. Qed.
#[export] Instance clock_gettime_sem_free : SemFree clock_gettime.
Proof. unfold clock_gettime. sem_free. Qed.
#[export] Instance fresh_addr_sem_free : SemFree fresh_addr.
Proof. unfold fresh_addr. sem_free. Qed.
#[export] Instance sys_write_sem_free fd buf n : SemFree (sys_write fd buf n).
Proof. unfold sys_write. sem_free. Qed.
#[export] Instance sys_read_sem_free fd n : SemFree (sys_read fd n).
Proof. unfold sys_read. sem_free. Qed.
#[export] Instance sys_shutdown_rd_sem_free fd : SemFree (sys_shutdown_rd fd).
Proof. unfold sys_shutdown_rd. sem_free. Qed.
#[export] Instance sys_close_sem_free fd : SemFree (sys_close fd).
Proof. unfold sys_close. sem_free. Qed.

(** A test of a lock and its taking are one step, and so is a call that runs
    under a mutex of its own. *)
Ltac sem_free_call :=
  repeat first
    [ apply sem_free_ret
    | apply sem_free_bind; [|intros ?]
    | lazymatch goal with
      | |- SemFree (match ?x with _ => _ end) => destruct x
      | |- SemFree ((match ?x with _ => _ end) _) => destruct x
      end
    | solve [apply _] ].

#[export] Instance lock_client_sem_free c : SemFree (lock_client c).
Proof. unfold lock_client. sem_free_call. Qed.
#[export] Instance unlock_client_sem_free c : SemFree (unlock_client c).
Proof. unfold unlock_client. sem_free_call. Qed.
#[export] Instance lock_creg_sem_free c : SemFree (lock_creg c).
Proof. unfold lock_creg. sem_free_call. Qed.
#[export] Instance unlock_creg_sem_free c : SemFree (unlock_creg c).
Proof. unfold unlock_creg. sem_free_call. Qed.
#[export] Instance creg_wait_login_queue_sem_free cr : SemFree (creg_wait_login_queue cr).
Proof. unfold creg_wait_login_queue. sem_free_call. Qed.
#[export] Instance creg_post_login_queue_sem_free cr : SemFree (creg_post_login_queue cr).
Proof. unfold creg_post_login_queue. sem_free_call. Qed.
#[export] Instance creg_wait_sem_sem_free cr : SemFree (creg_wait_sem cr).
Proof. unfold creg_wait_sem. sem_free_call. Qed.
#[export] Instance creg_post_sem_sem_free cr : SemFree (creg_post_sem cr).
Proof. unfold creg_post_sem. sem_free_call. Qed.

#[export] Instance game_drop_at_sem_free g : SemFree (game_drop_at g).
Proof. unfold game_drop_at. sem_free_call. Qed.
#[export] Instance game_place_at_sem_free g mv : SemFree (game_place_at g mv).
Proof. unfold game_place_at. sem_free_call. Qed.
#[export] Instance player_drop_at_sem_free p : SemFree (player_drop_at p).
Proof. unfold player_drop_at. sem_free_call. Qed.
#[export] Instance player_post_result_sem_free `{Libm} p1 p2 r : SemFree (player_post_result p1 p2 r).
Proof. unfold player_post_result. sem_free_call. Qed.
#[export] Instance calloc_unchecked_sem_free : SemFree calloc_unchecked.
Proof. unfold calloc_unchecked. sem_free_call. Qed.
#[export] Instance calloc_obj_sem_free `{HeapApart V} (v : V) : SemFree (calloc_obj v).
Proof. unfold calloc_obj. sem_free_call. Qed.
#[export] Instance player_create_at_sem_free name : SemFree (player_create_at name).
Proof. unfold player_create_at. sem_free_call. Qed.
Lemma preg_find_sem_free l name : SemFree (preg_find l name).
Proof. induction l as [|p l IH]; cbn; unfold player_get_name_at; sem_free_call. Qed.
#[export] Instance preg_enter_sem_free preg name : SemFree (preg_enter preg name).
Proof.
  unfold preg_enter. apply sem_free_bind; [apply _|]. intros pr.
  apply sem_free_bind; [apply preg_find_sem_free|]. intros c. sem_free_call.
Qed.

(** The steps that send a packet leave these locks alone. *)
Class Writes (H : Lock → Prop) : Prop := {
  writes_calloc :: Single H calloc_unchecked;
  writes_clock :: Single H clock_gettime;
  writes_out_of_fuel :: Single H (out_of_fuel (A:=Z));
  writes_bytes fd buf n :: Single H (sys_write fd buf n);
  writes_load (p : ptr) :: Single H (load (V:=CLIENT) p)
}.
#[export] Instance writes_sems S : Writes (sems S).
Proof. split; apply _. Qed.
#[export] Instance writes_mutex p : Writes (mutex p).
Proof.
  assert (∀ A (m : M A), (∀ w a w', m w = Ret a w' → w_clients w' = w_clients w) → Single (mutex p) m) as Hm.
  { intros A m Hm L w a w' -> Ht E. cbn in *. unfold locked_client. by rewrite (Hm w a w' E). }
  split; [| | |intros fd buf n|intros x]; apply Hm.
  - intros w a w' E. unfold calloc_unchecked, calloc, mbind, M_bind in E. destruct (w_oom w) as [|[] ?]; try done; by injection E as _ <-.
  - unfold clock_gettime. sem_free.
  - unfold out_of_fuel. sem_free.
  - unfold sys_write. sem_free.
  - unfold load. sem_free.
Qed.

(** A test of a lock is not cut from its taking, nor a read from the write of
    the same field. *)
Lemma locks_are_steps S c cr (f : CLIENT → CLIENT) :
  steps (H := sems S) (lock_client c) = Act (lock_client c) Done ∧
  steps (H := sems S) (lock_creg cr) = Act (lock_creg cr) Done ∧
  steps (H := sems S) (creg_wait_login_queue cr) = Act (creg_wait_login_queue cr) Done ∧
  steps (H := sems S) (creg_wait_sem cr) = Act (creg_wait_sem cr) Done ∧
  steps (H := sems S) (update c f) = Act (update c f) Done ∧
  steps (H := sems S) (update_opt c (c_count 1)) = Act (update_opt c (c_count 1)) Done.
Proof. done. Qed.

(** ** The functions *)

(** Cut a function along its body. *)
Tactic Notation "cut_into_steps" reference(f) := unfold f; cbv zeta; apply _.

Section functions.
Context `{Libm}.
Implicit Types held : nat → Prop.

(** [src/game.c], [src/player.c], [src/invitation.c] *)
#[export] Instance game_create_at_steps held : Steps (sems held) game_create_at.
Proof. cut_into_steps game_create_at. Defined.
#[export] Instance game_ref_at_steps held g : Steps (sems held) (game_ref_at g).
Proof. cut_into_steps game_ref_at. Defined.
#[export] Instance game_unref_at_steps held g : Steps (sems held) (game_unref_at g).
Proof. cut_into_steps game_unref_at. Defined.
#[export] Instance game_is_over_at_steps held g : Steps (sems held) (game_is_over_at g).
Proof. cut_into_steps game_is_over_at. Defined.
#[export] Instance game_apply_move_at_steps held g mv : Steps (sems held) (game_apply_move_at g mv).
Proof. cut_into_steps game_apply_move_at. Defined.
#[export] Instance game_resign_at_steps held g r : Steps (sems held) (game_resign_at g r).
Proof. cut_into_steps game_resign_at. Defined.
#[export] Instance game_get_winner_at_steps held g : Steps (sems held) (game_get_winner_at g).
Proof. cut_into_steps game_get_winner_at. Defined.
#[export] Instance game_unparse_state_at_steps held g : Steps (sems held) (game_unparse_state_at g).
Proof. cut_into_steps game_unparse_state_at. Defined.
#[export] Instance game_parse_move_at_steps held g r s : Steps (sems held) (game_parse_move_at g r s).
Proof. cut_into_steps game_parse_move_at. Defined.
#[export] Instance player_ref_at_steps held p : Steps (sems held) (player_ref_at p).
Proof. cut_into_steps player_ref_at. Defined.
#[export] Instance player_unref_at_steps held p : Steps (sems held) (player_unref_at p).
Proof. cut_into_steps player_unref_at. Defined.
#[export] Instance preg_register_steps held pr name : Steps (sems held) (preg_register pr name).
Proof. cut_into_steps preg_register. Defined.
#[export] Instance player_get_name_at_steps held p : Steps (sems held) (player_get_name_at p).
Proof. cut_into_steps player_get_name_at. Defined.
#[export] Instance player_get_rating_at_steps held p : Steps (sems held) (player_get_rating_at p).
Proof. cut_into_steps player_get_rating_at. Defined.
#[export] Instance client_ref_steps held c : Steps (sems held) (client_ref c).
Proof. cut_into_steps client_ref. Defined.
#[export] Instance client_get_player_steps held c : Steps (sems held) (client_get_player c).
Proof. cut_into_steps client_get_player. Defined.
#[export] Instance client_get_fd_steps held c : Steps (sems held) (client_get_fd c).
Proof. cut_into_steps client_get_fd. Defined.
#[export] Instance inv_ref_steps held i : Steps (sems held) (inv_ref i).
Proof. cut_into_steps inv_ref. Defined.
#[export] Instance inv_create_steps held s t rs rt : Steps (sems held) (inv_create s t rs rt).
Proof. cut_into_steps inv_create. Defined.
#[export] Instance inv_get_source_steps held i : Steps (sems held) (inv_get_source i).
Proof. cut_into_steps inv_get_source. Defined.
#[export] Instance inv_get_target_steps held i : Steps (sems held) (inv_get_target i).
Proof. cut_into_steps inv_get_target. Defined.
#[export] Instance inv_get_source_role_steps held i : Steps (sems held) (inv_get_source_role i).
Proof. cut_into_steps inv_get_source_role. Defined.
#[export] Instance inv_get_target_role_steps held i : Steps (sems held) (inv_get_target_role i).
Proof. cut_into_steps inv_get_target_role. Defined.
#[export] Instance inv_get_game_steps held i : Steps (sems held) (inv_get_game i).
Proof. cut_into_steps inv_get_game. Defined.
#[export] Instance inv_accept_steps held i : Steps (sems held) (inv_accept i).
Proof. cut_into_steps inv_accept. Defined.
#[export] Instance inv_close_steps held i r : Steps (sems held) (inv_close i r).
Proof. cut_into_steps inv_close. Defined.

(** [src/protocol.c]; a packet may be sent under a mutex too. *)
#[export] Instance create_header_steps locks `{!Writes locks} t i r n : Steps locks (create_header t i r n).
Proof. cut_into_steps create_header. Defined.
#[export] Instance write_loop_steps locks `{!Writes locks} fuel : ∀ fd buf a b c, Steps locks (write_loop fuel fd buf a b c).
Proof. induction fuel as [|fuel IH]; intros fd buf a b c; cbn [write_loop]; apply _. Defined.
#[export] Instance write_all_steps locks `{!Writes locks} fd buf n : Steps locks (write_all fd buf n).
Proof. cut_into_steps write_all. Defined.
#[export] Instance proto_send_packet_steps locks `{!Writes locks} fd h d : Steps locks (proto_send_packet fd h d).
Proof. cut_into_steps proto_send_packet. Defined.
#[export] Instance read_loop_steps held fuel : ∀ fd buf a b c, Steps (sems held) (read_loop fuel fd buf a b c).
Proof. induction fuel as [|fuel IH]; intros fd buf a b c; cbn [read_loop]; apply _. Defined.
#[export] Instance read_all_steps held fd n : Steps (sems held) (read_all fd n).
Proof. cut_into_steps read_all. Defined.
#[export] Instance proto_recv_packet_steps held fd b : Steps (sems held) (proto_recv_packet fd b).
Proof. cut_into_steps proto_recv_packet. Defined.

(** [src/client.c], up to the results of games *)
#[export] Instance get_available_id_steps held c : Steps (sems held) (get_available_id c).
Proof. cut_into_steps get_available_id. Defined.
#[export] Instance purge_id_steps held c id : Steps (sems held) (purge_id c id).
Proof. cut_into_steps purge_id. Defined.
#[export] Instance client_get_invitation_id_steps held c i : Steps (sems held) (client_get_invitation_id c i).
Proof. cut_into_steps client_get_invitation_id. Defined.
#[export] Instance client_get_invitation_steps held c i : Steps (sems held) (client_get_invitation c i).
Proof. cut_into_steps client_get_invitation. Defined.
#[export] Instance client_add_invitation_steps held c i : Steps (sems held) (client_add_invitation c i).
Proof. cut_into_steps client_add_invitation. Defined.
#[export] Instance client_send_packet_steps held c h d : Steps (sems held) (client_send_packet c h d).
Proof. cut_into_steps client_send_packet. Defined.
#[export] Instance client_send_ack_steps held c d n : Steps (sems held) (client_send_ack c d n).
Proof. cut_into_steps client_send_ack. Defined.
#[export] Instance client_send_nack_steps held c : Steps (sems held) (client_send_nack c).
Proof. cut_into_steps client_send_nack. Defined.

(** With the mutex of the client from the first step to the last. *)
#[export] Instance client_send_packet_critical c h d : Critical (client_mutex c) (client_send_packet c h d).
Proof. cut_into_steps client_send_packet. Defined.
#[export] Instance client_send_ack_critical c d n : Critical (client_mutex c) (client_send_ack c d n).
Proof. cut_into_steps client_send_ack. Defined.
#[export] Instance client_send_nack_critical c : Critical (client_mutex c) (client_send_nack c).
Proof. cut_into_steps client_send_nack. Defined.
#[export] Instance post_player_results_steps held c o r w : Steps (sems held) (post_player_results c o r w).
Proof. cut_into_steps post_player_results. Defined.
End functions.

(** The operations on invitations and the logout, with [client_unref] at the
    next depth. *)
Section recursion.
Context `{Libm} (client_unref' : ptr → M ()).
Context (unref_steps : ∀ held p, Steps (sems held) (client_unref' p)).
Implicit Types held : nat → Prop.
#[local] Existing Instance unref_steps.

#[export] Instance inv_unref'_steps held i : Steps (sems held) (inv_unref' client_unref' i).
Proof. cut_into_steps inv_unref'. Defined.
#[export] Instance client_remove_invitation'_steps held c i : Steps (sems held) (client_remove_invitation' client_unref' c i).
Proof. cut_into_steps client_remove_invitation'. Defined.
#[export] Instance client_make_invitation'_steps held s t rs rt : Steps (sems held) (client_make_invitation' client_unref' s t rs rt).
Proof. cut_into_steps client_make_invitation'. Defined.
#[export] Instance client_revoke_invitation'_steps held c id : Steps (sems held) (client_revoke_invitation' client_unref' c id).
Proof. cut_into_steps client_revoke_invitation'. Defined.
#[export] Instance client_decline_invitation'_steps held c id : Steps (sems held) (client_decline_invitation' client_unref' c id).
Proof. cut_into_steps client_decline_invitation'. Defined.
#[export] Instance client_resign_game'_steps held c id : Steps (sems held) (client_resign_game' client_unref' c id).
Proof. cut_into_steps client_resign_game'. Defined.
#[export] Instance logout_loop_steps fuel : ∀ held c n, Steps (sems held) (logout_loop client_unref' fuel c n).
Proof. induction fuel as [|fuel IH]; intros held c n; cbn [logout_loop]; cbv zeta; apply _. Defined.
#[export] Instance client_logout'_steps held c : Steps (sems held) (client_logout' client_unref' c).
Proof. cut_into_steps client_logout'. Defined.

(** With [CLIENT_INVITE_OP_SEM] from the first step to the last. *)
#[export] Instance client_make_invitation'_critical s t rs rt :
  Critical (semaphore CLIENT_INVITE_OP_SEM) (client_make_invitation' client_unref' s t rs rt).
Proof. cut_into_steps client_make_invitation'. Defined.
#[export] Instance client_revoke_invitation'_critical c id :
  Critical (semaphore CLIENT_INVITE_OP_SEM) (client_revoke_invitation' client_unref' c id).
Proof. cut_into_steps client_revoke_invitation'. Defined.
#[export] Instance client_decline_invitation'_critical c id :
  Critical (semaphore CLIENT_INVITE_OP_SEM) (client_decline_invitation' client_unref' c id).
Proof. cut_into_steps client_decline_invitation'. Defined.
#[export] Instance client_resign_game'_critical c id :
  Critical (semaphore CLIENT_INVITE_OP_SEM) (client_resign_game' client_unref' c id).
Proof. cut_into_steps client_resign_game'. Defined.
End recursion.

#[export] Instance client_unref_fuel_steps `{Libm} fuel : ∀ held c, Steps (sems held) (client_unref_fuel fuel c).
Proof. induction fuel as [|fuel IH]; intros held c; cbn [client_unref_fuel]; apply _. Defined.

Section calls.
Context `{Libm}.
Implicit Types held : nat → Prop.

#[export] Instance client_unref_steps held c : Steps (sems held) (client_unref c).
Proof. cut_into_steps client_unref. Defined.
#[export] Instance client_make_invitation_steps held s t rs rt : Steps (sems held) (client_make_invitation s t rs rt).
Proof. cut_into_steps client_make_invitation. Defined.
#[export] Instance client_revoke_invitation_steps held c id : Steps (sems held) (client_revoke_invitation c id).
Proof. cut_into_steps client_revoke_invitation. Defined.
#[export] Instance client_decline_invitation_steps held c id : Steps (sems held) (client_decline_invitation c id).
Proof. cut_into_steps client_decline_invitation. Defined.
#[export] Instance client_resign_game_steps held c id : Steps (sems held) (client_resign_game c id).
Proof. cut_into_steps client_resign_game. Defined.
#[export] Instance client_remove_invitation_steps held c i : Steps (sems held) (client_remove_invitation c i).
Proof. cut_into_steps client_remove_invitation. Defined.
#[export] Instance client_accept_invitation_steps held c id : Steps (sems held) (client_accept_invitation c id).
Proof. cut_into_steps client_accept_invitation. Defined.
#[export] Instance client_make_move_steps held c id mv : Steps (sems held) (client_make_move c id mv).
Proof. cut_into_steps client_make_move. Defined.
#[export] Instance client_logout_steps held c : Steps (sems held) (client_logout c).
Proof. cut_into_steps client_logout. Defined.

#[export] Instance client_make_invitation_critical s t rs rt :
  Critical (semaphore CLIENT_INVITE_OP_SEM) (client_make_invitation s t rs rt).
Proof. cut_into_steps client_make_invitation. Defined.
#[export] Instance client_revoke_invitation_critical c id : Critical (semaphore CLIENT_INVITE_OP_SEM) (client_revoke_invitation c id).
Proof. cut_into_steps client_revoke_invitation. Defined.
#[export] Instance client_decline_invitation_critical c id : Critical (semaphore CLIENT_INVITE_OP_SEM) (client_decline_invitation c id).
Proof. cut_into_steps client_decline_invitation. Defined.
#[export] Instance client_resign_game_critical c id : Critical (semaphore CLIENT_INVITE_OP_SEM) (client_resign_game c id).
Proof. cut_into_steps client_resign_game. Defined.
#[export] Instance client_accept_invitation_critical c id : Critical (semaphore CLIENT_INVITE_OP_SEM) (client_accept_invitation c id).
Proof. cut_into_steps client_accept_invitation. Defined.
#[export] Instance client_make_move_critical c id mv : Critical (semaphore CLIENT_INVITE_OP_SEM) (client_make_move c id mv).
Proof. cut_into_steps client_make_move. Defined.

(** [src/client_registry.c] and [client_login]; [creg_register] creates a
    client, which initialises the semaphores. *)
#[export] Instance client_create_steps cr fd : Steps (sems nobody) (client_create cr fd).
Proof. cut_into_steps client_create. Defined.
#[export] Instance creg_register_steps cr fd : Steps (sems nobody) (creg_register cr fd).
Proof. cut_into_steps creg_register. Defined.
#[export] Instance creg_unregister_steps held cr c : Steps (sems held) (creg_unregister cr c).
Proof. cut_into_steps creg_unregister. Defined.
#[export] Instance lookup_user_steps held l user : Steps (sems held) (lookup_user l user).
Proof. induction l as [|c l IH]; cbn [lookup_user]; apply _. Defined.
#[export] Instance creg_lookup_steps held cr user : Steps (sems held) (creg_lookup cr user).
Proof. cut_into_steps creg_lookup. Defined.
#[export] Instance collect_players_steps held l : Steps (sems held) (collect_players l).
Proof. induction l as [|c l IH]; cbn [collect_players]; apply _. Defined.
#[export] Instance creg_all_players_steps held cr : Steps (sems held) (creg_all_players cr).
Proof. cut_into_steps creg_all_players. Defined.
#[export] Instance shutdown_clients_steps held l : Steps (sems held) (shutdown_clients l).
Proof. induction l as [|c l IH]; cbn [shutdown_clients]; apply _. Defined.
#[export] Instance creg_shutdown_all_steps held cr : Steps (sems held) (creg_shutdown_all cr).
Proof. cut_into_steps creg_shutdown_all. Defined.
#[export] Instance creg_wait_for_empty_steps held cr : Steps (sems held) (creg_wait_for_empty cr).
Proof. cut_into_steps creg_wait_for_empty. Defined.
#[export] Instance creg_fini_steps held cr : Steps (sems held) (creg_fini cr).
Proof. cut_into_steps creg_fini. Defined.
#[export] Instance preg_unref_all_steps held preg l : Steps (sems held) (preg_unref_all preg l).
Proof. induction l as [|p l IH]; cbn [preg_unref_all]; apply _. Defined.
#[export] Instance preg_fini_steps held pr : Steps (sems held) (preg_fini pr).
Proof. cut_into_steps preg_fini. Defined.
#[export] Instance name_taken_steps held l name : Steps (sems held) (name_taken l name).
Proof. induction l as [|p l IH]; cbn [name_taken]; apply _. Defined.
#[export] Instance client_login_steps held c p : Steps (sems held) (client_login c p).
Proof. cut_into_steps client_login. Defined.
#[export] Instance client_login_critical c p : Critical (semaphore CLIENT_LOGIN_SEM) (client_login c p).
Proof. cut_into_steps client_login. Defined.
End calls.

(** [src/server.c] *)
Section service.
Context `{Libm} (cr pr : ptr).
Implicit Types held : nat → Prop.

#[export] Instance strncpy_copy_steps held s n : Steps (sems held) (strncpy_copy s n).
Proof. cut_into_steps strncpy_copy. Defined.
#[export] Instance users_lines_steps held l : Steps (sems held) (users_lines l).
Proof. induction l as [|p l IH]; cbn [users_lines]; cbv zeta; apply _. Defined.
#[export] Instance process_login_steps held pl h c : Steps (sems held) (process_login pr pl h c).
Proof. cut_into_steps process_login. Defined.
#[export] Instance process_users_steps held pl c : Steps (sems held) (process_users cr pl c).
Proof. cut_into_steps process_users. Defined.
#[export] Instance process_invite_steps held pl c h : Steps (sems held) (process_invite cr pl c h).
Proof. cut_into_steps process_invite. Defined.
#[export] Instance process_revoke_steps held pl c h : Steps (sems held) (process_revoke pl c h).
Proof. cut_into_steps process_revoke. Defined.
#[export] Instance process_decline_steps held pl c h : Steps (sems held) (process_decline pl c h).
Proof. cut_into_steps process_decline. Defined.
#[export] Instance process_accept_steps held pl c h : Steps (sems held) (process_accept pl c h).
Proof. cut_into_steps process_accept. Defined.
#[export] Instance process_move_steps held pl c h : Steps (sems held) (process_move pl c h).
Proof. cut_into_steps process_move. Defined.
#[export] Instance process_resign_steps held pl c h : Steps (sems held) (process_resign pl c h).
Proof. cut_into_steps process_resign. Defined.
#[export] Instance if_logged_in_steps held flag c m `{!Steps (sems held) m} : Steps (sems held) (if_logged_in flag c m).
Proof. cut_into_steps if_logged_in. Defined.
#[export] Instance dispatch_in_steps held c h pl flag : Steps (sems held) (dispatch cr pr c h pl flag).
Proof. cut_into_steps dispatch. Defined.
#[export] Instance service_iteration_steps held fd c flag : Steps (sems held) (service_iteration cr pr fd c flag).
Proof. cut_into_steps service_iteration. Defined.
#[export] Instance service_loop_steps held fuel : ∀ fd c flag, Steps (sems held) (service_loop cr pr fuel fd c flag).
Proof. induction fuel as [|fuel IH]; intros fd c flag; cbn [service_loop]; apply _. Defined.
#[export] Instance terminate_steps held : Steps (sems held) (terminate cr pr).
Proof. cut_into_steps terminate. Defined.
#[export] Instance jeux_client_service_steps fuel fd : Steps (sems nobody) (jeux_client_service cr pr fuel fd).
Proof. cut_into_steps jeux_client_service. Defined.
End service.
