(* ===== verification/Typing.v ===== *)
(** * Typed memory

    What the declarations of the structures promise of every value in memory:
    an [int] is in its range, a name is a C string, a board has nine cells,
    the arrays have their lengths, a stream is made of bytes.  Each atomic
    step keeps this, so that it holds whatever the order of the steps of the
    threads, of their input and of the results of [calloc] and the kernel:
    also in the executions of [Races], up to the step that is undefined. *)
From stdpp Require Import relations.
From S2P Require Import Prelude Game Player World Threads Objects Protocol PlayerRegistry Invitation Client Sessions ClientRegistry Server Critical Atomic Steps.

(** ** Values of C types *)

Definition is_int (z : Z) : Prop := INT_MIN ≤ z ≤ INT_MAX.

(** The values of a structure, beyond what its [Record] says. *)
Class CType (V : Type) := ctype : V → Prop.

#[export] Instance player_ctype : CType PLAYER := λ v,
  is_cstring (p_name v) ∧ is_int (p_rating v) ∧ is_int (p_ref_count v).
#[export] Instance game_ctype : CType GAME := λ g,
  wf_board (g_rows g) ∧ (g_is_over g = 0 ∨ g_is_over g = 1) ∧ is_int (g_ref_count g).
#[export] Instance inv_ctype : CType INVITATION := λ i, is_int (i_ref_count i).
#[export] Instance client_ctype : CType CLIENT := λ c,
  Forall is_int (c_available_ids c) ∧ is_int (c_current_id_size c) ∧ Forall (λ n, is_int (n_id n)) (c_invite_head c) ∧
  is_int (c_fd c) ∧ is_int (c_ref_count c) ∧ is_int (c_id_usage c).
#[export] Instance creg_ctype : CType CLIENT_REGISTRY := λ r,
  Z.of_nat (length (cr_clients r)) = MAX_CLIENTS ∧ is_int (cr_length r) ∧ is_int (cr_no r).
#[export] Instance preg_ctype : CType PLAYER_REGISTRY := λ q, is_int (pr_length q).
#[export] Instance conn_ctype : CType CONN := λ k, Forall is_byte (k_in k) ∧ Forall is_byte (k_out k).

Abbreviation all_typed m := (map_Forall (λ _ v, ctype v) m).

Record well_typed (w : world) : Prop := {
  wt_clients : all_typed (w_clients w);
  wt_invs : all_typed (w_invs w);
  wt_games : all_typed (w_games w);
  wt_players : all_typed (w_players w);
  wt_cregs : all_typed (w_cregs w);
  wt_pregs : all_typed (w_pregs w);
  wt_sems : length (w_sems w) = CLIENT_SEM_FUNCTIONS;
  wt_net : all_typed (w_net w)
}.

(** A heap whose objects are typed. *)
Class TypedHeap (V : Type) `{Heap V, CType V} : Prop := {
  heap_typed w : well_typed w → all_typed (heap w);
  set_heap_typed h w : well_typed w → all_typed h → well_typed (set_heap h w)
}.
#[export] Instance client_typed_heap : TypedHeap CLIENT.
Proof. split; [apply wt_clients|by intros h w []]. Qed.
#[export] Instance inv_typed_heap : TypedHeap INVITATION.
Proof. split; [apply wt_invs|by intros h w []]. Qed.
#[export] Instance game_typed_heap : TypedHeap GAME.
Proof. split; [apply wt_games|by intros h w []]. Qed.
#[export] Instance player_typed_heap : TypedHeap PLAYER.
Proof. split; [apply wt_players|by intros h w []]. Qed.
#[export] Instance creg_typed_heap : TypedHeap CLIENT_REGISTRY.
Proof. split; [apply wt_cregs|by intros h w []]. Qed.
#[export] Instance preg_typed_heap : TypedHeap PLAYER_REGISTRY.
Proof. split; [apply wt_pregs|by intros h w []]. Qed.

(** ** Calls and programs that keep memory typed *)

(** The call leaves memory typed, and its result satisfies [P]. *)
Definition returns {A} (P : A → Prop) (m : M A) : Prop := ∀ w a w',
  well_typed w → m w = Ret a w' → well_typed w' ∧ P a.

(** So does each step of the program. *)
Fixpoint typed_prog {A} (P : A → Prop) (p : prog A) : Prop :=
  match p with
  | Done a => P a
  | Act m k => ∀ w b w', well_typed w → m w = Ret b w' → well_typed w' ∧ typed_prog P (k b)
  end.

Abbreviation any := (λ _, True).

Lemma returns_ret {A} (P : A → Prop) a : P a → returns P (mret a).
Proof. intros Ha w b w' Hw [= <- <-]. done. Qed.

Lemma returns_bind {A B} (P : A → Prop) (Q : B → Prop) (m : M A) (k : A → M B) :
  returns P m → (∀ a, P a → returns Q (k a)) → returns Q (m ≫= k).
Proof.
  intros Hm Hk w b w' Hw E. unfold mbind, M_bind in E. destruct (m w) as [a w1| | |] eqn:Em; try done.
  destruct (Hm _ _ _ Hw Em) as [Hw1 Ha]. by eapply Hk.
Qed.

Lemma returns_mono {A} (P Q : A → Prop) m : returns P m → (∀ a, P a → Q a) → returns Q m.
Proof. intros Hm HPQ w a w' Hw E. destruct (Hm _ _ _ Hw E). auto. Qed.

(** A call that does not return. *)
Lemma returns_not {A} (P : A → Prop) m : (∀ w a w', m w ≠ Ret a w') → returns P m.
Proof. intros Hm w a w' _ E. by apply Hm in E. Qed.

Lemma typed_act {A B} (P : B → Prop) (Q : A → Prop) (m : M B) (k : B → prog A) :
  returns P m → (∀ b, P b → typed_prog Q (k b)) → typed_prog Q (Act m k).
Proof. intros Hm Hk w b w' Hw E. destruct (Hm _ _ _ Hw E). auto. Qed.

Lemma typed_single {A} (P : A → Prop) (m : M A) : returns P m → typed_prog P (Act m Done).
Proof. intros Hm. by apply (typed_act P). Qed.

Lemma typed_bind {A B} (P : A → Prop) (Q : B → Prop) (p : prog A) (f : A → prog B) :
  typed_prog P p → (∀ a, P a → typed_prog Q (f a)) → typed_prog Q (pbind p f).
Proof.
  intros Hp Hf. induction p as [a|C m k IH]; [by apply Hf|]. intros w b w' Hw E.
  destruct (Hp _ _ _ Hw E) as [Hw' Hk]. split; [done|]. by apply IH.
Qed.

Lemma typed_mono {A} (P Q : A → Prop) p : typed_prog P p → (∀ a, P a → Q a) → typed_prog Q p.
Proof.
  intros Hp HPQ. induction p as [a|C m k IH]; [by apply HPQ|]. intros w b w' Hw E.
  destruct (Hp _ _ _ Hw E) as [Hw' Hk]. split; [done|]. by apply IH.
Qed.

(** A program whose steps keep memory typed is a call that does. *)
Lemma typed_alone {A} (P : A → Prop) p : typed_prog P p → returns P (alone p).
Proof.
  intros Hp. induction p as [a|B m k IH]; [by apply returns_ret|]. intros w a w' Hw E. cbn in E.
  unfold mbind, M_bind in E. destruct (m w) as [b w1| | |] eqn:Em; try done.
  destruct (Hp _ _ _ Hw Em) as [Hw1 Hk]. by apply (IH b Hk w1).
Qed.

(** So does any interleaving of such programs. *)
Lemma typed_pool {A} (P : A → Prop) ts w ts' w' :
  Forall (typed_prog P) ts → well_typed w → rtc pool_step (ts, w) (ts', w') →
  Forall (typed_prog P) ts' ∧ well_typed w'.
Proof.
  intros Hts Hw Hr. apply (pool_invariant (λ c, Forall (typed_prog P) c.1 ∧ well_typed c.2) (ts, w) (ts', w')); [|done..].
  cbn. clear. intros ts w i p p' w' [Hts Hw] Hi E.
  assert (typed_prog P p) as Hp by (by eapply Forall_lookup_1 in Hi).
  destruct p as [a|B m k]; [done|]. cbn in E. unfold mbind, M_bind in E.
  destruct (m w) as [b w1| | |] eqn:Em; try done. injection E as <- <-. destruct (Hp _ _ _ Hw Em) as [Hw1 Hk].
  split; [|done]. by apply Forall_insert.
Qed.

(** ** The atomic steps *)

Create HintDb typed discriminated.
#[export] Hint Constants Opaque : typed.

Section accesses.
Context `{TypedHeap V}.

Lemma load_typed p : returns ctype (load (V:=V) p).
Proof.
  intros w v w' Hw E. unfold load in E. destruct (heap w !! p) as [v'|] eqn:Hp; [|done]. injection E as <- <-.
  split; [done|]. by eapply (heap_typed w Hw p).
Qed.

Lemma store_typed p (v : V) : ctype v → returns any (store p v).
Proof.
  intros Hv w u w' Hw E. unfold store in E. destruct (heap w !! p) eqn:Hp; [|done]. injection E as _ <-.
  split; [|done]. apply set_heap_typed; [done|]. apply map_Forall_insert_2; [done|by apply heap_typed].
Qed.

Lemma update_typed p (f : V → V) : (∀ v, ctype v → ctype (f v)) → returns any (update p f).
Proof. intros Hf. eapply returns_bind; [apply load_typed|]. intros v Hv. by apply store_typed, Hf. Qed.

Lemma alloc_typed (v : V) : ctype v → returns any (alloc v).
Proof.
  intros Hv w p w' Hw E. injection E as _ <-. split; [|done].
  assert (well_typed (set_heap (<[w_brk w := v]> (heap w)) w)) as Hs.
  { apply set_heap_typed; [done|]. apply map_Forall_insert_2; [done|by apply heap_typed]. }
  by destruct Hs.
Qed.

Lemma free_typed p : returns any (free (V:=V) p).
Proof.
  intros w u w' Hw E. unfold free in E. destruct (heap w !! p) eqn:Hp; [|done]. injection E as _ <-.
  split; [|done]. apply set_heap_typed; [done|]. by apply map_Forall_delete, heap_typed.
Qed.

Lemma calloc_typed : returns any calloc.
Proof. intros w b w' Hw E. unfold calloc in E. destruct (w_oom w); injection E as _ <-; [done|]. by destruct Hw. Qed.

Lemma calloc_obj_typed (v : V) : ctype v → returns any (calloc_obj v).
Proof.
  intros Hv. eapply returns_bind; [apply calloc_typed|]. intros [] _; [by apply alloc_typed|by apply returns_ret].
Qed.
End accesses.
#[export] Hint Extern 0 (TypedHeap _) => apply _ : typed.
#[export] Hint Resolve load_typed store_typed update_typed alloc_typed free_typed calloc_typed calloc_obj_typed : typed.

Lemma stuck_typed {A} (P : A → Prop) : returns P stuck.
Proof. by apply returns_not. Qed.
Lemma undef_typed {A} (P : A → Prop) : returns P undef.
Proof. by apply returns_not. Qed.
Lemma out_of_fuel_typed {A} (P : A → Prop) : returns P out_of_fuel.
Proof. by apply returns_not. Qed.
Lemma stuck_typed_any {A} : returns any (stuck (A:=A)).
Proof. apply stuck_typed. Qed.
Lemma undef_typed_any {A} : returns any (undef (A:=A)).
Proof. apply undef_typed. Qed.
Lemma out_of_fuel_typed_any {A} : returns any (out_of_fuel (A:=A)).
Proof. apply out_of_fuel_typed. Qed.
Lemma defined_typed {A} (o : option A) : returns (λ a, o = Some a) (defined o).
Proof. destruct o; [by apply returns_ret|apply undef_typed]. Qed.
Lemma gets_typed {A} (f : world → A) : returns any (gets f).
Proof. by intros w a w' Hw [= _ <-]. Qed.
Lemma calloc_unchecked_typed : returns any calloc_unchecked.
Proof. eapply returns_bind; [apply calloc_typed|]. intros [] _; [by apply returns_ret|apply undef_typed]. Qed.
Lemma clock_gettime_typed : returns any clock_gettime.
Proof. intros w t w' Hw E. unfold clock_gettime in E. destruct (w_clock w); injection E as _ <-; [done|]. by destruct Hw. Qed.
Lemma fresh_addr_typed : returns any fresh_addr.
Proof. intros w p w' Hw [= _ <-]. by destruct Hw. Qed.
Lemma sem_wait_typed i : returns any (sem_wait i).
Proof.
  intros w u w' Hw E. unfold sem_wait in E. destruct (w_sems w !! i) as [v|]; [|done]. destruct (0 <? v); [|done].
  injection E as _ <-. split; [|done]. destruct Hw. split; cbn; try done. by rewrite length_insert.
Qed.
Lemma sem_post_typed i : returns any (sem_post i).
Proof.
  intros w u w' Hw E. unfold sem_post in E. destruct (w_sems w !! i) as [v|]; [|done].
  injection E as _ <-. split; [|done]. destruct Hw. split; cbn; try done. by rewrite length_insert.
Qed.
Lemma init_semaphores_typed : returns any init_semaphores.
Proof. intros w u w' Hw E. unfold init_semaphores in E. case_match; injection E as _ <-; [|done]. by destruct Hw. Qed.
#[export] Hint Resolve stuck_typed_any undef_typed_any out_of_fuel_typed_any | 0 : typed.
#[export] Hint Resolve stuck_typed undef_typed out_of_fuel_typed defined_typed gets_typed calloc_unchecked_typed
  clock_gettime_typed fresh_addr_typed sem_wait_typed sem_post_typed init_semaphores_typed : typed.

(** The system calls: bytes in, bytes out. *)
Lemma set_conn_typed fd (k : CONN) w : well_typed w → ctype k → well_typed (set_conn fd k w).
Proof. intros [] Hk. split; cbn; try done. by apply map_Forall_insert_2. Qed.

Lemma sys_write_typed fd buf n : Forall is_byte buf → returns any (sys_write fd buf n).
Proof.
  intros Hb w c w' Hw E. split; [|done]. unfold sys_write in E. destruct (_ <? n); [done|].
  destruct (w_net w !! fd) as [k|] eqn:Hk; [|by injection E as _ <-].
  pose proof (wt_net _ Hw fd k Hk) as [Hin Hout].
  destruct (k_wscript k) as [|r rs]; [|destruct (r <=? 0)]; injection E as _ <-; apply set_conn_typed;
    try done; (split; cbn; [done|]); try done; apply Forall_app_2; (done || by apply Forall_take).
Qed.

Lemma sys_read_typed fd n : returns (λ r, Forall is_byte r.2) (sys_read fd n).
Proof.
  intros w r w' Hw E. unfold sys_read in E.
  destruct (w_net w !! fd) as [k|] eqn:Hk; [|by injection E as <- <-].
  pose proof (wt_net _ Hw fd k Hk) as [Hin Hout].
  destruct (k_rscript k) as [|c rs]; [|destruct (c <=? 0)]; injection E as <- <-; cbn; split; try done;
    try (by apply Forall_take); apply set_conn_typed; try done; split; cbn; try done; by apply Forall_drop.
Qed.

Lemma sys_shutdown_rd_typed fd : returns any (sys_shutdown_rd fd).
Proof.
  intros w u w' Hw E. split; [|done]. unfold sys_shutdown_rd in E. destruct (w_net w !! fd) as [k|] eqn:Hk.
  - pose proof (wt_net _ Hw fd k Hk) as [Hin Hout]. injection E as _ <-. by apply set_conn_typed.
  - by injection E as _ <-.
Qed.

Lemma sys_close_typed fd : returns any (sys_close fd).
Proof. intros w u w' [] [= _ <-]. split; [|done]. split; cbn; try done. by apply map_Forall_delete. Qed.
#[export] Hint Resolve sys_write_typed sys_read_typed sys_shutdown_rd_typed sys_close_typed : typed.

(** Updates of a structure that change no typed field. *)
Lemma c_same_typed (f : CLIENT → CLIENT) :
  (∀ c, c_available_ids (f c) = c_available_ids c ∧ c_current_id_size (f c) = c_current_id_size c ∧
    c_invite_head (f c) = c_invite_head c ∧ c_fd (f c) = c_fd c ∧ c_ref_count (f c) = c_ref_count c ∧
    c_id_usage (f c) = c_id_usage c) → ∀ c, ctype c → ctype (f c).
Proof. intros Hf c Hc. unfold ctype, client_ctype in *. by destruct (Hf c) as (-> & -> & -> & -> & -> & ->). Qed.
Lemma r_same_typed (f : CLIENT_REGISTRY → CLIENT_REGISTRY) :
  (∀ r, cr_clients (f r) = cr_clients r ∧ cr_length (f r) = cr_length r ∧ cr_no (f r) = cr_no r) →
  ∀ r, ctype r → ctype (f r).
Proof. intros Hf r Hr. unfold ctype, creg_ctype in *. by destruct (Hf r) as (-> & -> & ->). Qed.
Lemma i_same_typed (f : INVITATION → INVITATION) :
  (∀ i, i_ref_count (f i) = i_ref_count i) → ∀ i, ctype i → ctype (f i).
Proof. intros Hf i Hi. unfold ctype, inv_ctype in *. by rewrite Hf. Qed.
#[export] Hint Extern 1 (∀ v : CLIENT, ctype v → ctype _) => apply (c_same_typed _); intros; done : typed.
#[export] Hint Extern 1 (∀ v : CLIENT_REGISTRY, ctype v → ctype _) => apply (r_same_typed _); intros; done : typed.
#[export] Hint Extern 1 (∀ v : INVITATION, ctype v → ctype _) => apply (i_same_typed _); intros; done : typed.
#[export] Hint Extern 1 (∀ v : GAME, ctype v → ctype _) => intros ? (? & ? & ?); split; [|split]; cbn; auto; done : typed.

Lemma lock_client_typed p : returns any (lock_client p).
Proof. eapply returns_bind; [apply load_typed|]. intros c Hc. destruct (c_lock c); [apply stuck_typed|]. by apply store_typed. Qed.
Lemma unlock_client_typed p : returns any (unlock_client p).
Proof. apply update_typed. by apply c_same_typed. Qed.
Lemma lock_creg_typed p : returns any (lock_creg p).
Proof. eapply returns_bind; [apply load_typed|]. intros r Hr. destruct (cr_mutex r); [apply stuck_typed|]. by apply store_typed. Qed.
Lemma unlock_creg_typed p : returns any (unlock_creg p).
Proof. apply update_typed. by apply r_same_typed. Qed.
Lemma creg_wait_login_queue_typed p : returns any (creg_wait_login_queue p).
Proof. eapply returns_bind; [apply load_typed|]. intros r Hr. case_match; [by apply store_typed|apply stuck_typed]. Qed.
Lemma creg_post_login_queue_typed p : returns any (creg_post_login_queue p).
Proof. apply update_typed. by apply r_same_typed. Qed.
Lemma creg_wait_sem_typed p : returns any (creg_wait_sem p).
Proof. eapply returns_bind; [apply load_typed|]. intros r Hr. case_match; [by apply store_typed|apply stuck_typed]. Qed.
Lemma creg_post_sem_typed p : returns any (creg_post_sem p).
Proof. apply update_typed. by apply r_same_typed. Qed.
#[export] Hint Resolve lock_client_typed unlock_client_typed lock_creg_typed unlock_creg_typed creg_wait_login_queue_typed
  creg_post_login_queue_typed creg_wait_sem_typed creg_post_sem_typed : typed.

(** ** Pure functions on typed values *)

Lemma header_bytes_typed h : header_ok h → Forall is_byte (header_bytes h).
Proof.
  intros (Ht & Hi & Hr & _). unfold header_bytes, is_byte in *.
  repeat (apply Forall_app_2 || apply le_bytes_range || (apply Forall_cons; split; [lia|]) || apply Forall_nil); done.
Qed.

Lemma nth_typed b i : Forall is_byte b → is_byte (nth i b 0).
Proof.
  intros Hb. revert i. induction Hb as [|c b Hc Hb IH]; intros [|i]; cbn; try done; unfold is_byte; lia.
Qed.

Lemma header_of_bytes_ok b : Forall is_byte b → header_ok (header_of_bytes b).
Proof.
  intros Hb.
  assert (∀ n k, 0 ≤ le_value (take n (drop k b)) < 256 ^ Z.of_nat n) as Hv.
  { intros n k. assert (Forall is_byte (take n (drop k b))) as Hf by (by apply Forall_take, Forall_drop).
    pose proof (le_value_range _ Hf) as [H0 H1]. split; [done|]. eapply Z.lt_le_trans; [exact H1|].
    apply Z.pow_le_mono_r; [lia|]. rewrite length_take. lia. }
  repeat split; try (apply nth_typed; done); [apply (Hv 2%nat)|apply (Hv 2%nat 4%nat)|apply (Hv 4%nat)|
    apply (Hv 4%nat 8%nat)|apply (Hv 4%nat)|apply (Hv 4%nat 12%nat)].
Qed.

Lemma cstring_bytes s : is_cstring s → Forall is_byte s.
Proof. intros Hs. eapply Forall_impl; [exact Hs|]. unfold is_byte. cbn. lia. Qed.

Lemma digits_typed fuel : ∀ n acc, is_cstring acc → is_cstring (digits_aux fuel n acc).
Proof.
  induction fuel as [|fuel IH]; intros n acc Hacc; [done|]. cbn.
  assert (is_cstring ((48 + n mod 10) :: acc)) as Hd.
  { constructor; [|done]. pose proof (Z.mod_pos_bound n 10). lia. }
  by case_match; [|apply IH].
Qed.

Lemma decimal_typed n : is_cstring (decimal n).
Proof.
  assert (is_cstring []) as Hn by constructor. unfold decimal.
  destruct (n <? 0); [constructor; [lia|]|]; by apply digits_typed.
Qed.

Lemma row_text_typed b i : is_cstring (row_text b i).
Proof. unfold row_text, cell_char. repeat (constructor; [repeat case_match; lia|]). constructor. Qed.

Lemma game_unparse_state_typed g : is_cstring (game_unparse_state g).
Proof.
  unfold game_unparse_state.
  repeat (apply Forall_app_2 || apply row_text_typed); try (vm_compute; by repeat constructor).
  constructor; [case_decide; lia|constructor].
Qed.

Lemma user_line_typed name rating line : is_cstring name → user_line name rating = Some line → Forall is_byte line.
Proof.
  intros Hn E. apply cstring_bytes. unfold user_line in E. case_match; [done|]. injection E as <-.
  repeat (apply Forall_app_2 || apply decimal_typed || constructor; try lia); done.
Qed.

Lemma int_op_typed z n : int_op z = Some n → n = z ∧ is_int n.
Proof. unfold int_op. case_decide; [|done]. by intros [= <-]. Qed.

Lemma int_op_is_int z n : int_op z = Some n → is_int n.
Proof. by intros [_ ?]%int_op_typed. Qed.

Lemma game_create_typed : ctype game_create.
Proof.
  split; [|split; [by left|done]]. split; [done|]. cbn. by repeat (constructor; [lia|]).
Qed.

Lemma player_ref_typed v v' : ctype v → player_ref v = Some v' → ctype v'.
Proof. intros (? & ? & _) (n & Hn%int_op_is_int & [= <-])%bind_Some. done. Qed.

Lemma player_get_name_typed v : ctype v → is_cstring (player_get_name v).
Proof. by intros []. Qed.

Lemma player_get_rating_typed v : ctype v → is_int (player_get_rating v).
Proof. by intros (_ & ? & _). Qed.

Lemma game_ref_typed g g' : ctype g → game_ref g = Some g' → ctype g'.
Proof. intros (? & ? & _) (n & Hn%int_op_is_int & [= <-])%bind_Some. done. Qed.

Lemma game_drop_typed g g' : ctype g → game_drop g = Some g' → ctype g'.
Proof. intros (? & ? & _) (n & Hn%int_op_is_int & [= <-])%bind_Some. done. Qed.

Lemma i_count_typed d i i' : ctype i → i_count d i = Some i' → ctype i'.
Proof. intros _ (n & Hn%int_op_is_int & [= <-])%bind_Some. done. Qed.

Lemma c_count_typed d c c' : ctype c → c_count d c = Some c' → ctype c'.
Proof. intros (? & ? & ? & ? & _ & ?) (n & Hn%int_op_is_int & [= <-])%bind_Some. done. Qed.

Lemma cr_count_typed d r r' : ctype r → cr_count d r = Some r' → ctype r'.
Proof. intros (? & _ & ?) (n & Hn%int_op_is_int & [= <-])%bind_Some. done. Qed.

Lemma pr_count_typed d q q' : pr_count d q = Some q' → ctype q'.
Proof. intros (n & Hn%int_op_is_int & [= <-])%bind_Some. done. Qed.

Lemma game_is_over_typed g : ctype g → ctype (game_is_over g).2.
Proof.
  intros (Hb & Ho & Hn). destruct (game_is_over_frame g) as (Hr & Hc & _). split; [by rewrite Hr|].
  split; [|by rewrite Hc]. unfold game_is_over. destruct (first_line _ _); [by right|].
  destruct (empty_count _ =? 0); [by right|done].
Qed.

Lemma game_place_typed g mv r g' : ctype g → game_place g mv = Some (r, g') → ctype g'.
Proof.
  intros Hg E. unfold game_place in E. repeat (case_match || case_decide); simplify_eq; try done;
    destruct Hg as (Hb & Ho & Hn); (split; [by apply wf_board_insert|done]).
Qed.

Lemma player_drop_typed v v' : ctype v → player_drop v = Some v' → ctype v'.
Proof. intros (? & ? & _) (n & Hn%int_op_is_int & [= <-])%bind_Some. done. Qed.

Lemma player_create_typed name : is_cstring name → ctype (player_create name).
Proof. intros Hn. split; [done|]. by split. Qed.

Lemma int_of_double_typed d n : int_of_double d = Some n → is_int n.
Proof.
  destruct d as [s|s| |s m e]; cbn; try done; [by intros [= <-]|]. intros E. by apply int_op_typed in E as [_ ?].
Qed.

Lemma elo_update_typed `{Libm} r1 r2 result n : elo_update r1 r2 result = Some n → is_int n.1 ∧ is_int n.2.
Proof.
  unfold elo_update. intros E. repeat (apply bind_Some in E as (? & ? & E)). injection E as <-. cbn.
  split; by eapply int_of_double_typed.
Qed.

(** The structure of a client. *)
Lemma client_ids_typed (c : CLIENT) : ctype c → Forall is_int (c_available_ids c).
Proof. by intros (? & _). Qed.
Lemma client_size_typed (c : CLIENT) : ctype c → is_int (c_current_id_size c).
Proof. by intros (_ & ? & _). Qed.
Lemma client_nodes_typed (c : CLIENT) : ctype c → Forall (λ n, is_int (n_id n)) (c_invite_head c).
Proof. by intros (_ & _ & ? & _). Qed.

Lemma client_id_typed (c : CLIENT) i v : ctype c → c_available_ids c !! i = Some v → is_int v.
Proof. intros Hc Hi. by eapply (Forall_lookup_1 is_int (c_available_ids c)); [apply client_ids_typed|]. Qed.

Lemma initial_ids_typed : Forall is_int (initial_ids 100).
Proof. apply (bool_decide_eq_true_1 _). vm_compute. reflexivity. Qed.

Lemma new_ids_typed size : is_int size →
  Forall is_int (Z.of_nat <$> seq (Z.to_nat (size / 2)) (Z.to_nat (size / 2))).
Proof.
  intros Hs. apply Forall_fmap, Forall_forall. intros i Hi%elem_of_seq. unfold is_int, INT_MIN, INT_MAX in *. cbn.
  assert (2 * (size / 2) ≤ size) by (apply Z.mul_div_le; lia). lia.
Qed.

Lemma client_usage_typed (c : CLIENT) : ctype c → is_int (c_id_usage c).
Proof. by intros (_ & _ & _ & _ & _ & ?). Qed.
Lemma client_fd_typed (c : CLIENT) : ctype c → is_int (c_fd c).
Proof. by intros (_ & _ & _ & ? & _). Qed.

Lemma c_set_ids_typed ids u size c :
  Forall is_int ids → is_int u → is_int size → ctype c → ctype (c_set_ids ids u size c).
Proof. intros Hi Hu Hs (_ & _ & Hn & Hf & Hr & _). done. Qed.

Lemma c_set_invites_typed l c : Forall (λ n, is_int (n_id n)) l → ctype c → ctype (c_set_invites l c).
Proof. intros Hl (Hi & Hs & _ & Hrest). done. Qed.

Lemma node_typed a id inv l : is_int id → Forall (λ n, is_int (n_id n)) l → Forall (λ n, is_int (n_id n)) (mkNODE a id inv :: l).
Proof. intros Hid Hl. by constructor. Qed.

Lemma unlink_typed inv l : Forall (λ n, is_int (n_id n)) l → Forall (λ n, is_int (n_id n)) (unlink inv l).
Proof. induction 1 as [|n l Hn Hl IH]; [constructor|]. cbn. case_match; [done|]. by constructor. Qed.

Lemma find_node_typed c P n : ctype c → find_node P (c_invite_head c) = Some n → is_int (n_id n).
Proof.
  intros Hc [Hin _]%List.find_some. pose proof (client_nodes_typed c Hc) as Hn. rewrite Forall_forall in Hn.
  by apply Hn, list_elem_of_In.
Qed.

Lemma minus_one_typed : is_int (-1).
Proof. by unfold is_int, INT_MIN, INT_MAX. Qed.

(** The array of the registry. *)
Lemma remove_slot_typed i n r : ctype r → ctype (cr_set_clients (remove_slot (cr_clients r) i n) r).
Proof. unfold ctype, creg_ctype, remove_slot. cbn. by rewrite length_shift_up, length_insert. Qed.

Lemma set_slot_typed i p r : ctype r → ctype (cr_set_clients (<[i := p]> (cr_clients r)) r).
Proof. unfold ctype, creg_ctype. cbn. by rewrite length_insert. Qed.

Lemma set_no_typed r : ctype r → ctype (cr_set_no 1 r).
Proof. by intros (? & ? & _). Qed.

Lemma fresh_client_typed cr fd : is_int fd →
  ctype (mkCLIENT false cr fd 0 NULL CLIENT_LOGGED_OUT (initial_ids 100) 0 100 []).
Proof. intros Hfd. split; [apply initial_ids_typed|]. split; [done|]. split; [constructor|]. done. Qed.

Lemma fresh_inv_typed : ctype (mkINV INV_OPEN_STATE 0 NULL NULL NULL NULL_ROLE NULL_ROLE).
Proof. done. Qed.

#[export] Hint Resolve game_is_over_typed fresh_inv_typed : typed.

(** ** Counting *)

Lemma update_opt_typed `{TypedHeap V} p (f : V → option V) :
  (∀ v v', ctype v → f v = Some v' → ctype v') → returns any (update_opt p f).
Proof.
  intros Hf. eapply returns_bind; [apply load_typed|]. intros v Hv. eapply returns_bind; [apply defined_typed|].
  intros v' E. apply store_typed. by eapply Hf.
Qed.
#[export] Hint Extern 1 (returns _ (update_opt _ _)) => apply update_opt_typed;
  eauto using game_ref_typed, player_ref_typed, i_count_typed, c_count_typed, cr_count_typed, pr_count_typed : typed.

(** ** Calls under a mutex of their own *)

Lemma game_drop_at_typed g : returns any (game_drop_at g).
Proof.
  eapply returns_bind; [apply load_typed|]. intros v Hv. eapply returns_bind; [apply defined_typed|]. intros v' E.
  eapply returns_bind; [|intros; by apply returns_ret]. apply store_typed. by eapply game_drop_typed.
Qed.

Lemma game_place_at_typed g mv : returns any (game_place_at g mv).
Proof.
  eapply returns_bind; [apply load_typed|]. intros v Hv. eapply returns_bind; [apply defined_typed|].
  intros [r v'] E. eapply returns_bind; [|intros; by apply returns_ret]. apply store_typed. by eapply game_place_typed.
Qed.

Lemma player_drop_at_typed p : returns any (player_drop_at p).
Proof.
  eapply returns_bind; [apply load_typed|]. intros v Hv. eapply returns_bind; [apply defined_typed|]. intros v' E.
  eapply returns_bind; [|intros; by apply returns_ret]. apply store_typed. by eapply player_drop_typed.
Qed.

Lemma player_post_result_typed `{Libm} p1 p2 r : returns any (player_post_result p1 p2 r).
Proof.
  unfold player_post_result. do 2 (case_decide; [by apply returns_ret|]). destruct (_ || _); [by apply returns_ret|].
  eapply returns_bind; [apply load_typed|]. intros v1 (Hn1 & _ & Hc1). eapply returns_bind; [apply load_typed|]. intros v2 (Hn2 & _ & Hc2).
  eapply returns_bind; [apply defined_typed|].
  intros n [Hr1 Hr2]%elo_update_typed.
  eapply returns_bind; [|intros _ _]; by apply store_typed.
Qed.

Lemma player_create_at_typed name : is_cstring name → returns any (player_create_at name).
Proof.
  intros Hn. eapply returns_bind; [by apply calloc_obj_typed, player_create_typed|]. intros p _.
  case_decide; [by apply returns_ret|]. eapply returns_bind; [apply calloc_unchecked_typed|]. intros. by apply returns_ret.
Qed.

Lemma preg_find_typed l name : returns any (preg_find l name).
Proof.
  induction l as [|p l IH]; [by apply returns_ret|]. cbn.
  apply (returns_bind any); [eapply returns_bind; [apply load_typed|intros; by apply returns_ret]|].
  intros n _. by case_decide; [apply returns_ret|].
Qed.

Lemma preg_enter_typed preg name : is_cstring name → returns any (preg_enter preg name).
Proof.
  intros Hn. eapply returns_bind; [apply load_typed|]. intros pr _. eapply returns_bind; [apply preg_find_typed|]. intros p _.
  case_decide; [by apply returns_ret|]. eapply returns_bind; [by apply player_create_at_typed|]. intros p' _.
  case_decide; [by apply returns_ret|]. eapply returns_bind; [apply calloc_typed|]. intros [] _; [|by apply returns_ret]. cbn.
  eapply returns_bind; [apply defined_typed|]. intros pr' E%pr_count_typed.
  eapply returns_bind; [by apply store_typed|]. intros _ _. by apply returns_ret.
Qed.
#[export] Hint Resolve game_drop_at_typed game_place_at_typed player_drop_at_typed
  player_post_result_typed player_create_at_typed preg_enter_typed : typed.

(** ** The functions

    [ty] follows a program cut into steps: a step or a call needs a lemma of
    the database [typed] about it, a branch is followed with the equation of
    its test. *)
Definition opt_bytes (o : option (list byte)) : Prop := match o with Some b => Forall is_byte b | None => True end.

Lemma renamed_header_ok h id : header_ok h →
  header_ok (mkHDR (h_type h) (uint8 id) (h_role h) (h_size h) (h_timestamp_sec h) (h_timestamp_nsec h)).
Proof. intros (Ht & _ & Hr). split; [done|]. split; [apply Z.mod_pos_bound; lia|done]. Qed.

Lemma opt_bytes_Some b : Forall is_byte b → opt_bytes (Some b).
Proof. done. Qed.
Lemma opt_bytes_None : opt_bytes None.
Proof. done. Qed.

Lemma opt_bytes_if {P Q} (d : {P} + {Q}) o o' : opt_bytes o → opt_bytes o' → opt_bytes (if d then o else o').
Proof. by destruct d. Qed.

#[export] Hint Resolve opt_bytes_Some opt_bytes_None opt_bytes_if renamed_header_ok created_header_ok Forall_drop Forall_take Forall_app_2 : typed.
#[export] Hint Resolve cstring_bytes le_bytes_range header_bytes_typed header_of_bytes_ok game_unparse_state_typed
  game_create_typed player_create_typed : typed.
#[export] Hint Resolve remove_slot_typed set_slot_typed set_no_typed fresh_client_typed : typed.
#[export] Hint Immediate player_get_name_typed player_get_rating_typed : typed.
#[export] Hint Immediate int_op_is_int client_ids_typed client_size_typed client_nodes_typed client_usage_typed client_id_typed
  find_node_typed : typed.
#[export] Hint Resolve initial_ids_typed new_ids_typed c_set_ids_typed c_set_invites_typed node_typed unlink_typed
  minus_one_typed Forall_insert Forall_nil_2 : typed.

Ltac ty_side :=
  repeat match goal with
  | H : _ ∧ opt_bytes _ |- _ => destruct H
  | H : opt_bytes ?o, E : ?o = Some _ |- _ => rewrite E in H
  end;
  cbn [ctype fst snd opt_bytes] in *; try done; eauto 10 with typed.

Ltac ty_open := cbn [steps steps_bind steps_single steps_ret steps_section steps_post steps_init_semaphores];
  cbv zeta beta.

Ltac ty_any P := tryif is_evar P then (lazymatch type of P with ?A → _ => unify P (λ _ : A, True) end) else idtac.

Ltac ty :=
  ty_open;
  lazymatch goal with
  | |- typed_prog ?P (Done _) => ty_any P; cbn [typed_prog]; cbv beta; ty_side
  | |- typed_prog ?P (pbind _ _) =>
      ty_any P; eapply typed_bind; [ty | cbv beta; intros; ty]
  | |- typed_prog ?P (Act _ Done) =>
      tryif is_evar P then eapply typed_single; ty_side
      else first [solve [eapply typed_single; ty_side] |
        eapply typed_mono; [eapply typed_single; ty_side | cbv beta; intros; ty_side]]
  | |- typed_prog ?P (Act _ _) => eapply typed_act; [ty_side | cbv beta; intros; ty]
  | |- @typed_prog ?A ?P (@steps _ _ _ (match ?x with _ => _ end)) =>
      first [ is_evar P; unify A Z; unify P is_int; solve [destruct x eqn:?; ty]
      | is_evar P; unify A (option (list byte)); unify P opt_bytes; solve [destruct x eqn:?; ty]
      | ty_any P; destruct x eqn:?; ty ]
  | |- typed_prog ?P (steps _) =>
      tryif is_evar P then ty_side
      else (eapply typed_mono; [ty_side | cbv beta; intros; ty_side])
  | |- _ => idtac
  end.

(** The program of a function, by its definition. *)
Tactic Notation "ty_unfold" reference(i) reference(f) := unfold i, f; ty.

(** The program of a recursive function, by induction on [n]. *)
Ltac ty_fold :=
  try match goal with
  | IH : context [nat_rect ?P ?b ?s ?n] |- _ => set (R := nat_rect P b s n) in *; clearbody R
  | IH : context [list_rect ?P ?b ?s ?n] |- _ => set (R := list_rect P b s n) in *; clearbody R
  end.
Tactic Notation "ty_induction" reference(i) reference(f) ident(n) :=
  unfold i; induction n; intros; cbn [nat_rect list_rect f]; ty_fold; ty.

(** The program of an instance. *)
Abbreviation cut S := (@steps _ _ _ S).

Section functions.
Context `{Libm}.
Implicit Types held : nat → Prop.

Lemma game_create_at_ty held  : typed_prog any (cut (game_create_at_steps held)).
Proof. ty_unfold game_create_at_steps game_create_at. Qed.
Lemma game_ref_at_ty held g : typed_prog any (cut (game_ref_at_steps held g)).
Proof. ty_unfold game_ref_at_steps game_ref_at. Qed.
Lemma game_unref_at_ty held g : typed_prog any (cut (game_unref_at_steps held g)).
Proof. ty_unfold game_unref_at_steps game_unref_at. Qed.
Lemma game_is_over_at_ty held g : typed_prog any (cut (game_is_over_at_steps held g)).
Proof. ty_unfold game_is_over_at_steps game_is_over_at. Qed.
#[local] Hint Resolve game_is_over_at_ty : typed.
Lemma game_apply_move_at_ty held g mv : typed_prog any (cut (game_apply_move_at_steps held g mv)).
Proof. ty_unfold game_apply_move_at_steps game_apply_move_at. Qed.
Lemma game_resign_at_ty held g r : typed_prog any (cut (game_resign_at_steps held g r)).
Proof. ty_unfold game_resign_at_steps game_resign_at. Qed.
Lemma game_get_winner_at_ty held g : typed_prog any (cut (game_get_winner_at_steps held g)).
Proof. ty_unfold game_get_winner_at_steps game_get_winner_at. Qed.
Lemma game_parse_move_at_ty held g r s : typed_prog any (cut (game_parse_move_at_steps held g r s)).
Proof. ty_unfold game_parse_move_at_steps game_parse_move_at. Qed.
Lemma player_ref_at_ty held p : typed_prog any (cut (player_ref_at_steps held p)).
Proof. ty_unfold player_ref_at_steps player_ref_at. Qed.
Lemma player_unref_at_ty held p : typed_prog any (cut (player_unref_at_steps held p)).
Proof. ty_unfold player_unref_at_steps player_unref_at. Qed.
#[local] Hint Resolve player_ref_at_ty : typed.
Lemma preg_register_ty held pr name : is_cstring name → typed_prog any (cut (preg_register_steps held pr name)).
Proof. intros. ty_unfold preg_register_steps preg_register. Qed.
Lemma client_ref_ty held c : typed_prog any (cut (client_ref_steps held c)).
Proof. ty_unfold client_ref_steps client_ref. Qed.
Lemma client_get_player_ty held c : typed_prog any (cut (client_get_player_steps held c)).
Proof. ty_unfold client_get_player_steps client_get_player. Qed.
Lemma client_get_fd_ty held c : typed_prog any (cut (client_get_fd_steps held c)).
Proof. ty_unfold client_get_fd_steps client_get_fd. Qed.
Lemma inv_ref_ty held i : typed_prog any (cut (inv_ref_steps held i)).
Proof. ty_unfold inv_ref_steps inv_ref. Qed.
Lemma game_unparse_state_at_ty held g : typed_prog is_cstring (cut (game_unparse_state_at_steps held g)).
Proof. ty_unfold game_unparse_state_at_steps game_unparse_state_at. Qed.
Lemma player_get_name_at_ty held p : typed_prog is_cstring (cut (player_get_name_at_steps held p)).
Proof. ty_unfold player_get_name_at_steps player_get_name_at. Qed.
Lemma player_get_rating_at_ty held p : typed_prog is_int (cut (player_get_rating_at_steps held p)).
Proof. ty_unfold player_get_rating_at_steps player_get_rating_at. Qed.
#[local] Hint Resolve game_create_at_ty game_ref_at_ty game_unref_at_ty game_apply_move_at_ty game_resign_at_ty
  game_get_winner_at_ty game_parse_move_at_ty player_unref_at_ty preg_register_ty client_ref_ty client_get_player_ty client_get_fd_ty inv_ref_ty game_unparse_state_at_ty player_get_name_at_ty
  player_get_rating_at_ty : typed.
Lemma inv_create_ty held s t rs rt : typed_prog any (cut (inv_create_steps held s t rs rt)).
Proof. ty_unfold inv_create_steps inv_create. Qed.
Lemma inv_get_source_ty held i : typed_prog any (cut (inv_get_source_steps held i)).
Proof. ty_unfold inv_get_source_steps inv_get_source. Qed.
Lemma inv_get_target_ty held i : typed_prog any (cut (inv_get_target_steps held i)).
Proof. ty_unfold inv_get_target_steps inv_get_target. Qed.
Lemma inv_get_source_role_ty held i : typed_prog any (cut (inv_get_source_role_steps held i)).
Proof. ty_unfold inv_get_source_role_steps inv_get_source_role. Qed.
Lemma inv_get_target_role_ty held i : typed_prog any (cut (inv_get_target_role_steps held i)).
Proof. ty_unfold inv_get_target_role_steps inv_get_target_role. Qed.
Lemma inv_get_game_ty held i : typed_prog any (cut (inv_get_game_steps held i)).
Proof. ty_unfold inv_get_game_steps inv_get_game. Qed.
Lemma inv_accept_ty held i : typed_prog any (cut (inv_accept_steps held i)).
Proof. ty_unfold inv_accept_steps inv_accept. Qed.
Lemma inv_close_ty held i r : typed_prog any (cut (inv_close_steps held i r)).
Proof. ty_unfold inv_close_steps inv_close. Qed.
#[local] Hint Resolve inv_create_ty inv_get_source_ty inv_get_target_ty inv_get_source_role_ty inv_get_target_role_ty
  inv_get_game_ty inv_accept_ty inv_close_ty : typed.

Lemma create_header_ty held t i r n : typed_prog header_ok (cut (create_header_steps (sems held) t i r n)).
Proof. ty_unfold create_header_steps create_header. Qed.
Lemma write_loop_ty held fuel : ∀ fd buf a b c, Forall is_byte buf →
  typed_prog any (cut (write_loop_steps (sems held) fuel fd buf a b c)).
Proof. ty_induction write_loop_steps write_loop fuel. Qed.
#[local] Hint Resolve create_header_ty write_loop_ty : typed.
Lemma write_all_ty held fd buf n : Forall is_byte buf → typed_prog any (cut (write_all_steps (sems held) fd buf n)).
Proof. intros. ty_unfold write_all_steps write_all. Qed.
#[local] Hint Resolve write_all_ty : typed.
Lemma proto_send_packet_ty held fd h d : header_ok h → opt_bytes d →
  typed_prog any (cut (proto_send_packet_steps (sems held) fd h d)).
Proof. intros. ty_unfold proto_send_packet_steps proto_send_packet. Qed.
#[local] Hint Resolve proto_send_packet_ty : typed.
Lemma read_loop_ty held fuel : ∀ fd got a b c, Forall is_byte got →
  typed_prog (λ r, Forall is_byte r.2) (cut (read_loop_steps held fuel fd got a b c)).
Proof. ty_induction read_loop_steps read_loop fuel. Qed.
#[local] Hint Resolve read_loop_ty : typed.
Lemma read_all_ty held fd n : typed_prog (λ r, Forall is_byte r.2) (cut (read_all_steps held fd n)).
Proof. ty_unfold read_all_steps read_all. Qed.
#[local] Hint Resolve read_all_ty : typed.
Lemma proto_recv_packet_ty held fd b :
  typed_prog (λ r, header_ok r.1.2 ∧ opt_bytes r.2) (cut (proto_recv_packet_steps held fd b)).
Proof. ty_unfold proto_recv_packet_steps proto_recv_packet. Qed.

Lemma get_available_id_ty held c : typed_prog is_int (cut (get_available_id_steps held c)).
Proof. ty_unfold get_available_id_steps get_available_id. Qed.
Lemma purge_id_ty held c id : is_int id → typed_prog any (cut (purge_id_steps held c id)).
Proof. intros. ty_unfold purge_id_steps purge_id. Qed.
Lemma client_get_invitation_id_ty held c i : typed_prog any (cut (client_get_invitation_id_steps held c i)).
Proof. ty_unfold client_get_invitation_id_steps client_get_invitation_id. Qed.
Lemma client_get_invitation_ty held c i : typed_prog any (cut (client_get_invitation_steps held c i)).
Proof. ty_unfold client_get_invitation_steps client_get_invitation. Qed.
#[local] Hint Resolve proto_recv_packet_ty get_available_id_ty purge_id_ty client_get_invitation_id_ty client_get_invitation_ty : typed.
Lemma client_add_invitation_ty held c i : typed_prog is_int (cut (client_add_invitation_steps held c i)).
Proof. ty_unfold client_add_invitation_steps client_add_invitation. Qed.
Lemma client_send_packet_ty held c h d : header_ok h → opt_bytes d →
  typed_prog any (cut (client_send_packet_steps held c h d)).
Proof. intros. ty_unfold client_send_packet_steps client_send_packet. Qed.
Lemma client_send_ack_ty held c d n : opt_bytes d → typed_prog any (cut (client_send_ack_steps held c d n)).
Proof. intros. ty_unfold client_send_ack_steps client_send_ack. Qed.
Lemma client_send_nack_ty held c : typed_prog any (cut (client_send_nack_steps held c)).
Proof. ty_unfold client_send_nack_steps client_send_nack. Qed.
Lemma post_player_results_ty held c o r w : typed_prog any (cut (post_player_results_steps held c o r w)).
Proof. ty_unfold post_player_results_steps post_player_results. Qed.
End functions.

#[export] Hint Resolve game_create_at_ty game_ref_at_ty game_unref_at_ty game_is_over_at_ty game_apply_move_at_ty game_resign_at_ty
  game_get_winner_at_ty game_parse_move_at_ty player_ref_at_ty player_unref_at_ty preg_register_ty client_ref_ty client_get_player_ty client_get_fd_ty inv_ref_ty game_unparse_state_at_ty
  player_get_name_at_ty player_get_rating_at_ty inv_create_ty inv_get_source_ty inv_get_target_ty
  inv_get_source_role_ty inv_get_target_role_ty inv_get_game_ty inv_accept_ty inv_close_ty create_header_ty
  write_loop_ty write_all_ty proto_send_packet_ty read_loop_ty read_all_ty proto_recv_packet_ty
  get_available_id_ty purge_id_ty client_get_invitation_id_ty client_get_invitation_ty client_add_invitation_ty
  client_send_packet_ty client_send_ack_ty client_send_nack_ty post_player_results_ty : typed.

(** The operations on invitations and the logout, with [client_unref] at the
    next depth. *)
Section recursion.
Context `{Libm} (client_unref' : ptr → M ()).
Context (unref_steps : ∀ held p, Steps (sems held) (client_unref' p)).
Context (unref_ty : ∀ held p, typed_prog any (cut (unref_steps held p))).
Implicit Types held : nat → Prop.
#[local] Existing Instance unref_steps.
#[local] Hint Resolve unref_ty : typed.

Lemma inv_unref'_ty held i : typed_prog any (cut (inv_unref'_steps client_unref' unref_steps held i)).
Proof. ty_unfold inv_unref'_steps inv_unref'. Qed.
#[local] Hint Resolve inv_unref'_ty : typed.
Lemma client_remove_invitation'_ty held c i : typed_prog any (cut (client_remove_invitation'_steps client_unref' unref_steps held c i)).
Proof. ty_unfold client_remove_invitation'_steps client_remove_invitation'. Qed.
#[local] Hint Resolve client_remove_invitation'_ty : typed.
Lemma client_make_invitation'_ty held s t rs rt : typed_prog any (cut (client_make_invitation'_steps client_unref' unref_steps held s t rs rt)).
Proof. ty_unfold client_make_invitation'_steps client_make_invitation'. Qed.
Lemma client_revoke_invitation'_ty held c id : typed_prog any (cut (client_revoke_invitation'_steps client_unref' unref_steps held c id)).
Proof. ty_unfold client_revoke_invitation'_steps client_revoke_invitation'. Qed.
Lemma client_decline_invitation'_ty held c id : typed_prog any (cut (client_decline_invitation'_steps client_unref' unref_steps held c id)).
Proof. ty_unfold client_decline_invitation'_steps client_decline_invitation'. Qed.
Lemma client_resign_game'_ty held c id : typed_prog any (cut (client_resign_game'_steps client_unref' unref_steps held c id)).
Proof. ty_unfold client_resign_game'_steps client_resign_game'. Qed.
#[local] Hint Resolve client_revoke_invitation'_ty client_decline_invitation'_ty client_resign_game'_ty : typed.
Lemma logout_loop_ty fuel : ∀ held c n, typed_prog any (cut (logout_loop_steps client_unref' unref_steps fuel held c n)).
Proof. ty_induction logout_loop_steps logout_loop fuel. Qed.
#[local] Hint Resolve logout_loop_ty : typed.
Lemma client_logout'_ty held c : typed_prog any (cut (client_logout'_steps client_unref' unref_steps held c)).
Proof. ty_unfold client_logout'_steps client_logout'. Qed.
End recursion.
#[export] Hint Resolve inv_unref'_ty client_remove_invitation'_ty client_make_invitation'_ty
  client_revoke_invitation'_ty client_decline_invitation'_ty client_resign_game'_ty client_logout'_ty : typed.

Lemma client_unref_fuel_ty `{Libm} fuel : ∀ held c, typed_prog any (cut (client_unref_fuel_steps fuel held c)).
Proof. ty_induction client_unref_fuel_steps client_unref_fuel fuel. Qed.
#[export] Hint Resolve client_unref_fuel_ty : typed.

Section calls.
Context `{Libm}.
Implicit Types held : nat → Prop.

Lemma client_unref_ty held c : typed_prog any (cut (client_unref_steps held c)).
Proof. ty_unfold client_unref_steps client_unref. Qed.
#[local] Hint Resolve client_unref_ty : typed.
Lemma client_make_invitation_ty held s t rs rt : typed_prog any (cut (client_make_invitation_steps held s t rs rt)).
Proof. ty_unfold client_make_invitation_steps client_make_invitation. Qed.
Lemma client_revoke_invitation_ty held c id : typed_prog any (cut (client_revoke_invitation_steps held c id)).
Proof. ty_unfold client_revoke_invitation_steps client_revoke_invitation. Qed.
Lemma client_decline_invitation_ty held c id : typed_prog any (cut (client_decline_invitation_steps held c id)).
Proof. ty_unfold client_decline_invitation_steps client_decline_invitation. Qed.
Lemma client_resign_game_ty held c id : typed_prog any (cut (client_resign_game_steps held c id)).
Proof. ty_unfold client_resign_game_steps client_resign_game. Qed.
Lemma client_remove_invitation_ty held c i : typed_prog any (cut (client_remove_invitation_steps held c i)).
Proof. ty_unfold client_remove_invitation_steps client_remove_invitation. Qed.
#[local] Hint Resolve client_remove_invitation_ty : typed.
Lemma client_accept_invitation_ty held c id : typed_prog (λ r, opt_bytes r.2) (cut (client_accept_invitation_steps held c id)).
Proof. ty_unfold client_accept_invitation_steps client_accept_invitation. Qed.
Lemma client_make_move_ty held c id mv : typed_prog any (cut (client_make_move_steps held c id mv)).
Proof. ty_unfold client_make_move_steps client_make_move. Qed.
Lemma client_logout_ty held c : typed_prog any (cut (client_logout_steps held c)).
Proof. ty_unfold client_logout_steps client_logout. Qed.
#[local] Hint Resolve client_logout_ty : typed.

Lemma client_create_ty cr fd : is_int fd → typed_prog any (cut (client_create_steps cr fd)).
Proof. intros. ty_unfold client_create_steps client_create. Qed.
#[local] Hint Resolve client_create_ty : typed.
Lemma creg_register_ty cr fd : is_int fd → typed_prog any (cut (creg_register_steps cr fd)).
Proof. intros. ty_unfold creg_register_steps creg_register. Qed.
Lemma creg_unregister_ty held cr c : typed_prog any (cut (creg_unregister_steps held cr c)).
Proof. ty_unfold creg_unregister_steps creg_unregister. Qed.
Lemma lookup_user_ty held l n : typed_prog any (cut (lookup_user_steps held l n)).
Proof. ty_induction lookup_user_steps lookup_user l. Qed.
Lemma collect_players_ty held l : typed_prog any (cut (collect_players_steps held l)).
Proof. ty_induction collect_players_steps collect_players l. Qed.
Lemma name_taken_ty held l n : typed_prog any (cut (name_taken_steps held l n)).
Proof. ty_induction name_taken_steps name_taken l. Qed.
#[local] Hint Resolve lookup_user_ty collect_players_ty name_taken_ty : typed.
Lemma creg_lookup_ty held cr u : typed_prog any (cut (creg_lookup_steps held cr u)).
Proof. ty_unfold creg_lookup_steps creg_lookup. Qed.
Lemma creg_all_players_ty held cr : typed_prog any (cut (creg_all_players_steps held cr)).
Proof. ty_unfold creg_all_players_steps creg_all_players. Qed.
#[local] Hint Resolve creg_all_players_ty : typed.
Lemma client_login_ty held c p : typed_prog any (cut (client_login_steps held c p)).
Proof. ty_unfold client_login_steps client_login. Qed.
Lemma shutdown_clients_ty held l : typed_prog any (cut (shutdown_clients_steps held l)).
Proof. ty_induction shutdown_clients_steps shutdown_clients l. Qed.
Lemma preg_unref_all_ty held preg l : typed_prog any (cut (preg_unref_all_steps held preg l)).
Proof. ty_induction preg_unref_all_steps preg_unref_all l. Qed.
#[local] Hint Resolve shutdown_clients_ty preg_unref_all_ty : typed.
Lemma creg_shutdown_all_ty held r : typed_prog any (cut (creg_shutdown_all_steps held r)).
Proof. ty_unfold creg_shutdown_all_steps creg_shutdown_all. Qed.
Lemma creg_wait_for_empty_ty held r : typed_prog any (cut (creg_wait_for_empty_steps held r)).
Proof. ty_unfold creg_wait_for_empty_steps creg_wait_for_empty. Qed.
Lemma creg_fini_ty held r : typed_prog any (cut (creg_fini_steps held r)).
Proof. ty_unfold creg_fini_steps creg_fini. Qed.
Lemma preg_fini_ty held r : typed_prog any (cut (preg_fini_steps held r)).
Proof. ty_unfold preg_fini_steps preg_fini. Qed.
End calls.
#[export] Hint Resolve client_unref_ty client_make_invitation_ty client_revoke_invitation_ty
  client_decline_invitation_ty client_resign_game_ty client_remove_invitation_ty client_accept_invitation_ty
  client_make_move_ty client_logout_ty client_create_ty creg_register_ty creg_unregister_ty lookup_user_ty
  collect_players_ty name_taken_ty creg_lookup_ty creg_all_players_ty client_login_ty shutdown_clients_ty
  preg_unref_all_ty creg_shutdown_all_ty creg_wait_for_empty_ty creg_fini_ty preg_fini_ty : typed.

(** [src/server.c] *)
Section service.
Context `{Libm} (cr pr : ptr).
Implicit Types held : nat → Prop.

#[local] Hint Resolve cstr_is_cstring : typed.
#[local] Hint Immediate user_line_typed : typed.
Lemma strncpy_copy_ty held s n : Forall is_byte s → typed_prog is_cstring (cut (strncpy_copy_steps held s n)).
Proof. intros. ty_unfold strncpy_copy_steps strncpy_copy. Qed.
#[local] Hint Resolve strncpy_copy_ty : typed.
Lemma users_lines_ty held l : typed_prog (Forall is_byte) (cut (users_lines_steps held l)).
Proof. ty_induction users_lines_steps users_lines l. Qed.
#[local] Hint Resolve users_lines_ty : typed.
Lemma process_login_ty held pl h c : opt_bytes pl → typed_prog any (cut (process_login_steps pr held pl h c)).
Proof. intros. ty_unfold process_login_steps process_login. Qed.
Lemma process_users_ty held pl c : typed_prog any (cut (process_users_steps cr held pl c)).
Proof. ty_unfold process_users_steps process_users. Qed.
Lemma process_invite_ty held pl c h : typed_prog any (cut (process_invite_steps cr held pl c h)).
Proof. ty_unfold process_invite_steps process_invite. Qed.
Lemma process_revoke_ty held pl c h : typed_prog any (cut (process_revoke_steps held pl c h)).
Proof. ty_unfold process_revoke_steps process_revoke. Qed.
Lemma process_decline_ty held pl c h : typed_prog any (cut (process_decline_steps held pl c h)).
Proof. ty_unfold process_decline_steps process_decline. Qed.
Lemma process_accept_ty held pl c h : typed_prog any (cut (process_accept_steps held pl c h)).
Proof. ty_unfold process_accept_steps process_accept. Qed.
Lemma process_move_ty held pl c h : opt_bytes pl → typed_prog any (cut (process_move_steps held pl c h)).
Proof. intros. ty_unfold process_move_steps process_move. Qed.
Lemma process_resign_ty held pl c h : typed_prog any (cut (process_resign_steps held pl c h)).
Proof. ty_unfold process_resign_steps process_resign. Qed.
#[local] Hint Resolve process_login_ty process_users_ty process_invite_ty process_revoke_ty process_decline_ty
  process_accept_ty process_move_ty process_resign_ty : typed.
Lemma if_logged_in_ty held flag c m (Sm : Steps (sems held) m) : typed_prog any (cut Sm) →
  typed_prog any (cut (if_logged_in_steps held flag c m)).
Proof. intros. ty_unfold if_logged_in_steps if_logged_in. Qed.
#[local] Hint Resolve if_logged_in_ty : typed.
Lemma dispatch_in_ty held c h pl flag : opt_bytes pl → typed_prog any (cut (dispatch_in_steps cr pr held c h pl flag)).
Proof. intros. ty_unfold dispatch_in_steps dispatch. Qed.
#[local] Hint Resolve dispatch_in_ty : typed.
Lemma service_iteration_ty held fd c flag : typed_prog any (cut (service_iteration_steps cr pr held fd c flag)).
Proof. ty_unfold service_iteration_steps service_iteration. Qed.
#[local] Hint Resolve service_iteration_ty : typed.
Lemma service_loop_ty held fuel : ∀ fd c flag, typed_prog any (cut (service_loop_steps cr pr held fuel fd c flag)).
Proof. ty_induction service_loop_steps service_loop fuel. Qed.
#[local] Hint Resolve service_loop_ty : typed.
Lemma jeux_client_service_ty fuel fd : is_int fd → typed_prog any (cut (jeux_client_service_steps cr pr fuel fd)).
Proof. intros. ty_unfold jeux_client_service_steps jeux_client_service. Qed.
Lemma terminate_ty held : typed_prog any (cut (terminate_steps cr pr held)).
Proof. ty_unfold terminate_steps terminate. Qed.
End service.
#[export] Hint Resolve jeux_client_service_ty terminate_ty : typed.

(** ** The server *)

(** Typing can be computed. *)
Ltac decide_type := intros ?; unfold ctype; cbv delta [player_ctype game_ctype inv_ctype client_ctype creg_ctype preg_ctype
  conn_ctype wf_board is_int is_cstring is_byte] beta; apply _.
#[export] Instance player_ctype_dec (v : PLAYER) : Decision (ctype v).
Proof. revert v. decide_type. Defined.
#[export] Instance game_ctype_dec (v : GAME) : Decision (ctype v).
Proof. revert v. decide_type. Defined.
#[export] Instance inv_ctype_dec (v : INVITATION) : Decision (ctype v).
Proof. revert v. decide_type. Defined.
#[export] Instance client_ctype_dec (v : CLIENT) : Decision (ctype v).
Proof. revert v. decide_type. Defined.
#[export] Instance creg_ctype_dec (v : CLIENT_REGISTRY) : Decision (ctype v).
Proof. revert v. decide_type. Defined.
#[export] Instance preg_ctype_dec (v : PLAYER_REGISTRY) : Decision (ctype v).
Proof. revert v. decide_type. Defined.
#[export] Instance conn_ctype_dec (v : CONN) : Decision (ctype v).
Proof. revert v. decide_type. Defined.

#[export] Instance well_typed_dec w : Decision (well_typed w).
Proof.
  refine (cast_if (decide (all_typed (w_clients w) ∧ all_typed (w_invs w) ∧ all_typed (w_games w) ∧
    all_typed (w_players w) ∧ all_typed (w_cregs w) ∧ all_typed (w_pregs w) ∧
    length (w_sems w) = CLIENT_SEM_FUNCTIONS ∧ all_typed (w_net w)))).
  - by destruct_and!.
  - intros []. tauto.
Defined.

(** The server while it runs: a step of a thread, a connection for which a
    service thread is started, input that arrives or the choices of the kernel
    for what is to come, and the thread of [main] that ends the server.
    [fuel] bounds the requests that the thread of a connection serves. *)
Inductive running `{Libm} (cr pr : ptr) : relation (list (prog ()) * world) :=
| running_thread c c' : pool_step c c' → running cr pr c c'
| running_connect ts w fd k fuel : is_int fd → ctype k →
    running cr pr (ts, w) (steps (H := sems nobody) (jeux_client_service cr pr fuel fd) :: ts, set_conn fd k w)
| running_input ts w fd k k' : w_net w !! fd = Some k → k_out k' = k_out k → Forall is_byte (k_in k') →
    running cr pr (ts, w) (ts, set_conn fd k' w)
| running_memory ts w oom clock : running cr pr (ts, w) (ts, set_oom oom (set_clock clock w))
| running_terminate ts w :
    running cr pr (ts, w) (steps (H := sems nobody) (terminate cr pr) :: ts, w).

(** C10: whatever the order of the steps of all threads, what the peers send
    and what the kernel and [calloc] answer, up to a step that is undefined
    every value in memory is of its C type: every byte that a peer is sent or
    that is stored is one, every name a string without NUL, every [int] field
    of a structure (ratings, reference counts, lengths, identifiers, their
    usage and the size of their table, descriptors and flags) in the range of
    [int], every board nine cells, each [0], [1] or [2], and the registry
    sixty-four slots.  Not covered: the values of semaphores, where a pointer
    points to, and that the table of identifiers is as long as its recorded
    size, which a reallocation that fails breaks (client.c:150).  A new descriptor
    is an [int]; no other hypothesis is needed: it holds in the executions with
    races, too. *)
Theorem memory_stays_typed `{Libm} cr pr w0 ts w :
  well_typed w0 → rtc (running cr pr) ([], w0) (ts, w) → well_typed w.
Proof.
  intros Hw0 Hr.
  assert (∀ c c', rtc (running cr pr) c c' → Forall (typed_prog any) c.1 ∧ well_typed c.2 →
    Forall (typed_prog any) c'.1 ∧ well_typed c'.2) as Hall.
  { clear. intros c c' Hr. induction Hr as [|c1 c2 c3 Hs _ IH]; [done|]. intros [Hts Hw]. apply IH.
    destruct Hs as [[ts w] [ts' w'] Hp|ts w fd k fuel Hfd Hk|ts w fd k k' Hk Hout Hin|ts w oom clock|ts w]; cbn in *.
    - by apply (typed_pool any ts w ts' w'); [..|apply rtc_once].
    - split; [|by apply set_conn_typed]. constructor; [by apply jeux_client_service_ty|done].
    - split; [done|]. apply set_conn_typed; [done|]. split; [done|]. rewrite Hout. by destruct (wt_net _ Hw fd k Hk).
    - split; [done|]. by destruct Hw.
    - split; [|done]. constructor; [apply terminate_ty|done]. }
  by destruct (Hall ([], w0) (ts, w) Hr).
Qed.
