(* ===== verification/Accounts.v ===== *)
(** * Accounts and boards

    However many threads log in at the same time, under old names or new ones,
    the player registry has one player per name: what [preg_register] does
    under the mutex of the registry is one of the steps of [Atomic], and none
    of the others touches a name or the list.  And whatever moves and
    resignations race, no step takes back a mark or reopens a game.  This
    holds in the executions of [Races], too, where the calls around it fail. *)
From stdpp Require Import relations.
From S2P Require Import Prelude Game Player World Threads Objects Protocol PlayerRegistry Client ClientRegistry Server Atomic Steps Typing.

Implicit Types w : world.

Lemma game_later_refl g : game_later g g.
Proof. done. Qed.
#[local] Hint Resolve game_later_refl : core.

(** The names of the players of a registry that are live. *)
Definition account_names w (q : PLAYER_REGISTRY) : list (list byte) :=
  omap (λ p, p_name <$> w_players w !! p) (pr_head q).

(** One player per name; what is allocated next is none of them. *)
Record accounts_ok w : Prop := {
  ac_brk : (0 < w_brk w)%nat;
  ac_below : map_Forall (λ p _, p < w_brk w)%nat (w_players w);
  ac_listed : map_Forall (λ _ q, Forall (λ p, 0 < p < w_brk w)%nat (pr_head q)) (w_pregs w);
  ac_names : map_Forall (λ _ q, NoDup (account_names w q)) (w_pregs w)
}.

(** The registries of before, with the players of before and new ones after
    them, all of which keep their names; games have gone on. *)
Record evolves w w' : Prop := {
  ev_brk : (w_brk w ≤ w_brk w')%nat;
  ev_pregs pr q' : w_pregs w' !! pr = Some q' → ∃ q, w_pregs w !! pr = Some q ∧ pr_head q `prefix_of` pr_head q';
  ev_players p v' : w_players w' !! p = Some v' →
    (∃ v, w_players w !! p = Some v ∧ p_name v' = p_name v) ∨ (w_brk w ≤ p)%nat;
  ev_games g v' : w_games w' !! g = Some v' →
    (∃ v, w_games w !! g = Some v ∧ game_later v v') ∨ (w_brk w ≤ g)%nat
}.

#[export] Instance accounts_ok_dec w : Decision (accounts_ok w).
Proof.
  refine (cast_if (decide ((0 < w_brk w)%nat ∧ map_Forall (λ p _, p < w_brk w)%nat (w_players w) ∧
    map_Forall (λ _ q, Forall (λ p, 0 < p < w_brk w)%nat (pr_head q)) (w_pregs w) ∧
    map_Forall (λ _ q, NoDup (account_names w q)) (w_pregs w)))).
  - by destruct_and!.
  - intros []. tauto.
Defined.

#[export] Instance evolves_preorder : PreOrder evolves.
Proof.
  split.
  - intros w. split; [done|..]; eauto.
  - intros w1 w2 w3 [Hb Hq Hp Hg] [Hb' Hq' Hp' Hg']. split; [lia|..].
    + intros pr q3 (q2 & E2 & H2)%Hq'. destruct (Hq pr q2 E2) as (q1 & E1 & H1). exists q1. split; [done|]. by etrans.
    + intros p v3 [(v2 & E2 & Hn)|Hlt]%Hp'; [|right; lia].
      destruct (Hp p v2 E2) as [(v1 & E1 & Hn1)|Hlt]; [left|by right]. exists v1. split; [done|]. congruence.
    + intros g v3 [(v2 & E2 & Hn)|Hlt]%Hg'; [|right; lia].
      destruct (Hg g v2 E2) as [(v1 & E1 & Hn1)|Hlt]; [left|by right]. exists v1. split; [done|]. by etrans.
Qed.

Definition endures {A} (m : M A) : Prop := ∀ w a w',
  accounts_ok w → m w = Ret a w' → accounts_ok w' ∧ evolves w w'.

(** ** Steps that add no player *)

(** Players and registries may be gone, the counts and ratings differ, and
    there are new games. *)
Record calm w w' : Prop := {
  ca_brk : (w_brk w ≤ w_brk w')%nat;
  ca_players p v' : w_players w' !! p = Some v' → ∃ v, w_players w !! p = Some v ∧ p_name v' = p_name v;
  ca_pregs pr q' : w_pregs w' !! pr = Some q' → ∃ q, w_pregs w !! pr = Some q ∧ pr_head q = pr_head q';
  ca_games g v' : w_games w' !! g = Some v' →
    (∃ v, w_games w !! g = Some v ∧ game_later v v') ∨ (w_brk w ≤ g)%nat
}.

Lemma omap_sublist {A B} (f g : A → option B) (l : list A) :
  (∀ x y, g x = Some y → f x = Some y) → omap g l `sublist_of` omap f l.
Proof.
  intros Hg. induction l as [|x l IH]; [done|]. cbn. destruct (g x) as [y|] eqn:E.
  - rewrite (Hg x y E). by constructor.
  - destruct (f x); [by constructor|done].
Qed.

Lemma calm_ok w w' : calm w w' → accounts_ok w → accounts_ok w' ∧ evolves w w'.
Proof.
  intros [Hb Hp Hq Hg] [H0 Hbelow Hlisted Hnames]. split; [split|split].
  - lia.
  - intros p v' (v & Hv & _)%Hp. pose proof (Hbelow p v Hv). cbn in *. lia.
  - intros pr q' (q & E & <-)%Hq. eapply Forall_impl; [exact (Hlisted pr q E)|]. cbn. lia.
  - intros pr q' (q & E & Hh)%Hq. eapply sublist_NoDup; [exact (Hnames pr q E)|]. unfold account_names. rewrite Hh. apply omap_sublist. intros p n.
    destruct (w_players w' !! p) as [v'|] eqn:Hv'; [|done]. destruct (Hp p v' Hv') as (v & -> & Hn). cbn. congruence.
  - lia.
  - intros pr q' (q & E & Hh)%Hq. exists q. by rewrite Hh.
  - intros p v' Hv'%Hp. by left.
  - done.
Qed.

Definition calms {A} (m : M A) : Prop := ∀ w a w', m w = Ret a w' → calm w w'.

Lemma calm_refl w : calm w w.
Proof. split; eauto. Qed.

Lemma calm_same w w' : (w_brk w ≤ w_brk w')%nat → w_players w' = w_players w → w_pregs w' = w_pregs w →
  w_games w' = w_games w → calm w w'.
Proof. intros Hb Hp Hq Hg. split; [done|..]; rewrite ?Hp, ?Hq, ?Hg; eauto. Qed.

Lemma calms_endures {A} (m : M A) : calms m → endures m.
Proof. intros Hm w a w' Hw E. eapply calm_ok; [by eapply Hm|done]. Qed.

Lemma calms_bind {A B} (m : M A) (k : A → M B) : calms m → (∀ a, calms (k a)) → calms (m ≫= k).
Proof.
  intros Hm Hk w b w' E. unfold mbind, M_bind in E. destruct (m w) as [a w1| | |] eqn:Em; try done.
  destruct (Hm w a w1 Em) as [Hb Hp Hq Hg], (Hk a w1 b w' E) as [Hb' Hp' Hq' Hg']. split; [lia|..].
  - intros p v' (v1 & E1 & Hn1)%Hp'. destruct (Hp p v1 E1) as (v & Ev & Hn). exists v. split; [done|]. congruence.
  - intros pr q' (q1 & E1 & Hh1)%Hq'. destruct (Hq pr q1 E1) as (q & Ev & Hh). exists q. split; [done|]. congruence.
  - intros g v' [(v1 & E1 & Hl1)|]%Hg'; [|right; lia]. destruct (Hg g v1 E1) as [(v & Ev & Hl)|]; [left|by right].
    exists v. split; [done|]. by etrans.
Qed.

(** A player is written back with its name. *)
Lemma calm_player w p v v' : w_players w !! p = Some v → p_name v' = p_name v →
  calm w (set_players (<[p := v']> (w_players w)) w).
Proof.
  intros Hp Hn. split; [done| |eauto|eauto]. intros p2 v2. cbn. intros [[-> ->]|[_ E]]%lookup_insert_Some; eauto.
Qed.

Lemma calms_ret {A} (a : A) : calms (mret a).
Proof. intros w b w' [= _ <-]. apply calm_refl. Qed.

(** What touches neither players nor registries. *)
Ltac calms_same :=
  intros ? ? ? E;
  repeat (first [done | match type of E with
    | Ret _ _ = Ret _ _ => injection E as ? ?; subst; apply calm_same; cbn; auto
    | context [match ?x with _ => _ end] => destruct x
    end]).

Lemma load_calms `{Heap V} p : calms (load (V:=V) p).
Proof. unfold load. calms_same. Qed.

Section plain.
Context `{Plain V}.
Lemma store_calms p (v : V) : calms (store p v).
Proof. unfold store. calms_same; rewrite ?plain_brk, ?plain_players, ?plain_pregs, ?plain_games; auto. Qed.
Lemma update_calms p (f : V → V) : calms (update p f).
Proof. apply calms_bind; [apply load_calms|]. intros v. apply store_calms. Qed.
Lemma update_opt_calms p (f : V → option V) : calms (update_opt p f).
Proof.
  apply calms_bind; [apply load_calms|]. intros v. apply calms_bind; [destruct (f v); [apply calms_ret|done]|].
  intros v'. apply store_calms.
Qed.
Lemma alloc_calms (v : V) : calms (alloc v).
Proof. unfold alloc. calms_same; rewrite ?plain_players, ?plain_pregs, ?plain_games; auto. Qed.
Lemma free_calms p : calms (free (V:=V) p).
Proof. unfold free. calms_same; rewrite ?plain_brk, ?plain_players, ?plain_pregs, ?plain_games; auto. Qed.
Lemma calloc_calms : calms calloc.
Proof. unfold calloc. calms_same. Qed.
Lemma calloc_obj_calms (v : V) : calms (calloc_obj v).
Proof. apply calms_bind; [apply calloc_calms|]. intros []; [apply alloc_calms|apply calms_ret]. Qed.
End plain.

Lemma player_ref_calms p : calms (update_opt p player_ref).
Proof.
  intros w u w' (v & v' & Hp & (n & _ & [= <-])%bind_Some & ->)%update_opt_ret. by apply (calm_player w p v).
Qed.

Lemma player_drop_calms p : calms (player_drop_at p).
Proof.
  intros w n w' E. unfold player_drop_at, load, store, mbind, M_bind in E. cbn in E.
  destruct (w_players w !! p) as [v|] eqn:Hp; [|done].
  destruct (player_drop v) as [v'|] eqn:Hd; [|done]. cbn in E. rewrite Hp in E. injection E as _ <-.
  apply bind_Some in Hd as (m & _ & [= <-]). by apply (calm_player w p v).
Qed.

(** The number of nodes is counted, the list is not touched. *)
Lemma preg_count_calms p d : calms (update_opt p (pr_count d)).
Proof.
  intros w u w' (q & q' & Hq & (n & _ & [= <-])%bind_Some & ->)%update_opt_ret. split; [done|eauto| |eauto]. cbn.
  intros p2 q2 [[<- <-]|[_ E]]%lookup_insert_Some; eauto.
Qed.

Lemma player_post_result_calms `{Libm} p1 p2 r : calms (player_post_result p1 p2 r).
Proof.
  intros w [] w' E. unfold player_post_result in E.
  destruct (decide _); [exact (calms_ret _ _ _ _ E)|]. destruct (decide (p1 = p2)) as [|Hne]; [exact (calms_ret _ _ _ _ E)|].
  destruct (_ || _); [exact (calms_ret _ _ _ _ E)|]. unfold load, store, mbind, M_bind in E. cbn in E.
  destruct (w_players w !! p1) as [v1|] eqn:H1; [|done]. destruct (w_players w !! p2) as [v2|] eqn:H2; [|done].
  destruct (elo_update _ _ _) as [[n1 n2]|]; [|done]. cbn in E. rewrite H1 in E. cbn in E.
  rewrite lookup_insert_ne, H2 in E by done. injection E as <-. split; [done| |eauto|eauto]. cbn.
  intros p v. rewrite !lookup_insert_Some. intros [[<- <-]|[_ [[<- <-]|[_ Hv]]]]; eauto.
Qed.

Lemma free_player_calms p : calms (free (V:=PLAYER) p).
Proof.
  intros w [] w' E. unfold free in E. cbn in E. destruct (w_players w !! p); [|done]. injection E as <-.
  split; [done| |eauto|eauto]. cbn. intros p2 v. rewrite lookup_delete_Some. intros [_ Hv]. eauto.
Qed.

Lemma free_preg_calms p : calms (free (V:=PLAYER_REGISTRY) p).
Proof.
  intros w [] w' E. unfold free in E. cbn in E. destruct (w_pregs w !! p); [|done]. injection E as <-.
  split; [done|eauto| |eauto]. cbn. intros p2 v. rewrite lookup_delete_Some. intros [_ Hv]. eauto.
Qed.

(** A game is written back as it can become. *)
Lemma calm_game w g v v' : w_games w !! g = Some v → game_later v v' →
  calm w (set_games (<[g := v']> (w_games w)) w).
Proof.
  intros Hg Hl. split; [done|eauto|eauto|]. intros g2 v2. cbn. intros [[-> ->]|[_ E]]%lookup_insert_Some; eauto.
Qed.

Lemma game_update_calms `{Hf : Later f} g : calms (update g f).
Proof.
  intros w [] w' E. unfold update, load, store, mbind, M_bind in E. cbn in E.
  destruct (w_games w !! g) as [v|] eqn:Hg; [|done]. rewrite Hg in E. injection E as <-. by apply (calm_game w g v).
Qed.

Lemma game_ref_calms g : calms (update_opt g game_ref).
Proof.
  intros w u w' (v & v' & Hg & (n & _ & [= <-])%bind_Some & ->)%update_opt_ret. by apply (calm_game w g v).
Qed.

Lemma game_drop_calms g : calms (game_drop_at g).
Proof.
  intros w n w' E. unfold game_drop_at, load, store, mbind, M_bind in E. cbn in E.
  destruct (w_games w !! g) as [v|] eqn:Hg; [|done].
  destruct (game_drop v) as [v'|] eqn:Hd; [|done]. cbn in E. rewrite Hg in E. injection E as _ <-.
  apply bind_Some in Hd as (m & _ & [= <-]). by apply (calm_game w g v).
Qed.

(** The cell a mark is set in was empty. *)
Lemma game_place_later g mv r g' : game_place g mv = Some (r, g') → game_later g g'.
Proof.
  unfold game_place. case_decide; [by intros [= _ <-]|]. destruct (_ <? 0); [done|].
  destruct (g_rows g !! _) as [c|] eqn:Hc; [|done]. destruct (Z.eqb_spec c 0) as [->|]; [|by intros [= _ <-]].
  intros [= _ <-]. split; cbn; [|apply length_insert|done]. intros i c Hi Hne. rewrite list_lookup_insert_ne; [done|].
  intros <-. congruence.
Qed.

Lemma game_place_calms g mv : calms (game_place_at g mv).
Proof.
  intros w n w' E. unfold game_place_at, load, store, mbind, M_bind in E. cbn in E.
  destruct (w_games w !! g) as [v|] eqn:Hg; [|done]. destruct (game_place v mv) as [[r v']|] eqn:Ep; [|done].
  cbn in E. rewrite Hg in E. injection E as _ <-. apply (calm_game w g v); [done|]. by eapply game_place_later.
Qed.

Lemma free_game_calms g : calms (free (V:=GAME) g).
Proof.
  intros w [] w' E. unfold free in E. cbn in E. destruct (w_games w !! g); [|done]. injection E as <-.
  split; [done|eauto|eauto|]. cbn. intros g2 v. rewrite lookup_delete_Some. intros [_ Hv]. eauto.
Qed.

Lemma alloc_game_calms (v : GAME) : calms (alloc v).
Proof.
  intros w p w' E. unfold alloc in E. cbn in E. injection E as _ <-. split; cbn; [lia|eauto|eauto|].
  intros g v' [[<- _]|[_ Hv']]%lookup_insert_Some; [by right|left; eauto].
Qed.

Lemma game_create_calms : calms (calloc_obj game_create).
Proof. apply calms_bind; [apply calloc_calms|]. intros []; [apply alloc_game_calms|apply calms_ret]. Qed.

(** The operations of mutexes and of the kernel. *)
Lemma defined_calms {A} (o : option A) : calms (defined o).
Proof. destruct o; [apply calms_ret|done]. Qed.
Lemma calloc_unchecked_calms : calms calloc_unchecked.
Proof. apply calms_bind; [apply calloc_calms|]. intros []; [apply calms_ret|done]. Qed.
Lemma lock_client_calms p : calms (lock_client p).
Proof. apply calms_bind; [apply load_calms|]. intros v. destruct (c_lock v); [done|apply store_calms]. Qed.
Lemma lock_creg_calms p : calms (lock_creg p).
Proof. apply calms_bind; [apply load_calms|]. intros v. destruct (cr_mutex v); [done|apply store_calms]. Qed.
Lemma creg_wait_calms p : calms (creg_wait_login_queue p) ∧ calms (creg_wait_sem p).
Proof.
  split; (apply calms_bind; [apply load_calms|]); intros v; (destruct (_ <? _); [apply store_calms|done]).
Qed.
Lemma system_calms fd buf n :
  calms (sys_write fd buf n) ∧ calms (sys_read fd n) ∧ calms (sys_shutdown_rd fd) ∧ calms (sys_close fd).
Proof. unfold sys_write, sys_read, sys_shutdown_rd, sys_close. split_and!; calms_same. Qed.
Lemma semaphore_calms i : calms (sem_wait i) ∧ calms (sem_post i) ∧ calms init_semaphores.
Proof. unfold sem_wait, sem_post, init_semaphores. split_and!; calms_same. Qed.

(** ** The step that adds a player *)

Lemma preg_find_ret name w l : ∀ p w', preg_find l name w = Ret p w' → w' = w ∧
  (p ∈ l ∨ p = NULL ∧ Forall (λ q, ∃ v, w_players w !! q = Some v ∧ p_name v ≠ name) l).
Proof.
  induction l as [|q l IH]; intros p w' E; cbn in E.
  - injection E as <- <-. split; [done|right]. by split.
  - unfold player_get_name_at, load, mbind, M_bind in E. cbn in E. destruct (w_players w !! q) as [v|] eqn:Hq; [|done].
    unfold player_get_name in E. cbn in E. destruct (decide (p_name v = name)) as [|Hne].
    + injection E as <- <-. split; [done|left]. by left.
    + destruct (IH p w' E) as (-> & [Hin|[-> Hall]]); (split; [done|]); [left; by right|right].
      split; [done|]. constructor; [|done]. by exists v.
Qed.

Lemma endures_bind {A B} (m : M A) (k : A → M B) : endures m → (∀ a, endures (k a)) → endures (m ≫= k).
Proof.
  intros Hm Hk w b w' Hw E. unfold mbind, M_bind in E. destruct (m w) as [a w1| | |] eqn:Em; try done.
  destruct (Hm w a w1 Hw Em) as [Hw1 He1], (Hk a w1 b w' Hw1 E) as [Hw' He']. split; [done|]. by etrans.
Qed.

(** The lists do not have the new player yet. *)
Lemma alloc_player_endures (v : PLAYER) : endures (alloc v).
Proof.
  intros w p w' [H0 Hbelow Hlisted Hnames] E. unfold alloc in E. cbn in E. injection E as _ <-. split; [split|split]; cbn.
  - lia.
  - apply map_Forall_insert_2; [lia|]. eapply map_Forall_impl; [exact Hbelow|]. cbn. lia.
  - eapply map_Forall_impl; [exact Hlisted|]. intros pr q Hf. eapply Forall_impl; [exact Hf|]. cbn. lia.
  - intros pr q Hq. specialize (Hnames pr q Hq). unfold account_names in *. cbn.
    erewrite list_omap_ext; [exact Hnames|]. apply Forall_Forall2_diag.
    eapply Forall_impl; [exact (Hlisted pr q Hq)|]. cbn. intros p' [_ Hp']. by rewrite lookup_insert_ne by lia.
  - lia.
  - eauto.
  - intros p' v' [[<- <-]|[_ Hv']]%lookup_insert_Some; [by right|left; eauto].
  - eauto.
Qed.

Lemma player_create_endures name : endures (player_create_at name).
Proof.
  apply endures_bind; [apply endures_bind|].
  - apply calms_endures, calloc_calms.
  - intros []; [apply alloc_player_endures|apply calms_endures, calms_ret].
  - intros p. destruct (decide _); [apply calms_endures, calms_ret|].
    apply calms_endures, calms_bind; [apply calloc_unchecked_calms|]. intros []. apply calms_ret.
Qed.

Lemma player_create_ret name w p w' : accounts_ok w → player_create_at name w = Ret p w' → p ≠ NULL →
  w_players w' = <[p := player_create name]> (w_players w) ∧ w_pregs w' = w_pregs w ∧
  p = w_brk w ∧ w_brk w' = S p.
Proof.
  intros Hw E Hp. unfold player_create_at, calloc_obj, calloc_unchecked, calloc, alloc, undef, mret, M_ret, mbind, M_bind in E.
  destruct (w_oom w) as [|[] [|[] l]] eqn:Ho; cbn in E; simplify_eq;
    (destruct (decide _); cbn in E; [|rewrite ?Ho in E; cbn in E]); by simplify_eq.
Qed.

(** The new player becomes the last of the list. *)
Lemma account_listed w pr q p v :
  accounts_ok w → w_pregs w !! pr = Some q → w_players w !! p = Some v → (0 < p)%nat →
  Forall (λ p, ∃ v', w_players w !! p = Some v' ∧ p_name v' ≠ p_name v) (pr_head q) →
  ∀ n, let w' := set_pregs (<[pr := mkPREG (pr_head q ++ [p]) n]> (w_pregs w)) w in
  accounts_ok w' ∧ evolves w w'.
Proof.
  intros [H0 Hbelow Hlisted Hnames] Hq Hv Hp Hnew nn w'. split; [split|split]; cbn; [done|done| | |done| |eauto|eauto].
  - apply map_Forall_insert_2; [|done]. cbn. apply Forall_app. split; [exact (Hlisted pr q Hq)|].
    repeat constructor; [done|exact (Hbelow p v Hv)].
  - apply map_Forall_insert_2; [|done]. unfold account_names. cbn [pr_head]. rewrite omap_app. cbn. rewrite Hv. cbn.
    apply NoDup_app. split_and!; [exact (Hnames pr q Hq)| |apply NoDup_singleton].
    intros n (p' & Hp' & Hn)%list_elem_of_omap ->%list_elem_of_singleton.
    destruct (proj1 (Forall_forall _ _) Hnew p' Hp') as (v' & Hv' & Hne). rewrite Hv' in Hn. cbn in Hn. congruence.
  - intros pr' q' [[<- <-]|[_ Hq']]%lookup_insert_Some; [|eauto]. exists q. split; [done|]. by eexists.
Qed.

Lemma preg_enter_endures pr name : endures (preg_enter pr name).
Proof.
  intros w r w' Hw E. unfold preg_enter in E. unfold mbind at 1, M_bind at 1 in E. unfold load at 1 in E. cbn in E.
  destruct (w_pregs w !! pr) as [q|] eqn:Hq; [|done]. unfold mbind at 1, M_bind at 1 in E.
  destruct (preg_find (pr_head q) name w) as [p w1| | |] eqn:Ef; try done.
  destruct (preg_find_ret _ _ _ _ _ Ef) as (-> & Hp). destruct (decide (p ≠ NULL)) as [_|Hnull%dec_stable].
  { injection E as _ <-. by split. }
  destruct Hp as [Hin|[_ Hnew]].
  { pose proof (proj1 (Forall_forall _ _) (ac_listed _ Hw pr q Hq) p Hin) as [H0 _]. unfold NULL in Hnull. lia. }
  unfold mbind at 1, M_bind at 1 in E. destruct (player_create_at name w) as [p' w1| | |] eqn:Ec; try done.
  destruct (player_create_endures name w p' w1 Hw Ec) as [Hw1 He1].
  destruct (decide (p' = NULL)) as [|Hp']; [by injection E as _ <-|].
  destruct (player_create_ret name w p' w1 Hw Ec Hp') as (Hps & Hqs & -> & Hb).
  unfold mbind at 1, M_bind at 1 in E. destruct (calloc w1) as [ok w2| | |] eqn:Eo; try done.
  destruct (calm_ok w1 w2 (calloc_calms w1 ok w2 Eo) Hw1) as [Hw2 He2].
  assert (w_players w2 = w_players w1 ∧ w_pregs w2 = w_pregs w1) as [Hps2 Hqs2].
  { unfold calloc in Eo. destruct (w_oom w1); by injection Eo as _ <-. }
  destruct ok; cbn in E; [|injection E as _ <-; split; [done|by etrans]].
  unfold mbind, M_bind in E. destruct (pr_append (w_brk w) q) as [q'|] eqn:Ha; [|done].
  apply bind_Some in Ha as (n & _ & [= <-]). cbn in E. unfold store in E. cbn in E.
  rewrite Hqs2, Hqs, Hq in E. injection E as _ <-.
  rewrite <-Hqs, <-Hqs2. destruct (account_listed w2 pr q (w_brk w) (player_create name)) with n as [Hw3 He3].
  - done.
  - by rewrite Hqs2, Hqs.
  - rewrite Hps2, Hps. apply lookup_insert_eq.
  - exact (ac_brk _ Hw).
  - eapply Forall_impl; [exact Hnew|]. intros p0 (v & Hv & Hne). exists v. split; [|done].
    rewrite Hps2, Hps, lookup_insert_ne; [done|]. pose proof (ac_below _ Hw p0 v Hv). cbn in *. lia.
  - split; [done|]. etrans; [exact He1|]. by etrans.
Qed.

(** ** Every step, and every thread *)

Lemma atomic_endures {A} (m : M A) : atomic m → endures m.
Proof.
  intros Hm. destruct Hm; try (apply preg_enter_endures); apply calms_endures.
  all: first [apply load_calms | apply store_calms | apply update_calms | apply update_opt_calms | apply alloc_calms | apply calloc_obj_calms
    | apply free_calms | apply player_ref_calms | apply player_drop_calms | apply player_post_result_calms
    | apply game_ref_calms | apply preg_count_calms | apply free_player_calms | apply free_preg_calms | apply game_drop_calms | apply game_place_calms
    | apply game_update_calms | apply free_game_calms | apply game_create_calms
    | apply defined_calms | apply calloc_calms | apply calloc_unchecked_calms | apply lock_client_calms
    | apply lock_creg_calms | apply creg_wait_calms | apply semaphore_calms; exact 0%nat
    | apply system_calms; first [exact 0 | exact []]
    | unfold stuck, undef, out_of_fuel, gets, clock_gettime, fresh_addr; calms_same; fail].
Qed.

Definition settling (c : list (prog ()) * world) : Prop := Forall made c.1 ∧ accounts_ok c.2.

Lemma advance_endures {A} (p p' : prog A) w w' : made p → accounts_ok w → advance p w = Ret p' w' →
  made p' ∧ accounts_ok w' ∧ evolves w w'.
Proof.
  destruct p as [a|B m k]; [done|]. intros [Hm Hk] Hw E. cbn in E. unfold mbind, M_bind in E.
  destruct (m w) as [b w1| | |] eqn:Em; try done. injection E as <- <-. split; [apply Hk|].
  by apply (atomic_endures m Hm w b).
Qed.

Lemma running_settling `{Libm} cr pr c c' :
  running cr pr c c' → settling c → settling c' ∧ evolves c.2 c'.2.
Proof.
  intros Hs [Hts Hw].
  assert (∀ w', calm c.2 w' → accounts_ok w' ∧ evolves c.2 w') as Hcalm by (intros; by apply calm_ok).
  destruct Hs as [c c' Hp|ts w fd k fuel _ Hk|ts w fd k k' Hk Hout Hin|ts w oom clock|ts w]; cbn [fst snd] in *.
  - destruct Hp as [i p p' ts w w' Hi E]. cbn [fst snd] in *.
    destruct (advance_endures p p' w w') as (Hp' & Hw' & He); [exact (proj1 (Forall_lookup _ ts) Hts i p Hi)|done..|].
    split; [|done]. split; [|done]. by apply Forall_insert.
  - destruct (Hcalm (set_conn fd k w)) as [Hw' He]; [by apply calm_same|]. split; [|done]. split; [|done].
    constructor; [apply steps_made|done].
  - destruct (Hcalm (set_conn fd k' w)) as [Hw' He]; [by apply calm_same|]. by split.
  - destruct (Hcalm (set_oom oom (set_clock clock w))) as [Hw' He]; [by apply calm_same|]. by split.
  - split; [|done]. split; [|done]. constructor; [apply steps_made|done].
Qed.

(** C9: whatever the order of the steps of all threads, among them any number
    of service threads in which clients log in under old names or new ones and
    play, whatever the peers send and the kernel and [calloc] answer, and up to
    a step that is undefined: no two live players in the registry's list have
    the same name, the list only grows at its end, and no player changes its
    name; no mark on a board is taken back or written over, and a game that is
    over stays over.  What is new is at new addresses.  Nothing is assumed of
    the other state, so this holds when calls race, too. *)
Theorem accounts_and_boards `{Libm} cr pr w0 ts w :
  accounts_ok w0 → rtc (running cr pr) ([], w0) (ts, w) → accounts_ok w ∧ evolves w0 w.
Proof.
  intros Hw0 Hr.
  assert (∀ c c', rtc (running cr pr) c c' → settling c → settling c' ∧ evolves c.2 c'.2) as Hall.
  { clear. intros c c' Hr. induction Hr as [|c1 c2 c3 Hs _ IH]; [done|]. intros Hc.
    destruct (running_settling cr pr c1 c2 Hs Hc) as [Hc2 He]. destruct (IH Hc2) as [Hc3 He']. split; [done|]. by etrans. }
  destruct (Hall _ _ Hr) as [[_ Hw] He]; [by split|]. by split.
Qed.
