(* ===== verification/Framing.v ===== *)
(** * The packets a peer receives

    Whole service threads, their single steps in any order: what the peer on
    one connection is sent is packets, one whole packet after another, since
    every byte is written by a thread that has the mutex of the client, and
    the mutex is kept from the first byte of a packet to the last.  The proof
    follows the programs of [Steps] with a ghost state per thread: whether it
    has the mutex, and what it still has to write of a packet. *)
From stdpp Require Import relations.
From S2P Require Import Prelude Game Player World Threads Objects Protocol PlayerRegistry Invitation Client Sessions ClientRegistry Server Critical Atomic Steps.

(** A header and as many bytes as it says. *)
Definition is_packet (b : list byte) : Prop :=
  ∃ h payload, b = header_bytes h ++ payload ∧ Z.of_nat (length payload) = ntohs (h_size h).

(** The thread has the mutex or not; with it, what is left of a packet, or the
    connection has been closed meanwhile. *)
Inductive ghost : Type := Free | Holds (rest : list byte) | Cut.

(** Between two packets. *)
Definition settled (g : ghost) : Prop := g ≠ Free → g = Holds [] ∨ g = Cut.
#[export] Instance ghost_eq_dec : EqDecision ghost.
Proof. solve_decision. Defined.

(** A thread goes from [g] to [g'] by writing [e]: it goes on with a packet, or
    begins one, and has the mutex while it writes. *)
Inductive writes : ghost → list byte → ghost → Prop :=
| writes_none g : writes g [] g
| writes_more e r : writes (Holds (e ++ r)) e (Holds r)
| writes_new e r : is_packet (e ++ r) → writes (Holds []) e (Holds r)
| writes_lock : writes Free [] (Holds [])
| writes_unlock : writes (Holds []) [] Free.

Section connection.
(** A client and its connection. *)
Context (p : ptr) (fd : Z).
Implicit Types (w : world) (g : ghost).

Definition out w : option (list byte) := k_out <$> w_net w !! fd.
Definition lock_bit w : option bool := c_lock <$> w_clients w !! p.

(** Nobody else has the descriptor, and the kernel accepts bytes. *)
Record tuned w : Prop := {
  tu_brk : (p < w_brk w)%nat;
  tu_fd q c : w_clients w !! q = Some c → c_fd c = fd ↔ q = p;
  tu_writable k : w_net w !! fd = Some k → writable k
}.

Definition fits g w : Prop :=
  match g with
  | Free => True
  | Holds _ => lock_bit w ≠ Some false
  | Cut => lock_bit w ≠ Some false ∧ out w = None
  end.

(** A step that leaves mutex and output alone, except that it may free the
    client or close the connection. *)
Definition silent w w' : Prop :=
  tuned w' ∧ (lock_bit w' = lock_bit w ∨ lock_bit w' = None) ∧ (out w' = out w ∨ out w' = None).

(** A step of a thread from [g] to [g']; one that has no mutex cannot
    interfere with one that has. *)
Record moved w g w' g' : Prop := {
  mv_tuned : tuned w';
  mv_fits : fits g' w';
  mv_lock : g = Free → g' = Free → lock_bit w' = lock_bit w ∨ lock_bit w' = None;
  mv_taken : g = Free → g' ≠ Free → lock_bit w = Some false;
  mv_closed : out w = None → out w' = None;
  mv_out o o' : out w = Some o → out w' = Some o' → ∃ e, o' = o ++ e ∧ writes g e g'
}.

Lemma silent_refl w : tuned w → silent w w.
Proof. intros Hw. split; [done|]. split; by left. Qed.

Lemma silent_moved w g w' : fits g w → silent w w' → moved w g w' g.
Proof.
  intros Hf (Ht & Hl & Ho). split; try done.
  - destruct g as [|r|]; cbn in *; [done|destruct Hl as [->| ->]; done|].
    destruct Hf as [Hf Hn]. split; [destruct Hl as [->| ->]; done|]. destruct Ho as [->| ->]; done.
  - destruct Ho as [->| ->]; done.
  - intros o o' Eo Eo'. exists []. rewrite app_nil_r. split; [|constructor]. destruct Ho as [E|E]; congruence.
Qed.

(** ** Programs *)

(** Every step is silent, and the result satisfies [R]. *)
Definition hushed {A} (R : A → Prop) (m : M A) : Prop := ∀ w a w',
  tuned w → m w = Ret a w' → silent w w' ∧ R a.

Fixpoint hush {A} (R : A → Prop) (q : prog A) : Prop :=
  match q with
  | Done a => R a
  | Act m k => ∀ w b w', tuned w → m w = Ret b w' → silent w w' ∧ hush R (k b)
  end.

(** Every step is a move of the thread, which ends in a ghost state and with a
    result that satisfy [P]. *)
Fixpoint frames {A} (P : A → ghost → Prop) (g : ghost) (q : prog A) : Prop :=
  match q with
  | Done a => P a g
  | Act m k => ∀ w b w', tuned w → fits g w → m w = Ret b w' → ∃ g', moved w g w' g' ∧ frames P g' (k b)
  end.

Lemma hush_act {A B} (R : B → Prop) (Q : A → Prop) (m : M B) (k : B → prog A) :
  hushed R m → (∀ b, R b → hush Q (k b)) → hush Q (Act m k).
Proof. intros Hm Hk w b w' Hw E. destruct (Hm _ _ _ Hw E). auto. Qed.

Lemma hush_single {A} (R : A → Prop) (m : M A) : hushed R m → hush R (Act m Done).
Proof. intros Hm. by apply (hush_act R). Qed.

Lemma hush_bind {A B} (R : A → Prop) (Q : B → Prop) (q : prog A) (f : A → prog B) :
  hush R q → (∀ a, R a → hush Q (f a)) → hush Q (pbind q f).
Proof.
  intros Hq Hf. induction q as [a|C m k IH]; [by apply Hf|]. intros w b w' Hw E.
  destruct (Hq _ _ _ Hw E) as [Hs Hk]. split; [done|]. by apply IH.
Qed.

Lemma hush_mono {A} (R Q : A → Prop) q : hush R q → (∀ a, R a → Q a) → hush Q q.
Proof.
  intros Hq HR. induction q as [a|C m k IH]; [by apply HR|]. intros w b w' Hw E.
  destruct (Hq _ _ _ Hw E) as [Hs Hk]. split; [done|]. by apply IH.
Qed.

Lemma hush_frames {A} (R : A → Prop) g q : hush R q → frames (λ a g', g' = g ∧ R a) g q.
Proof.
  intros Hq. induction q as [a|C m k IH]; [done|]. intros w b w' Hw Hf E.
  destruct (Hq _ _ _ Hw E) as [Hs Hk]. exists g. split; [by apply silent_moved|]. by apply IH.
Qed.

Lemma frames_mono {A} (P Q : A → ghost → Prop) q : ∀ g, frames P g q → (∀ a g', P a g' → Q a g') → frames Q g q.
Proof.
  induction q as [a|C m k IH]; intros g Hq HP; [by apply HP|]. intros w b w' Hw Hf E.
  destruct (Hq _ _ _ Hw Hf E) as (g' & Hm & Hk). exists g'. split; [done|]. by apply IH.
Qed.

Lemma frames_bind {A B} (P : A → ghost → Prop) (Q : B → ghost → Prop) (q : prog A) (f : A → prog B) : ∀ g,
  frames P g q → (∀ a g', P a g' → frames Q g' (f a)) → frames Q g (pbind q f).
Proof.
  induction q as [a|C m k IH]; intros g Hq Hf; [by apply Hf|]. intros w b w' Hw Hg E.
  destruct (Hq _ _ _ Hw Hg E) as (g' & Hm & Hk). exists g'. split; [done|]. by apply IH.
Qed.

Lemma frames_quiet {A B} (R : B → Prop) (P : A → ghost → Prop) g (m : M B) (k : B → prog A) :
  hushed R m → (∀ b, R b → frames P g (k b)) → frames P g (Act m k).
Proof.
  intros Hm Hk w b w' Hw Hf E. destruct (Hm _ _ _ Hw E) as [Hs Hb]. exists g.
  split; [by apply silent_moved|]. by apply Hk.
Qed.
(** ** Pools *)

Section pool.
Context {A : Type} (o0 : list byte).
Implicit Types (ts : list (prog A)) (gs : list ghost).

Definition framed (q : prog A) (g : ghost) : Prop := frames (λ _ g', settled g') g q.

(** What has been sent: whole packets, and the part of one of which [rest] is
    left to the thread that has the mutex. *)
Record framing gs (o : list byte) (l : list (list byte)) (part rest : list byte) : Prop := {
  fr_out : o = o0 ++ concat l ++ part;
  fr_packets : Forall is_packet l;
  fr_part : part ++ rest = [] ∨ is_packet (part ++ rest);
  fr_holder i r : gs !! i = Some (Holds r) → r = rest;
  fr_debt : rest ≠ [] → ∃ i, gs !! i = Some (Holds rest)
}.

Record framed_pool ts gs w : Prop := {
  fp_progs : Forall2 framed ts gs;
  fp_tuned : tuned w;
  fp_fits i g : gs !! i = Some g → fits g w;
  fp_one i j g g' : gs !! i = Some g → gs !! j = Some g' → g ≠ Free → g' ≠ Free → i = j;
  fp_out o : out w = Some o → ∃ l part rest, framing gs o l part rest
}.

(** With nothing left, the part is a packet or nothing. *)
Lemma framing_whole gs o l part : framing gs o l part [] →
  ∃ l', o = o0 ++ concat l' ∧ Forall is_packet l'.
Proof.
  intros [-> Hl Hp _ _]. rewrite app_nil_r in Hp. destruct Hp as [->|Hp].
  - exists l. by rewrite app_nil_r.
  - exists (l ++ [part]). split; [by rewrite concat_app; cbn; rewrite app_nil_r|]. by apply Forall_app_2; [|constructor].
Qed.

(** A thread that has the mutex is the only one. *)
Lemma sole_holder ts gs w i g g' : framed_pool ts gs w → gs !! i = Some g → g ≠ Free →
  ∀ j r, <[i := g']> gs !! j = Some (Holds r) → g' = Holds r.
Proof.
  intros Hp Hi Hg j r Hj. destruct (decide (i = j)) as [->|Hne].
  - rewrite list_lookup_insert_eq in Hj by (by eapply lookup_lt_Some). congruence.
  - rewrite list_lookup_insert_ne in Hj by done. by rewrite (fp_one _ _ _ Hp i j g (Holds r) Hi Hj Hg) in Hne by done.
Qed.

Lemma framing_writes ts gs w i g g' o e l part rest :
  framed_pool ts gs w → gs !! i = Some g → writes g e g' → framing gs o l part rest →
  (g = Free → g' ≠ Free → ∀ j r, gs !! j ≠ Some (Holds r)) →
  ∃ l' part' rest', framing (<[i := g']> gs) (o ++ e) l' part' rest'.
Proof.
  intros Hp Hi Hwr Hf Hfree. pose proof (lookup_lt_Some _ _ _ Hi) as Hlt. destruct Hwr as [g|e r|e r Hpk| |].
  - exists l, part, rest. by rewrite list_insert_id, app_nil_r.
  - destruct Hf as [-> Hl Hpart Hh _]. rewrite <-(Hh i _ Hi), app_assoc in Hpart. exists l, (part ++ e), r. split; try done.
    + by rewrite <-!app_assoc.
    + intros j r' Hj. pose proof (sole_holder _ _ _ _ _ _ Hp Hi ltac:(done) j r' Hj). congruence.
    + intros _. exists i. by apply list_lookup_insert_eq.
  - pose proof (fr_holder _ _ _ _ _ Hf i [] Hi) as <-. destruct (framing_whole _ _ _ _ Hf) as (l' & -> & Hl').
    exists l', e, r. split; try done.
    + by rewrite <-!app_assoc.
    + by right.
    + intros j r' Hj. pose proof (sole_holder _ _ _ _ _ _ Hp Hi ltac:(done) j r' Hj). congruence.
    + intros _. exists i. by apply list_lookup_insert_eq.
  - assert (rest = []) as ->.
    { destruct rest as [|c rest]; [done|]. destruct (fr_debt _ _ _ _ _ Hf ltac:(done)) as [j Hj].
      by destruct (Hfree eq_refl ltac:(done) j (c :: rest)). }
    destruct (framing_whole _ _ _ _ Hf) as (l' & -> & Hl'). exists l', [], [].
    split; [by rewrite !app_nil_r|done|by left| |done]. intros j r Hj. destruct (decide (i = j)) as [->|Hne].
    + rewrite list_lookup_insert_eq in Hj by done. congruence.
    + rewrite list_lookup_insert_ne in Hj by done. by destruct (Hfree eq_refl ltac:(done) j r).
  - pose proof (fr_holder _ _ _ _ _ Hf i [] Hi) as <-. destruct (framing_whole _ _ _ _ Hf) as (l' & -> & Hl').
    exists l', [], []. split; [by rewrite !app_nil_r|done|by left| |done].
    intros j r Hj. by pose proof (sole_holder _ _ _ _ _ _ Hp Hi ltac:(done) j r Hj).
Qed.

(** The other threads are not affected. *)
Lemma moved_others ts gs w w' i j g g' gj :
  framed_pool ts gs w → gs !! i = Some g → gs !! j = Some gj → i ≠ j → moved w g w' g' →
  fits gj w' ∧ (g' ≠ Free → gj = Free).
Proof.
  intros Hp Hi Hj Hne [Ht Hf Hlock Htaken Hclosed _]. pose proof (fp_fits _ _ _ Hp j gj Hj) as Hfj.
  destruct (decide (gj = Free)) as [->|Hgj] eqn:Ed.
  - split; [done|auto].
  - destruct g as [|r|]; [|exfalso; apply Hne; by eapply (fp_one _ _ _ Hp)..].
    assert (lock_bit w ≠ Some false) as Hl by (destruct gj; cbn in Hfj; [done|done|by destruct Hfj]).
    assert (g' = Free) as -> by (destruct g'; [done|exfalso; by apply Hl, Htaken..]).
    split; [|done]. destruct (Hlock eq_refl eq_refl) as [E|E]; destruct gj; cbn in *; rewrite ?E; try done.
    + destruct Hfj. auto.
    + destruct Hfj. auto.
Qed.

Lemma framed_pool_step ts gs w i q q' w' : framed_pool ts gs w → ts !! i = Some q → advance q w = Ret q' w' →
  ∃ gs', framed_pool (<[i := q']> ts) gs' w'.
Proof.
  intros Hp Hi E. destruct (Forall2_lookup_l _ _ _ _ _ (fp_progs _ _ _ Hp) Hi) as (g & Hg & Hq).
  destruct q as [a|B m k]; [done|]. cbn in E. unfold mbind, M_bind in E.
  destruct (m w) as [b w1| | |] eqn:Em; try done. injection E as <- <-.
  destruct (Hq w b w1 (fp_tuned _ _ _ Hp) (fp_fits _ _ _ Hp i g Hg) Em) as (g' & Hmv & Hk).
  pose proof (lookup_lt_Some _ _ _ Hg) as Hlt. exists (<[i := g']> gs). split.
  - apply Forall2_insert; [apply Hp|done].
  - apply Hmv.
  - intros j gj Hj. destruct (decide (i = j)) as [->|Hne].
    + rewrite list_lookup_insert_eq in Hj by done. injection Hj as <-. apply Hmv.
    + rewrite list_lookup_insert_ne in Hj by done. by apply (moved_others ts gs w w1 i j g g' gj).
  - assert (∀ j gj, i ≠ j → gs !! j = Some gj → g' ≠ Free → gj = Free) as Hone.
    { intros j gj Hne Hj. by apply (moved_others ts gs w w1 i j g g' gj). }
    intros j1 j2 g1 g2 H1 H2 Hn1 Hn2. apply list_lookup_insert_Some in H1 as [(<- & <- & _)|[Hne1 H1]];
      apply list_lookup_insert_Some in H2 as [(<- & <- & _)|[Hne2 H2]]; [done| | |].
    + by destruct Hn2; apply (Hone j2).
    + by destruct Hn1; apply (Hone j1).
    + by apply (fp_one _ _ _ Hp j1 j2 g1 g2).
  - intros o' Eo'. destruct (out w) as [o|] eqn:Eo; [|by rewrite (mv_closed _ _ _ _ Hmv Eo) in Eo'].
    destruct (mv_out _ _ _ _ Hmv o o' Eo Eo') as (e & -> & Hwr).
    destruct (fp_out _ _ _ Hp o Eo) as (l & part & rest & Hf).
    apply (framing_writes ts gs w i g g' o e l part rest); try done.
    intros Hfree Hn j r Hj. pose proof (mv_taken _ _ _ _ Hmv Hfree Hn) as Hl.
    by pose proof (fp_fits _ _ _ Hp j _ Hj) as Hfit; cbn in Hfit.
Qed.

(** Another part of the program changes the world, or starts a thread. *)
Lemma framed_pool_silent ts gs w w' : framed_pool ts gs w → silent w w' → framed_pool ts gs w'.
Proof.
  intros [Hts Ht Hf Hone Hout] Hs. split; try done; [by destruct Hs| |].
  - intros i g Hi. by eapply mv_fits, silent_moved; [apply (Hf i)|].
  - intros o Eo. apply Hout. destruct Hs as (_ & _ & [<-|E]); [done|congruence].
Qed.

Lemma framed_pool_start q ts gs w : framed_pool ts gs w → framed q Free → framed_pool (q :: ts) (Free :: gs) w.
Proof.
  intros [Hts Ht Hf Hone Hout] Hq. split; [by constructor|done| | |].
  - intros [|i] g Hi; [by injection Hi as <-|by apply (Hf i)].
  - intros [|i] [|j] g g' Hi Hj Hg Hg'; cbn in Hi, Hj; [done|by injection Hi as <-|by injection Hj as <-|].
    f_equal. by apply (Hone i j g g').
  - intros o Eo. destruct (Hout o Eo) as (l & part & rest & [-> Hl Hp Hh Hd]). exists l, part, rest. split; try done.
    + intros [|i] r Hi; [done|by apply (Hh i)].
    + intros Hn. destruct (Hd Hn) as [i Hi]. by exists (S i).
Qed.

Lemma framed_pool_none w : tuned w → out w = Some o0 → framed_pool [] [] w.
Proof.
  intros Hw Ho. split; try done. intros o Eo. assert (o = o0) as -> by congruence.
  exists [], [], []. split; try done; [by rewrite app_nil_r|by left].
Qed.

Lemma framed_pool_all ts w : tuned w → out w = Some o0 → Forall (λ q, framed q Free) ts →
  ∃ gs, framed_pool ts gs w.
Proof.
  intros Hw Ho. induction 1 as [|q ts Hq _ [gs IH]]; [by exists []; apply framed_pool_none|].
  exists (Free :: gs). by apply framed_pool_start.
Qed.

(** What has been sent at any time is whole packets and a part of the next;
    nothing of it when nobody has the mutex, or all have returned. *)
Lemma framed_pool_sent ts gs w o : framed_pool ts gs w → out w = Some o →
  ∃ l part, o = o0 ++ concat l ++ part ∧ Forall is_packet l ∧
    (part = [] ∨ ∃ rest, is_packet (part ++ rest)) ∧ (lock_bit w = Some false ∨ all_finished ts → part = []).
Proof.
  intros Hp Ho. destruct (fp_out _ _ _ Hp o Ho) as (l & part & rest & Hf). destruct (decide (rest = [])) as [->|Hn].
  - destruct (framing_whole _ _ _ _ Hf) as (l' & -> & Hl'). exists l', []. rewrite app_nil_r.
    split; [done|]. split; [done|]. split; [by left|done].
  - pose proof (fr_debt _ _ _ _ _ Hf Hn) as [i Hi]. destruct Hf as [-> Hl Hpart _ _]. exists l, part.
    split; [done|]. split; [done|]. split; [destruct Hpart as [Hnil|Hpk]; [by destruct part, rest|eauto]|].
    intros [Hb|Hall].
    + by pose proof (fp_fits _ _ _ Hp i _ Hi) as Hfit; cbn in Hfit.
    + destruct (Forall2_lookup_r _ _ _ _ _ (fp_progs _ _ _ Hp) Hi) as (q & Hq & Hfr).
      pose proof (all_finished_lookup _ _ _ Hall Hq) as Hd. destruct q as [a|]; [|done].
      cbn in Hfr. destruct (Hfr ltac:(done)) as [[= ->]|[=]]. done.
Qed.
End pool.

(** ** The atomic steps *)

Abbreviation any := (λ _, True).

Lemma hushed_ret {A} (R : A → Prop) a : R a → hushed R (mret a).
Proof. intros Ha w b w' Hw [= <- <-]. split; [by apply silent_refl|done]. Qed.

Lemma silent_trans w1 w2 w3 : silent w1 w2 → silent w2 w3 → silent w1 w3.
Proof.
  intros (_ & Hl1 & Ho1) (Ht & Hl2 & Ho2). split; [done|]. split.
  - destruct Hl2 as [->| ->]; [done|by right].
  - destruct Ho2 as [->| ->]; [done|by right].
Qed.

Lemma hushed_bind {A B} (R : A → Prop) (Q : B → Prop) (m : M A) (k : A → M B) :
  hushed R m → (∀ a, R a → hushed Q (k a)) → hushed Q (m ≫= k).
Proof.
  intros Hm Hk w b w' Hw E. unfold mbind, M_bind in E. destruct (m w) as [a w1| | |] eqn:Em; try done.
  destruct (Hm _ _ _ Hw Em) as [Hs Ha]. destruct (Hk a Ha w1 b w' (proj1 Hs) E) as [Hs' Hb].
  split; [by eapply silent_trans|done].
Qed.

Lemma hushed_not {A} (R : A → Prop) m : (∀ w a w', m w ≠ Ret a w') → hushed R m.
Proof. intros Hm w a w' _ E. by apply Hm in E. Qed.

(** The clients, the connections and the next address are the same. *)
Lemma silent_same w w' : w_clients w' = w_clients w → w_net w' = w_net w → (w_brk w ≤ w_brk w')%nat →
  tuned w → silent w w'.
Proof.
  intros Hc Hn Hb Ht. split; [|unfold lock_bit, out; rewrite Hc, Hn; auto].
  destruct Ht as [Hb0 Hf Hw]. split; [lia|by rewrite Hc|by rewrite Hn].
Qed.

Lemma hushed_same {A} (m : M A) :
  (∀ w a w', m w = Ret a w' → w_clients w' = w_clients w ∧ w_net w' = w_net w ∧ (w_brk w ≤ w_brk w')%nat) → hushed any m.
Proof. intros Hm w a w' Hw E. destruct (Hm _ _ _ E) as (? & ? & ?). split; [by apply silent_same|done]. Qed.

Class Aside (V : Type) `{Heap V} : Prop := {
  aside_clients h w : w_clients (set_heap h w) = w_clients w;
  aside_net h w : w_net (set_heap h w) = w_net w;
  aside_brk h w : w_brk (set_heap h w) = w_brk w
}.
#[export] Instance inv_aside : Aside INVITATION. Proof. done. Qed.
#[export] Instance game_aside : Aside GAME. Proof. done. Qed.
#[export] Instance player_aside : Aside PLAYER. Proof. done. Qed.
#[export] Instance creg_aside : Aside CLIENT_REGISTRY. Proof. done. Qed.
#[export] Instance preg_aside : Aside PLAYER_REGISTRY. Proof. done. Qed.

Lemma load_hushed `{Heap V} q : hushed any (load (V:=V) q).
Proof.
  intros w v w' Hw E. unfold load in E. case_match; [|done]. injection E as _ <-. split; [by apply silent_refl|done].
Qed.

Section aside.
Context `{Aside V}.
Lemma store_hushed q (v : V) : hushed any (store q v).
Proof.
  apply hushed_same. intros w u w' E. unfold store in E. case_match; [|done]. injection E as _ <-.
  by rewrite aside_clients, aside_net, aside_brk.
Qed.
Lemma update_hushed q (f : V → V) : hushed any (update q f).
Proof. eapply hushed_bind; [apply load_hushed|]. intros v _. apply store_hushed. Qed.
Lemma update_opt_hushed q (f : V → option V) : hushed any (update_opt q f).
Proof.
  apply hushed_same. intros w u w' (v & v' & _ & _ & ->)%update_opt_ret. by rewrite aside_clients, aside_net, aside_brk.
Qed.
Lemma alloc_hushed (v : V) : hushed any (alloc v).
Proof.
  apply hushed_same. intros w u w' [= _ <-]. cbn. rewrite aside_clients, aside_net. split; [done|]. split; [done|lia].
Qed.
Lemma free_hushed q : hushed any (free (V:=V) q).
Proof.
  apply hushed_same. intros w u w' E. unfold free in E. case_match; [|done]. injection E as _ <-.
  by rewrite aside_clients, aside_net, aside_brk.
Qed.
End aside.

(** A client is read, and changed but for its mutex and its descriptor. *)
Lemma load_client_hushed q : hushed (λ c, c_fd c = fd ↔ q = p) (load (V:=CLIENT) q).
Proof.
  intros w c w' Hw E. unfold load in E. destruct (heap w !! q) as [c'|] eqn:Hq; [|done]. injection E as <- <-.
  split; [by apply silent_refl|]. by eapply tu_fd.
Qed.

Lemma silent_upd w q c c' : tuned w → w_clients w !! q = Some c → c_fd c' = c_fd c → (q = p → c_lock c' = c_lock c) →
  silent w (upd_client q c' w).
Proof.
  intros Hw Hq Hf Hl. pose proof (tu_fd _ Hw q c Hq) as Hfd. split; [|split; [left|by left]].
  - destruct Hw as [Hb Hc Hk]. split; [done| |done]. cbn. intros x cx [[<- <-]|[Hne Hx]]%lookup_insert_Some; [by rewrite Hf|by apply Hc].
  - unfold lock_bit. cbn. destruct (decide (q = p)) as [->|Hne]; [|by rewrite lookup_insert_ne].
    rewrite lookup_insert_eq, Hq. cbn. f_equal. auto.
Qed.

Lemma update_client_hushed q (f : CLIENT → CLIENT) :
  (∀ c, c_fd (f c) = c_fd c ∧ c_lock (f c) = c_lock c) → hushed any (update q f).
Proof.
  intros Hf w u w' Hw E. unfold update, mbind, M_bind in E.
  destruct (load q w) as [c w1| | |] eqn:El; try done. unfold load in El. destruct (heap w !! q) as [c'|] eqn:Hq; [|done].
  injection El as <- <-. unfold store in E. rewrite Hq in E. injection E as _ <-. split; [|done].
  by apply (silent_upd w q c'); [..|apply Hf|intros _; apply Hf].
Qed.

Lemma count_client_hushed q d : hushed any (update_opt q (c_count d)).
Proof.
  intros w u w' Hw (c & c' & Hq & (n & _ & [= <-])%bind_Some & ->)%update_opt_ret. split; [|done].
  by apply (silent_upd w q c).
Qed.

Lemma alloc_client_hushed c : c_fd c ≠ fd → hushed any (alloc c).
Proof.
  intros Hfd w q w' Hw [= <- <-]. split; [|done]. pose proof Hw as [Hb Hc Hk]. split; [|split; [left|by left]].
  - split; [cbn; lia| |done]. cbn. intros x cx [[<- <-]|[Hne Hx]]%lookup_insert_Some; [|by apply Hc].
    split; [done|lia].
  - unfold lock_bit. cbn. rewrite lookup_insert_ne; [done|lia].
Qed.

Lemma free_client_hushed q : hushed any (free (V:=CLIENT) q).
Proof.
  intros w u w' Hw E. unfold free in E. destruct (heap w !! q); [|done]. injection E as _ <-. split; [|done].
  pose proof Hw as [Hb Hc Hk]. split; [|split; [|by left]].
  - split; [done| |done]. cbn. intros x cx [Hne Hx]%lookup_delete_Some. by apply Hc.
  - unfold lock_bit. cbn. destruct (decide (q = p)) as [->|Hne]; [right; by rewrite lookup_delete_eq|left; by rewrite lookup_delete_ne].
Qed.

Lemma lock_other_hushed q : q ≠ p → hushed any (lock_client q).
Proof.
  intros Hne w u w' Hw E. unfold lock_client, mbind, M_bind in E. destruct (load q w) as [c w1| | |] eqn:El; try done.
  unfold load in El. destruct (heap w !! q) as [c'|] eqn:Hq; [|done]. injection El as <- <-. destruct (c_lock c'); [done|].
  unfold store in E. rewrite Hq in E. injection E as _ <-. split; [|done]. by apply (silent_upd w q c').
Qed.

Lemma unlock_other_hushed q : q ≠ p → hushed any (unlock_client q).
Proof.
  intros Hne w u w' Hw E. unfold unlock_client, update, mbind, M_bind in E.
  destruct (load q w) as [c w1| | |] eqn:El; try done. unfold load in El. destruct (heap w !! q) as [c'|] eqn:Hq; [|done].
  injection El as <- <-. unfold store in E. rewrite Hq in E. injection E as _ <-. split; [|done]. by apply (silent_upd w q c').
Qed.

(** The mutex of the client. *)
Lemma tuned_lock w c b : tuned w → w_clients w !! p = Some c → tuned (upd_client p (c_set_lock b c) w).
Proof.
  intros Hw Hp. pose proof (tu_fd _ Hw p c Hp) as Hfd. destruct Hw as [Hb Hc Hk]. split; [done| |done].
  cbn. intros x cx [[<- <-]|[Hne Hx]]%lookup_insert_Some; [done|by apply Hc].
Qed.

Lemma frames_lock {A} (P : A → ghost → Prop) g (k : () → prog A) :
  (g = Free → frames P (Holds []) (k ())) → frames P g (Act (lock_client p) k).
Proof.
  intros Hk w u w' Hw Hf E. unfold lock_client, mbind, M_bind in E. destruct (load p w) as [c w1| | |] eqn:El; try done.
  unfold load in El. destruct (heap w !! p) as [c'|] eqn:Hp; [|done]. injection El as <- <-.
  destruct (c_lock c') eqn:Hlock; [done|]. unfold store in E. rewrite Hp in E. injection E as <- <-.
  change (w_clients w !! p = Some c') in Hp.
  assert (lock_bit w = Some false) as Hl by (unfold lock_bit; by rewrite Hp, <-Hlock).
  assert (g = Free) as -> by (destruct g; [done|by cbn in Hf|by destruct Hf]).
  exists (Holds []). split; [|by apply Hk]. split; try done; [by apply (tuned_lock w c')| |].
  - unfold fits, lock_bit. cbn. by rewrite lookup_insert_eq.
  - intros o o' Eo Eo'. exists []. rewrite app_nil_r. split; [|constructor]. unfold out in *. cbn in Eo'. congruence.
Qed.

Lemma frames_unlock {A} (P : A → ghost → Prop) g (k : () → prog A) :
  settled g → g ≠ Free → frames P Free (k ()) → frames P g (Act (unlock_client p) k).
Proof.
  intros Hs Hg Hk w u w' Hw Hf E. unfold unlock_client, update, mbind, M_bind in E.
  destruct (load p w) as [c w1| | |] eqn:El; try done. unfold load in El. destruct (heap w !! p) as [c'|] eqn:Hp; [|done].
  injection El as <- <-. unfold store in E. rewrite Hp in E. injection E as <- <-. exists Free. split; [|done].
  split; try done; [by apply (tuned_lock w c')|].
  intros o o' Eo Eo'. exists []. rewrite app_nil_r. unfold out in *. cbn in Eo'. split; [congruence|].
  destruct (Hs Hg) as [->| ->]; [constructor|]. destruct Hf as [_ Hf]. unfold out in Hf. congruence.
Qed.

(** What touches neither clients nor connections. *)
Ltac hushed_same :=
  apply hushed_same; intros ? ? ? E;
  repeat (first [done | match type of E with
    | Ret _ _ = Ret _ _ => injection E as ? ?; subst; cbn; auto
    | context [match ?x with _ => _ end] => destruct x
    end]).

Lemma stuck_hushed {A} : hushed any (stuck (A:=A)).
Proof. by apply hushed_not. Qed.
Lemma undef_hushed {A} : hushed any (undef (A:=A)).
Proof. by apply hushed_not. Qed.
Lemma out_of_fuel_hushed {A} : hushed any (out_of_fuel (A:=A)).
Proof. by apply hushed_not. Qed.
Lemma defined_hushed {A} (o : option A) : hushed any (defined o).
Proof. destruct o; [by apply hushed_ret|apply undef_hushed]. Qed.
Lemma gets_hushed {A} (f : world → A) : hushed any (gets f).
Proof. unfold gets. hushed_same. Qed.
Lemma calloc_hushed : hushed any calloc.
Proof. unfold calloc. hushed_same. Qed.
Lemma calloc_unchecked_hushed : hushed any calloc_unchecked.
Proof. eapply hushed_bind; [apply calloc_hushed|]. intros [] _; [by apply hushed_ret|apply undef_hushed]. Qed.
Lemma clock_gettime_hushed : hushed any clock_gettime.
Proof. unfold clock_gettime. hushed_same. Qed.
Lemma fresh_addr_hushed : hushed any fresh_addr.
Proof. unfold fresh_addr. hushed_same. Qed.
Lemma sem_wait_hushed i : hushed any (sem_wait i).
Proof. unfold sem_wait. hushed_same. Qed.
Lemma sem_post_hushed i : hushed any (sem_post i).
Proof. unfold sem_post. hushed_same. Qed.
Lemma init_semaphores_hushed : hushed any init_semaphores.
Proof. unfold init_semaphores. hushed_same. Qed.

(** The connections. *)
Lemma silent_conn w f k k' : tuned w → w_net w !! f = Some k → (f = fd → k_out k' = k_out k) → (f = fd → writable k → writable k') →
  silent w (set_conn f k' w).
Proof.
  intros Hw Hk Hout Hwr. pose proof Hw as [Hb Hc Hn]. split; [|split; [by left|left]].
  - split; [done|done|]. intros x. cbn. rewrite lookup_insert_Some. intros [[-> <-]|[Hne Hx]]; [|by apply Hn].
    apply Hwr; [done|]. by apply Hn.
  - unfold out. cbn. destruct (decide (f = fd)) as [->|Hne]; [|by rewrite lookup_insert_ne].
    rewrite lookup_insert_eq, Hk. cbn. f_equal. auto.
Qed.

Lemma silent_other_conn w f k : tuned w → f ≠ fd → silent w (set_conn f k w).
Proof.
  intros [Hb Hc Hn] Hne. split; [|split; [by left|left]].
  - split; [done|done|]. intros x. cbn. rewrite lookup_insert_ne by done. apply Hn.
  - unfold out. cbn. by rewrite lookup_insert_ne.
Qed.

Lemma sys_write_other_hushed f buf n : f ≠ fd → hushed any (sys_write f buf n).
Proof.
  intros Hne w r w' Hw E. split; [|done]. unfold sys_write in E. destruct (_ <? n); [done|].
  destruct (w_net w !! f) as [k|] eqn:Hk; [|injection E as _ <-; by apply silent_refl].
  destruct (k_wscript k) as [|c cs]; [|destruct (c <=? 0)]; injection E as _ <-; by apply (silent_conn w f k).
Qed.

Lemma sys_read_hushed f n : hushed any (sys_read f n).
Proof.
  intros w r w' Hw E. split; [|done]. unfold sys_read in E.
  destruct (w_net w !! f) as [k|] eqn:Hk; [|injection E as _ <-; by apply silent_refl].
  destruct (k_rscript k) as [|c cs]; [|destruct (c <=? 0)]; injection E as _ <-; by apply (silent_conn w f k).
Qed.

Lemma sys_shutdown_rd_hushed f : hushed any (sys_shutdown_rd f).
Proof.
  intros w r w' Hw E. split; [|done]. unfold sys_shutdown_rd in E.
  destruct (w_net w !! f) as [k|] eqn:Hk; injection E as _ <-; [by apply (silent_conn w f k)|by apply silent_refl].
Qed.

Lemma sys_close_hushed f : hushed any (sys_close f).
Proof.
  intros w r w' Hw [= _ <-]. split; [|done]. pose proof Hw as [Hb Hc Hn]. split; [|split; [by left|]].
  - split; [done|done|]. intros k. cbn. intros [_ Hk]%lookup_delete_Some. by apply Hn.
  - unfold out. cbn. destruct (decide (f = fd)) as [->|Hne]; [right; by rewrite lookup_delete_eq|left; by rewrite lookup_delete_ne].
Qed.

(** What a thread is to write next: the rest of a packet, or a whole one. *)
Definition owes g (r : list byte) : Prop := g = Holds r ∨ (g = Holds [] ∧ is_packet r).

Lemma frames_write {A} (P : A → ghost → Prop) g r buf n (k : Z → prog A) :
  owes g r → 0 < n → (∃ tail, r = take (Z.to_nat n) buf ++ tail) →
  (∀ b, 0 < b ≤ n → n ≤ Z.of_nat (length buf) → frames P (Holds (drop (Z.to_nat b) r)) (k b)) →
  frames P Cut (k (-1)) →
  frames P g (Act (sys_write fd buf n) k).
Proof.
  intros Ho Hn [tail Er] Hk Hcut w b w' Hw Hf E.
  assert (g ≠ Free ∧ lock_bit w ≠ Some false) as [Hg Hl] by (destruct Ho as [->|[-> _]]; done).
  unfold sys_write in E. destruct (Z.ltb_spec (Z.of_nat (length buf)) n) as [|Hlen]; [done|].
  destruct (w_net w !! fd) as [c|] eqn:Hc.
  2: { injection E as <- <-. exists Cut. assert (out w = None) as Hnone by (unfold out; by rewrite Hc).
    split; [|done]. split; try done. intros o o' Eo. congruence. }
  assert (∃ m script, 0 < m ≤ n ∧ Forall (λ r, 0 < r) script ∧ b = m ∧
    w' = set_conn fd (mkCONN (k_out c ++ take (Z.to_nat m) buf) script (k_in c) (k_rscript c)) w) as (m & script & Hm & Hs & -> & ->).
  { pose proof (tu_writable _ Hw c Hc) as Hwr. unfold writable in Hwr. destruct (k_wscript c) as [|x xs].
    - injection E as <- <-. exists n, []. split; [lia|]. by split.
    - inversion Hwr as [|? ? Hx Hxs]; subst. destruct (Z.leb_spec x 0); [lia|]. injection E as <- <-.
      exists (Z.min x n), xs. split; [lia|]. by split. }
  assert (drop (Z.to_nat m) r = drop (Z.to_nat m) (take (Z.to_nat n) buf) ++ tail ∧
    r = take (Z.to_nat m) buf ++ drop (Z.to_nat m) r) as [_ Esplit].
  { assert (drop (Z.to_nat m) r = drop (Z.to_nat m) (take (Z.to_nat n) buf) ++ tail) as E'
      by (rewrite Er, drop_app_le; [done|rewrite length_take; lia]).
    split; [done|]. rewrite E', Er, app_assoc. f_equal.
    assert (take (Z.to_nat m) buf = take (Z.to_nat m) (take (Z.to_nat n) buf)) as -> by (rewrite take_take; f_equal; lia).
    by rewrite take_drop. }
  exists (Holds (drop (Z.to_nat m) r)). split; [|by apply Hk].
  pose proof Hw as [Hb Hcl Hwn]. split; try done.
  - split; [done|done|]. intros x. cbn. rewrite lookup_insert_Some. by intros [[_ <-]|[Hne _]].
  - intros Hnone. unfold out in Hnone. by rewrite Hc in Hnone.
  - intros o o' Eo Eo'. unfold out in Eo, Eo'. rewrite Hc in Eo. injection Eo as <-. cbn in Eo'.
    rewrite lookup_insert_eq in Eo'. injection Eo' as <-. exists (take (Z.to_nat m) buf). split; [done|].
    destruct Ho as [->|[-> Hpk]]; [rewrite Esplit at 1; constructor|].
    apply writes_new. by rewrite <-Esplit.
Qed.

(** ** Writing a packet *)

(** The program of an instance. *)
Abbreviation cut S := (@steps _ _ _ S).
Ltac fr_open := cbn [steps steps_bind steps_single steps_ret steps_section steps_post steps_init_semaphores pbind];
  cbv zeta beta.

Section sending.
Context (held : nat → Prop).

(** The whole of what was to be written, or the connection is closed. *)
Definition written (tail : list byte) (a : Z) (g : ghost) : Prop := (a = 0 ∧ g = Holds tail) ∨ (a = -1 ∧ g = Cut).

Lemma write_loop_frames buf total tail fuel : ∀ g r sent left,
  owes g r → 0 ≤ sent → left = total - sent → r = take (Z.to_nat left) (drop (Z.to_nat sent) buf) ++ tail →
  (0 < left ∨ g = Holds r) →
  frames (written tail) g (cut (write_loop_steps (sems held) fuel fd buf sent total left)).
Proof.
  unfold write_loop_steps. induction fuel as [|fuel IH]; intros g r sent left Ho Hs Hl Hr Hg; cbn [nat_rect write_loop].
  { fr_open. intros w b w' _ _ E. discriminate E. }
  destruct (Z.ltb_spec sent total) as [Hlt|Hge]; fr_open.
  - apply (frames_write _ g r); [done|lia|eauto| |].
    + intros b Hb Hlen. destruct (Z.leb_spec b 0); [lia|]. apply (IH _ (drop (Z.to_nat b) r)); [by left|lia|lia| |by right].
      rewrite Hr, drop_app_le by (rewrite length_take; lia). f_equal.
      rewrite skipn_firstn_comm, drop_drop. f_equal; [lia|f_equal; lia].
    + destruct (Z.leb_spec (-1) 0); [|lia]. by right.
  - left. split; [done|]. destruct Hg as [?| ->]; [lia|]. rewrite Hr. by replace (Z.to_nat left) with 0%nat by lia.
Qed.

Lemma write_all_frames g r buf n tail : owes g r → 0 < n → r = take (Z.to_nat n) buf ++ tail →
  frames (written tail) g (cut (write_all_steps (sems held) fd buf n)).
Proof. intros Ho Hn Hr. apply (write_loop_frames buf n tail _ g r); [done|lia|lia|done|by left]. Qed.

(** The data is there when the header says so. *)
Definition sendable (h : JEUX_PACKET_HEADER) (d : option (list byte)) : Prop :=
  match d with None => ntohs (h_size h) = 0 | Some buf => ntohs (h_size h) ≤ Z.of_nat (length buf) end.

Lemma proto_send_packet_frames h d : sendable h d →
  frames (λ _ g, settled g ∧ g ≠ Free) (Holds []) (cut (proto_send_packet_steps (sems held) fd h d)).
Proof.
  intros Hd. pose proof (ntohs_range (h_size h)) as Hr.
  set (payload := match d with None => [] | Some buf => take (Z.to_nat (ntohs (h_size h))) buf end).
  assert (is_packet (header_bytes h ++ payload)) as Hpk.
  { exists h, payload. split; [done|]. unfold payload. destruct d as [buf|]; cbn [sendable] in Hd; [rewrite length_take|cbn [length]]; lia. }
  unfold proto_send_packet_steps, proto_send_packet. fr_open.
  eapply frames_bind; [apply (write_all_frames _ (header_bytes h ++ payload) _ SIZEOF_HEADER payload); [by right|done|done]|].
  intros a g [[-> ->]|[-> ->]]; [|by split; [intros _; right|]]. destruct (Z.eqb_spec 0 (-1)); [done|].
  destruct d as [buf|]; cbn [sendable] in Hd; destruct (Z.eqb_spec (ntohs (h_size h)) 0) as [Hz|Hz]; fr_open; try lia.
  - split; [|done]. intros _. left. unfold payload. by rewrite Hz.
  - eapply frames_mono; [apply (write_all_frames _ payload _ _ []); [by left|lia|by rewrite app_nil_r]|].
    intros b g' [[_ ->]|[_ ->]]; (split; [intros _|done]); [by left|by right].
  - split; [|done]. intros _. by left.
Qed.
End sending.

(** ** The functions

    [hu] follows a program all of whose steps are silent, [fr] one that takes
    the mutex of a client: the client is this one or another. *)
Create HintDb hush discriminated.
Create HintDb frames discriminated.
#[local] Hint Constants Opaque : hush.
#[local] Hint Constants Opaque : frames.
#[local] Hint Extern 0 (Aside _) => apply _ : hush.
#[local] Hint Resolve load_client_hushed free_client_hushed count_client_hushed | 0 : hush.
#[local] Hint Extern 1 (hushed _ (update (V:=CLIENT) _ _)) => apply update_client_hushed; intros; split; done : hush.
#[local] Hint Resolve load_hushed store_hushed update_hushed update_opt_hushed alloc_hushed free_hushed stuck_hushed undef_hushed out_of_fuel_hushed
  defined_hushed gets_hushed calloc_hushed calloc_unchecked_hushed clock_gettime_hushed fresh_addr_hushed sem_wait_hushed
  sem_post_hushed init_semaphores_hushed sys_read_hushed sys_shutdown_rd_hushed sys_close_hushed sys_write_other_hushed
  alloc_client_hushed | 1 : hush.

Ltac any_of R := tryif is_evar R then (lazymatch type of R with ?A → _ => unify R (λ _ : A, True) end) else idtac.
Ltac hush_side := first [solve [eauto 5 with hush] | try done].

Ltac hu :=
  fr_open;
  lazymatch goal with
  | |- hush ?R (Done _) => any_of R; cbn [hush]; cbv beta; hush_side
  | |- hush ?R (pbind _ _) => any_of R; eapply hush_bind; [hu | cbv beta; intros; hu]
  | |- hush ?R (Act _ Done) =>
      tryif is_evar R then eapply hush_single; hush_side
      else (eapply hush_mono; [eapply hush_single; hush_side | cbv beta; intros; hush_side])
  | |- hush ?R (Act _ _) => any_of R; eapply hush_act; [hush_side | cbv beta; intros; hu]
  | |- hush ?R (@steps _ _ _ (match ?x with _ => _ end)) => any_of R; destruct x eqn:?; hu
  | |- hush ?R (steps _) =>
      tryif is_evar R then hush_side else (eapply hush_mono; [hush_side | cbv beta; intros; hush_side])
  | |- _ => idtac
  end.

Ltac hu_fold :=
  try match goal with
  | IH : context [nat_rect ?P ?b ?s ?n] |- _ => set (loop := nat_rect P b s n) in *; clearbody loop
  | IH : context [list_rect ?P ?b ?s ?n] |- _ => set (loop := list_rect P b s n) in *; clearbody loop
  end.
Tactic Notation "hu_unfold" reference(i) reference(f) := unfold i, f; hu.
Tactic Notation "hu_induction" reference(i) reference(f) ident(n) :=
  unfold i; induction n; intros; cbn [nat_rect list_rect f]; hu_fold; hu.

(** Calls under a mutex of their own. *)
Ltac hushed_calls :=
  repeat first
    [ by apply hushed_ret
    | apply (hushed_bind any); [|intros ? _]
    | lazymatch goal with
      | |- hushed _ (match ?x with _ => _ end) => destruct x
      | |- hushed _ ((match ?x with _ => _ end) _) => destruct x
      end
    | solve [eauto 4 with hush] ].

Lemma game_drop_at_hushed x : hushed any (game_drop_at x).
Proof. unfold game_drop_at. hushed_calls. Qed.
Lemma game_place_at_hushed x mv : hushed any (game_place_at x mv).
Proof. unfold game_place_at. hushed_calls. Qed.
Lemma player_drop_at_hushed q : hushed any (player_drop_at q).
Proof. unfold player_drop_at. hushed_calls. Qed.
Lemma player_post_result_hushed `{Libm} p1 p2 r : hushed any (player_post_result p1 p2 r).
Proof. unfold player_post_result. hushed_calls. Qed.
Lemma calloc_obj_hushed `{Aside V} (v : V) : hushed any (calloc_obj v).
Proof. unfold calloc_obj. hushed_calls. Qed.
#[local] Hint Resolve calloc_obj_hushed : hush.
Lemma player_create_at_hushed name : hushed any (player_create_at name).
Proof. unfold player_create_at. hushed_calls. Qed.
Lemma preg_find_hushed l name : hushed any (preg_find l name).
Proof. induction l as [|q l IH]; cbn; unfold player_get_name_at; hushed_calls. Qed.
#[local] Hint Resolve player_create_at_hushed preg_find_hushed : hush.
Lemma preg_enter_hushed preg name : hushed any (preg_enter preg name).
Proof. unfold preg_enter. hushed_calls. Qed.
Lemma lock_creg_hushed q : hushed any (lock_creg q).
Proof. unfold lock_creg. hushed_calls. Qed.
Lemma unlock_creg_hushed q : hushed any (unlock_creg q).
Proof. unfold unlock_creg. hushed_calls. Qed.
Lemma creg_wait_login_queue_hushed q : hushed any (creg_wait_login_queue q).
Proof. unfold creg_wait_login_queue. hushed_calls. Qed.
Lemma creg_post_login_queue_hushed q : hushed any (creg_post_login_queue q).
Proof. unfold creg_post_login_queue. hushed_calls. Qed.
Lemma creg_wait_sem_hushed q : hushed any (creg_wait_sem q).
Proof. unfold creg_wait_sem. hushed_calls. Qed.
Lemma creg_post_sem_hushed q : hushed any (creg_post_sem q).
Proof. unfold creg_post_sem. hushed_calls. Qed.
#[local] Hint Resolve game_drop_at_hushed game_place_at_hushed player_drop_at_hushed
  player_post_result_hushed preg_enter_hushed lock_creg_hushed unlock_creg_hushed
  creg_wait_login_queue_hushed creg_post_login_queue_hushed creg_wait_sem_hushed creg_post_sem_hushed : hush.

Section functions.
Context `{Libm}.
Implicit Types held : nat → Prop.

(** Silent functions. *)
Lemma game_create_at_hu held : hush any (cut (game_create_at_steps held)).
Proof. hu_unfold game_create_at_steps game_create_at. Qed.
Lemma game_ref_at_hu held x : hush any (cut (game_ref_at_steps held x)).
Proof. hu_unfold game_ref_at_steps game_ref_at. Qed.
Lemma game_unref_at_hu held x : hush any (cut (game_unref_at_steps held x)).
Proof. hu_unfold game_unref_at_steps game_unref_at. Qed.
Lemma game_is_over_at_hu held x : hush any (cut (game_is_over_at_steps held x)).
Proof. hu_unfold game_is_over_at_steps game_is_over_at. Qed.
#[local] Hint Resolve game_is_over_at_hu : hush.
Lemma game_apply_move_at_hu held x mv : hush any (cut (game_apply_move_at_steps held x mv)).
Proof. hu_unfold game_apply_move_at_steps game_apply_move_at. Qed.
Lemma game_resign_at_hu held x r : hush any (cut (game_resign_at_steps held x r)).
Proof. hu_unfold game_resign_at_steps game_resign_at. Qed.
Lemma game_get_winner_at_hu held x : hush any (cut (game_get_winner_at_steps held x)).
Proof. hu_unfold game_get_winner_at_steps game_get_winner_at. Qed.
Lemma game_unparse_state_at_hu held x : hush any (cut (game_unparse_state_at_steps held x)).
Proof. hu_unfold game_unparse_state_at_steps game_unparse_state_at. Qed.
Lemma game_parse_move_at_hu held x r s : hush any (cut (game_parse_move_at_steps held x r s)).
Proof. hu_unfold game_parse_move_at_steps game_parse_move_at. Qed.
Lemma player_ref_at_hu held x : hush any (cut (player_ref_at_steps held x)).
Proof. hu_unfold player_ref_at_steps player_ref_at. Qed.
Lemma player_unref_at_hu held x : hush any (cut (player_unref_at_steps held x)).
Proof. hu_unfold player_unref_at_steps player_unref_at. Qed.
#[local] Hint Resolve player_ref_at_hu : hush.
Lemma preg_register_hu held pr name : hush any (cut (preg_register_steps held pr name)).
Proof. hu_unfold preg_register_steps preg_register. Qed.
Lemma player_get_name_at_hu held x : hush any (cut (player_get_name_at_steps held x)).
Proof. hu_unfold player_get_name_at_steps player_get_name_at. Qed.
Lemma player_get_rating_at_hu held x : hush any (cut (player_get_rating_at_steps held x)).
Proof. hu_unfold player_get_rating_at_steps player_get_rating_at. Qed.
Lemma client_get_player_hu held c : hush any (cut (client_get_player_steps held c)).
Proof. hu_unfold client_get_player_steps client_get_player. Qed.
Lemma client_get_fd_hu held c : hush any (cut (client_get_fd_steps held c)).
Proof. hu_unfold client_get_fd_steps client_get_fd. Qed.
Lemma inv_ref_hu held i : hush any (cut (inv_ref_steps held i)).
Proof. hu_unfold inv_ref_steps inv_ref. Qed.
Lemma inv_get_source_hu held i : hush any (cut (inv_get_source_steps held i)).
Proof. hu_unfold inv_get_source_steps inv_get_source. Qed.
Lemma inv_get_target_hu held i : hush any (cut (inv_get_target_steps held i)).
Proof. hu_unfold inv_get_target_steps inv_get_target. Qed.
Lemma inv_get_source_role_hu held i : hush any (cut (inv_get_source_role_steps held i)).
Proof. hu_unfold inv_get_source_role_steps inv_get_source_role. Qed.
Lemma inv_get_target_role_hu held i : hush any (cut (inv_get_target_role_steps held i)).
Proof. hu_unfold inv_get_target_role_steps inv_get_target_role. Qed.
Lemma inv_get_game_hu held i : hush any (cut (inv_get_game_steps held i)).
Proof. hu_unfold inv_get_game_steps inv_get_game. Qed.
#[local] Hint Resolve game_create_at_hu game_ref_at_hu game_unref_at_hu game_apply_move_at_hu game_resign_at_hu
  game_get_winner_at_hu game_unparse_state_at_hu game_parse_move_at_hu player_unref_at_hu preg_register_hu player_get_name_at_hu player_get_rating_at_hu client_get_player_hu
  client_get_fd_hu inv_ref_hu inv_get_source_hu inv_get_target_hu inv_get_source_role_hu inv_get_target_role_hu
  inv_get_game_hu : hush.
Lemma inv_accept_hu held i : hush any (cut (inv_accept_steps held i)).
Proof. hu_unfold inv_accept_steps inv_accept. Qed.
Lemma inv_close_hu held i r : hush any (cut (inv_close_steps held i r)).
Proof. hu_unfold inv_close_steps inv_close. Qed.
Lemma created_size type id role size (ts : Z * Z) :
  ntohs (h_size (mkHDR (uint8 type) (uint8 id) (uint8 role) (htons size) (htonl ts.1) (htonl ts.2))) = uint16 size.
Proof. apply ntohs_htons. Qed.
#[local] Hint Resolve created_size : hush.
Lemma create_header_hu held t i r n :
  hush (λ h, ntohs (h_size h) = uint16 n) (cut (create_header_steps (sems held) t i r n)).
Proof. hu_unfold create_header_steps create_header. Qed.
Lemma write_loop_hu held fuel : ∀ f buf a b c, f ≠ fd → hush any (cut (write_loop_steps (sems held) fuel f buf a b c)).
Proof. hu_induction write_loop_steps write_loop fuel. Qed.
#[local] Hint Resolve write_loop_hu : hush.
Lemma write_all_hu held f buf n : f ≠ fd → hush any (cut (write_all_steps (sems held) f buf n)).
Proof. intros. hu_unfold write_all_steps write_all. Qed.
#[local] Hint Resolve write_all_hu : hush.
Lemma proto_send_packet_hu held f h d : f ≠ fd → hush any (cut (proto_send_packet_steps (sems held) f h d)).
Proof. intros. hu_unfold proto_send_packet_steps proto_send_packet. Qed.
Lemma read_loop_hu held fuel : ∀ f got a b c, hush any (cut (read_loop_steps held fuel f got a b c)).
Proof. hu_induction read_loop_steps read_loop fuel. Qed.
#[local] Hint Resolve read_loop_hu : hush.
Lemma read_all_hu held f n : hush any (cut (read_all_steps held f n)).
Proof. hu_unfold read_all_steps read_all. Qed.
#[local] Hint Resolve read_all_hu : hush.
Lemma proto_recv_packet_hu held f b : hush any (cut (proto_recv_packet_steps held f b)).
Proof. hu_unfold proto_recv_packet_steps proto_recv_packet. Qed.
Lemma post_player_results_hu held c o r v : hush any (cut (post_player_results_steps held c o r v)).
Proof. hu_unfold post_player_results_steps post_player_results. Qed.
Lemma collect_players_hu held l : hush any (cut (collect_players_steps held l)).
Proof. hu_induction collect_players_steps collect_players l. Qed.
Lemma name_taken_hu held l n : hush any (cut (name_taken_steps held l n)).
Proof. hu_induction name_taken_steps name_taken l. Qed.
Lemma shutdown_clients_hu held l : hush any (cut (shutdown_clients_steps held l)).
Proof. hu_induction shutdown_clients_steps shutdown_clients l. Qed.
Lemma preg_unref_all_hu held preg l : hush any (cut (preg_unref_all_steps held preg l)).
Proof. hu_induction preg_unref_all_steps preg_unref_all l. Qed.
Lemma users_lines_hu held l : hush any (cut (users_lines_steps held l)).
Proof. hu_induction users_lines_steps users_lines l. Qed.
#[local] Hint Resolve inv_accept_hu inv_close_hu create_header_hu proto_send_packet_hu proto_recv_packet_hu
  post_player_results_hu collect_players_hu name_taken_hu shutdown_clients_hu preg_unref_all_hu users_lines_hu :
  hush.
Lemma creg_all_players_hu held r : hush any (cut (creg_all_players_steps held r)).
Proof. hu_unfold creg_all_players_steps creg_all_players. Qed.
Lemma creg_shutdown_all_hu held r : hush any (cut (creg_shutdown_all_steps held r)).
Proof. hu_unfold creg_shutdown_all_steps creg_shutdown_all. Qed.
Lemma creg_wait_for_empty_hu held r : hush any (cut (creg_wait_for_empty_steps held r)).
Proof. hu_unfold creg_wait_for_empty_steps creg_wait_for_empty. Qed.
Lemma creg_fini_hu held r : hush any (cut (creg_fini_steps held r)).
Proof. hu_unfold creg_fini_steps creg_fini. Qed.
Lemma preg_fini_hu held r : hush any (cut (preg_fini_steps held r)).
Proof. hu_unfold preg_fini_steps preg_fini. Qed.
Lemma strncpy_copy_hu held s n : hush any (cut (strncpy_copy_steps held s n)).
Proof. hu_unfold strncpy_copy_steps strncpy_copy. Qed.
#[local] Hint Resolve creg_all_players_hu creg_shutdown_all_hu creg_wait_for_empty_hu creg_fini_hu preg_fini_hu
  strncpy_copy_hu : hush.
Lemma terminate_hu cr pr held : hush any (cut (terminate_steps cr pr held)).
Proof. hu_unfold terminate_steps terminate. Qed.

(** Functions that take the mutex of a client. *)
Definition between {A} (_ : A) (g : ghost) : Prop := settled g.

Lemma settled_holds : settled (Holds []).
Proof. intros _. by left. Qed.
Lemma settled_free : settled Free.
Proof. by intros ?. Qed.
#[local] Hint Resolve settled_holds settled_free : frames.

Ltac fr_side := cbv beta in *; unfold between in *; cbn [fst snd] in *; first [done | solve [eauto 5 with frames] | idtac].
Ltac fr_norm :=
  repeat match goal with
  | H : _ = _ ∧ _ |- _ => destruct H
  | H : settled _ ∧ _ |- _ => destruct H
  | H : ?g = _ |- _ => is_var g; lazymatch type of g with ghost => subst g end
  end.

Ltac fr :=
  fr_open;
  lazymatch goal with
  | |- frames _ _ (Done _) => cbn [frames]; cbv beta; fr_side
  | |- frames _ ?g (pbind ?q _) =>
      eapply frames_bind; [fr_first | cbv beta; intros; fr_norm; fr]
  | |- frames _ _ (Act (lock_client ?c) _) =>
      destruct (decide (c = p)) as [->|?];
      [ apply frames_lock; intros _; fr
      | eapply frames_quiet; [by apply lock_other_hushed | cbv beta; intros; fr] ]
  | |- frames _ _ (Act (unlock_client p) _) => apply frames_unlock; [fr_side | done | fr]
  | |- frames _ _ (Act (unlock_client _) _) =>
      eapply frames_quiet; [by apply unlock_other_hushed | cbv beta; intros; fr]
  | |- frames _ _ (Act _ _) => eapply frames_quiet; [hush_side | cbv beta; intros; fr]
  | |- frames _ _ (@steps _ _ _ (match ?x with _ => _ end)) => destruct x eqn:?; fr
  | |- frames _ _ (steps _) => eapply frames_mono; [fr_call | cbv beta; intros; fr_norm; fr_side]
  | |- _ => idtac
  end
with fr_call := first [eapply hush_frames; solve [eauto 5 with hush] | solve [eauto 6 with frames]]
with fr_first :=
  fr_open;
  lazymatch goal with
  | |- frames _ _ (@steps _ _ _ (match _ with _ => _ end)) => fr_block
  | |- frames _ _ (pbind _ _) => fr_block
  | |- frames _ _ (Act _ _) => fr_block
  | |- frames _ _ (Done _) => fr_block
  | |- frames _ _ (steps _) => fr_call
  end
with fr_block :=
  lazymatch goal with
  | |- @frames ?A ?P ?g _ =>
      first [ unify P (λ (_ : A) (g' : ghost), g' = g); solve [fr] | unify P (λ (_ : A) (g' : ghost), settled g'); fr ]
  end.
Tactic Notation "fr_unfold" reference(i) reference(f) := unfold i, f; fr.
Tactic Notation "fr_induction" reference(i) reference(f) ident(n) :=
  unfold i; induction n; intros; cbn [nat_rect list_rect f]; hu_fold; fr.

Lemma client_ref_fr held g c : settled g → frames between g (cut (client_ref_steps held c)).
Proof. intros. fr_unfold client_ref_steps client_ref. Qed.
#[local] Hint Resolve client_ref_fr : frames.
Lemma inv_create_fr held g s t rs rt : settled g → frames between g (cut (inv_create_steps held s t rs rt)).
Proof. intros. fr_unfold inv_create_steps inv_create. Qed.
Lemma get_available_id_fr held g c : settled g → frames between g (cut (get_available_id_steps held c)).
Proof. intros. fr_unfold get_available_id_steps get_available_id. Qed.
Lemma purge_id_fr held g c id : settled g → frames between g (cut (purge_id_steps held c id)).
Proof. intros. fr_unfold purge_id_steps purge_id. Qed.
Lemma client_get_invitation_id_fr held g c i : settled g → frames between g (cut (client_get_invitation_id_steps held c i)).
Proof. intros. fr_unfold client_get_invitation_id_steps client_get_invitation_id. Qed.
Lemma client_get_invitation_fr held g c i : settled g → frames between g (cut (client_get_invitation_steps held c i)).
Proof. intros. fr_unfold client_get_invitation_steps client_get_invitation. Qed.
#[local] Hint Resolve inv_create_fr get_available_id_fr purge_id_fr client_get_invitation_id_fr
  client_get_invitation_fr : frames.
Lemma client_add_invitation_fr held g c i : settled g → frames between g (cut (client_add_invitation_steps held c i)).
Proof. intros. fr_unfold client_add_invitation_steps client_add_invitation. Qed.
#[local] Hint Resolve client_add_invitation_fr : frames.

(** The size in the header is that of the data. *)
Definition sized (n : Z) (d : option (list byte)) : Prop :=
  match d with None => uint16 n = 0 | Some buf => uint16 n ≤ Z.of_nat (length buf) end.
Lemma sized_None : sized 0 None.
Proof. done. Qed.
Lemma sized_strlen buf : sized (strlen buf) (Some buf).
Proof. unfold sized, uint16, strlen. apply Z.mod_le; lia. Qed.
Lemma sized_if {P Q} (b : {P} + {Q}) n m d d' : sized n d → sized m d' →
  sized (if b then n else m) (if b then d else d').
Proof. by destruct b. Qed.
Lemma sendable_sized h d n : ntohs (h_size h) = uint16 n → sized n d → sendable h d.
Proof. unfold sized, sendable. intros ->. done. Qed.
Lemma sendable_renamed h d id : sendable h d →
  sendable (mkHDR (h_type h) (uint8 id) (h_role h) (h_size h) (h_timestamp_sec h) (h_timestamp_nsec h)) d.
Proof. done. Qed.
Lemma proto_send_packet_fr held f h d : f = fd → sendable h d →
  frames (λ _ g, settled g ∧ g ≠ Free) (Holds []) (cut (proto_send_packet_steps (sems held) f h d)).
Proof. intros ->. apply proto_send_packet_frames. Qed.
#[local] Hint Extern 1 (_ = fd) => tauto : frames.
#[local] Hint Extern 1 (_ ≠ fd) => tauto : hush.
#[local] Hint Resolve sized_None sized_strlen sized_if sendable_sized sendable_renamed proto_send_packet_fr : frames.
Lemma client_send_packet_fr held g c h d : settled g → sendable h d → frames between g (cut (client_send_packet_steps held c h d)).
Proof. intros. fr_unfold client_send_packet_steps client_send_packet. Qed.
Lemma client_send_ack_fr held g c d n : settled g → sized n d → frames between g (cut (client_send_ack_steps held c d n)).
Proof. intros. fr_unfold client_send_ack_steps client_send_ack. Qed.
Lemma client_send_nack_fr held g c : settled g → frames between g (cut (client_send_nack_steps held c)).
Proof. intros. fr_unfold client_send_nack_steps client_send_nack. Qed.
#[local] Hint Resolve client_send_packet_fr client_send_ack_fr client_send_nack_fr : frames.

(** The operations on invitations and the logout, with [client_unref] at the
    next depth. *)
Section recursion.
Context (client_unref' : ptr → M ()).
Context (unref_steps : ∀ held q, Steps (sems held) (client_unref' q)).
Context (unref_fr : ∀ held g q, settled g → frames between g (cut (unref_steps held q))).
#[local] Existing Instance unref_steps.
#[local] Hint Resolve unref_fr : frames.

Lemma inv_unref'_fr held g i : settled g → frames between g (cut (inv_unref'_steps client_unref' unref_steps held i)).
Proof. intros. fr_unfold inv_unref'_steps inv_unref'. Qed.
#[local] Hint Resolve inv_unref'_fr : frames.
Lemma client_remove_invitation'_fr held g c i : settled g → frames between g (cut (client_remove_invitation'_steps client_unref' unref_steps held c i)).
Proof. intros. fr_unfold client_remove_invitation'_steps client_remove_invitation'. Qed.
#[local] Hint Resolve client_remove_invitation'_fr : frames.
Lemma client_make_invitation'_fr held g s t rs rt : settled g → frames between g (cut (client_make_invitation'_steps client_unref' unref_steps held s t rs rt)).
Proof. intros. fr_unfold client_make_invitation'_steps client_make_invitation'. Qed.
Lemma client_revoke_invitation'_fr held g c id : settled g → frames between g (cut (client_revoke_invitation'_steps client_unref' unref_steps held c id)).
Proof. intros. fr_unfold client_revoke_invitation'_steps client_revoke_invitation'. Qed.
Lemma client_decline_invitation'_fr held g c id : settled g → frames between g (cut (client_decline_invitation'_steps client_unref' unref_steps held c id)).
Proof. intros. fr_unfold client_decline_invitation'_steps client_decline_invitation'. Qed.
Lemma client_resign_game'_fr held g c id : settled g → frames between g (cut (client_resign_game'_steps client_unref' unref_steps held c id)).
Proof. intros. fr_unfold client_resign_game'_steps client_resign_game'. Qed.
#[local] Hint Resolve client_revoke_invitation'_fr client_decline_invitation'_fr client_resign_game'_fr :
  frames.
Lemma logout_loop_fr fuel : ∀ held g c n, settled g → frames between g (cut (logout_loop_steps client_unref' unref_steps fuel held c n)).
Proof. fr_induction logout_loop_steps logout_loop fuel. Qed.
#[local] Hint Resolve logout_loop_fr : frames.
Lemma client_logout'_fr held g c : settled g → frames between g (cut (client_logout'_steps client_unref' unref_steps held c)).
Proof. intros. fr_unfold client_logout'_steps client_logout'. Qed.
End recursion.
#[local] Hint Resolve inv_unref'_fr client_remove_invitation'_fr client_make_invitation'_fr
  client_revoke_invitation'_fr client_decline_invitation'_fr client_resign_game'_fr client_logout'_fr : frames.

Lemma client_unref_fuel_fr fuel : ∀ held g c, settled g → frames between g (cut (client_unref_fuel_steps fuel held c)).
Proof. fr_induction client_unref_fuel_steps client_unref_fuel fuel. Qed.
#[local] Hint Resolve client_unref_fuel_fr : frames.
Lemma client_unref_fr held g c : settled g → frames between g (cut (client_unref_steps held c)).
Proof. intros. fr_unfold client_unref_steps client_unref. Qed.
#[local] Hint Resolve client_unref_fr : frames.
Lemma client_make_invitation_fr held g s t rs rt : settled g → frames between g (cut (client_make_invitation_steps held s t rs rt)).
Proof. intros. fr_unfold client_make_invitation_steps client_make_invitation. Qed.
Lemma client_revoke_invitation_fr held g c id : settled g → frames between g (cut (client_revoke_invitation_steps held c id)).
Proof. intros. fr_unfold client_revoke_invitation_steps client_revoke_invitation. Qed.
Lemma client_decline_invitation_fr held g c id : settled g → frames between g (cut (client_decline_invitation_steps held c id)).
Proof. intros. fr_unfold client_decline_invitation_steps client_decline_invitation. Qed.
Lemma client_resign_game_fr held g c id : settled g → frames between g (cut (client_resign_game_steps held c id)).
Proof. intros. fr_unfold client_resign_game_steps client_resign_game. Qed.
Lemma client_remove_invitation_fr held g c i : settled g → frames between g (cut (client_remove_invitation_steps held c i)).
Proof. intros. fr_unfold client_remove_invitation_steps client_remove_invitation. Qed.
#[local] Hint Resolve client_remove_invitation_fr : frames.
Lemma client_accept_invitation_fr held g c id : settled g → frames between g (cut (client_accept_invitation_steps held c id)).
Proof. intros. fr_unfold client_accept_invitation_steps client_accept_invitation. Qed.
Lemma client_make_move_fr held g c id mv : settled g → frames between g (cut (client_make_move_steps held c id mv)).
Proof. intros. fr_unfold client_make_move_steps client_make_move. Qed.
Lemma client_logout_fr held g c : settled g → frames between g (cut (client_logout_steps held c)).
Proof. intros. fr_unfold client_logout_steps client_logout. Qed.
#[local] Hint Resolve client_make_invitation_fr client_revoke_invitation_fr client_decline_invitation_fr
  client_resign_game_fr client_accept_invitation_fr client_make_move_fr client_logout_fr : frames.

(** The registry and the service: a new client has another descriptor. *)
Lemma client_create_fr g cr f : settled g → f ≠ fd → frames between g (cut (client_create_steps cr f)).
Proof. intros. fr_unfold client_create_steps client_create. Qed.
#[local] Hint Resolve client_create_fr : frames.
Lemma creg_register_fr g cr f : settled g → f ≠ fd → frames between g (cut (creg_register_steps cr f)).
Proof. intros. fr_unfold creg_register_steps creg_register. Qed.
Lemma creg_unregister_fr held g cr c : settled g → frames between g (cut (creg_unregister_steps held cr c)).
Proof. intros. fr_unfold creg_unregister_steps creg_unregister. Qed.
Lemma lookup_user_fr held l : ∀ g n, settled g → frames between g (cut (lookup_user_steps held l n)).
Proof. fr_induction lookup_user_steps lookup_user l. Qed.
#[local] Hint Resolve creg_register_fr creg_unregister_fr lookup_user_fr : frames.
Lemma creg_lookup_fr held g cr u : settled g → frames between g (cut (creg_lookup_steps held cr u)).
Proof. intros. fr_unfold creg_lookup_steps creg_lookup. Qed.
Lemma client_login_fr held g c q : settled g → frames between g (cut (client_login_steps held c q)).
Proof. intros. fr_unfold client_login_steps client_login. Qed.
#[local] Hint Resolve creg_lookup_fr client_login_fr : frames.

(** The service. *)
Section service.
Context (cr pr : ptr).

Lemma process_login_fr held g pl h c : settled g → frames between g (cut (process_login_steps pr held pl h c)).
Proof. intros. fr_unfold process_login_steps process_login. Qed.
Lemma process_users_fr held g pl c : settled g → frames between g (cut (process_users_steps cr held pl c)).
Proof. intros. fr_unfold process_users_steps process_users. Qed.
Lemma process_invite_fr held g pl c h : settled g → frames between g (cut (process_invite_steps cr held pl c h)).
Proof. intros. fr_unfold process_invite_steps process_invite. Qed.
Lemma process_revoke_fr held g pl c h : settled g → frames between g (cut (process_revoke_steps held pl c h)).
Proof. intros. fr_unfold process_revoke_steps process_revoke. Qed.
Lemma process_decline_fr held g pl c h : settled g → frames between g (cut (process_decline_steps held pl c h)).
Proof. intros. fr_unfold process_decline_steps process_decline. Qed.
Lemma process_accept_fr held g pl c h : settled g → frames between g (cut (process_accept_steps held pl c h)).
Proof. intros. fr_unfold process_accept_steps process_accept. Qed.
Lemma process_move_fr held g pl c h : settled g → frames between g (cut (process_move_steps held pl c h)).
Proof. intros. fr_unfold process_move_steps process_move. Qed.
Lemma process_resign_fr held g pl c h : settled g → frames between g (cut (process_resign_steps held pl c h)).
Proof. intros. fr_unfold process_resign_steps process_resign. Qed.
#[local] Hint Resolve process_login_fr process_users_fr process_invite_fr process_revoke_fr process_decline_fr
  process_accept_fr process_move_fr process_resign_fr : frames.
Lemma if_logged_in_fr held g flag c m (Sm : Steps (sems held) m) : settled g →
  (∀ g', settled g' → frames between g' (cut Sm)) → frames between g (cut (if_logged_in_steps held flag c m)).
Proof. intros. fr_unfold if_logged_in_steps if_logged_in. Qed.
#[local] Hint Resolve if_logged_in_fr : frames.
Lemma dispatch_in_fr held g c h pl flag : settled g → frames between g (cut (dispatch_in_steps cr pr held c h pl flag)).
Proof. intros. fr_unfold dispatch_in_steps dispatch. Qed.
#[local] Hint Resolve dispatch_in_fr : frames.
Lemma service_iteration_fr held g f c flag : settled g → frames between g (cut (service_iteration_steps cr pr held f c flag)).
Proof. intros. fr_unfold service_iteration_steps service_iteration. Qed.
#[local] Hint Resolve service_iteration_fr : frames.
Lemma service_loop_fr held fuel : ∀ g f c flag, settled g → frames between g (cut (service_loop_steps cr pr held fuel f c flag)).
Proof. fr_induction service_loop_steps service_loop fuel. Qed.
#[local] Hint Resolve service_loop_fr : frames.
Lemma jeux_client_service_fr g fuel f : settled g → f ≠ fd → frames between g (cut (jeux_client_service_steps cr pr fuel f)).
Proof. intros. fr_unfold jeux_client_service_steps jeux_client_service. Qed.
Lemma terminate_fr g : settled g → frames between g (cut (terminate_steps cr pr nobody)).
Proof. intros. eapply frames_mono; [eapply hush_frames, terminate_hu|]. by intros a g' [-> _]. Qed.
End service.
End functions.
End connection.

(** ** The server *)

(** The rest of the service of a client that has been registered. *)
Record session : Type := mkSESSION { s_fuel : nat; s_fd : Z; s_client : ptr; s_flag : Z }.
Definition serve_on `{Libm} (cr pr : ptr) (s : session) : prog () :=
  steps (H := sems nobody)
    (service_loop cr pr (s_fuel s) (s_fd s) (s_client s) (s_flag s);; creg_unregister cr (s_client s);; sys_close (s_fd s)).

(** The server while the connection [fd] is served: a step of a thread, a
    connection on another descriptor, input, which the kernel is ready to
    answer on [fd], the choices of [calloc] and of the clock, the end. *)
Inductive attending `{Libm} (cr pr : ptr) (fd : Z) : relation (list (prog ()) * world) :=
| attending_thread c c' : pool_step c c' → attending cr pr fd c c'
| attending_connect ts w f k fuel : f ≠ fd →
    attending cr pr fd (ts, w) (steps (H := sems nobody) (jeux_client_service cr pr fuel f) :: ts, set_conn f k w)
| attending_input ts w f k k' : w_net w !! f = Some k → k_out k' = k_out k → (f = fd → writable k') →
    attending cr pr fd (ts, w) (ts, set_conn f k' w)
| attending_memory ts w oom clock : attending cr pr fd (ts, w) (ts, set_oom oom (set_clock clock w))
| attending_terminate ts w :
    attending cr pr fd (ts, w) (steps (H := sems nobody) (terminate cr pr) :: ts, w).

Lemma serve_on_framed `{Libm} p fd cr pr s : framed p fd (serve_on cr pr s) Free.
Proof.
  unfold framed, serve_on. cbn [steps steps_bind]. eapply frames_bind; [apply service_loop_fr, settled_free|].
  intros ? g Hg. eapply frames_bind; [by apply creg_unregister_fr|]. intros ? g2 Hg2.
  eapply frames_mono; [eapply hush_frames, hush_single, sys_close_hushed|]. by intros ? g3 [-> _].
Qed.

Lemma attending_framed `{Libm} p fd o0 cr pr c c' : attending cr pr fd c c' →
  (∃ gs, framed_pool p fd o0 c.1 gs c.2) → ∃ gs, framed_pool p fd o0 c'.1 gs c'.2.
Proof.
  intros Hs [gs Hp]. destruct Hs as [c c' Hs|ts w f k fuel Hf|ts w f k k' Hk Ho Hw|ts w oom clock|ts w]; cbn [fst snd] in *.
  - destruct Hs as [i q q' ts w w' Hi E]. by apply (framed_pool_step p fd o0 ts gs w i q).
  - exists (Free :: gs). apply framed_pool_start; [|by apply jeux_client_service_fr; [apply settled_free|]].
    apply framed_pool_silent with w; [done|]. apply silent_other_conn; [apply Hp|done].
  - exists gs. apply framed_pool_silent with w; [done|]. apply (silent_conn p fd w f k); [apply Hp|done| |]; auto.
  - exists gs. apply framed_pool_silent with w; [done|]. apply silent_same; [done..|apply Hp].
  - exists (Free :: gs). apply framed_pool_start; [done|]. by apply terminate_fr, settled_free.
Qed.

(** C8: whatever the order of the steps of all threads, of connections on
    other descriptors, of what the peers send and of the end of the server,
    what a peer has been sent since is whole packets, one after another, each
    a header and as many bytes as it says, and a part of the next, which is
    empty when nobody has the mutex of the client or all threads have returned.
    The hypothesis: no other client has its descriptor, and the kernel
    takes at least a byte of every write on it. *)
Theorem packets_whole `{Libm} cr pr p fd sessions w0 ts w o0 o :
  tuned p fd w0 → out fd w0 = Some o0 →
  rtc (attending cr pr fd) (serve_on cr pr <$> sessions, w0) (ts, w) → out fd w = Some o →
  ∃ l part, o = o0 ++ concat l ++ part ∧ Forall is_packet l ∧
    (part = [] ∨ ∃ rest, is_packet (part ++ rest)) ∧
    (lock_bit p w = Some false ∨ all_finished ts → part = []).
Proof.
  intros Hw Ho Hr Ho'.
  assert (∃ gs, framed_pool p fd o0 ts gs w) as [gs Hp].
  { refine (rtc_ind_r (λ c, ∃ gs, framed_pool p fd o0 c.1 gs c.2) (_, w0) _ _ (ts, w) Hr).
    - apply framed_pool_all; [done..|]. apply Forall_fmap, Forall_true. intros s. apply serve_on_framed.
    - intros c c' _ Hs Hp. by apply (attending_framed p fd o0 cr pr c c'). }
  by apply (framed_pool_sent p fd o0 ts gs w).
Qed.
