(* ===== verification/Options.v ===== *)
(** * The command line: [src/option_processing.c]

    [getopt] belongs to the C library and reorders [argv] as it goes, so its
    calls are an argument of the model: the list of the results before the
    final -1, each with [argv[optind]] at that moment, [None] for the null
    pointer that ends [argv]. *)
From S2P Require Import Prelude Game.

Definition PORT_OPTION : Z := 1.

(** The globals [options] and [PORT]. *)
Record OPTIONS : Set := mkOPTIONS {
  options : Z;
  PORT : Z
}.

Definition no_options : OPTIONS := mkOPTIONS 0 0.

(** ** [strtol] in base 10, and the conversion of its result to [int] *)

Definition LONG_MAX : Z := 2 ^ 63 - 1.
Definition LONG_MIN : Z := - 2 ^ 63.

Definition isspace (c : byte) : bool := (c =? 32) || ((9 <=? c) && (c <=? 13)).
Definition isdigit (c : byte) : bool := (48 <=? c) && (c <=? 57).

Fixpoint skip_spaces (s : list byte) : list byte :=
  match s with
  | c :: s' => if isspace c then skip_spaces s' else s
  | [] => []
  end.

Fixpoint read_digits (acc : Z) (s : list byte) : Z :=
  match s with
  | c :: s' => if isdigit c then read_digits (10 * acc + (c - 48)) s' else acc
  | [] => acc
  end.

Definition strtol10 (s : list byte) : Z :=
  let value :=
    match skip_spaces s with
    | c :: s' =>
        if c =? 45 then - read_digits 0 s' else if c =? 43 then read_digits 0 s' else read_digits 0 (c :: s')
    | [] => 0
    end in
  Z.max LONG_MIN (Z.min LONG_MAX value).

(** The low 32 bits, as a signed number. *)
Definition int_of_long (z : Z) : Z := (z + 2 ^ 31) mod 2 ^ 32 - 2 ^ 31.

(** ** The loop *)

(** ['p'] *)
Definition OPT_p : Z := 112.

(** [None]: [strtol] is given the null pointer. *)
Fixpoint option_processor (calls : list (Z * option (list byte))) (o : OPTIONS) : option (Z * OPTIONS) :=
  match calls with
  | [] => Some (if Z.land (options o) PORT_OPTION =? 0 then 1 else 0, o)
  | (opt, arg) :: calls' =>
      if opt =? OPT_p then
        arg ← arg;
        option_processor calls' (mkOPTIONS (Z.lor (options o) PORT_OPTION) (int_of_long (strtol10 arg)))
      else Some (1, o)
  end.

(** ** Reading back a number *)

Lemma read_digits_app acc s t : Forall (λ c, isdigit c = true) s →
  read_digits acc (s ++ t) = read_digits (read_digits acc s) t.
Proof.
  intros Hs. revert acc. induction Hs as [|c s Hc _ IH]; intros acc; cbn; [done|]. rewrite Hc. apply IH.
Qed.

Lemma digits_aux_read fuel n acc : 0 ≤ n < 10 ^ Z.of_nat fuel → (0 < fuel)%nat →
  ∃ s, digits_aux fuel n acc = s ++ acc ∧ s ≠ [] ∧ Forall (λ c, isdigit c = true) s ∧ read_digits 0 s = n.
Proof.
  revert n acc. induction fuel as [|fuel IH]; intros n acc Hn Hf; [lia|]. cbn [digits_aux].
  pose proof (Z.mod_pos_bound n 10 ltac:(lia)) as Hm. pose proof (Z.div_mod n 10 ltac:(lia)) as Hd.
  assert (isdigit (48 + n mod 10) = true) as Hdig by (unfold isdigit; lia).
  destruct (Z.eqb_spec (n / 10) 0) as [Hz|Hz].
  - exists [48 + n mod 10]. split; [done|]. split; [done|]. split; [by repeat constructor|].
    cbn [read_digits]. rewrite Hdig. lia.
  - rewrite Nat2Z.inj_succ, Z.pow_succ_r in Hn by lia.
    destruct (decide (fuel = 0)%nat) as [->|Hf']; [change (10 ^ Z.of_nat 0) with 1 in Hn; lia|].
    destruct (IH (n / 10) ((48 + n mod 10) :: acc)) as (s & E & _ & Hs & Hr); [|lia|].
    { split; [apply Z.div_pos; lia|apply Z.div_lt_upper_bound; lia]. }
    exists (s ++ [48 + n mod 10]). rewrite E, <-app_assoc. split; [done|]. split; [by destruct s|].
    split; [apply Forall_app; split; [done|by repeat constructor]|].
    rewrite read_digits_app, Hr by done. cbn [read_digits]. rewrite Hdig. lia.
Qed.

Lemma int_of_long_id n : INT_MIN ≤ n ≤ INT_MAX → int_of_long n = n.
Proof. unfold INT_MIN, INT_MAX, int_of_long. intros Hn. rewrite Z.mod_small by lia. lia. Qed.

Lemma strtol10_digits s n : s ≠ [] → Forall (λ c, isdigit c = true) s → read_digits 0 s = n →
  LONG_MIN ≤ n ≤ LONG_MAX → strtol10 s = n.
Proof.
  intros Hne Hs Hr Hn. destruct s as [|c s]; [done|]. unfold strtol10. cbn [skip_spaces].
  pose proof (proj1 (proj1 (Forall_cons _ _ _) Hs)) as Hc. pose proof Hc as Hc'. unfold isdigit in Hc'.
  assert (isspace c = false) as -> by (unfold isspace; lia).
  destruct (Z.eqb_spec c 45); [lia|]. destruct (Z.eqb_spec c 43); [lia|]. rewrite Hr. lia.
Qed.

Lemma strtol10_decimal n : INT_MIN ≤ n ≤ INT_MAX → int_of_long (strtol10 (decimal n)) = n.
Proof.
  intros Hn. assert (strtol10 (decimal n) = n) as ->; [|by apply int_of_long_id].
  unfold INT_MIN, INT_MAX in Hn. unfold decimal. destruct (Z.ltb_spec n 0) as [Hneg|Hpos].
  - destruct (digits_aux_read 20 (- n) []) as (s & -> & _ & _ & Hr); [lia|lia|]. rewrite app_nil_r.
    unfold strtol10. cbn [skip_spaces]. change (isspace 45) with false. cbv iota. rewrite Hr.
    change (45 =? 45) with true. cbv iota. unfold LONG_MAX, LONG_MIN. lia.
  - destruct (digits_aux_read 20 n []) as (s & -> & Hne & Hs & Hr); [lia|lia|]. rewrite app_nil_r.
    apply strtol10_digits; [done..|]. unfold LONG_MAX, LONG_MIN. lia.
Qed.

(** ** What the loop accepts *)

(** Calls that found [-p] with something after it. *)
Definition port_call (c : Z * option (list byte)) : Prop := c.1 = OPT_p ∧ is_Some c.2.

(** The globals after such calls. *)
Definition after_call (o : OPTIONS) (c : Z * option (list byte)) : OPTIONS :=
  mkOPTIONS (Z.lor (options o) PORT_OPTION) (int_of_long (strtol10 (default [] c.2))).

Lemma option_processor_ports calls rest o : Forall port_call calls →
  option_processor (calls ++ rest) o = option_processor rest (foldl after_call o calls).
Proof.
  intros Hc. revert o. induction Hc as [|[opt arg] calls [Ho [s Hs]] _ IH]; intros o; [done|].
  cbn in Ho, Hs. subst. cbn [app option_processor foldl]. rewrite Z.eqb_refl. exact (IH _).
Qed.

(** Every sequence of calls is [-p]s followed by the first other option, or
    by a [-p] that nothing follows, or by nothing. *)
Lemma calls_split (calls : list (Z * option (list byte))) : ∃ pre rest, calls = pre ++ rest ∧ Forall port_call pre ∧
  match rest with
  | [] => True
  | (opt, arg) :: _ => opt ≠ OPT_p ∨ arg = None
  end.
Proof.
  induction calls as [|[opt arg] calls (pre & rest & -> & Hp & Hr)]; [by exists [], []|].
  destruct (decide (opt = OPT_p)) as [->|Ho]; [destruct arg as [s|]|].
  - exists ((OPT_p, Some s) :: pre), rest. split; [done|]. split; [|done]. constructor; [|done]. split; [done|by exists s].
  - exists [], ((OPT_p, None) :: pre ++ rest). split; [done|]. split; [constructor|by right].
  - exists [], ((opt, arg) :: pre ++ rest). split; [done|]. split; [constructor|by left].
Qed.

(** The command line.  With only [-p]s, each followed by an argument,
    [option_processor] succeeds, and the port is the last one given; without
    any, or with another option first, it reports a usage error; a [-p] that
    ends the command line is undefined behaviour, since the option string
    does not say that it takes an argument. *)
Lemma option_processor_splits calls : ∃ pre rest, calls = pre ++ rest ∧ Forall port_call pre ∧
  match rest with
  | [] => match last pre with
          | None => option_processor calls no_options = Some (1, no_options)
          | Some c => ∃ o, option_processor calls no_options = Some (0, o) ∧
              PORT o = int_of_long (strtol10 (default [] c.2))
          end
  | (opt, arg) :: _ =>
      if decide (opt = OPT_p) then arg = None ∧ option_processor calls no_options = None
      else ∃ o, option_processor calls no_options = Some (1, o)
  end.
Proof.
  destruct (calls_split calls) as (pre & rest & -> & Hp & Hr). exists pre, rest. split; [done|]. split; [done|].
  rewrite option_processor_ports by done. destruct rest as [|[opt arg] rest].
  - destruct pre as [|c pre _] using rev_ind; [done|]. rewrite last_snoc, foldl_snoc. cbn [option_processor].
    exists (after_call (foldl after_call no_options pre) c). split; [|done].
    destruct (Z.eqb_spec (Z.land (options (after_call (foldl after_call no_options pre) c)) PORT_OPTION) 0) as [E|E]; [|done].
    unfold after_call in E at 1. cbn [options] in E. rewrite Z.land_lor_distr_l in E.
    by apply Z.lor_eq_0_iff in E as [_ E].
  - cbn [option_processor]. case_decide as Ho.
    + destruct Hr as [?| ->]; [done|]. split; [done|]. subst. by rewrite Z.eqb_refl.
    + destruct (Z.eqb_spec opt OPT_p); [done|]. eauto.
Qed.

(** [-p] and the decimal text of a number [n] of type [int], after any
    command line of [-p]s, make the port [n]: the number printed is the number
    read back. *)
Theorem option_port_roundtrip calls n :
  INT_MIN ≤ n ≤ INT_MAX → Forall port_call calls →
  PORT <$> (snd <$> option_processor (calls ++ [(OPT_p, Some (decimal n))]) no_options) = Some n.
Proof.
  intros Hn Hc. rewrite option_processor_ports by done. cbn. by rewrite strtol10_decimal.
Qed.

Lemma option_port_roundtrip_witness :
  PORT <$> (snd <$> option_processor [(OPT_p, Some (decimal 3333))] no_options) = Some 3333.
Proof. apply (option_port_roundtrip [] 3333); [unfold INT_MIN, INT_MAX; lia|constructor]. Defined.
