(* ===== verification/Rio.v ===== *)
(** * Robust I/O

    The functions of [src/csapp.c] that read and write whatever the counts and
    interruptions of the system calls, and the buffered reader: each is
    refined to an operation on a stream, the bytes that are still to come.
    The server does not call them; it has loops of its own ([Protocol]). *)
From S2P Require Import Prelude World Options.

(** ** System calls that set [errno]

    A negative result in the script of a connection is a negated error, as the
    kernel returns it; [errno] belongs to the thread, and is handed from call
    to call. *)
Definition EINTR : Z := 4.
Definition EBADF : Z := 9.

(** The error of the next call on a connection. *)
Definition failure (script : CONN → list Z) (fd : Z) (w : world) : Z :=
  match w_net w !! fd with
  | None => EBADF
  | Some k => match script k with r :: _ => - r | [] => 0 end
  end.

(** What a call that reads returns, has stored, and leaves in [errno]. *)
Record READ : Type := mkREAD { rd_count : Z; rd_bytes : list byte; rd_errno : Z }.

Definition read (fd n errno : Z) : M READ :=
  e ← gets (failure k_rscript fd);
  r ← sys_read fd n;
  mret (mkREAD r.1 r.2 (if r.1 <? 0 then e else errno)).

Definition write (fd : Z) (buf : list byte) (n errno : Z) : M (Z * Z) :=
  e ← gets (failure k_wscript fd);
  c ← sys_write fd buf n;
  mret (c, if c <? 0 then e else errno).

(** ** Unbuffered: [rio_readn], [rio_writen]

    [rio_readn] and [rio_readnb] are one loop over two ways to read. *)
Class Reader (St : Type) := reader : St → Z → Z → M (St * READ).

Section readn.
Context `{Reader St}.

(** [nleft] bytes are still to be read, [usrbuf] has been stored. *)
Fixpoint readn_loop (fuel : nat) (s : St) (n nleft : Z) (usrbuf : list byte) (errno : Z) : M (St * READ) :=
  match fuel with
  | O => out_of_fuel
  | S fuel' =>
      if 0 <? nleft then
        r ← reader s nleft errno;
        let nread := rd_count r.2 in let errno := rd_errno r.2 in
        if nread <? 0 then
          if errno =? EINTR then readn_loop fuel' r.1 n nleft usrbuf errno
          else mret (r.1, mkREAD (-1) usrbuf errno)
        else if nread =? 0 then mret (r.1, mkREAD (n - nleft) usrbuf errno)
        else readn_loop fuel' r.1 n (nleft - nread) (usrbuf ++ rd_bytes r.2) errno
      else mret (s, mkREAD (n - nleft) usrbuf errno)
  end.
End readn.

#[export] Instance fd_reader : Reader Z := λ fd n errno, r ← read fd n errno; mret (fd, r).

(** Each turn of the loop reads a byte or is an answer of the kernel. *)
Definition rio_readn (fd n errno : Z) : M READ :=
  k ← gets (λ w, w_net w !! fd);
  r ← readn_loop (S (Z.to_nat n + length (default [] (k_rscript <$> k)))) fd n n [] errno;
  mret r.2.

(** A write that returns 0 leaves [errno] as it was. *)
Fixpoint writen_loop (fuel : nat) (fd : Z) (bufp : list byte) (n nleft errno : Z) : M (Z * Z) :=
  match fuel with
  | O => out_of_fuel
  | S fuel' =>
      if 0 <? nleft then
        r ← write fd bufp nleft errno;
        if r.1 <=? 0 then
          if r.2 =? EINTR then writen_loop fuel' fd bufp n nleft r.2 else mret (-1, r.2)
        else writen_loop fuel' fd (drop (Z.to_nat r.1) bufp) n (nleft - r.1) r.2
      else mret (n, errno)
  end.

Definition rio_writen (fd : Z) (usrbuf : list byte) (n errno : Z) : M (Z * Z) :=
  k ← gets (λ w, w_net w !! fd);
  writen_loop (S (Z.to_nat n + length (default [] (k_wscript <$> k)))) fd usrbuf n n errno.

(** ** Buffered: [rio_t] *)

Definition RIO_BUFSIZE : Z := 8192.

(** [rio_bufptr] is an offset into [rio_buf]. *)
Record rio_t : Type := mkRIO { rio_fd : Z; rio_cnt : Z; rio_bufptr : Z; rio_buf : list byte }.

(** The structure is the caller's, with whatever is in its buffer. *)
Definition rio_readinitb (buf : list byte) (fd : Z) : rio_t := mkRIO fd 0 0 buf.

(** The first loop of [rio_read]: the call returns at once, or the buffer is
    not empty. *)
Fixpoint rio_refill (fuel : nat) (rp : rio_t) (errno : Z) : M (rio_t * option Z * Z) :=
  match fuel with
  | O => out_of_fuel
  | S fuel' =>
      if rio_cnt rp <=? 0 then
        r ← read (rio_fd rp) RIO_BUFSIZE errno;
        let cnt := rd_count r in
        let buf := rd_bytes r ++ drop (length (rd_bytes r)) (rio_buf rp) in
        if cnt <? 0 then
          if negb (rd_errno r =? EINTR) then mret (mkRIO (rio_fd rp) cnt (rio_bufptr rp) buf, Some (-1), rd_errno r)
          else rio_refill fuel' (mkRIO (rio_fd rp) cnt (rio_bufptr rp) buf) (rd_errno r)
        else if cnt =? 0 then mret (mkRIO (rio_fd rp) cnt (rio_bufptr rp) buf, Some 0, rd_errno r)
        else rio_refill fuel' (mkRIO (rio_fd rp) cnt 0 buf) (rd_errno r)
      else mret (rp, None, errno)
  end.

(** Each turn but the last two is an answer of the kernel. *)
Definition rio_read (rp : rio_t) (n errno : Z) : M (rio_t * READ) :=
  k ← gets (λ w, w_net w !! rio_fd rp);
  r ← rio_refill (S (S (length (default [] (k_rscript <$> k))))) rp errno;
  let rp := r.1.1 in
  match r.1.2 with
  | Some result => mret (rp, mkREAD result [] r.2)
  | None =>
      let cnt := if rio_cnt rp <? n then rio_cnt rp else int_of_long n in
      let bytes := take (Z.to_nat cnt) (drop (Z.to_nat (rio_bufptr rp)) (rio_buf rp)) in
      mret (mkRIO (rio_fd rp) (rio_cnt rp - cnt) (rio_bufptr rp + cnt) (rio_buf rp), mkREAD cnt bytes r.2)
  end.

#[export] Instance rio_reader : Reader rio_t := rio_read.

Definition rio_readnb (rp : rio_t) (n errno : Z) : M (rio_t * READ) :=
  k ← gets (λ w, w_net w !! rio_fd rp);
  readn_loop (S (Z.to_nat n + length (default [] (k_rscript <$> k)))) rp n n [] errno.

(** The loop of [rio_readlineb], with [n] the [int] it counts with and what
    has been stored; the NUL is stored at the end. *)
Fixpoint readlineb_loop (fuel : nat) (rp : rio_t) (maxlen n : Z) (usrbuf : list byte) (errno : Z) : M (rio_t * READ) :=
  match fuel with
  | O => out_of_fuel
  | S fuel' =>
      if n <? maxlen then
        r ← rio_read rp 1 errno;
        let rc := rd_count r.2 in let errno := rd_errno r.2 in
        if rc =? 1 then
          let usrbuf := usrbuf ++ rd_bytes r.2 in
          if bool_decide (rd_bytes r.2 = [10]) then mret (r.1, mkREAD n (usrbuf ++ [0]) errno)
          else n ← defined (int_op (n + 1)); readlineb_loop fuel' r.1 maxlen n usrbuf errno
        else if rc =? 0 then
          if n =? 1 then mret (r.1, mkREAD 0 usrbuf errno)
          else mret (r.1, mkREAD n (usrbuf ++ [0]) errno)
        else mret (r.1, mkREAD (-1) usrbuf errno)
      else mret (rp, mkREAD n (usrbuf ++ [0]) errno)
  end.

Definition rio_readlineb (rp : rio_t) (maxlen errno : Z) : M (rio_t * READ) :=
  readlineb_loop (S (Z.to_nat maxlen)) rp maxlen 1 [] errno.

(** ** The wrappers

    They end the process when the call fails, [inr] with its status. *)

(** The status [unix_error] exits with. *)
Definition unix_error : Z := 0.

Definition Rio_readn (fd nbytes errno : Z) : M (READ + Z) :=
  r ← rio_readn fd nbytes errno;
  mret (if rd_count r <? 0 then inr unix_error else inl r).

Definition Rio_writen (fd : Z) (usrbuf : list byte) (n errno : Z) : M (Z + Z) :=
  r ← rio_writen fd usrbuf n errno;
  mret (if negb (r.1 =? n) then inr unix_error else inl r.2).

Definition Rio_readinitb (buf : list byte) (fd : Z) : rio_t := rio_readinitb buf fd.

Definition Rio_readnb (rp : rio_t) (n errno : Z) : M (rio_t * READ + Z) :=
  r ← rio_readnb rp n errno;
  mret (if rd_count r.2 <? 0 then inr unix_error else inl r).

Definition Rio_readlineb (rp : rio_t) (maxlen errno : Z) : M (rio_t * READ + Z) :=
  r ← rio_readlineb rp maxlen errno;
  mret (if rd_count r.2 <? 0 then inr unix_error else inl r).

(** ** Requests *)

Inductive REQUEST : Type := Readnb (n : Z) | Readlineb (maxlen : Z).

Definition rio_request (rp : rio_t) (q : REQUEST) (errno : Z) : M (rio_t * READ) :=
  match q with
  | Readnb n => rio_readnb rp n errno
  | Readlineb maxlen => rio_readlineb rp maxlen errno
  end.

(** What a caller of several gets: the counts and what has been stored. *)
Fixpoint rio_requests (rp : rio_t) (qs : list REQUEST) (errno : Z) : M (rio_t * list (Z * list byte)) :=
  match qs with
  | [] => mret (rp, [])
  | q :: qs' =>
      r ← rio_request rp q errno;
      rs ← rio_requests r.1 qs' (rd_errno r.2);
      mret (rs.1, (rd_count r.2, rd_bytes r.2) :: rs.2)
  end.

(** The same on a list of bytes. *)
Fixpoint take_line (k : nat) (s : list byte) : list byte :=
  match k, s with
  | S k', c :: s' => if c =? 10 then [c] else c :: take_line k' s'
  | _, _ => []
  end.

(** The count of a line includes the NUL, unless a newline ends it. *)
Definition line_count (line : list byte) : Z :=
  if decide (last line = Some 10) then Z.of_nat (length line) else Z.of_nat (length line) + 1.

Definition stream_request (s : list byte) (q : REQUEST) : (Z * list byte) * list byte :=
  match q with
  | Readnb n => let b := take (Z.to_nat n) s in (Z.of_nat (length b), b, drop (Z.to_nat n) s)
  | Readlineb maxlen =>
      let line := take_line (Z.to_nat (maxlen - 1)) s in
      if decide (1 < maxlen ∧ s = []) then (0, [], [])
      else (line_count line, line ++ [0], drop (length line) s)
  end.

Fixpoint stream_requests (s : list byte) (qs : list REQUEST) : list (Z * list byte) * list byte :=
  match qs with
  | [] => ([], s)
  | q :: qs' =>
      let r := stream_request s q in let rs := stream_requests r.2 qs' in (r.1 :: rs.1, rs.2)
  end.

(** ** Readers of a stream *)

(** Every call transfers something, finds the end of the stream, or has been
    interrupted. *)
Definition robust (script : list Z) : Prop := Forall (λ r, 0 < r ∨ r = - EINTR) script.

(** What a way to read promises to the loop over it: the stream is what it has
    buffered and what the kernel has; an interruption is one answer of the
    kernel less. *)
Class StreamReader (St : Type) `{Reader St} := {
  descriptor : St → Z;
  buffered : St → list byte;
  reader_ok : St → Prop;
  reader_reads s n errno w k :
    w_net w !! descriptor s = Some k → reader_ok s → robust (k_rscript k) → 0 < n →
    wp (reader s n errno) w (λ r w', ∃ k', w' = set_conn (descriptor s) k' w ∧ same_output k k' ∧
      robust (k_rscript k') ∧ (length (k_rscript k') ≤ length (k_rscript k))%nat ∧
      descriptor r.1 = descriptor s ∧ reader_ok r.1 ∧
      buffered s ++ k_in k = rd_bytes r.2 ++ buffered r.1 ++ k_in k' ∧
      ((rd_count r.2 = -1 ∧ rd_errno r.2 = EINTR ∧ rd_bytes r.2 = [] ∧
        (length (k_rscript k') < length (k_rscript k))%nat) ∨
       (rd_count r.2 = 0 ∧ buffered s ++ k_in k = []) ∨
       (0 < rd_count r.2 ≤ n ∧ Z.of_nat (length (rd_bytes r.2)) = rd_count r.2)))
}.

Section loop.
Context `{StreamReader St}.

(** However the bytes come, as many are stored as were asked for, or all there
    are. *)
Lemma readn_loop_reads fuel : ∀ s n nleft usrbuf errno w k,
  w_net w !! descriptor s = Some k → reader_ok s → robust (k_rscript k) → 0 ≤ nleft →
  (Z.to_nat nleft + length (k_rscript k) < fuel)%nat →
  wp (readn_loop fuel s n nleft usrbuf errno) w (λ r w', ∃ k', w' = set_conn (descriptor s) k' w ∧ same_output k k' ∧
    robust (k_rscript k') ∧ descriptor r.1 = descriptor s ∧ reader_ok r.1 ∧
    let bytes := take (Z.to_nat nleft) (buffered s ++ k_in k) in
    rd_count r.2 = n - nleft + Z.of_nat (length bytes) ∧ rd_bytes r.2 = usrbuf ++ bytes ∧
    buffered r.1 ++ k_in k' = drop (Z.to_nat nleft) (buffered s ++ k_in k)).
Proof.
  induction fuel as [|fuel IH]; intros s n nleft usrbuf errno w k Hk Hs Hr Hn Hf; [lia|]. cbn [readn_loop].
  destruct (Z.ltb_spec 0 nleft) as [Hpos|Hz].
  2: { apply wp_ret. exists k. rewrite set_conn_id by done. replace (Z.to_nat nleft) with 0%nat by lia.
    rewrite take_0, drop_0, app_nil_r. cbn. split_and!; [done..|lia|done|done]. }
  apply wp_bind. eapply wp_mono; [by apply (reader_reads s nleft errno w k)|].
  intros [s' [c bs e]] w' (k' & -> & Hout & Hr' & Hlen & Hd & Hok & Hstr & Hcase). cbn [rd_count rd_bytes rd_errno fst snd] in *.
  assert (w_net (set_conn (descriptor s) k' w) !! descriptor s' = Some k') as Hk' by (rewrite Hd; apply set_conn_lookup).
  destruct Hcase as [(-> & -> & -> & Hlt)|[(-> & Hnil)|(Hc & Hbs)]].
  - cbn [Z.ltb Z.compare]. rewrite Z.eqb_refl. cbn [app] in Hstr.
    eapply wp_mono; [apply (IH s' n nleft usrbuf EINTR _ k' Hk' Hok Hr'); lia|].
    intros r w' (k2 & -> & Hout2 & Hr2 & Hd2 & Hok2 & Hc & Hb & Hrest). exists k2. rewrite Hd, set_conn_twice, Hstr.
    split_and!; [done|by etrans|done|congruence|done|done|done|done].
  - apply wp_ret. exists k'. rewrite Hnil, take_nil, drop_nil, app_nil_r in *. cbn.
    symmetry in Hstr. apply app_nil in Hstr as [-> Hrest]. split_and!; [done..|lia|done|done].
  - destruct (Z.ltb_spec c 0); [lia|]. destruct (Z.eqb_spec c 0); [lia|].
    eapply wp_mono; [apply (IH s' n (nleft - c) (usrbuf ++ bs) e _ k' Hk' Hok Hr'); lia|].
    intros r w' (k2 & -> & Hout2 & Hr2 & Hd2 & Hok2 & Hcnt & Hb & Hrest). exists k2. rewrite Hd, set_conn_twice, Hstr.
    rewrite Hcnt, Hb, Hrest. replace (Z.to_nat nleft) with (length bs + Z.to_nat (nleft - c))%nat by lia.
    rewrite take_app_add, drop_app_add, length_app, <-app_assoc by done.
    split_and!; [done|by etrans|done|congruence|done|lia|done|done].
Qed.
End loop.

(** ** The two readers *)

Lemma robust_tail r script : robust (r :: script) → robust script.
Proof. by intros [_ ?]%Forall_cons. Qed.

(** [read] under a kernel that only interrupts. *)
Lemma read_robust fd n errno w k :
  w_net w !! fd = Some k → robust (k_rscript k) → 0 < n →
  wp (read fd n errno) w (λ r w', ∃ k', w' = set_conn fd k' w ∧ same_output k k' ∧ robust (k_rscript k') ∧
    (length (k_rscript k') ≤ length (k_rscript k))%nat ∧ k_in k = rd_bytes r ++ k_in k' ∧
    ((rd_count r = -1 ∧ rd_errno r = EINTR ∧ rd_bytes r = [] ∧ (length (k_rscript k') < length (k_rscript k))%nat) ∨
     (rd_count r = 0 ∧ rd_bytes r = [] ∧ k_in k = []) ∨
     (0 < rd_count r ≤ n ∧ Z.of_nat (length (rd_bytes r)) = rd_count r))).
Proof.
  intros Hk Hr Hn. unfold wp, read, gets, sys_read, failure, mbind, M_bind. rewrite Hk.
  assert (∀ c, 0 ≤ c ≤ Z.of_nat (length (k_in k)) → Z.of_nat (length (take (Z.to_nat c) (k_in k))) = c) as Hlen
    by (intros c Hc; rewrite length_take; lia).
  assert (∀ c, k_in k = take (Z.to_nat c) (k_in k) ++ drop (Z.to_nat c) (k_in k)) as Hsplit
    by (intros c; by rewrite take_drop).
  assert (∀ c, 0 ≤ c ≤ Z.min n (Z.of_nat (length (k_in k))) → (c = 0 → k_in k = []) →
    (c = 0 ∧ take (Z.to_nat c) (k_in k) = [] ∧ k_in k = []) ∨
    (0 < c ≤ n ∧ Z.of_nat (length (take (Z.to_nat c) (k_in k))) = c)) as Hcase.
  { intros c Hc Hnil. destruct (decide (c = 0)) as [->|]; [left; auto|right]. split; [lia|]. apply Hlen. lia. }
  assert (Z.of_nat (length (k_in k)) = 0 → k_in k = []) as Hempty by (destruct (k_in k); [done|cbn; lia]).
  destruct (k_rscript k) as [|r rs] eqn:Es; cbn.
  - eexists. split; [done|]. split; [done|]. split; [done|]. split; [done|]. split; [apply Hsplit|]. right.
    cbn [rd_count rd_bytes fst snd]. apply Hcase; [lia|]. intros. apply Hempty. lia.
  - pose proof (robust_tail _ _ Hr) as Hrs. apply Forall_cons in Hr as [[Hpos| ->] _].
    + destruct (Z.leb_spec r 0); [lia|]. eexists. split; [done|]. split; [done|]. split; [done|]. split; [cbn; lia|].
      split; [apply Hsplit|]. right. cbn [rd_count rd_bytes fst snd]. apply Hcase; [lia|]. intros. apply Hempty. lia.
    + cbn. eexists. split; [done|]. split; [done|]. split; [done|]. split; [cbn; lia|]. split; [done|]. left.
      split_and!; [done..|cbn; lia].
Qed.

#[export] Program Instance fd_stream : StreamReader Z := {|
  descriptor fd := fd;
  buffered _ := [];
  reader_ok _ := True
|}.
Next Obligation.
  intros fd n errno w k Hk _ Hr Hn. cbn [app]. unfold reader, fd_reader. apply wp_bind.
  eapply wp_mono; [by apply (read_robust fd n errno w k)|].
  intros [c bs e] w' (k' & -> & Hout & Hr' & Hlen & Hin & Hcase). apply wp_ret. exists k'.
  split_and!; try done. cbn in *. destruct Hcase as [?|[(-> & -> & Hnil)|?]]; [by left|right; by left|right; by right].
Qed.

(** The unread part of the buffer is inside it. *)
Definition rio_ok (rp : rio_t) : Prop :=
  Z.of_nat (length (rio_buf rp)) = RIO_BUFSIZE ∧ 0 ≤ rio_bufptr rp ∧ rio_bufptr rp + Z.max 0 (rio_cnt rp) ≤ RIO_BUFSIZE.
Definition unread (rp : rio_t) : list byte :=
  take (Z.to_nat (rio_cnt rp)) (drop (Z.to_nat (rio_bufptr rp)) (rio_buf rp)).

Lemma unread_empty rp : rio_cnt rp ≤ 0 → unread rp = [].
Proof. intros Hc. unfold unread. by replace (Z.to_nat (rio_cnt rp)) with 0%nat by lia. Qed.

Lemma refilled_length (bs buf : list byte) : (length bs ≤ length buf)%nat → length (bs ++ drop (length bs) buf) = length buf.
Proof. intros Hl. rewrite length_app, length_drop. lia. Qed.

(** The buffer is filled from its start, and only when it is empty. *)
Lemma rio_refill_fills fuel : ∀ rp errno w k,
  w_net w !! rio_fd rp = Some k → rio_ok rp → robust (k_rscript k) → (S (length (k_rscript k)) < fuel)%nat →
  wp (rio_refill fuel rp errno) w (λ r w', ∃ k', w' = set_conn (rio_fd rp) k' w ∧ same_output k k' ∧
    robust (k_rscript k') ∧ (length (k_rscript k') ≤ length (k_rscript k))%nat ∧
    rio_fd r.1.1 = rio_fd rp ∧ rio_ok r.1.1 ∧ unread rp ++ k_in k = unread r.1.1 ++ k_in k' ∧
    ((r.1.2 = Some 0 ∧ unread rp ++ k_in k = []) ∨ (r.1.2 = None ∧ 0 < rio_cnt r.1.1))).
Proof.
  induction fuel as [|fuel IH]; intros rp errno w k Hk Hok Hr Hf; [lia|]. cbn [rio_refill].
  destruct (Z.leb_spec (rio_cnt rp) 0) as [Hz|Hpos].
  2: { apply wp_ret. exists k. rewrite set_conn_id by done. split_and!; try done. by right. }
  rewrite (unread_empty rp Hz). apply wp_bind. eapply wp_mono; [by apply (read_robust (rio_fd rp) RIO_BUFSIZE errno w k)|].
  intros [c bs e] w' (k' & -> & Hout & Hr' & Hlen & Hin & Hcase). cbn [rd_count rd_bytes rd_errno] in *. cbv zeta.
  destruct Hok as (Hbuf & Hptr & Hend). destruct Hcase as [(-> & -> & -> & Hlt)|[(-> & -> & Hnil)|(Hc & Hbs)]].
  - cbn [Z.ltb Z.compare length drop app negb]. rewrite Z.eqb_refl. cbn [negb].
    eapply wp_mono; [apply (IH (mkRIO (rio_fd rp) (-1) (rio_bufptr rp) (rio_buf rp)) EINTR _ k'); try done|].
    + apply set_conn_lookup.
    + split_and!; cbn; [done|done|lia].
    + lia.
    + intros r w' (k2 & -> & Hout2 & Hr2 & Hlen2 & Hd2 & Hok2 & Hstr & Hres). exists k2. cbn [rio_fd] in *.
      rewrite set_conn_twice, Hin. rewrite (unread_empty (mkRIO _ _ _ _)) in Hstr, Hres by (cbn; lia).
      split_and!; try done; [by etrans|lia].
  - cbn [Z.ltb Z.compare Z.eqb length drop app]. apply wp_ret. exists k'. cbn [fst snd rio_fd] in *.
    rewrite (unread_empty (mkRIO _ _ _ _)) by (cbn; lia). split_and!; try done; [split_and!; cbn; [done|done|lia]|by left].
  - destruct (Z.ltb_spec c 0); [lia|]. destruct (Z.eqb_spec c 0); [lia|]. destruct fuel as [|fuel]; [lia|]. cbn [rio_refill rio_cnt].
    destruct (Z.leb_spec c 0); [lia|]. apply wp_ret. exists k'. cbn [fst snd rio_fd rio_cnt].
    assert (unread (mkRIO (rio_fd rp) c 0 (bs ++ drop (length bs) (rio_buf rp))) = bs) as Eu.
    { unfold unread. cbn [rio_cnt rio_bufptr rio_buf]. rewrite drop_0. by rewrite <-Hbs, Nat2Z.id, take_app_length. }
    rewrite Eu. split_and!; try done; [|by right]. split_and!; cbn [rio_buf rio_bufptr rio_cnt]; [|lia|lia].
    rewrite refilled_length; [done|lia].
Qed.

Lemma int_of_small n : 0 ≤ n ≤ RIO_BUFSIZE → int_of_long n = n.
Proof. intros Hn. apply int_of_long_id. unfold INT_MIN, INT_MAX, RIO_BUFSIZE in *. lia. Qed.

(** The reader retries an interrupted call itself. *)
Lemma rio_read_reads rp n errno w k :
  w_net w !! rio_fd rp = Some k → rio_ok rp → robust (k_rscript k) → 0 < n →
  wp (rio_read rp n errno) w (λ r w', ∃ k', w' = set_conn (rio_fd rp) k' w ∧ same_output k k' ∧
    robust (k_rscript k') ∧ (length (k_rscript k') ≤ length (k_rscript k))%nat ∧
    rio_fd r.1 = rio_fd rp ∧ rio_ok r.1 ∧ unread rp ++ k_in k = rd_bytes r.2 ++ unread r.1 ++ k_in k' ∧
    ((rd_count r.2 = 0 ∧ unread rp ++ k_in k = []) ∨
     (0 < rd_count r.2 ≤ n ∧ Z.of_nat (length (rd_bytes r.2)) = rd_count r.2))).
Proof.
  intros Hk Hok Hr Hn. unfold rio_read. apply wp_bind, (wp_run _ _ (Some k) w); [by unfold gets; rewrite Hk|].
  cbn [fmap option_fmap option_map default]. apply wp_bind.
  eapply wp_mono; [apply (rio_refill_fills _ rp errno w k Hk Hok Hr); cbn; lia|].
  intros [[rp' res] e] w' (k' & -> & Hout & Hr' & Hlen & Hd & Hok' & Hstr & Hcase). cbn [fst snd] in *. cbv zeta.
  destruct Hcase as [(-> & Hnil)|(-> & Hpos)]; apply wp_ret; exists k'; cbn [fst snd rd_count rd_bytes rd_errno rio_fd].
  - split_and!; try done. by left.
  - destruct Hok' as (Hbuf & Hptr & Hend). set (cnt := if rio_cnt rp' <? n then rio_cnt rp' else int_of_long n).
    assert (cnt = Z.min (rio_cnt rp') n) as -> by (unfold cnt; destruct (Z.ltb_spec (rio_cnt rp') n); [lia|rewrite int_of_small; lia]).
    set (m := Z.min (rio_cnt rp') n). assert (0 < m ≤ rio_cnt rp') as Hm by lia.
    split_and!; try done.
    + split_and!; cbn; lia.
    + rewrite Hstr, app_assoc. f_equal. unfold unread. cbn [rio_cnt rio_bufptr rio_buf].
      replace (Z.to_nat (rio_bufptr rp' + m)) with (Z.to_nat (rio_bufptr rp') + Z.to_nat m)%nat by lia.
      rewrite <-drop_drop. replace (Z.to_nat (rio_cnt rp')) with (Z.to_nat m + Z.to_nat (rio_cnt rp' - m))%nat by lia.
      by rewrite take_take_drop.
    + right. split; [lia|]. rewrite length_take, length_drop. lia.
Qed.

#[export] Program Instance rio_stream : StreamReader rio_t := {|
  descriptor := rio_fd;
  buffered := unread;
  reader_ok := rio_ok
|}.
Next Obligation.
  intros rp n errno w k Hk Hok Hr Hn. eapply wp_mono; [by apply (rio_read_reads rp n errno w k)|].
  intros r w' (k' & ? & ? & ? & ? & ? & ? & ? & Hcase). exists k'. split_and!; try done. by right.
Qed.

(** ** Lines *)

Lemma line_count_nil : line_count [] = 1.
Proof. done. Qed.
Lemma line_count_newline : line_count [10] = 1.
Proof. done. Qed.
Lemma line_count_cons c line : c ≠ 10 → line_count (c :: line) = line_count line + 1.
Proof.
  intros Hc. destruct line as [|c' line].
  - unfold line_count at 1. rewrite decide_False by (cbn; congruence). rewrite line_count_nil. cbn. lia.
  - unfold line_count. rewrite last_cons_cons. destruct (decide _); cbn [length]; lia.
Qed.

(** The result of the loop on the stream [s] when [usrbuf] has been stored. *)
Definition line_read (maxlen n : Z) (usrbuf s : list byte) (r : READ) : Prop :=
  let line := take_line (Z.to_nat (maxlen - n)) s in
  if decide (n = 1 ∧ n < maxlen ∧ s = []) then rd_count r = 0 ∧ rd_bytes r = usrbuf
  else rd_count r = n - 1 + line_count line ∧ rd_bytes r = usrbuf ++ line ++ [0].

Lemma readlineb_loop_reads fuel : ∀ rp maxlen n usrbuf errno w k,
  w_net w !! rio_fd rp = Some k → rio_ok rp → robust (k_rscript k) →
  n = Z.of_nat (length usrbuf) + 1 → maxlen ≤ INT_MAX → (Z.to_nat (maxlen - n) < fuel)%nat →
  wp (readlineb_loop fuel rp maxlen n usrbuf errno) w (λ r w', ∃ k', w' = set_conn (rio_fd rp) k' w ∧ same_output k k' ∧
    robust (k_rscript k') ∧ rio_fd r.1 = rio_fd rp ∧ rio_ok r.1 ∧
    unread r.1 ++ k_in k' = drop (length (take_line (Z.to_nat (maxlen - n)) (unread rp ++ k_in k))) (unread rp ++ k_in k) ∧
    line_read maxlen n usrbuf (unread rp ++ k_in k) r.2).
Proof.
  induction fuel as [|fuel IH]; intros rp maxlen n usrbuf errno w k Hk Hok Hr Hn Hmax Hf; [lia|]. cbn [readlineb_loop].
  destruct (Z.ltb_spec n maxlen) as [Hlt|Hge].
  2: { apply wp_ret. exists k. rewrite set_conn_id by done. unfold line_read. replace (Z.to_nat (maxlen - n)) with 0%nat by lia.
    rewrite decide_False by (intros (_ & ? & _); lia). cbn [take_line length app fst snd rd_count rd_bytes]. rewrite line_count_nil.
    split_and!; try done; lia. }
  apply wp_bind. eapply wp_mono; [by apply (rio_read_reads rp 1 errno w k)|].
  intros [rp' [c bs e]] w' (k' & -> & Hout & Hr' & Hlen & Hd & Hok' & Hstr & Hcase).
  cbn [rd_count rd_bytes rd_errno fst snd] in *. cbv zeta. unfold line_read. set (s := unread rp ++ k_in k) in *.
  destruct Hcase as [(-> & Hnil)|(Hc & Hbs)].
  - rewrite Hnil in *. symmetry in Hstr. apply app_nil in Hstr as [-> Hrest]. cbn [Z.eqb].
    replace (take_line (Z.to_nat (maxlen - n)) []) with (@nil byte) by (by destruct (Z.to_nat _)).
    destruct (Z.eqb_spec n 1) as [E1|E1]; apply wp_ret; exists k'; cbn [fst snd rd_count rd_bytes length drop].
    + rewrite decide_True by done. split_and!; done.
    + rewrite decide_False by tauto. rewrite line_count_nil. split_and!; try done. lia.
  - assert (c = 1) as -> by lia. rewrite Z.eqb_refl. destruct bs as [|b [|? ?]]; cbn [length] in Hbs; [lia| |lia].
    destruct (Z.to_nat (maxlen - n)) as [|m] eqn:Em; [lia|]. assert (s ≠ []) as Hne by (by rewrite Hstr).
    assert (¬ (n = 1 ∧ n < maxlen ∧ s = [])) as Hno by tauto. rewrite Hstr in *. cbn [app take_line].
    destruct (Z.eqb_spec b 10) as [->|Hb].
    + rewrite bool_decide_true by done. apply wp_ret. exists k'. rewrite decide_False by done.
      cbn [fst snd rd_count rd_bytes length drop]. rewrite line_count_newline, <-app_assoc. split_and!; try done. lia.
    + rewrite bool_decide_false by congruence. apply wp_bind, (wp_run _ _ (n + 1) (set_conn (rio_fd rp) k' w)).
      { apply defined_run. unfold int_op. apply decide_True. unfold INT_MIN, INT_MAX in *. lia. }
      assert (w_net (set_conn (rio_fd rp) k' w) !! rio_fd rp' = Some k') as Hk' by (rewrite Hd; apply set_conn_lookup).
      eapply wp_mono; [apply (IH rp' maxlen (n + 1) (usrbuf ++ [b]) e _ k' Hk' Hok' Hr'); [rewrite length_app; cbn; lia|done|lia]|].
      intros r w' (k2 & -> & Hout2 & Hr2 & Hd2 & Hok2 & Hrest & Hline). exists k2. rewrite Hd, set_conn_twice.
      unfold line_read in Hline. rewrite decide_False in Hline by lia.
      replace (Z.to_nat (maxlen - (n + 1))) with m in * by lia. destruct Hline as [Hcnt Hbytes].
      rewrite decide_False by done. cbn [length drop]. rewrite line_count_cons, Hcnt, Hbytes, <-app_assoc by done.
      split_and!; try done; [by etrans|congruence|lia].
Qed.

(** ** Requests are operations on the stream *)

Definition request_ok (q : REQUEST) : Prop :=
  match q with Readnb n => 0 ≤ n | Readlineb maxlen => maxlen ≤ INT_MAX end.

Lemma rio_request_reads rp q errno w k :
  w_net w !! rio_fd rp = Some k → rio_ok rp → robust (k_rscript k) → request_ok q →
  wp (rio_request rp q errno) w (λ r w', ∃ k', w' = set_conn (rio_fd rp) k' w ∧ same_output k k' ∧
    robust (k_rscript k') ∧ rio_fd r.1 = rio_fd rp ∧ rio_ok r.1 ∧
    stream_request (unread rp ++ k_in k) q = (rd_count r.2, rd_bytes r.2, unread r.1 ++ k_in k')).
Proof.
  intros Hk Hok Hr Hq. destruct q as [n|maxlen]; cbn [rio_request stream_request request_ok] in *.
  - unfold rio_readnb. apply wp_bind, (wp_run _ _ (Some k) w); [by unfold gets; rewrite Hk|].
    cbn [fmap option_fmap option_map default].
    eapply wp_mono; [apply (@readn_loop_reads _ _ rio_stream _ rp n n [] errno w k Hk Hok Hr Hq); cbn; lia|].
    intros r w' (k' & -> & Hout & Hr' & Hd & Hok' & Hc & Hb & Hrest). exists k'. split_and!; try done.
    cbn [buffered rio_stream app] in *. rewrite Hc, Hb, Hrest. by replace (n - n + Z.of_nat (length (take (Z.to_nat n) (unread rp ++ k_in k)))) with (Z.of_nat (length (take (Z.to_nat n) (unread rp ++ k_in k)))) by lia.
  - unfold rio_readlineb. eapply wp_mono; [apply (readlineb_loop_reads _ rp maxlen 1 [] errno w k Hk Hok Hr); [done|done|lia]|].
    intros r w' (k' & -> & Hout & Hr' & Hd & Hok' & Hrest & Hline). exists k'. split_and!; try done.
    unfold line_read in Hline. set (s := unread rp ++ k_in k) in *. rewrite Hrest. case_decide as Hs; destruct Hline as [-> ->].
    + destruct Hs as (_ & Hlt & ->). rewrite decide_True by done. by rewrite drop_nil.
    + rewrite decide_False by tauto. cbn [app]. by replace (1 - 1 + line_count (take_line (Z.to_nat (maxlen - 1)) s)) with (line_count (take_line (Z.to_nat (maxlen - 1)) s)) by lia.
Qed.

(** Writing sends everything. *)
Lemma write_robust fd buf n errno w k :
  w_net w !! fd = Some k → robust (k_wscript k) → 0 < n ≤ Z.of_nat (length buf) →
  wp (write fd buf n errno) w (λ r w', ∃ k', w' = set_conn fd k' w ∧ same_input k k' ∧ robust (k_wscript k') ∧
    (length (k_wscript k') ≤ length (k_wscript k))%nat ∧
    ((r = (-1, EINTR) ∧ k_out k' = k_out k ∧ (length (k_wscript k') < length (k_wscript k))%nat) ∨
     (0 < r.1 ≤ n ∧ k_out k' = k_out k ++ take (Z.to_nat r.1) buf))).
Proof.
  intros Hk Hr Hn. unfold wp, write, gets, sys_write, failure, mbind, M_bind. rewrite Hk.
  destruct (Z.ltb_spec (Z.of_nat (length buf)) n); [lia|]. destruct (k_wscript k) as [|x xs] eqn:Es; cbn.
  - eexists. split; [done|]. split_and!; try done. right. cbn. split; [lia|done].
  - pose proof (robust_tail _ _ Hr) as Hxs. apply Forall_cons in Hr as [[Hpos| ->] _].
    + destruct (Z.leb_spec x 0); [lia|]. eexists. split; [done|]. split_and!; try done; [cbn; lia|]. right. cbn. split; [lia|done].
    + cbn. eexists. split; [done|]. split_and!; try done; [cbn; lia|]. left. split_and!; [done..|cbn; lia].
Qed.

Lemma writen_loop_writes fuel : ∀ fd bufp n nleft errno w k,
  w_net w !! fd = Some k → robust (k_wscript k) → 0 ≤ nleft ≤ Z.of_nat (length bufp) →
  (Z.to_nat nleft + length (k_wscript k) < fuel)%nat →
  wp (writen_loop fuel fd bufp n nleft errno) w (λ r w', ∃ k', w' = set_conn fd k' w ∧ same_input k k' ∧
    r.1 = n ∧ k_out k' = k_out k ++ take (Z.to_nat nleft) bufp).
Proof.
  induction fuel as [|fuel IH]; intros fd bufp n nleft errno w k Hk Hr Hn Hf; [lia|]. cbn [writen_loop].
  destruct (Z.ltb_spec 0 nleft) as [Hpos|Hz].
  2: { apply wp_ret. exists k. rewrite set_conn_id by done. replace (Z.to_nat nleft) with 0%nat by lia.
    by rewrite take_0, app_nil_r. }
  apply wp_bind. eapply wp_mono; [apply (write_robust fd bufp nleft errno w k Hk Hr); lia|].
  intros [c e] w' (k1 & -> & Hin & Hr1 & Hlen & Hcase). cbn [fst snd] in *.
  pose proof (set_conn_lookup fd k1 w) as Hk1. destruct Hcase as [([= -> ->] & Ho & Hlt)|[Hc Ho]].
  - cbn [Z.leb Z.compare]. rewrite Z.eqb_refl.
    eapply wp_mono; [apply (IH fd bufp n nleft EINTR _ k1 Hk1 Hr1 Hn); lia|].
    intros r w' (k2 & -> & Hin2 & -> & Ho2). exists k2. rewrite set_conn_twice, Ho2, Ho.
    split_and!; try done. by etrans.
  - destruct (Z.leb_spec c 0); [lia|].
    eapply wp_mono; [apply (IH fd (drop (Z.to_nat c) bufp) n (nleft - c) e _ k1 Hk1 Hr1); [rewrite length_drop|]; lia|].
    intros r w' (k2 & -> & Hin2 & -> & Ho2). exists k2. rewrite set_conn_twice, Ho2, Ho, <-app_assoc.
    replace (Z.to_nat nleft) with (Z.to_nat c + Z.to_nat (nleft - c))%nat by lia. rewrite take_take_drop.
    split_and!; try done. by etrans.
Qed.

Lemma rio_writen_writes fd usrbuf n errno w k :
  w_net w !! fd = Some k → robust (k_wscript k) → 0 ≤ n ≤ Z.of_nat (length usrbuf) →
  wp (rio_writen fd usrbuf n errno) w (λ r w', ∃ k', w' = set_conn fd k' w ∧ same_input k k' ∧ r.1 = n ∧
    k_out k' = k_out k ++ take (Z.to_nat n) usrbuf).
Proof.
  intros Hk Hr Hn. unfold rio_writen. apply wp_bind, (wp_run _ _ (Some k) w); [by unfold gets; rewrite Hk|].
  eapply wp_mono; [apply (writen_loop_writes _ fd usrbuf n n errno w k Hk Hr Hn); cbn; lia|].
  intros r w' (k' & -> & ? & -> & ?). eauto.
Qed.

(** C37: the buffered reader of [csapp.c].  Whatever the counts that [read]
    returns and however often a signal interrupts it, a sequence of
    [rio_readnb] and [rio_readlineb] on one [rio_t] terminates and gives what
    the same requests give on the list of the bytes to come: as many as were
    asked for or all there are, and lines up to the newline or the bound, with
    their NUL; none is lost in the buffer from one call to the next.  A
    line that ends for another reason than a newline is counted with its
    NUL. *)
Theorem rio_refines_stream qs : ∀ rp errno w k,
  w_net w !! rio_fd rp = Some k → rio_ok rp → robust (k_rscript k) → Forall request_ok qs →
  ∃ rp' results k', rio_requests rp qs errno w = Ret (rp', results) (set_conn (rio_fd rp) k' w) ∧
    same_output k k' ∧ rio_fd rp' = rio_fd rp ∧ rio_ok rp' ∧
    stream_requests (unread rp ++ k_in k) qs = (results, unread rp' ++ k_in k').
Proof.
  induction qs as [|q qs IH]; intros rp errno w k Hk Hok Hr Hqs.
  - exists rp, [], k. rewrite set_conn_id by done. done.
  - apply Forall_cons in Hqs as [Hq Hqs]. pose proof (rio_request_reads rp q errno w k Hk Hok Hr Hq) as Hrun. unfold wp in Hrun.
    cbn [rio_requests stream_requests]. destruct (rio_request rp q errno w) as [[rp1 rd] w1| | |] eqn:E; try done.
    destruct Hrun as (k1 & -> & Hout & Hr1 & Hd & Hok1 & Hs). cbn [fst snd] in *.
    assert (w_net (set_conn (rio_fd rp) k1 w) !! rio_fd rp1 = Some k1) as Hk1 by (rewrite Hd; apply set_conn_lookup).
    destruct (IH rp1 (rd_errno rd) _ k1 Hk1 Hok1 Hr1 Hqs) as (rp2 & results & k2 & E2 & Hout2 & Hd2 & Hok2 & Hs2).
    rewrite Hd, set_conn_twice in E2. exists rp2, ((rd_count rd, rd_bytes rd) :: results), k2.
    rewrite (bind_run _ _ _ _ _ E). cbn [fst snd]. rewrite (bind_run _ _ _ _ _ E2), Hs. cbn [fst snd]. rewrite Hs2.
    split_and!; try done; [by etrans|congruence].
Qed.

(** With interruptions only, no wrapper ends the process. *)
Lemma stream_request_count s q : request_ok q → 0 ≤ (stream_request s q).1.1.
Proof.
  intros Hq. destruct q as [n|maxlen]; cbn; [lia|]. case_decide; cbn; [lia|]. unfold line_count. case_decide; lia.
Qed.

Lemma Rio_readlineb_returns rp maxlen errno w k :
  w_net w !! rio_fd rp = Some k → rio_ok rp → robust (k_rscript k) → maxlen ≤ INT_MAX →
  ∃ r w', Rio_readlineb rp maxlen errno w = Ret (inl r) w' ∧ rio_readlineb rp maxlen errno w = Ret r w'.
Proof.
  intros Hk Hok Hr Hm. pose proof (rio_request_reads rp (Readlineb maxlen) errno w k Hk Hok Hr Hm) as Hrun.
  pose proof (stream_request_count (unread rp ++ k_in k) (Readlineb maxlen) Hm) as Hc. unfold wp in Hrun. cbn [rio_request] in Hrun.
  unfold Rio_readlineb, mbind, M_bind. destruct (rio_readlineb rp maxlen errno w) as [r w1| | |]; try done.
  destruct Hrun as (k' & _ & _ & _ & _ & _ & E). rewrite E in Hc. cbn in Hc. exists r, w1.
  destruct (Z.ltb_spec (rd_count r.2) 0); [lia|done].
Qed.

(** A reader that has just been set up has the stream of the connection. *)
Lemma rio_readinitb_ok buf fd : Z.of_nat (length buf) = RIO_BUFSIZE → rio_ok (rio_readinitb buf fd) ∧ unread (rio_readinitb buf fd) = [].
Proof. intros Hb. split; [|by apply unread_empty]. unfold rio_ok, RIO_BUFSIZE in *. cbn. lia. Qed.

(** ** Witness

    The kernel gives the line in two parts, and a signal comes between. *)
Definition two_lines : list byte := text "ab" ++ [10] ++ text "cd".
Definition lines_world : world :=
  mkWORLD 1 ∅ ∅ ∅ ∅ ∅ ∅ [] 0 {[4 := mkCONN [] [] two_lines [1; -4; 3]]} [] [].
Definition lines_reader : rio_t := Rio_readinitb (replicate (Z.to_nat RIO_BUFSIZE) 0) 4.
Definition line_requests : list REQUEST := [Readlineb 80; Readnb 1; Readlineb 80; Readlineb 80].

Lemma rio_refines_stream_witness :
  ∃ rp' w', rio_requests lines_reader line_requests 0 lines_world =
    Ret (rp', [(3, text "ab" ++ [10; 0]); (1, text "c"); (2, text "d" ++ [0]); (0, [])]) w'.
Proof.
  destruct (rio_refines_stream line_requests lines_reader 0 lines_world (mkCONN [] [] two_lines [1; -4; 3]))
    as (rp' & results & k' & E & _ & _ & _ & Hs).
  - reflexivity.
  - unfold lines_reader, Rio_readinitb. apply rio_readinitb_ok. vm_compute. reflexivity.
  - unfold robust. apply (bool_decide_eq_true_1 _). vm_compute. reflexivity.
  - repeat constructor; vm_compute; discriminate.
  - exists rp', (set_conn 4 k' lines_world). rewrite E. f_equal. f_equal. injection Hs as <- _. reflexivity.
Defined.
