(* ===== verification/Main.v ===== *)
(** * The threads of the server: [src/main.c] and [jeux_client_service]

    [main] starts with the command line, the signal handler, the registries
    and the socket ([main_start]); then it waits in [Accept], starts one
    service thread per connection, and on SIGHUP takes the server down.  Each thread is cut into turns between
    which the others may run: registering, one packet, unregistering.  A turn
    is one call of the model of [Server]; the theorems at the end say that the
    turns of one thread, put together, are the function they were cut from. *)
From stdpp Require Import relations.
From S2P Require Import Options Rio Prelude Game Player World Objects Protocol PlayerRegistry Invitation Client Sessions ClientRegistry Server.

(** ** Signals *)

Definition SIGHUP : Z := 1.
Definition HANDLE_SIGHUP : Z := 1.

(** Without [DEBUG]; SIGINT falls through to the default case. *)
Definition sighup_handler (signum signal_received : Z) : Z :=
  if signum =? SIGHUP then Z.lor signal_received HANDLE_SIGHUP else signal_received.

(** ** The start *)

Definition EXIT_FAILURE : Z := 1.

(** Without [DEBUG]: the status of [exit] when [sigaction] or [sigaddset]
    returns -1. *)
Definition setup_signal_handler (sigaction_result sigaddset_result : Z) : option Z :=
  if sigaction_result =? -1 then Some EXIT_FAILURE
  else if sigaddset_result =? -1 then Some EXIT_FAILURE
  else None.

(** What the socket calls of [open_listenfd] return; [bind] depends on the
    port of the address, [sin_port], in network order. *)
Record SOCKETS : Type := mkSOCKETS {
  so_socket : Z;
  so_setsockopt : Z;
  so_bind : Z → Z;
  so_listen : Z
}.

(** [htons((unsigned short)port)] *)
Definition sin_port (port : Z) : Z := htons (uint16 port).

Definition open_listenfd (so : SOCKETS) (port : Z) : Z :=
  if so_socket so <? 0 then -1
  else if so_setsockopt so <? 0 then -1
  else if so_bind so (sin_port port) <? 0 then -1
  else if so_listen so <? 0 then -1
  else so_socket so.

(** The descriptor, or the status of [exit]. *)
Definition Open_listenfd (so : SOCKETS) (port : Z) : Z + Z :=
  let rc := open_listenfd so port in
  if rc <? 0 then inr unix_error else inl rc.

(** [main] exits, or goes on to accept at a socket, bound to a port, with its
    registries. *)
Inductive STARTUP : Type :=
| Exited (status : Z)
| Listens (client_registry player_registry : ptr) (listenfd port : Z).

(** [main] up to its loop, with the results of [getopt], [sigaction],
    [sigaddset] and the socket calls. *)
Definition main_start (calls : list (Z * option (list byte))) (sigaction_result sigaddset_result : Z)
    (so : SOCKETS) : M STARTUP :=
  r ← defined (option_processor calls no_options);
  if negb (r.1 =? 0) then mret (Exited EXIT_FAILURE) else
  match setup_signal_handler sigaction_result sigaddset_result with
  | Some status => mret (Exited status)
  | None =>
      client_registry ← creg_init;
      player_registry ← preg_init;
      match Open_listenfd so (PORT r.2) with
      | inr status => mret (Exited status)
      | inl listenfd => mret (Listens client_registry player_registry listenfd (sin_port (PORT r.2)))
      end
  end.

Lemma ntohs_sin_port port : ntohs (sin_port port) = port mod 65536.
Proof. unfold sin_port. rewrite ntohs_htons. unfold uint16. apply Z.mod_mod. lia. Qed.

(** The socket calls succeed for a port. *)
Definition binds (so : SOCKETS) (port : Z) : Prop :=
  0 ≤ so_socket so ∧ 0 ≤ so_setsockopt so ∧ 0 ≤ so_bind so (sin_port port) ∧ 0 ≤ so_listen so.
#[export] Instance binds_dec so port : Decision (binds so port).
Proof. unfold binds. apply _. Defined.

Lemma Open_listenfd_binds so port :
  Open_listenfd so port = if decide (binds so port) then inl (so_socket so) else inr 0.
Proof.
  unfold Open_listenfd, open_listenfd. case_decide as Hb; unfold binds in Hb; repeat case_match; try lia; done.
Qed.

(** ** Threads *)

(** Where a service thread is: at the call of [creg_register], at the head of
    its loop with its login flag, or past the loop. *)
Inductive THREAD : Type :=
| T_start (fd : Z)
| T_loop (fd : Z) (p : ptr) (flag : Z)
| T_leave (fd : Z) (p : ptr).

(** Where the main thread is: in [Accept], at the call of [terminate], at the
    two lines of [creg_wait_for_empty], at [creg_fini], and past [exit]. *)
Inductive MAIN : Type := M_accept | M_shutdown | M_check | M_wait | M_fini | M_exit.

(** What the loop of [main] does with the result of [Accept], -1 when a
    signal interrupted it. *)
Definition accept_turn (connfd signal_received : Z) : MAIN * list THREAD :=
  if Z.land signal_received HANDLE_SIGHUP =? 0 then (M_accept, [T_start connfd]) else (M_shutdown, []).

Section turns.
Context `{Libm}.
Context (client_registry player_registry : ptr).

(** One turn of a service thread: [None] when it has returned. *)
Definition thread_turn (t : THREAD) : M (option THREAD) :=
  match t with
  | T_start fd =>
      client ← creg_register client_registry fd;
      if decide (client = NULL) then sys_close fd;; mret None
      else mret (Some (T_loop fd client 0))
  | T_loop fd client flag =>
      r ← service_iteration client_registry player_registry fd client flag;
      mret (Some (if r.1 =? 0 then T_leave fd client else T_loop fd client r.2))
  | T_leave fd client =>
      creg_unregister client_registry client;;
      sys_close fd;;
      mret None
  end.

(** One turn of the main thread; [Accept] waits. *)
Definition main_turn (m : MAIN) : M MAIN :=
  match m with
  | M_accept => stuck
  | M_shutdown => creg_shutdown_all client_registry;; mret M_check
  | M_check =>
      r ← load (V:=CLIENT_REGISTRY) client_registry;
      mret (if 0 <? cr_length r then M_wait else M_fini)
  | M_wait => creg_wait_sem client_registry;; mret M_fini
  | M_fini => creg_fini client_registry;; preg_fini player_registry;; mret M_exit
  | M_exit => mret M_exit
  end.

(** The turns of a thread that runs alone. *)
Fixpoint run_thread (fuel : nat) (t : THREAD) : M () :=
  match fuel with
  | O => out_of_fuel
  | S fuel' =>
      o ← thread_turn t;
      match o with None => mret () | Some t' => run_thread fuel' t' end
  end.

Fixpoint run_main (fuel : nat) (m : MAIN) : M () :=
  match m, fuel with
  | M_exit, _ => mret ()
  | _, O => out_of_fuel
  | _, S fuel' => m' ← main_turn m; run_main fuel' m'
  end.

(** ** The turns are the functions *)

Lemma bind_Ret {A B} (m : M A) (k : A → M B) w b w' :
  (m ≫= k) w = Ret b w' ↔ ∃ a w1, m w = Ret a w1 ∧ k a w1 = Ret b w'.
Proof. unfold mbind, M_bind. destruct (m w); naive_solver. Qed.

(** What follows the loop. *)
Definition leave (fd : Z) (p : ptr) : M () := creg_unregister client_registry p;; sys_close fd.

Lemma run_leave n fd p w w' : run_thread (S n) (T_leave fd p) w = Ret () w' ↔ leave fd p w = Ret () w'.
Proof.
  cbn [run_thread thread_turn]. unfold leave. rewrite !bind_Ret. split.
  - intros (o & w1 & (s & w2 & E & (u & w3 & Ec & [= <- <-])%bind_Ret)%bind_Ret & [= <-]). exists s, w2. by destruct u.
  - intros (s & w2 & E & Ec). exists None, w'. rewrite bind_Ret. split; [|done]. exists s, w2. split; [done|].
    rewrite bind_Ret. by exists (), w'.
Qed.

Lemma loop_turns n : ∀ fd p flag w w',
  (service_loop client_registry player_registry n fd p flag;; leave fd p) w = Ret () w' →
  ∃ m, run_thread m (T_loop fd p flag) w = Ret () w'.
Proof.
  induction n as [|n IH]; intros fd p flag w w' (u & w1 & E & El)%bind_Ret; [done|]. cbn [service_loop] in E.
  apply bind_Ret in E as (r & w2 & Ei & E). destruct (r.1 =? 0) eqn:Er.
  - injection E as _ <-. exists 2%nat. cbn [run_thread thread_turn]. apply bind_Ret. exists (Some (T_leave fd p)), w2. split.
    + apply bind_Ret. exists r, w2. split; [done|]. by rewrite Er.
    + by apply (run_leave 0).
  - destruct (IH fd p r.2 w2 w') as [m Em]; [apply bind_Ret; by exists u, w1|].
    exists (S m). cbn [run_thread thread_turn]. apply bind_Ret. exists (Some (T_loop fd p r.2)), w2. split; [|exact Em].
    apply bind_Ret. exists r, w2. split; [done|]. by rewrite Er.
Qed.

Lemma turns_loop n : ∀ fd p flag w w', run_thread n (T_loop fd p flag) w = Ret () w' →
  (service_loop client_registry player_registry n fd p flag;; leave fd p) w = Ret () w'.
Proof.
  induction n as [|n IH]; intros fd p flag w w' E; [done|]. cbn [run_thread thread_turn] in E.
  apply bind_Ret in E as (o & w1 & (r & w2 & Ei & [= <- <-])%bind_Ret & E). apply bind_Ret. cbn [service_loop].
  destruct (r.1 =? 0) eqn:Er.
  - exists (), w2. split; [apply bind_Ret; exists r, w2; by rewrite Er|].
    destruct n as [|n]; [done|]. by apply run_leave in E.
  - apply IH, bind_Ret in E as (u & w3 & E1 & E2). exists u, w3. split; [|done].
    apply bind_Ret. exists r, w2. by rewrite Er.
Qed.
End turns.

(** A service thread alone. *)
Lemma service_turns `{Libm} cr pr fd w w' :
  (∃ n, run_thread cr pr n (T_start fd) w = Ret () w') ↔ (∃ n, jeux_client_service cr pr n fd w = Ret () w').
Proof.
  split.
  - intros [[|n] E]; [done|]. exists n. cbn [run_thread thread_turn] in E. unfold jeux_client_service.
    apply bind_Ret in E as (o & w1 & (p & w2 & Er & Eo)%bind_Ret & E). apply bind_Ret. exists p, w2. split; [done|].
    destruct (decide (p = NULL)) as [->|Hp].
    + apply bind_Ret in Eo as (u & w3 & Ec & [= <- <-]). injection E as <-. by destruct u.
    + injection Eo as <- <-. by apply turns_loop in E.
  - intros [n E]. unfold jeux_client_service in E. apply bind_Ret in E as (p & w2 & Er & E).
    destruct (decide (p = NULL)) as [->|Hp].
    + exists 1%nat. cbn [run_thread thread_turn]. apply bind_Ret. exists None, w'. split; [|done].
      apply bind_Ret. exists NULL, w2. split; [done|]. rewrite decide_True by done. apply bind_Ret. by exists (), w'.
    + apply loop_turns in E as [m Em]. exists (S m). cbn [run_thread thread_turn]. apply bind_Ret.
      exists (Some (T_loop fd p 0)), w2. split; [|done]. apply bind_Ret. exists p, w2. by rewrite decide_False by done.
Qed.

Lemma bind_ext {A B} (m : M A) (k k' : A → M B) w : (∀ a w', k a w' = k' a w') → (m ≫= k) w = (m ≫= k') w.
Proof. intros Hk. unfold mbind, M_bind. destruct (m w); auto. Qed.

Lemma fini_turns `{Libm} cr pr n w : run_main cr pr (S n) M_fini w = (creg_fini cr;; preg_fini pr) w.
Proof.
  cbn [run_main main_turn]. flat. apply bind_ext. intros _ w1. flat. unfold mbind, M_bind.
  destruct (preg_fini pr w1) as [[] w2| | |]; try done. by destruct n.
Qed.

(** The main thread alone. *)
Lemma shutdown_turns `{Libm} cr pr w : run_main cr pr 4 M_shutdown w = terminate cr pr w.
Proof.
  change (run_main cr pr 4 M_shutdown) with (m ← main_turn cr pr M_shutdown; run_main cr pr 3 m).
  unfold terminate, creg_wait_for_empty. cbn [main_turn]. flat. apply bind_ext. intros _ w1. flat.
  change (run_main cr pr 3 M_check) with (m ← main_turn cr pr M_check; run_main cr pr 2 m).
  cbn [main_turn]. flat. apply bind_ext. intros r w2. flat. destruct (0 <? cr_length r).
  - change (run_main cr pr 2 M_wait) with (m ← main_turn cr pr M_wait; run_main cr pr 1 m).
    cbn [main_turn]. flat. apply bind_ext. intros _ w3. flat. apply fini_turns.
  - flat. apply fini_turns.
Qed.

(** The turns of a thread that runs alone are the function they were cut
    from.  A service thread does what [jeux_client_service] does: with enough
    fuel both end, in the same state.  The main thread, from the call of
    [terminate] on, takes at most four turns, and they are [terminate],
    whatever it does: they end, wait or fail together. *)
Lemma turns_correct `{Libm} cr pr :
  (∀ fd w w', (∃ n, run_thread cr pr n (T_start fd) w = Ret () w') ↔
    (∃ n, jeux_client_service cr pr n fd w = Ret () w')) ∧
  (∀ w, run_main cr pr 4 M_shutdown w = terminate cr pr w).
Proof. split; [apply service_turns|apply shutdown_turns]. Qed.
