(* ===== verification/Wrappers.v ===== *)
(** * Wrappers of library calls

    The wrappers of [src/csapp.c]: each makes one call of the C library, and
    ends the process when it fails.  The calls are arguments, with what they
    return and what they store through the pointers they are given; a wrapper
    returns, or gives the status of [exit] ([inr]).  The class [Wraps] says
    what a caller gets.  The server calls [Accept] and [Close]; the two that
    do not end the process, [Accept] and [Sleep], have no instance. *)
From S2P Require Import Prelude World Protocol Rio Main.

(** ** Errors

    The statuses the other error functions exit with, next to [unix_error] of
    [Rio]; the messages are left out. *)
Definition posix_error : Z := 0.
Definition dns_error : Z := 0.
Definition app_error : Z := 0.

(** An address; [MAP_FAILED] is the one that -1 is converted to. *)
Abbreviation addr := Z (only parsing).
Definition MAP_FAILED : addr := 2 ^ 64 - 1.
Definition EOF : Z := -1.

(** The call fails, and the process exits with the status of failures; or
    the result is returned. *)
Class Wraps (failed : Prop) {A} (result : A) (w : A + Z) : Prop := {
  wraps_exits : failed → w = inr 0;
  wraps_returns : ¬ failed → w = inl result
}.

(** What is returned is no failure. *)
Lemma wraps_inl failed {A} (result a : A) w `{!Wraps failed result w, !Decision failed} :
  w = inl a ↔ ¬ failed ∧ a = result.
Proof.
  destruct (decide failed) as [Hf|Hf].
  - rewrite (wraps_exits Hf). naive_solver.
  - rewrite (wraps_returns Hf). naive_solver.
Qed.

Ltac wraps := split; intros ?; repeat (unfold unix_error, posix_error, dns_error, app_error; case_match); lia || tauto || naive_solver lia.

(** ** Processes *)

Section processes.
Context (fork getpgrp : Z) (execve : list byte → list (list byte) → list (list byte) → Z).
Context (wait : Z * Z) (waitpid : Z → Z → Z * Z).
Context (kill setpgid : Z → Z → Z) (sleep alarm : Z → Z).

Definition Fork : Z + Z := let pid := fork in if pid <? 0 then inr unix_error else inl pid.

(** [execve] returns only when it fails. *)
Definition Execve (filename : list byte) (argv envp : list (list byte)) : () + Z :=
  if execve filename argv envp <? 0 then inr unix_error else inl ().

(** With the status that is stored. *)
Definition Wait : (Z * Z) + Z := if wait.1 <? 0 then inr unix_error else inl wait.
Definition Waitpid (pid options : Z) : (Z * Z) + Z :=
  let r := waitpid pid options in if r.1 <? 0 then inr unix_error else inl r.

Definition Kill (pid signum : Z) : () + Z := let rc := kill pid signum in if rc <? 0 then inr unix_error else inl ().

(** The result is an [unsigned int]. *)
Definition Sleep (secs : Z) : Z + Z :=
  let rc := uint32 (sleep secs) in if rc <? 0 then inr unix_error else inl rc.
Definition Alarm (seconds : Z) : Z := uint32 (alarm seconds).

Definition Setpgid (pid pgid : Z) : () + Z := let rc := setpgid pid pgid in if rc <? 0 then inr unix_error else inl ().
Definition Getpgrp : Z := getpgrp.

#[export] Instance Fork_wraps : Wraps (fork < 0) fork Fork.
Proof. unfold Fork. wraps. Qed.
#[export] Instance Execve_wraps f a e : Wraps (execve f a e < 0) () (Execve f a e).
Proof. unfold Execve. wraps. Qed.
#[export] Instance Wait_wraps : Wraps (wait.1 < 0) wait Wait.
Proof. unfold Wait. wraps. Qed.
#[export] Instance Waitpid_wraps pid options : Wraps ((waitpid pid options).1 < 0) (waitpid pid options) (Waitpid pid options).
Proof. unfold Waitpid. wraps. Qed.
#[export] Instance Kill_wraps pid signum : Wraps (kill pid signum < 0) () (Kill pid signum).
Proof. unfold Kill. wraps. Qed.
#[export] Instance Setpgid_wraps pid pgid : Wraps (setpgid pid pgid < 0) () (Setpgid pid pgid).
Proof. unfold Setpgid. wraps. Qed.

(** The test of [Sleep] is one of an unsigned number: it never ends the
    process. *)
Lemma Sleep_returns secs : Sleep secs = inl (uint32 (sleep secs)).
Proof. unfold Sleep. pose proof (Z.mod_pos_bound (sleep secs) 4294967296). unfold uint32. case_match; [lia|done]. Qed.
End processes.

(** ** Signals *)

(** A set of signals, and the address of a handler. *)
Abbreviation sigset_t := (gset Z) (only parsing).
Abbreviation handler_t := addr (only parsing).
Record sigaction_t : Type := mkSIGACTION { sa_handler : handler_t; sa_mask : sigset_t; sa_flags : Z }.
Definition SA_RESTART : Z := 0x10000000.

Section signals.
Context (sigaction : Z → sigaction_t → Z * sigaction_t).
Context (sigprocmask : Z → option sigset_t → Z * sigset_t).
Context (sigemptyset sigfillset : Z * sigset_t) (sigaddset sigdelset : sigset_t → Z → Z * sigset_t).
Context (sigismember : sigset_t → Z → Z).

(** The handler of before; the result of [sigemptyset] is not looked at. *)
Definition Signal (signum : Z) (handler : handler_t) : handler_t + Z :=
  let action := mkSIGACTION handler sigemptyset.2 SA_RESTART in
  let r := sigaction signum action in
  if r.1 <? 0 then inr unix_error else inl (sa_handler r.2).

Definition Sigprocmask (how : Z) (set : option sigset_t) : sigset_t + Z :=
  let r := sigprocmask how set in if r.1 <? 0 then inr unix_error else inl r.2.
Definition Sigemptyset : sigset_t + Z := if sigemptyset.1 <? 0 then inr unix_error else inl sigemptyset.2.
Definition Sigfillset : sigset_t + Z := if sigfillset.1 <? 0 then inr unix_error else inl sigfillset.2.
Definition Sigaddset (set : sigset_t) (signum : Z) : sigset_t + Z :=
  let r := sigaddset set signum in if r.1 <? 0 then inr unix_error else inl r.2.
Definition Sigdelset (set : sigset_t) (signum : Z) : sigset_t + Z :=
  let r := sigdelset set signum in if r.1 <? 0 then inr unix_error else inl r.2.
Definition Sigismember (set : sigset_t) (signum : Z) : Z + Z :=
  let rc := sigismember set signum in if rc <? 0 then inr unix_error else inl rc.

#[export] Instance Signal_wraps signum handler :
  let r := sigaction signum (mkSIGACTION handler sigemptyset.2 SA_RESTART) in
  Wraps (r.1 < 0) (sa_handler r.2) (Signal signum handler).
Proof. unfold Signal. wraps. Qed.
#[export] Instance Sigprocmask_wraps how set :
  Wraps ((sigprocmask how set).1 < 0) (sigprocmask how set).2 (Sigprocmask how set).
Proof. unfold Sigprocmask. wraps. Qed.
#[export] Instance Sigemptyset_wraps : Wraps (sigemptyset.1 < 0) sigemptyset.2 Sigemptyset.
Proof. unfold Sigemptyset. wraps. Qed.
#[export] Instance Sigfillset_wraps : Wraps (sigfillset.1 < 0) sigfillset.2 Sigfillset.
Proof. unfold Sigfillset. wraps. Qed.
#[export] Instance Sigaddset_wraps set signum :
  Wraps ((sigaddset set signum).1 < 0) (sigaddset set signum).2 (Sigaddset set signum).
Proof. unfold Sigaddset. wraps. Qed.
#[export] Instance Sigdelset_wraps set signum :
  Wraps ((sigdelset set signum).1 < 0) (sigdelset set signum).2 (Sigdelset set signum).
Proof. unfold Sigdelset. wraps. Qed.
#[export] Instance Sigismember_wraps set signum :
  Wraps (sigismember set signum < 0) (sigismember set signum) (Sigismember set signum).
Proof. unfold Sigismember. wraps. Qed.
End signals.

(** ** Files *)

Section files.
Context {stat_t timeval : Type}.
Abbreviation fd_set := (gset Z) (only parsing).
Abbreviation fd_sets := (option fd_set * option fd_set * option fd_set * option timeval)%type (only parsing).
Context (open : list byte → Z → Z → Z) (read : Z → Z → Z * list byte) (write : Z → list byte → Z → Z).
Context (lseek : Z → Z → Z → Z) (close : Z → Z) (select : Z → fd_sets → Z * fd_sets) (dup2 : Z → Z → Z).
Context (stat : list byte → Z * stat_t) (fstat : Z → Z * stat_t).

Definition Open (pathname : list byte) (flags mode : Z) : Z + Z :=
  let rc := open pathname flags mode in if rc <? 0 then inr unix_error else inl rc.

(** The count, and what has been stored. *)
Definition Read (fd count : Z) : (Z * list byte) + Z :=
  let r := read fd count in if r.1 <? 0 then inr unix_error else inl r.
Definition Write (fd : Z) (buf : list byte) (count : Z) : Z + Z :=
  let rc := write fd buf count in if rc <? 0 then inr unix_error else inl rc.
Definition Lseek (fildes offset whence : Z) : Z + Z :=
  let rc := lseek fildes offset whence in if rc <? 0 then inr unix_error else inl rc.
Definition Close (fd : Z) : () + Z := let rc := close fd in if rc <? 0 then inr unix_error else inl ().

(** The count, and the sets and the timeout as the call leaves them. *)
Definition Select (n : Z) (sets : fd_sets) : (Z * fd_sets) + Z :=
  let r := select n sets in if r.1 <? 0 then inr unix_error else inl r.
Definition Dup2 (fd1 fd2 : Z) : Z + Z := let rc := dup2 fd1 fd2 in if rc <? 0 then inr unix_error else inl rc.
Definition Stat (filename : list byte) : stat_t + Z :=
  let r := stat filename in if r.1 <? 0 then inr unix_error else inl r.2.
Definition Fstat (fd : Z) : stat_t + Z := let r := fstat fd in if r.1 <? 0 then inr unix_error else inl r.2.

#[export] Instance Open_wraps pathname flags mode :
  Wraps (open pathname flags mode < 0) (open pathname flags mode) (Open pathname flags mode).
Proof. unfold Open. wraps. Qed.
#[export] Instance Read_wraps fd count : Wraps ((read fd count).1 < 0) (read fd count) (Read fd count).
Proof. unfold Read. wraps. Qed.
#[export] Instance Write_wraps fd buf count : Wraps (write fd buf count < 0) (write fd buf count) (Write fd buf count).
Proof. unfold Write. wraps. Qed.
#[export] Instance Lseek_wraps fd offset whence :
  Wraps (lseek fd offset whence < 0) (lseek fd offset whence) (Lseek fd offset whence).
Proof. unfold Lseek. wraps. Qed.
#[export] Instance Close_wraps fd : Wraps (close fd < 0) () (Close fd).
Proof. unfold Close. wraps. Qed.
#[export] Instance Select_wraps n sets : Wraps ((select n sets).1 < 0) (select n sets) (Select n sets).
Proof. unfold Select. wraps. Qed.
#[export] Instance Dup2_wraps fd1 fd2 : Wraps (dup2 fd1 fd2 < 0) (dup2 fd1 fd2) (Dup2 fd1 fd2).
Proof. unfold Dup2. wraps. Qed.
#[export] Instance Stat_wraps filename : Wraps ((stat filename).1 < 0) (stat filename).2 (Stat filename).
Proof. unfold Stat. wraps. Qed.
#[export] Instance Fstat_wraps fd : Wraps ((fstat fd).1 < 0) (fstat fd).2 (Fstat fd).
Proof. unfold Fstat. wraps. Qed.
End files.

(** ** Memory *)

Section memory.
Context (mmap : addr → Z → Z → Z → Z → Z → addr) (munmap : addr → Z → Z).
Context (malloc : Z → addr) (realloc : addr → Z → addr) (calloc : Z → Z → addr).

Definition Mmap (a : addr) (len prot flags fd offset : Z) : addr + Z :=
  let p := mmap a len prot flags fd offset in if p =? MAP_FAILED then inr unix_error else inl p.
Definition Munmap (start : addr) (length : Z) : () + Z := if munmap start length <? 0 then inr unix_error else inl ().
Definition Malloc (size : Z) : addr + Z := let p := malloc size in if p =? 0 then inr unix_error else inl p.
Definition Realloc (p : addr) (size : Z) : addr + Z :=
  let p := realloc p size in if p =? 0 then inr unix_error else inl p.
Definition Calloc (nmemb size : Z) : addr + Z := let p := calloc nmemb size in if p =? 0 then inr unix_error else inl p.

#[export] Instance Mmap_wraps a len prot flags fd offset :
  Wraps (mmap a len prot flags fd offset = MAP_FAILED) (mmap a len prot flags fd offset) (Mmap a len prot flags fd offset).
Proof. unfold Mmap. wraps. Qed.
#[export] Instance Munmap_wraps start length : Wraps (munmap start length < 0) () (Munmap start length).
Proof. unfold Munmap. wraps. Qed.
#[export] Instance Malloc_wraps size : Wraps (malloc size = 0) (malloc size) (Malloc size).
Proof. unfold Malloc. wraps. Qed.
#[export] Instance Realloc_wraps p size : Wraps (realloc p size = 0) (realloc p size) (Realloc p size).
Proof. unfold Realloc. wraps. Qed.
#[export] Instance Calloc_wraps nmemb size : Wraps (calloc nmemb size = 0) (calloc nmemb size) (Calloc nmemb size).
Proof. unfold Calloc. wraps. Qed.
End memory.

(** ** Standard I/O *)

Section stdio.
(** A stream; [ferror] is asked after the call. *)
Abbreviation FILE := addr (only parsing).
Context (fclose : FILE → Z) (fdopen : Z → list byte → FILE) (fopen : list byte → list byte → FILE).
Context (fgets : Z → FILE → addr * list byte) (fputs : list byte → FILE → Z) (ferror : FILE → Z).
Context (fread : Z → Z → FILE → Z * list byte) (fwrite : list byte → Z → Z → FILE → Z).

Definition Fclose (fp : FILE) : () + Z := if negb (fclose fp =? 0) then inr unix_error else inl ().
Definition Fdopen (fd : Z) (type : list byte) : FILE + Z :=
  let fp := fdopen fd type in if fp =? 0 then inr unix_error else inl fp.

(** [NULL] at the end of the file is returned. *)
Definition Fgets (n : Z) (stream : FILE) : (addr * list byte) + Z :=
  let r := fgets n stream in
  if (r.1 =? 0) && negb (ferror stream =? 0) then inr app_error else inl r.
Definition Fopen (filename mode : list byte) : FILE + Z :=
  let fp := fopen filename mode in if fp =? 0 then inr unix_error else inl fp.
Definition Fputs (str : list byte) (stream : FILE) : () + Z :=
  if fputs str stream =? EOF then inr unix_error else inl ().

(** A count that is short without an error is returned by [Fread], but not by
    [Fwrite]. *)
Definition Fread (size nmemb : Z) (stream : FILE) : (Z * list byte) + Z :=
  let n := fread size nmemb stream in
  if (n.1 <? nmemb) && negb (ferror stream =? 0) then inr unix_error else inl n.
Definition Fwrite (buf : list byte) (size nmemb : Z) (stream : FILE) : () + Z :=
  if fwrite buf size nmemb stream <? nmemb then inr unix_error else inl ().

#[export] Instance Fclose_wraps fp : Wraps (fclose fp ≠ 0) () (Fclose fp).
Proof. unfold Fclose. wraps. Qed.
#[export] Instance Fdopen_wraps fd type : Wraps (fdopen fd type = 0) (fdopen fd type) (Fdopen fd type).
Proof. unfold Fdopen. wraps. Qed.
#[export] Instance Fgets_wraps n stream :
  Wraps ((fgets n stream).1 = 0 ∧ ferror stream ≠ 0) (fgets n stream) (Fgets n stream).
Proof. unfold Fgets. wraps. Qed.
#[export] Instance Fopen_wraps filename mode : Wraps (fopen filename mode = 0) (fopen filename mode) (Fopen filename mode).
Proof. unfold Fopen. wraps. Qed.
#[export] Instance Fputs_wraps str stream : Wraps (fputs str stream = EOF) () (Fputs str stream).
Proof. unfold Fputs. wraps. Qed.
#[export] Instance Fread_wraps size nmemb stream :
  Wraps ((fread size nmemb stream).1 < nmemb ∧ ferror stream ≠ 0) (fread size nmemb stream) (Fread size nmemb stream).
Proof. unfold Fread. wraps. Qed.
#[export] Instance Fwrite_wraps buf size nmemb stream :
  Wraps (fwrite buf size nmemb stream < nmemb) () (Fwrite buf size nmemb stream).
Proof. unfold Fwrite. wraps. Qed.
End stdio.

(** ** Threads and their semaphores

    A [pthread] call returns its error; the semaphore calls return -1. *)

Section threads.
Context (pthread_create : addr → addr → addr → Z * Z) (pthread_cancel pthread_detach : Z → Z) (pthread_join : Z → Z * addr).
Context (pthread_self : Z).
Context (sem_init : addr → Z → Z → Z) (sem_wait sem_post : addr → Z).

(** With the identifier of the thread that is stored. *)
Definition Pthread_create (attrp routine argp : addr) : Z + Z :=
  let rc := pthread_create attrp routine argp in if negb (rc.1 =? 0) then inr posix_error else inl rc.2.
Definition Pthread_cancel (tid : Z) : () + Z :=
  let rc := pthread_cancel tid in if negb (rc =? 0) then inr posix_error else inl ().
Definition Pthread_join (tid : Z) : addr + Z :=
  let rc := pthread_join tid in if negb (rc.1 =? 0) then inr posix_error else inl rc.2.
Definition Pthread_detach (tid : Z) : () + Z :=
  let rc := pthread_detach tid in if negb (rc =? 0) then inr posix_error else inl ().
Definition Pthread_self : Z := pthread_self.

Definition Sem_init (sem : addr) (pshared value : Z) : () + Z :=
  if sem_init sem pshared value <? 0 then inr unix_error else inl ().
Definition P (sem : addr) : () + Z := if sem_wait sem <? 0 then inr unix_error else inl ().
Definition V (sem : addr) : () + Z := if sem_post sem <? 0 then inr unix_error else inl ().

#[export] Instance Pthread_create_wraps attrp routine argp :
  let rc := pthread_create attrp routine argp in Wraps (rc.1 ≠ 0) rc.2 (Pthread_create attrp routine argp).
Proof. unfold Pthread_create. wraps. Qed.
#[export] Instance Pthread_cancel_wraps tid : Wraps (pthread_cancel tid ≠ 0) () (Pthread_cancel tid).
Proof. unfold Pthread_cancel. wraps. Qed.
#[export] Instance Pthread_join_wraps tid : Wraps ((pthread_join tid).1 ≠ 0) (pthread_join tid).2 (Pthread_join tid).
Proof. unfold Pthread_join. wraps. Qed.
#[export] Instance Pthread_detach_wraps tid : Wraps (pthread_detach tid ≠ 0) () (Pthread_detach tid).
Proof. unfold Pthread_detach. wraps. Qed.
#[export] Instance Sem_init_wraps sem pshared value : Wraps (sem_init sem pshared value < 0) () (Sem_init sem pshared value).
Proof. unfold Sem_init. wraps. Qed.
#[export] Instance P_wraps sem : Wraps (sem_wait sem < 0) () (P sem).
Proof. unfold P. wraps. Qed.
#[export] Instance V_wraps sem : Wraps (sem_post sem < 0) () (V sem).
Proof. unfold V. wraps. Qed.
End threads.

(** ** Sockets *)

Section sockets.
Context {sockaddr : Type}.
Context (socket : Z → Z → Z → Z) (setsockopt : Z → Z → Z → list byte → Z → Z) (bind connect : Z → sockaddr → Z → Z).
Context (listen : Z → Z → Z) (accept : Z → Z * (sockaddr * Z)).

Definition Socket (domain type protocol : Z) : Z + Z :=
  let rc := socket domain type protocol in if rc <? 0 then inr unix_error else inl rc.
Definition Setsockopt (s level optname : Z) (optval : list byte) (optlen : Z) : () + Z :=
  let rc := setsockopt s level optname optval optlen in if rc <? 0 then inr unix_error else inl ().
Definition Bind (sockfd : Z) (my_addr : sockaddr) (addrlen : Z) : () + Z :=
  let rc := bind sockfd my_addr addrlen in if rc <? 0 then inr unix_error else inl ().
Definition Listen (s backlog : Z) : () + Z := let rc := listen s backlog in if rc <? 0 then inr unix_error else inl ().

(** An error is logged and returned, with the address and its length as the
    call leaves them. *)
Definition Accept (s : Z) : Z * (sockaddr * Z) := accept s.
Definition Connect (sockfd : Z) (serv_addr : sockaddr) (addrlen : Z) : () + Z :=
  let rc := connect sockfd serv_addr addrlen in if rc <? 0 then inr unix_error else inl ().

#[export] Instance Socket_wraps domain type protocol :
  Wraps (socket domain type protocol < 0) (socket domain type protocol) (Socket domain type protocol).
Proof. unfold Socket. wraps. Qed.
#[export] Instance Setsockopt_wraps s level optname optval optlen :
  Wraps (setsockopt s level optname optval optlen < 0) () (Setsockopt s level optname optval optlen).
Proof. unfold Setsockopt. wraps. Qed.
#[export] Instance Bind_wraps sockfd my_addr addrlen : Wraps (bind sockfd my_addr addrlen < 0) () (Bind sockfd my_addr addrlen).
Proof. unfold Bind. wraps. Qed.
#[export] Instance Listen_wraps s backlog : Wraps (listen s backlog < 0) () (Listen s backlog).
Proof. unfold Listen. wraps. Qed.
#[export] Instance Connect_wraps sockfd serv_addr addrlen :
  Wraps (connect sockfd serv_addr addrlen < 0) () (Connect sockfd serv_addr addrlen).
Proof. unfold Connect. wraps. Qed.
End sockets.

(** ** Connecting to a server *)

(** The fields that are used. *)
Record hostent : Type := mkHOSTENT { h_addr_list : list (list byte); h_length : Z }.
Record sockaddr_in : Type := mkSOCKADDR { sin_family : Z; sin_addr : list byte; sin_portnum : Z }.
Definition AF_INET : Z := 2.
Definition SOCK_STREAM : Z := 1.

(** [bcopy] of an address of [h_length] bytes over the four of [s_addr]; more
    of them, or fewer in the list, is undefined. *)
Definition copy_addr (hp : hostent) : option (list byte) :=
  a ← h_addr_list hp !! 0%nat;
  if (0 <=? h_length hp) && (h_length hp <=? 4) && (h_length hp <=? Z.of_nat (length a))
  then Some (take (Z.to_nat (h_length hp)) a ++ drop (Z.to_nat (h_length hp)) [0; 0; 0; 0]) else None.

Section connecting.
Context (socket : Z → Z → Z → Z) (gethostbyname : list byte → option hostent).
Context (gethostbyaddr : list byte → Z → Z → option hostent) (connect : Z → sockaddr_in → Z).

Definition Gethostbyname (name : list byte) : hostent + Z :=
  match gethostbyname name with None => inr dns_error | Some p => inl p end.
Definition Gethostbyaddr (a : list byte) (len type : Z) : hostent + Z :=
  match gethostbyaddr a len type with None => inr dns_error | Some p => inl p end.

Definition open_clientfd (hostname : list byte) (port : Z) : option Z :=
  let clientfd := socket AF_INET SOCK_STREAM 0 in
  if clientfd <? 0 then Some (-1) else
  match gethostbyname hostname with
  | None => Some (-2)
  | Some hp =>
      s_addr ← copy_addr hp;
      if connect clientfd (mkSOCKADDR AF_INET s_addr (sin_port port)) <? 0 then Some (-1) else Some clientfd
  end.

Definition Open_clientfd (hostname : list byte) (port : Z) : option (Z + Z) :=
  rc ← open_clientfd hostname port;
  Some (if rc <? 0 then (if rc =? -1 then inr unix_error else inr dns_error) else inl rc).

(** A descriptor that is returned is connected to the first address of the
    host, at the low sixteen bits of the port. *)
Lemma Open_clientfd_connects hostname port fd :
  Open_clientfd hostname port = Some (inl fd) ↔
  fd = socket AF_INET SOCK_STREAM 0 ∧ 0 ≤ fd ∧ ∃ hp a, gethostbyname hostname = Some hp ∧ copy_addr hp = Some a ∧
    0 ≤ connect fd (mkSOCKADDR AF_INET a (htons (port mod 65536))).
Proof.
  change (htons (port mod 65536)) with (sin_port port). unfold Open_clientfd, open_clientfd. generalize (sin_port port) as n. intros n.
  destruct (Z.ltb_spec (socket AF_INET SOCK_STREAM 0) 0); [naive_solver lia|].
  destruct (gethostbyname hostname) as [hp|]; [|naive_solver].
  destruct (copy_addr hp) as [a|] eqn:Ea; [|naive_solver]. cbn.
  destruct (Z.ltb_spec (connect (socket AF_INET SOCK_STREAM 0) (mkSOCKADDR AF_INET a n)) 0); cbn.
  - naive_solver lia.
  - destruct (Z.ltb_spec (socket AF_INET SOCK_STREAM 0) 0); [lia|]. naive_solver lia.
Qed.
End connecting.
