(* ===== verification/Wire.v ===== *)
(** * What the peers are sent

    A packet as its receiver reads it, and the effect of a call on the
    connections as the list of the packets it has sent.  Two calls one after
    the other send the packets of the first and then those of the second, on
    every connection. *)
From S2P Require Import Prelude Game Player World Protocol.

(** A packet on its way to the peer behind a descriptor. *)
Record NOTICE : Set := mkNOTICE {
  nt_fd : Z;
  nt_type : Z;
  nt_id : Z;
  nt_role : Z;
  nt_data : option (list byte)
}.

Definition data_len (data : option (list byte)) : Z := if data is Some buf then strlen buf else 0.

(** Its header, when the clock reads [ts], and its bytes. *)
Definition notice_header (n : NOTICE) (ts : Z * Z) : JEUX_PACKET_HEADER :=
  mkHDR (uint8 (nt_type n)) (uint8 (nt_id n)) (uint8 (nt_role n)) (htons (data_len (nt_data n)))
    (htonl ts.1) (htonl ts.2).

Definition notice_bytes (x : NOTICE * (Z * Z)) : list byte :=
  packet_bytes (notice_header x.1 x.2) (nt_data x.1).

(** The bytes that a list of packets puts on one connection. *)
Definition sent (fd : Z) (l : list (NOTICE * (Z * Z))) : list byte :=
  concat (notice_bytes <$> filter (λ x, nt_fd x.1 = fd) l).

(** From [w] to [w'] exactly the packets [l] were sent, each under some
    reading of the clock: the output of every connection is extended by the
    ones for it, in order. *)
Definition told (w w' : world) (l : list NOTICE) : Prop :=
  ∃ stamps, length stamps = length l ∧
    ∀ fd k, w_net w !! fd = Some k → ∃ k', w_net w' !! fd = Some k' ∧
      k_out k' = k_out k ++ sent fd (zip l stamps).

Lemma sent_app fd l1 l2 : sent fd (l1 ++ l2) = sent fd l1 ++ sent fd l2.
Proof. unfold sent. by rewrite filter_app, fmap_app, concat_app. Qed.

Lemma told_none w w' : w_net w' = w_net w → told w w' [].
Proof.
  intros E. exists []. split; [done|]. intros fd k Hk. exists k. rewrite E.
  split; [done|]. unfold sent. cbn. by rewrite app_nil_r.
Qed.

Lemma told_refl w : told w w [].
Proof. by apply told_none. Qed.

Lemma told_trans w1 w2 w3 l1 l2 : told w1 w2 l1 → told w2 w3 l2 → told w1 w3 (l1 ++ l2).
Proof.
  intros (s1 & Hl1 & H1) (s2 & Hl2 & H2). exists (s1 ++ s2). split; [rewrite !length_app; lia|].
  intros fd k Hk. destruct (H1 fd k Hk) as (k2 & Hk2 & E2). destruct (H2 fd k2 Hk2) as (k3 & Hk3 & E3).
  exists k3. split; [done|]. rewrite zip_with_app, sent_app, E3, E2 by done. by rewrite app_assoc.
Qed.

(** Nothing is sent before, or after. *)
Lemma told_from w0 w w' l : w_net w = w_net w0 → told w w' l → told w0 w' l.
Proof. intros E (s & Hl & H). exists s. split; [done|]. intros fd k Hk. apply H. by rewrite E. Qed.

Lemma told_until w w' w'' l : w_net w'' = w_net w' → told w w' l → told w w'' l.
Proof. intros E (s & Hl & H). exists s. split; [done|]. intros fd k Hk. rewrite E. by apply H. Qed.

Lemma told_one w n ts k k' :
  w_net w !! nt_fd n = Some k → k_out k' = k_out k ++ packet_bytes (notice_header n ts) (nt_data n) →
  told w (set_conn (nt_fd n) k' w) [n].
Proof.
  intros Hk Ho. exists [ts]. split; [done|]. intros fd k0 Hk0. unfold sent. cbn.
  destruct (decide (nt_fd n = fd)) as [<-|Hne].
  - rewrite Hk in Hk0. injection Hk0 as <-. exists k'. split; [apply lookup_insert_eq|].
    cbn. by rewrite app_nil_r.
  - exists k0. split; [by rewrite lookup_insert_ne|]. cbn. by rewrite app_nil_r.
Qed.

(** A connection that is in none of the packets gains nothing. *)
Lemma told_other w w' l fd k :
  told w w' l → w_net w !! fd = Some k → (∀ n, n ∈ l → nt_fd n ≠ fd) →
  ∃ k', w_net w' !! fd = Some k' ∧ k_out k' = k_out k.
Proof.
  intros (s & Hl & H) Hk Hn. destruct (H fd k Hk) as (k' & Hk' & E). exists k'. split; [done|].
  rewrite E. clear -Hn. unfold sent. enough (filter (λ x : NOTICE * (Z * Z), nt_fd x.1 = fd) (zip l s) = []) as ->
    by apply app_nil_r.
  revert s. induction l as [|n l IH]; intros [|t s]; try done. cbn [zip_with].
  rewrite filter_cons_False by (apply Hn; by left). apply IH. intros x Hx. apply Hn. by right.
Qed.

(** ** Packets to clients *)

(** The connection of a client. *)
Definition fd_of (w : world) (p : ptr) : Z := if w_clients w !! p is Some c then c_fd c else -1.

(** A packet to a client. *)
Definition note (w : world) (p : ptr) (type id role : Z) (data : option (list byte)) : NOTICE :=
  mkNOTICE (fd_of w p) type id role data.

(** These clients stay and keep their connections. *)
Definition peers (regs : list ptr) (w w' : world) : Prop := ∀ p, p ∈ regs → fd_of w' p = fd_of w p.

#[export] Instance peers_preorder regs : PreOrder (peers regs).
Proof. split; unfold peers; [done|]. intros w1 w2 w3 H H' p Hp. by rewrite H', H. Qed.

Lemma fd_of_lookup w p c : w_clients w !! p = Some c → fd_of w p = c_fd c.
Proof. unfold fd_of. by intros ->. Qed.

Lemma peers_same regs w w' : w_clients w' = w_clients w → peers regs w w'.
Proof. intros E p _. unfold fd_of. by rewrite E. Qed.
