(* ===== verification/Accounting.v ===== *)
(** * Reference counting: the invariant of the server's memory

    What every object of the heap satisfies between two requests: the
    reference count of an object is the number of pointers stored to it, no
    pointer dangles, identifiers and list nodes agree, and the state of an
    invitation agrees with its game and with the lists it is on.  The file
    states the invariant on the heaps alone and proves that each update the
    operations make preserves it; [Handlers] shows that the operations make
    these updates. *)
From S2P Require Import Prelude Game Player World Objects Protocol PlayerRegistry Invitation Client Sessions ClientRegistry.

(** ** Stored pointers *)

(** How often [p] occurs in an array or list of pointers. *)
Fixpoint cnt (p : ptr) (l : list ptr) : Z :=
  match l with
  | [] => 0
  | x :: l' => (if decide (x = p) then 1 else 0) + cnt p l'
  end.

Definition node_invs (c : CLIENT) : list ptr := n_invitation <$> c_invite_head c.
Definition node_ids (c : CLIENT) : list Z := n_id <$> c_invite_head c.
Definition node_addrs (c : CLIENT) : list ptr := n_addr <$> c_invite_head c.

(** The pointers an invitation holds to client [p] and to game [g], and a
    client to invitation [q] and, while logged in, to player [p]. *)
Definition inv_refs (p : ptr) (i : INVITATION) : Z :=
  (if decide (i_source i = p) then 1 else 0) + (if decide (i_target i = p) then 1 else 0).
Definition game_refs (g : ptr) (i : INVITATION) : Z := if decide (i_game i = g) then 1 else 0.
Definition node_refs (q : ptr) (c : CLIENT) : Z := cnt q (node_invs c).
Definition player_refs (p : ptr) (c : CLIENT) : Z :=
  if decide (c_logged_in c = CLIENT_LOGGED_IN ∧ c_player c = p) then 1 else 0.

(** ** The heaps *)

Record mem : Type := mkMEM {
  m_brk : ptr;
  m_clients : gmap nat CLIENT;
  m_invs : gmap nat INVITATION;
  m_games : gmap nat GAME;
  m_players : gmap nat PLAYER
}.

Definition mem_of (w : world) : mem :=
  mkMEM (w_brk w) (w_clients w) (w_invs w) (w_games w) (w_players w).

Definition live {V} (h : gmap nat V) (p : ptr) : Prop := is_Some (h !! p).
Definition online (m : mem) (p : ptr) : Prop :=
  ∃ c, m_clients m !! p = Some c ∧ c_logged_in c = CLIENT_LOGGED_IN.
Definition has_inv (m : mem) (p q : ptr) : Prop :=
  ∃ c, m_clients m !! p = Some c ∧ q ∈ node_invs c.

(** The two roles of an invitation are the two sides of the game. *)
Definition roles_ok (i : INVITATION) : Prop :=
  i_source_role i ≠ NULL_ROLE ∧ i_target_role i = opponent_of (i_source_role i).

(** ** The invariant *)

Section invariant.
(** The registered clients, the registered players, and the references to
    players held by the running call. *)
Context (regs names held : list ptr).

Record client_wf (m : mem) (p : ptr) (c : CLIENT) : Prop := {
  cw_lock : c_lock c = false;
  cw_ids : ids_ok c;
  cw_size : c_current_id_size c ≤ 100 + 2 * Z.of_nat (m_brk m);
  cw_usage : c_id_usage c = Z.of_nat (length (c_invite_head c));
  cw_used id : id_used c id ↔ id ∈ node_ids c;
  cw_nodup_ids : NoDup (node_ids c);
  cw_nodup_invs : NoDup (node_invs c);
  cw_nodup_addrs : NoDup (node_addrs c);
  cw_addrs a : a ∈ node_addrs c → (0 < a < m_brk m)%nat;
  cw_invs q : q ∈ node_invs c →
    ∃ i, m_invs m !! q = Some i ∧ (i_source i = p ∨ i_target i = p);
  cw_player : c_player c = NULL ∨ c_player c ∈ names;
  cw_logged_in : c_logged_in c = CLIENT_LOGGED_IN → c_player c ≠ NULL ∧ p ∈ regs
}.

Record inv_wf (m : mem) (q : ptr) (i : INVITATION) : Prop := {
  iw_distinct : i_source i ≠ i_target i;
  iw_source : live (m_clients m) (i_source i);
  iw_target : live (m_clients m) (i_target i);
  iw_roles : roles_ok i;
  iw_state : match i_state i with
             | INV_ACCEPTED_STATE =>
                 ∃ g, m_games m !! i_game i = Some g ∧ played g ∧ g_is_over g = 0
             | _ => i_game i = NULL
             end;
  iw_open : i_state i ≠ INV_CLOSED_STATE →
    ∀ p, p = i_source i ∨ p = i_target i → has_inv m p q ∧ online m p
}.

Record mem_ok (m : mem) : Prop := {
  mo_client_keys p : live (m_clients m) p → (0 < p < m_brk m)%nat;
  mo_inv_keys q : live (m_invs m) q → (0 < q < m_brk m)%nat;
  mo_game_keys g : live (m_games m) g → (0 < g < m_brk m)%nat;
  mo_player_keys p : live (m_players m) p → (0 < p < m_brk m)%nat;
  mo_brk : (0 < m_brk m)%nat;
  mo_clients p c : m_clients m !! p = Some c → client_wf m p c;
  mo_invs q i : m_invs m !! q = Some i → inv_wf m q i;
  mo_client_count p c : m_clients m !! p = Some c →
    c_ref_count c = cnt p regs + msum (inv_refs p) (m_invs m);
  mo_client_pos p c : m_clients m !! p = Some c → 0 < c_ref_count c ≤ INT_MAX;
  mo_inv_count q i : m_invs m !! q = Some i →
    i_ref_count i = msum (node_refs q) (m_clients m);
  mo_inv_pos q i : m_invs m !! q = Some i → 0 < i_ref_count i ≤ INT_MAX;
  mo_game_count g v : m_games m !! g = Some v →
    g_ref_count v = msum (game_refs g) (m_invs m);
  mo_player_count p v : m_players m !! p = Some v →
    p_ref_count v = cnt p held + cnt p names + msum (player_refs p) (m_clients m);
  mo_player_max p v : m_players m !! p = Some v → p_ref_count v ≤ INT_MAX;
  mo_regs_nodup : NoDup regs;
  mo_regs_few : Z.of_nat (length regs) ≤ MAX_CLIENTS;
  mo_regs p : p ∈ regs → live (m_clients m) p;
  mo_names_nodup : NoDup names;
  mo_names p : p ∈ names → live (m_players m) p;
  mo_held p : p ∈ held → p ∈ names;
  mo_unique_names p q v u : p ∈ names → q ∈ names →
    m_players m !! p = Some v → m_players m !! q = Some u → p_name v = p_name u → p = q;
  mo_registered p : live (m_players m) p → p ∈ names
}.
End invariant.

(** ** The updates of the operations *)

Definition m_set_clients (h : gmap nat CLIENT) (m : mem) : mem :=
  mkMEM (m_brk m) h (m_invs m) (m_games m) (m_players m).
Definition m_set_players (h : gmap nat PLAYER) (m : mem) : mem :=
  mkMEM (m_brk m) (m_clients m) (m_invs m) (m_games m) h.
Definition m_set_games (h : gmap nat GAME) (m : mem) : mem :=
  mkMEM (m_brk m) (m_clients m) (m_invs m) h (m_players m).

Definition with_node (a : ptr) (id : Z) (q : ptr) (c : CLIENT) : CLIENT :=
  c_set_invites (mkNODE a id q :: c_invite_head c) c.

(** The client without its node for [q], the identifier given back. *)
Definition drop_node (q : ptr) (c : CLIENT) : CLIENT :=
  match find_node (λ n, Nat.eqb (n_invitation n) q) (c_invite_head c) with
  | Some n => give_id (n_id n) (c_set_invites (unlink q (c_invite_head c)) c)
  | None => c
  end.

Definition add_refs (d : Z) (c : CLIENT) : CLIENT := c_set_ref_count (c_ref_count c + d) c.

(** ** Lemmas on counts *)

Lemma cnt_nonneg p l : 0 ≤ cnt p l.
Proof. induction l; simpl; [lia|]. destruct (decide _); lia. Qed.

Lemma cnt_notin p l : p ∉ l → cnt p l = 0.
Proof.
  induction l as [|x l IH]; intros H; simpl; [done|].
  apply not_elem_of_cons in H as [Hx Hl]. rewrite decide_False by congruence. by rewrite IH.
Qed.

Lemma cnt_in p l : p ∈ l → 0 < cnt p l.
Proof.
  induction l as [|x l IH]; intros H; [by apply elem_of_nil in H|]. simpl.
  pose proof (cnt_nonneg p l). apply elem_of_cons in H as [->|H].
  - rewrite decide_True by done. lia.
  - specialize (IH H). destruct (decide _); lia.
Qed.

Lemma cnt_nodup p l : NoDup l → cnt p l ≤ 1.
Proof.
  induction 1 as [|x l Hx _ IH]; simpl; [lia|]. case_decide as E; [|lia].
  subst. rewrite cnt_notin by done. lia.
Qed.

Lemma cnt_nodup_in p l : NoDup l → p ∈ l → cnt p l = 1.
Proof. intros Hn Hp. pose proof (cnt_nodup p l Hn). pose proof (cnt_in p l Hp). lia. Qed.

Lemma cnt_app p l l' : cnt p (l ++ l') = cnt p l + cnt p l'.
Proof. induction l; simpl; [done|]. rewrite IHl. lia. Qed.

Lemma cnt_length p l : cnt p l ≤ Z.of_nat (length l).
Proof. induction l as [|x l IH]; cbn; [done|]. case_decide; lia. Qed.

Lemma cnt_pos_in p l : 0 < cnt p l → p ∈ l.
Proof. destruct (decide (p ∈ l)); [done|]. rewrite cnt_notin by done. lia. Qed.

Lemma inv_refs_nonneg p i : 0 ≤ inv_refs p i.
Proof. unfold inv_refs. repeat case_decide; lia. Qed.
Lemma game_refs_nonneg g i : 0 ≤ game_refs g i.
Proof. unfold game_refs. case_decide; lia. Qed.
Lemma node_refs_nonneg q c : 0 ≤ node_refs q c.
Proof. apply cnt_nonneg. Qed.
Lemma player_refs_nonneg p c : 0 ≤ player_refs p c.
Proof. unfold player_refs. case_decide; lia. Qed.

(** ** Lemmas on nodes *)

Lemma find_node_invs q l :
  match find_node (λ n, Nat.eqb (n_invitation n) q) l with
  | Some n => n ∈ l ∧ n_invitation n = q
  | None => q ∉ n_invitation <$> l
  end.
Proof.
  unfold find_node. induction l as [|x l IH]; simpl; [apply not_elem_of_nil|].
  destruct (Nat.eqb_spec (n_invitation x) q) as [E|E]; [split; [apply elem_of_cons; by left|done]|].
  destruct (List.find _ l).
  - destruct IH. split; [by apply elem_of_cons; right|done].
  - apply not_elem_of_cons. split; [congruence|done].
Qed.

Lemma find_node_ids id l :
  match find_node (λ n, n_id n =? id) l with
  | Some n => n ∈ l ∧ n_id n = id
  | None => id ∉ n_id <$> l
  end.
Proof.
  unfold find_node. induction l as [|x l IH]; simpl; [apply not_elem_of_nil|].
  destruct (Z.eqb_spec (n_id x) id) as [E|E]; [split; [apply elem_of_cons; by left|done]|].
  destruct (List.find _ l).
  - destruct IH. split; [by apply elem_of_cons; right|done].
  - apply not_elem_of_cons. split; [congruence|done].
Qed.

#[export] Instance cnt_proper p : Proper ((≡ₚ) ==> (=)) (cnt p).
Proof. induction 1; simpl; lia. Qed.

(** Unlinking takes one node out. *)
Lemma unlink_perm q l n :
  find_node (λ n, Nat.eqb (n_invitation n) q) l = Some n → l ≡ₚ n :: unlink q l.
Proof.
  unfold find_node. induction l as [|x l IH]; simpl; [done|].
  destruct (Nat.eqb (n_invitation x) q); intros; simplify_eq; [done|].
  rewrite (IH H) at 1. apply Permutation_swap.
Qed.

Lemma find_node_in q c :
  q ∈ node_invs c → ∃ n, find_node (λ n, Nat.eqb (n_invitation n) q) (c_invite_head c) = Some n ∧
    n ∈ c_invite_head c ∧ n_invitation n = q.
Proof.
  intros Hq. pose proof (find_node_invs q (c_invite_head c)) as H.
  destruct (find_node _ _) as [n|]; [eauto|done].
Qed.

(** The nodes of a client that loses the one for [q]. *)
Lemma drop_node_perm q c :
  q ∈ node_invs c → ∃ n, n ∈ c_invite_head c ∧ n_invitation n = q ∧
    node_invs c ≡ₚ q :: node_invs (drop_node q c) ∧
    node_ids c ≡ₚ n_id n :: node_ids (drop_node q c) ∧
    node_addrs c ≡ₚ n_addr n :: node_addrs (drop_node q c) ∧
    drop_node q c = give_id (n_id n) (c_set_invites (unlink q (c_invite_head c)) c).
Proof.
  intros Hq. destruct (find_node_in q c Hq) as (n & Hf & Hin & Hi). exists n.
  pose proof (unlink_perm q _ n Hf) as Hp. unfold drop_node. rewrite Hf.
  split; [done|]. split; [done|].
  unfold node_invs, node_ids, node_addrs. cbn [c_invite_head give_id c_set_ids c_set_invites].
  pose proof (fmap_Permutation n_invitation _ _ Hp) as Hq'.
  rewrite fmap_cons, Hi in Hq'. split; [exact Hq'|].
  split; [exact (fmap_Permutation n_id _ _ Hp)|].
  split; [exact (fmap_Permutation n_addr _ _ Hp)|done].
Qed.

Lemma drop_node_fields q c :
  c_lock (drop_node q c) = c_lock c ∧ c_cr (drop_node q c) = c_cr c ∧ c_fd (drop_node q c) = c_fd c ∧
  c_ref_count (drop_node q c) = c_ref_count c ∧ c_player (drop_node q c) = c_player c ∧
  c_logged_in (drop_node q c) = c_logged_in c ∧
  c_current_id_size (drop_node q c) = c_current_id_size c.
Proof. unfold drop_node. by destruct (find_node _ _). Qed.

Lemma drop_node_refs q c q' :
  q ∈ node_invs c →
  node_refs q' (drop_node q c) = node_refs q' c - (if decide (q = q') then 1 else 0).
Proof.
  intros Hq. destruct (drop_node_perm q c Hq) as (n & _ & _ & Hp & _).
  unfold node_refs. rewrite Hp. simpl. lia.
Qed.

Lemma drop_node_invs q c q' :
  NoDup (node_invs c) → q ∈ node_invs c →
  q' ∈ node_invs (drop_node q c) ↔ q' ∈ node_invs c ∧ q' ≠ q.
Proof.
  intros Hn Hq. destruct (drop_node_perm q c Hq) as (n & _ & _ & Hp & _).
  rewrite Hp in Hn |- *. apply NoDup_cons in Hn as [Hnot _]. set_solver.
Qed.

(** ** Well-formed clients *)

Lemma nodup_bound (l : list nat) n : NoDup l → (∀ a, a ∈ l → (a < n)%nat) → (length l ≤ n)%nat.
Proof.
  intros Hn Hl. rewrite <-(length_seq n 0). apply submseteq_length, NoDup_submseteq; [done|].
  intros a Ha. apply elem_of_seq. specialize (Hl a Ha). lia.
Qed.

Section client_wf.
Context (regs names : list ptr).
Implicit Types (m : mem) (c : CLIENT).

Lemma client_wf_mono m m' p c :
  (m_brk m ≤ m_brk m')%nat →
  (∀ q i, q ∈ node_invs c → m_invs m !! q = Some i →
    ∃ i', m_invs m' !! q = Some i' ∧ i_source i' = i_source i ∧ i_target i' = i_target i) →
  client_wf regs names m p c → client_wf regs names m' p c.
Proof.
  intros Hb Hi []. split; try done; [lia| |].
  - intros a Ha. specialize (cw_addrs0 a Ha). lia.
  - intros q Hq. destruct (cw_invs0 q Hq) as (i & Hiq & Hp).
    destruct (Hi q i Hq Hiq) as (i' & Hi' & Es & Et).
    exists i'. split; [done|]. by rewrite Es, Et.
Qed.

Lemma client_wf_regs regs' m p c :
  (p ∈ regs → p ∈ regs') → client_wf regs names m p c → client_wf regs' names m p c.
Proof. intros Hr []. split; try done. naive_solver. Qed.

Lemma client_wf_refs m p c n :
  client_wf regs names m p c → client_wf regs names m p (c_set_ref_count n c).
Proof. by intros []. Qed.

Lemma grow_ids_size m p c :
  client_wf regs names m p c →
  c_current_id_size (grow_ids c) ≤ 100 + 2 * Z.of_nat (m_brk m).
Proof.
  intros []. unfold grow_ids. destruct (Z.leb_spec (c_current_id_size c) (c_id_usage c)); [|done].
  cbn [c_current_id_size c_set_ids].
  assert (length (node_addrs c) ≤ m_brk m)%nat as Hl.
  { apply nodup_bound; [done|]. intros a Ha. specialize (cw_addrs0 a Ha). lia. }
  unfold node_addrs in Hl. rewrite length_fmap in Hl. lia.
Qed.

(** The client that [client_add_invitation] leaves. *)
Lemma with_node_wf m p c id c' a q i :
  client_wf regs names m p c → c_current_id_size c * 2 ≤ INT_MAX → take_id c = Some (id, c') →
  (0 < a < m_brk m)%nat → a ∉ node_addrs c → q ∉ node_invs c →
  m_invs m !! q = Some i → i_source i = p ∨ i_target i = p →
  client_wf regs names m p (with_node a id q c').
Proof.
  intros Hc Hmax Htake Ha Hna Hnq Hq Hp. pose proof (grow_ids_size m p c Hc) as Hsize. destruct Hc.
  destruct (take_id_spec c cw_ids0 Hmax) as (id2 & c2 & Htake' & Hok & H0 & Hfree & _ & Hused & Hc2).
  rewrite Htake in Htake'. injection Htake' as <- <-.
  assert (c_current_id_size c' = c_current_id_size (grow_ids c)) as Hs.
  { unfold take_id in Htake. apply bind_Some in Htake as (f & _ & Htake).
    apply bind_Some in Htake as (j & _ & Htake). apply bind_Some in Htake as (v & _ & Htake).
    by injection Htake as <- <-. }
  rewrite <-Hs in Hsize. rewrite cw_used0 in Hfree. rewrite Hc2 in *.
  split; cbn [with_node c_set_invites c_set_ids c_lock c_player c_logged_in c_invite_head c_id_usage
              c_current_id_size] in *; try done.
  - rewrite cw_usage0. cbn [length]. lia.
  - intros j. change (id_used (with_node a id q c') j ↔ j ∈ id :: node_ids c).
    rewrite elem_of_cons, <-cw_used0, <-Hused. rewrite Hc2. done.
  - apply NoDup_cons. done.
  - apply NoDup_cons. done.
  - apply NoDup_cons. done.
  - intros x [->|Hx]%elem_of_cons; [done|by apply cw_addrs0].
  - intros x [->|Hx]%elem_of_cons; [eauto|by apply cw_invs0].
Qed.

Lemma drop_node_wf m p c q :
  client_wf regs names m p c → q ∈ node_invs c → client_wf regs names m p (drop_node q c).
Proof.
  intros [] Hq. destruct (drop_node_perm q c Hq) as (n & Hin & Hn & Hpi & Hpid & Hpa & Hd).
  destruct (drop_node_fields q c) as (Hl & _ & _ & _ & Hpl & Hlog & Hsz).
  assert (id_used c (n_id n)) as Hused by (apply cw_used0; by apply list_elem_of_fmap_2).
  rewrite Hpid in cw_nodup_ids0. apply NoDup_cons in cw_nodup_ids0 as [Hnid Hnd].
  rewrite Hpi in cw_nodup_invs0. apply NoDup_cons in cw_nodup_invs0 as [Hninv Hndi].
  rewrite Hpa in cw_nodup_addrs0. apply NoDup_cons in cw_nodup_addrs0 as [_ Hnda].
  destruct (give_id_spec c (n_id n) cw_ids0 Hused) as [Hok Hgive].
  split; rewrite ?Hl, ?Hpl, ?Hlog, ?Hsz; try done.
  - by rewrite Hd.
  - pose proof (Permutation_length Hpi) as Hlen. unfold node_invs in Hlen.
    cbn [length] in Hlen. rewrite !length_fmap in Hlen. rewrite Hd in Hlen |- *. cbn in Hlen |- *. lia.
  - intros j. assert (id_used (drop_node q c) j ↔ id_used (give_id (n_id n) c) j) as -> by (by rewrite Hd).
    rewrite Hgive, cw_used0, Hpid. set_solver.
  - intros a Ha. apply cw_addrs0. rewrite Hpa. by right.
  - intros x Hx. apply cw_invs0. rewrite Hpi. by right.
Qed.
End client_wf.

(** ** Updating two clients at once *)

Definition upd2 (s t : ptr) (cs ct : CLIENT) (h : gmap nat CLIENT) : gmap nat CLIENT :=
  <[t := ct]> (<[s := cs]> h).

Lemma upd2_inv s t cs ct h p c :
  upd2 s t cs ct h !! p = Some c →
  (p = t ∧ c = ct) ∨ (p = s ∧ c = cs) ∨ (p ≠ s ∧ p ≠ t ∧ h !! p = Some c).
Proof.
  unfold upd2. intros [[<- ->]|[Ht H]]%lookup_insert_Some; [by left|].
  apply lookup_insert_Some in H as [[<- ->]|[Hs H]]; [by right; left|]. right; right. done.
Qed.

Lemma upd2_source s t cs ct h : s ≠ t → upd2 s t cs ct h !! s = Some cs.
Proof. intros. unfold upd2. rewrite lookup_insert_ne by done. apply lookup_insert_eq. Qed.
Lemma upd2_target s t cs ct h : upd2 s t cs ct h !! t = Some ct.
Proof. apply lookup_insert_eq. Qed.
Lemma upd2_other s t cs ct h p : p ≠ s → p ≠ t → upd2 s t cs ct h !! p = h !! p.
Proof. intros. unfold upd2. by rewrite !lookup_insert_ne by done. Qed.

Lemma upd2_swap s t cs ct h : s ≠ t → upd2 s t cs ct h = upd2 t s ct cs h.
Proof. intros. unfold upd2. by rewrite insert_insert_ne by done. Qed.

Lemma upd2_live s t cs ct h p :
  live (upd2 s t cs ct h) p ↔ p = s ∨ p = t ∨ live h p.
Proof.
  unfold live, upd2. rewrite !lookup_insert_is_Some. split; [naive_solver|].
  destruct (decide (t = p)), (decide (s = p)); naive_solver.
Qed.

Lemma msum_upd2 f s t cs ct cs' ct' h :
  s ≠ t → h !! s = Some cs → h !! t = Some ct →
  msum f (upd2 s t cs' ct' h) = msum f h + (f cs' - f cs) + (f ct' - f ct).
Proof.
  intros Hne Hs Ht. unfold upd2.
  rewrite (msum_insert_Some f _ t ct) by (by rewrite lookup_insert_ne).
  rewrite (msum_insert_Some f _ s cs) by done. lia.
Qed.

Lemma online_upd2 m s t cs ct cs' ct' p h :
  m_clients m = h → h !! s = Some cs → h !! t = Some ct → s ≠ t →
  c_logged_in cs' = c_logged_in cs → c_logged_in ct' = c_logged_in ct →
  online m p → online (m_set_clients (upd2 s t cs' ct' h) m) p.
Proof.
  intros <- Hs Ht Hne El El' (c & Hc & Hon). unfold online. cbn [m_clients m_set_clients].
  destruct (decide (p = t)) as [->|]; [rewrite upd2_target; eexists; split; [done|congruence]|].
  destruct (decide (p = s)) as [->|]; [rewrite upd2_source by done; eexists; split; [done|congruence]|].
  rewrite upd2_other by done. eauto.
Qed.

Lemma has_inv_upd2 m s t cs ct cs' ct' p q h :
  m_clients m = h → h !! s = Some cs → h !! t = Some ct → s ≠ t →
  (q ∈ node_invs cs → q ∈ node_invs cs') → (q ∈ node_invs ct → q ∈ node_invs ct') →
  has_inv m p q → has_inv (m_set_clients (upd2 s t cs' ct' h) m) p q.
Proof.
  intros <- Hs Ht Hne El El' (c & Hc & Hon). unfold has_inv. cbn [m_clients m_set_clients].
  destruct (decide (p = t)) as [->|]; [rewrite upd2_target; eexists; split; [done|]; apply El'; congruence|].
  destruct (decide (p = s)) as [->|]; [rewrite upd2_source by done; eexists; split; [done|]; apply El; congruence|].
  rewrite upd2_other by done. eauto.
Qed.

(** ** Well-formed invitations *)

Lemma inv_wf_mono m m' q i :
  (∀ p, live (m_clients m) p → live (m_clients m') p) →
  (∀ p, online m p → online m' p) → (∀ p, has_inv m p q → has_inv m' p q) →
  (∀ g, i_state i = INV_ACCEPTED_STATE → m_games m !! i_game i = Some g →
        m_games m' !! i_game i = Some g) →
  inv_wf m q i → inv_wf m' q i.
Proof.
  intros Hl Ho Hh Hg []. split; auto.
  - destruct (i_state i); [done| |done]. destruct iw_state0 as (g & ? & ? & ?). eauto.
  - intros Hs p Hp. destruct (iw_open0 Hs p Hp). auto.
Qed.

Lemma played_ref_count g : played g → g_ref_count g = 1.
Proof.
  induction 1 as [|g mv g' _ IH _ Ha|g r g' _ IH _ _ Hr]; [done| |].
  - apply game_apply_move_inv in Ha as [[? _]|(_ & _ & _ & _ & ->)]; [lia|].
    by rewrite (proj1 (proj2 (game_is_over_frame _))).
  - unfold game_resign in Hr. case_decide; simplify_eq/=. done.
Qed.

Lemma msum_zero {V} (f : V → Z) (m : gmap nat V) :
  (∀ k v, m !! k = Some v → f v = 0) → msum f m = 0.
Proof.
  induction m as [|k v m Hk IH] using map_ind; intros H; [apply msum_empty|].
  rewrite msum_insert_None, IH by (try done; intros k' v' ?; apply (H k'); rewrite lookup_insert_ne; congruence).
  rewrite (H k v) by apply lookup_insert_eq. done.
Qed.

(** A sum of small numbers, none of them outside [l]. *)
Lemma msum_listed {V} (f : V → Z) (b : Z) l : 0 ≤ b → ∀ m : gmap nat V, (∀ k v, m !! k = Some v → f v ≤ b) →
  (∀ k v, m !! k = Some v → k ∉ l → f v = 0) → msum f m ≤ b * Z.of_nat (length l).
Proof.
  intros Hb. induction l as [|x l IH]; intros m Hf Hz.
  - rewrite msum_zero; [cbn; lia|]. intros k v Hk. apply (Hz k v Hk), not_elem_of_nil.
  - assert (msum f (delete x m) ≤ b * Z.of_nat (length l)) as Hd.
    { apply IH; intros k v [Hne Hk]%lookup_delete_Some; [by apply (Hf k)|]. intros Hl. apply (Hz k v Hk).
      by intros [?|?]%elem_of_cons. }
    cbn [length]. destruct (m !! x) as [v|] eqn:Hx.
    + rewrite (msum_delete f m x v Hx). pose proof (Hf x v Hx). nia.
    + rewrite delete_id in Hd by done. nia.
Qed.

Lemma msum_two {V} (f : V → Z) (m : gmap nat V) j k u v :
  (∀ v, 0 ≤ f v) → j ≠ k → m !! j = Some u → m !! k = Some v → f u + f v ≤ msum f m.
Proof.
  intros Hf Hjk Hj Hk. rewrite (msum_delete f m j u Hj).
  assert (f v ≤ msum f (delete j m)); [|lia].
  apply (msum_ge f _ k); [intros; apply Hf|]. by rewrite lookup_delete_ne.
Qed.

(** ** Removing an invitation from both lists *)

(** What is left when both lists of invitation [q] lose their node: the
    invitation is freed, with its game, and its two clients lose one
    reference each. *)
Definition drop_inv (q s t g : ptr) (cs ct : CLIENT) (m : mem) : mem :=
  mkMEM (m_brk m)
    (upd2 s t (add_refs (-1) (drop_node q cs)) (add_refs (-1) (drop_node q ct)) (m_clients m))
    (delete q (m_invs m))
    (if decide (g = NULL) then m_games m else delete g (m_games m)) (m_players m).

Section drop_inv.
Context (regs names held : list ptr) (m : mem) (q : ptr) (i : INVITATION).
Context (cs ct : CLIENT).
Context (Hm : mem_ok regs names held m).
Context (Hq : m_invs m !! q = Some i).
Abbreviation s := (i_source i) (only parsing).
Abbreviation t := (i_target i) (only parsing).
Context (Hs : m_clients m !! s = Some cs) (Ht : m_clients m !! t = Some ct).
Context (Hqs : q ∈ node_invs cs) (Hqt : q ∈ node_invs ct).
Context (Hsr : s ∈ regs) (Htr : t ∈ regs).
Abbreviation m' := (drop_inv q s t (i_game i) cs ct m) (only parsing).

Lemma party_nodes p c : m_clients m !! p = Some c → q ∈ node_invs c → p = s ∨ p = t.
Proof.
  intros Hp Hc. destruct (mo_clients _ _ _ _ Hm p c Hp).
  destruct (cw_invs0 q Hc) as (i' & Hi & [<-|<-]); rewrite Hq in Hi; injection Hi as <-; auto.
Qed.

Lemma drop_inv_clients p c : m_clients m' !! p = Some c → client_wf regs names m' p c.
Proof.
  destruct (mo_invs _ _ _ _ Hm q i Hq).
  assert (∀ p c, m_clients m !! p = Some c → q ∉ node_invs c →
    client_wf regs names m p c → client_wf regs names m' p c) as Hmono.
  { intros p' c' Hp' Hc' Hwf. revert Hwf. apply client_wf_mono; [done|].
    intros q' i' Hq' Hi'. exists i'. split; [|done]. cbn.
    rewrite lookup_delete_ne; [done|]. by intros <-. }
  assert (∀ c p, m_clients m !! p = Some c → q ∈ node_invs c →
    client_wf regs names m' p (add_refs (-1) (drop_node q c))) as Hdrop.
  { intros c' p' Hp' Hc'. apply client_wf_refs.
    pose proof (mo_clients _ _ _ _ Hm p' c' Hp') as Hwf.
    pose proof (drop_node_wf regs names m p' c' q Hwf Hc') as Hwf'. revert Hwf'.
    apply client_wf_mono; [done|]. intros q' i' Hq' Hi'. exists i'. split; [|done]. cbn.
    apply drop_node_invs in Hq' as [_ Hne]; [|apply Hwf|done]. by rewrite lookup_delete_ne. }
  intros [[-> ->]|[[-> ->]|(Hps & Hpt & Hp)]]%upd2_inv; [by apply Hdrop|by apply Hdrop|].
  apply Hmono; [done| |by apply (mo_clients _ _ _ _ Hm)].
  intros Hc. destruct (party_nodes p c Hp Hc); done.
Qed.

Lemma drop_inv_invs q' i' : m_invs m' !! q' = Some i' → inv_wf m' q' i'.
Proof.
  destruct (mo_invs _ _ _ _ Hm q i Hq). cbn.
  intros [Hne Hi]%lookup_delete_Some. pose proof (mo_invs _ _ _ _ Hm q' i' Hi) as Hwf.
  destruct (drop_node_fields q cs) as (_ & _ & _ & _ & _ & Els & _).
  destruct (drop_node_fields q ct) as (_ & _ & _ & _ & _ & Elt & _).
  revert Hwf. apply inv_wf_mono.
  - intros p Hp. apply upd2_live. auto.
  - intros p Hp. eapply (online_upd2 m s t cs ct) in Hp; [exact Hp|done..].
  - intros p Hp. eapply (has_inv_upd2 m s t cs ct) in Hp; [exact Hp|done..| |].
    + intros. apply drop_node_invs; [by apply (mo_clients _ _ _ _ Hm _ _ Hs)|done|done].
    + intros. apply drop_node_invs; [by apply (mo_clients _ _ _ _ Hm _ _ Ht)|done|done].
  - intros g _ Hg. cbn. case_decide as Hn; [done|].
    rewrite lookup_delete_ne; [done|]. intros Heq.
    destruct (i_state i) eqn:Est; [done| |done].
    destruct iw_state0 as (g0 & Hg0 & Hplayed & _).
    pose proof (mo_game_count _ _ _ _ Hm _ _ Hg0) as Hcount.
    rewrite (played_ref_count _ Hplayed) in Hcount.
    assert (game_refs (i_game i) i + game_refs (i_game i) i' ≤
            msum (game_refs (i_game i)) (m_invs m)) as Htwo
      by (apply (msum_two _ _ q q'); [apply game_refs_nonneg|done..]).
    unfold game_refs in Htwo at 1 2. rewrite !decide_True in Htwo by done. lia.
Qed.

Lemma drop_inv_count p c : m_clients m' !! p = Some c →
  c_ref_count c = cnt p regs + msum (inv_refs p) (m_invs m').
Proof.
  cbn. intros Hp. destruct (mo_invs _ _ _ _ Hm q i Hq).
  destruct (drop_node_fields q cs) as (_ & _ & _ & Ers & _). destruct (drop_node_fields q ct) as (_ & _ & _ & Ert & _).
  pose proof (msum_delete (inv_refs p) _ q i Hq) as Hd.
  change (inv_refs p i) with ((if decide (s = p) then 1 else 0) + (if decide (t = p) then 1 else 0)) in Hd.
  pose proof (mo_client_count _ _ _ _ Hm) as Hcount.
  apply upd2_inv in Hp as [[-> ->]|[[-> ->]|(Hps & Hpt & Hp)]].
  - cbn. rewrite Ert, (Hcount _ _ Ht). rewrite decide_False, decide_True in Hd by done. lia.
  - cbn. rewrite Ers, (Hcount _ _ Hs). rewrite decide_True, decide_False in Hd by done. lia.
  - rewrite (Hcount _ _ Hp). rewrite !decide_False in Hd by done. lia.
Qed.

Lemma drop_inv_ok : mem_ok regs names held m'.
Proof.
  pose proof (mo_invs _ _ _ _ Hm q i Hq) as Hi. destruct Hi.
  assert (∀ p, inv_refs p i = (if decide (s = p) then 1 else 0) + (if decide (t = p) then 1 else 0))
    as Hrefs by done.
  destruct (drop_node_fields q cs) as (_ & _ & _ & _ & Eps & Els & _).
  destruct (drop_node_fields q ct) as (_ & _ & _ & _ & Ept & Elt & _).
  pose proof Hm as Hm0. destruct Hm0. pose proof drop_inv_count as Hcount.
  split; try done.
  - intros p [->|[->|Hp]]%upd2_live; auto.
  - intros p [i' Hi']. cbn in Hi'. apply lookup_delete_Some in Hi' as [_ Hi']. apply mo_inv_keys0. by exists i'.
  - intros g Hg. apply mo_game_keys0. cbn in Hg. case_decide; [done|].
    destruct Hg as [v Hg]. apply lookup_delete_Some in Hg as [_ Hg]. by exists v.
  - apply drop_inv_clients.
  - apply drop_inv_invs.
  - intros p c Hp. rewrite (Hcount p c Hp). assert (∀ x, msum (inv_refs x) (m_invs m') ≤ msum (inv_refs x) (m_invs m)) as Hle.
    { intros x. rewrite (msum_delete _ (m_invs m) q i Hq). pose proof (inv_refs_nonneg x i). cbn. lia. }
    assert (0 ≤ msum (inv_refs p) (m_invs m')) by (apply msum_nonneg; intros; apply inv_refs_nonneg).
    apply upd2_inv in Hp as [[-> ->]|[[-> ->]|(Hps & Hpt & Hp)]];
      [pose proof (mo_client_pos0 _ _ Ht) as [_ Hmax]; rewrite (mo_client_count0 _ _ Ht) in Hmax
      |pose proof (mo_client_pos0 _ _ Hs) as [_ Hmax]; rewrite (mo_client_count0 _ _ Hs) in Hmax|].
    { specialize (Hle t). rewrite cnt_nodup_in in Hmax |- * by done. lia. }
    { specialize (Hle s). rewrite cnt_nodup_in in Hmax |- * by done. lia. }
    specialize (mo_client_pos0 p c Hp). rewrite (mo_client_count0 _ _ Hp) in mo_client_pos0.
    rewrite (msum_delete _ _ q i Hq), Hrefs, !decide_False in mo_client_pos0 by done. cbn. lia.
  - cbn. intros q' i' [Hne Hi']%lookup_delete_Some. rewrite (msum_upd2 _ _ _ cs ct) by done.
    change (node_refs q' (add_refs (-1) (drop_node q cs))) with (node_refs q' (drop_node q cs)).
    change (node_refs q' (add_refs (-1) (drop_node q ct))) with (node_refs q' (drop_node q ct)).
    rewrite !drop_node_refs, decide_False by done. rewrite (mo_inv_count0 _ _ Hi'). lia.
  - cbn. intros q' i' [Hne Hi']%lookup_delete_Some. eauto.
  - cbn. intros g v Hg. assert (m_games m !! g = Some v ∧ i_game i ≠ g) as [Hg' Hne].
    { case_decide as Hn.
      - split; [done|]. rewrite Hn. intros <-.
        assert (0 < 0 < m_brk m)%nat; [|lia]. apply mo_game_keys0. by exists v.
      - apply lookup_delete_Some in Hg. naive_solver. }
    rewrite (mo_game_count0 _ _ Hg'), (msum_delete _ _ q i Hq). unfold game_refs at 1.
    rewrite decide_False by done. lia.
  - cbn. intros p v Hp. rewrite (mo_player_count0 _ _ Hp).
    rewrite (msum_upd2 _ _ _ cs ct) by done.
    assert (player_refs p (add_refs (-1) (drop_node q cs)) = player_refs p cs) as ->
      by (unfold player_refs; cbn; by rewrite Els, Eps).
    assert (player_refs p (add_refs (-1) (drop_node q ct)) = player_refs p ct) as ->
      by (unfold player_refs; cbn; by rewrite Elt, Ept). lia.
  - intros p Hp. apply upd2_live. auto.
Qed.
End drop_inv.

(** ** Closing an invitation one side only *)

(** What is left when only client [p] loses its node: the invitation stays,
    closed, on the other list. *)
Definition close_one (q p : ptr) (c : CLIENT) (i : INVITATION) (m : mem) : mem :=
  mkMEM (m_brk m) (<[p := drop_node q c]> (m_clients m))
    (<[q := i_set_ref_count (i_ref_count i - 1) (i_set_state INV_CLOSED_STATE i)]> (m_invs m))
    (m_games m) (m_players m).

Lemma msum_insert_same {V} (f : V → Z) (m : gmap nat V) k v v' :
  m !! k = Some v → f v' = f v → msum f (<[k:=v']> m) = msum f m.
Proof. intros Hk Hf. rewrite (msum_insert_Some f m k v) by done. lia. Qed.

Lemma lookup_insert_live {V} (m : gmap nat V) k v p :
  live m k → live (<[k:=v]> m) p → live m p.
Proof. intros Hk [Hp|Hp]%lookup_insert_is_Some; [by subst|tauto]. Qed.

(** Replacing one invitation by one with the same clients and game. *)
Lemma insert_inv_refs (m : mem) q i i' :
  m_invs m !! q = Some i → i_source i' = i_source i → i_target i' = i_target i →
  ∀ p, msum (inv_refs p) (<[q:=i']> (m_invs m)) = msum (inv_refs p) (m_invs m).
Proof.
  intros Hq Hs Ht p. apply (msum_insert_same _ _ _ i); [done|]. unfold inv_refs. by rewrite Hs, Ht.
Qed.

Section close_one.
Context (regs names held : list ptr) (m : mem) (q p : ptr) (i : INVITATION) (c : CLIENT).
Context (Hm : mem_ok regs names held m).
Context (Hq : m_invs m !! q = Some i) (Hp : m_clients m !! p = Some c).
Context (Hopen : i_state i = INV_OPEN_STATE) (Hqc : q ∈ node_invs c).
Abbreviation m' := (close_one q p c i m) (only parsing).

Lemma close_one_online p' : online m p' → online m' p'.
Proof.
  destruct (drop_node_fields q c) as (_ & _ & _ & _ & _ & El & _).
  intros (c' & Hc' & Hon). unfold online. cbn. destruct (decide (p' = p)) as [->|].
  - rewrite lookup_insert_eq. eexists. split; [done|]. congruence.
  - rewrite lookup_insert_ne by done. eauto.
Qed.

Lemma close_one_has p' q' : q' ≠ q → has_inv m p' q' → has_inv m' p' q'.
Proof.
  intros Hne (c' & Hc' & Hin). unfold has_inv. cbn. destruct (decide (p' = p)) as [->|].
  - rewrite lookup_insert_eq. eexists. split; [done|].
    apply drop_node_invs; [by apply (mo_clients _ _ _ _ Hm _ _ Hp)|done|].
    split; [congruence|done].
  - rewrite lookup_insert_ne by done. eauto.
Qed.

Lemma close_one_clients p' c' : m_clients m' !! p' = Some c' → client_wf regs names m' p' c'.
Proof.
  assert (∀ p' c', client_wf regs names m p' c' → client_wf regs names m' p' c') as Hmono.
  { intros p0 c0. apply client_wf_mono; [done|]. intros q' i' _ Hi'. cbn.
    destruct (decide (q' = q)) as [->|].
    - rewrite lookup_insert_eq. simplify_eq. eexists. done.
    - rewrite lookup_insert_ne by done. eauto. }
  cbn [m_clients close_one].
  intros [[<- <-]|[Hne Hc']]%lookup_insert_Some; apply Hmono; [|by apply Hm].
  apply drop_node_wf; [by apply Hm|done].
Qed.

Lemma close_one_invs q' i' : m_invs m' !! q' = Some i' → inv_wf m' q' i'.
Proof.
  cbn [m_invs close_one]. intros [[<- <-]|[Hne Hi']]%lookup_insert_Some.
  - destruct (mo_invs _ _ _ _ Hm q i Hq) as [H1 H2 H3 H4 H5 H6]. rewrite Hopen in H5.
    split; cbn; try done; by apply lookup_insert_is_Some'; right.
  - pose proof (mo_invs _ _ _ _ Hm _ _ Hi') as Hwf. revert Hwf. apply inv_wf_mono.
    + intros p' Hp'. by apply lookup_insert_is_Some'; right.
    + apply close_one_online.
    + intros p'. by apply close_one_has.
    + done.
Qed.

Lemma close_one_ok : mem_ok regs names held m'.
Proof.
  destruct (drop_node_fields q c) as (_ & _ & _ & Er & Ep & El & _).
  pose proof Hm as Hm0. destruct Hm0.
  assert (live (m_clients m) p) as Hlp by (by exists c).
  assert (live (m_invs m) q) as Hlq by (by exists i).
  assert (0 < msum (node_refs q) (<[p := drop_node q c]> (m_clients m))) as Hpos.
  { destruct (mo_invs0 q i Hq) as [Hd _ _ _ _ Ho]. rewrite Hopen in Ho.
    assert (∃ p2, p2 ≠ p ∧ has_inv m p2 q) as (p2 & Hne & c2 & Hc2 & Hin).
    { destruct (decide (i_source i = p)).
      - exists (i_target i). split; [congruence|]. apply Ho; [done|by right].
      - exists (i_source i). split; [done|]. apply Ho; [done|by left]. }
    assert (node_refs q c2 ≤ msum (node_refs q) (<[p := drop_node q c]> (m_clients m))) as Hle.
    { apply (msum_ge _ _ p2); [intros; apply node_refs_nonneg|]. by rewrite lookup_insert_ne. }
    pose proof (cnt_in q _ Hin). unfold node_refs in *. lia. }
  split; try done; cbn.
  - intros p' Hp'. apply mo_client_keys0. by eapply lookup_insert_live.
  - intros q' Hq'. apply mo_inv_keys0. by eapply lookup_insert_live.
  - apply close_one_clients.
  - apply close_one_invs.
  - intros p' c'. rewrite (insert_inv_refs m q i) by done.
    intros [[<- <-]|[Hne Hc']]%lookup_insert_Some; [rewrite Er|]; eauto.
  - intros p' c' [[<- <-]|[Hne Hc']]%lookup_insert_Some; [rewrite Er|]; eauto.
  - intros q' i'. rewrite (msum_insert_Some _ _ _ c) by done. rewrite drop_node_refs by done.
    intros [[<- <-]|[Hne Hi']]%lookup_insert_Some; cbn.
    + rewrite decide_True by done. rewrite (mo_inv_count0 _ _ Hq). lia.
    + rewrite decide_False by congruence. rewrite (mo_inv_count0 _ _ Hi'). lia.
  - intros q' i' [[<- <-]|[Hne Hi']]%lookup_insert_Some; [|eauto]. cbn.
    pose proof (mo_inv_pos0 _ _ Hq). rewrite (mo_inv_count0 _ _ Hq) in *.
    rewrite (msum_insert_Some _ _ _ c), drop_node_refs, decide_True in Hpos by done. lia.
  - intros g v Hg. rewrite (msum_insert_same _ _ _ i) by done. eauto.
  - intros p' v Hv. rewrite (msum_insert_same _ _ _ c); [eauto|done|].
    unfold player_refs. by rewrite El, Ep.
  - intros p' Hp'. apply lookup_insert_is_Some'. right. by apply mo_regs0.
Qed.
End close_one.

(** ** Accepting, and playing *)

Definition accept_inv (q : ptr) (i : INVITATION) (m : mem) : mem :=
  mkMEM (S (m_brk m)) (m_clients m)
    (<[q := i_set_game (m_brk m) (i_set_state INV_ACCEPTED_STATE i)]> (m_invs m))
    (<[m_brk m := game_create]> (m_games m)) (m_players m).

Lemma fresh_None {V} (h : gmap nat V) b :
  (∀ p, live h p → (0 < p < b)%nat) → h !! b = None.
Proof.
  intros Hb. destruct (h !! b) eqn:E; [|done].
  assert (0 < b < b)%nat; [|lia]. apply Hb. by eexists.
Qed.

Lemma fresh_keys {V} (h : gmap nat V) b v :
  (0 < b)%nat → (∀ p, live h p → (0 < p < b)%nat) →
  ∀ p, live (<[b:=v]> h) p → (0 < p < S b)%nat.
Proof.
  intros Hb Hk p Hp. destruct (decide (p = b)) as [->|Hne]; [lia|].
  assert (0 < p < b)%nat; [|lia]. apply Hk. unfold live in *. by rewrite lookup_insert_ne in Hp.
Qed.

Lemma accept_inv_ok regs names held m q i :
  mem_ok regs names held m → m_invs m !! q = Some i → i_state i = INV_OPEN_STATE →
  mem_ok regs names held (accept_inv q i m).
Proof.
  intros Hm Hq Hopen. pose proof Hm as Hm0. destruct Hm0.
  pose proof (mo_invs0 q i Hq) as [Hd Hls Hlt Hr Hst Ho]. rewrite Hopen in Hst.
  pose proof (fresh_None _ _ mo_game_keys0) as Hfresh.
  assert (live (m_invs m) q) as Hlq by (by exists i).
  assert (∀ q' i', m_invs m !! q' = Some i' → i_game i' ≠ m_brk m) as Hnog.
  { intros q' i' Hi' Heq. destruct (mo_invs0 q' i' Hi') as [_ _ _ _ Hst' _]. rewrite Heq in Hst'.
    destruct (i_state i'); [|destruct Hst' as (g & Hg & _); congruence|]; unfold NULL in Hst'; lia. }
  split; try done; cbn.
  - intros p Hp. specialize (mo_client_keys0 p Hp). lia.
  - intros q' Hq'. assert (0 < q' < m_brk m)%nat; [|lia]. apply mo_inv_keys0. by eapply lookup_insert_live.
  - by apply fresh_keys.
  - intros p Hp. specialize (mo_player_keys0 p Hp). lia.
  - lia.
  - intros p c Hc. pose proof (mo_clients0 p c Hc) as Hwf. revert Hwf.
    apply client_wf_mono; [cbn; lia|]. intros q' i' _ Hi'. cbn. destruct (decide (q' = q)) as [->|].
    + rewrite lookup_insert_eq. simplify_eq. eexists. done.
    + rewrite lookup_insert_ne by done. eauto.
  - intros q' i' [[<- <-]|[Hne Hi']]%lookup_insert_Some.
    + split; cbn; try done.
      * exists game_create. split; [apply lookup_insert_eq|]. split; [constructor|done].
      * intros _. apply Ho. by rewrite Hopen.
    + pose proof (mo_invs0 q' i' Hi') as Hwf. revert Hwf. apply inv_wf_mono; try done.
      intros g _ Hg. cbn. rewrite lookup_insert_ne; [done|]. intros E. rewrite <-E in Hg. congruence.
  - intros p c Hc. rewrite (insert_inv_refs m q i) by done. eauto.
  - intros q' i' [[<- <-]|[Hne Hi']]%lookup_insert_Some; [|eauto]. cbn. eauto.
  - intros q' i' [[<- <-]|[Hne Hi']]%lookup_insert_Some; [|eauto]. cbn. eauto.
  - intros g v. rewrite (msum_insert_Some _ _ _ i) by done.
    intros [[<- <-]|[Hne Hg]]%lookup_insert_Some.
    + rewrite msum_zero by (intros q' i' Hi'; unfold game_refs; by rewrite decide_False by eauto).
      unfold game_refs. cbn. by rewrite decide_False, decide_True by eauto.
    + unfold game_refs at 2 3. cbn. rewrite (decide_False (P:=m_brk m = g)) by done.
      rewrite decide_False; [rewrite (mo_game_count0 _ _ Hg); lia|].
      rewrite Hst. unfold NULL. intros <-. assert (0 < 0 < m_brk m)%nat; [|lia].
      apply mo_game_keys0. by exists v.
Qed.

Lemma set_game_ok regs names held m g v v' :
  mem_ok regs names held m → m_games m !! g = Some v → played v' → g_is_over v' = 0 →
  g_ref_count v' = g_ref_count v →
  mem_ok regs names held (m_set_games (<[g := v']> (m_games m)) m).
Proof.
  intros Hm Hg Hpl Hov Hr. destruct Hm. split; try done; cbn.
  - intros g' Hg'. apply mo_game_keys0. eapply lookup_insert_live; [by exists v|done].
  - intros p c Hc. apply (client_wf_mono _ _ m); [done|eauto|eauto].
  - intros q i Hi. destruct (mo_invs0 q i Hi) as [H1 H2 H3 H4 H5 H6]. split; try done.
    destruct (i_state i); try done. destruct H5 as (g0 & Hg0 & Hp0 & Ho0). cbn.
    destruct (decide (g = i_game i)) as [->|].
    + rewrite lookup_insert_eq. eauto.
    + rewrite lookup_insert_ne by done. eauto.
  - intros g' v0 [[<- <-]|[Hne Hv]]%lookup_insert_Some; [rewrite Hr|]; eauto.
Qed.

(** ** Making an invitation *)

(** A client is registered once, and an invitation points to it twice at most. *)
Lemma client_count_small regs names held m p c : mem_ok regs names held m → m_clients m !! p = Some c →
  c_ref_count c ≤ 1 + 2 * Z.of_nat (m_brk m).
Proof.
  intros Hm Hp. rewrite (mo_client_count _ _ _ _ Hm p c Hp). pose proof (cnt_nodup p regs (mo_regs_nodup _ _ _ _ Hm)).
  assert (msum (inv_refs p) (m_invs m) ≤ 2 * Z.of_nat (length (seq 0 (m_brk m)))) as Hs; [|rewrite length_seq in Hs; lia].
  apply msum_listed; [done|intros; unfold inv_refs; repeat case_decide; lia|]. intros q i Hq Hout. exfalso. apply Hout.
  apply elem_of_seq. assert (0 < q < m_brk m)%nat; [|lia]. apply (mo_inv_keys _ _ _ _ Hm). by exists i.
Qed.

Lemma take_id_fields c id c' :
  take_id c = Some (id, c') →
  c_lock c' = c_lock c ∧ c_cr c' = c_cr c ∧ c_fd c' = c_fd c ∧ c_ref_count c' = c_ref_count c ∧
  c_player c' = c_player c ∧ c_logged_in c' = c_logged_in c ∧ c_invite_head c' = c_invite_head c.
Proof.
  unfold take_id. intros H. apply bind_Some in H as (f & _ & H). apply bind_Some in H as (j & _ & H).
  apply bind_Some in H as (v & _ & H). injection H as <- <-. unfold grow_ids.
  by destruct (_ <=? _).
Qed.

(** The new invitation [q], and each client with a node for it. *)
Definition new_inv (s t : ptr) (rs rt : GAME_ROLE) : INVITATION :=
  mkINV INV_OPEN_STATE 2 s t NULL rs rt.

Definition make_inv (s t : ptr) (rs rt : GAME_ROLE) (cs ct : CLIENT) (ids idt : Z) (m : mem) : mem :=
  let q := m_brk m in
  mkMEM (q + 3)
    (upd2 s t (with_node (q + 1) ids q cs) (with_node (q + 2) idt q ct) (m_clients m))
    (<[q := new_inv s t rs rt]> (m_invs m)) (m_games m) (m_players m).

Section make_inv.
Context (regs names held : list ptr) (m : mem) (s t : ptr) (rs rt : GAME_ROLE).
Context (cs ct cs' ct' : CLIENT) (ids idt : Z).
Context (Hm : mem_ok regs names held m).
Context (Hs : m_clients m !! s = Some cs) (Ht : m_clients m !! t = Some ct) (Hne : s ≠ t).
Context (His : take_id (add_refs 1 cs) = Some (ids, cs')).
Context (Hit : take_id (add_refs 1 ct) = Some (idt, ct')).
Context (Hos : c_logged_in cs = CLIENT_LOGGED_IN) (Hot : c_logged_in ct = CLIENT_LOGGED_IN).
Context (Hrs : rs ≠ NULL_ROLE) (Hrt : rt = opponent_of rs).
Context (Hzs : c_current_id_size cs * 2 ≤ INT_MAX) (Hzt : c_current_id_size ct * 2 ≤ INT_MAX).
Context (Hcs : c_ref_count cs < INT_MAX) (Hct : c_ref_count ct < INT_MAX).
Abbreviation q := (m_brk m) (only parsing).
Abbreviation m' := (make_inv s t rs rt cs' ct' ids idt m) (only parsing).

Lemma make_inv_fresh p c : m_clients m !! p = Some c → q ∉ node_invs c.
Proof.
  intros Hp Hc. destruct (mo_clients _ _ _ _ Hm p c Hp). destruct (cw_invs0 _ Hc) as (i & Hi & _).
  assert (0 < q < q)%nat; [|lia]. apply (mo_inv_keys _ _ _ _ Hm). by exists i.
Qed.

Lemma make_inv_fresh_addr p c a : m_clients m !! p = Some c → (q ≤ a)%nat → a ∉ node_addrs c.
Proof.
  intros Hp Ha Hc. destruct (mo_clients _ _ _ _ Hm p c Hp). specialize (cw_addrs0 a Hc). lia.
Qed.

Lemma make_inv_clients p c : m_clients m' !! p = Some c → client_wf regs names m' p c.
Proof.
  assert (∀ p c, m_clients m !! p = Some c → client_wf regs names m' p c) as Hmono.
  { intros p' c' Hc'. apply (client_wf_mono _ _ m); [cbn; lia| |by apply Hm].
    intros q' i' Hq' Hi'. exists i'. split; [|done]. cbn.
    rewrite lookup_insert_ne; [done|]. intros <-. by eapply make_inv_fresh. }
  cbn [make_inv m_clients].
  intros [[-> ->]|[[-> ->]|(_ & _ & Hc)]]%upd2_inv; [| |by apply Hmono].
  - eapply with_node_wf; [apply client_wf_refs, Hmono, Ht|done|done|cbn; lia| | | |].
    + exact (make_inv_fresh_addr t ct (m_brk m + 2) Ht ltac:(lia)).
    + exact (make_inv_fresh t ct Ht).
    + cbn. apply lookup_insert_eq.
    + by right.
  - eapply with_node_wf; [apply client_wf_refs, Hmono, Hs|done|done|cbn; lia| | | |].
    + exact (make_inv_fresh_addr s cs (m_brk m + 1) Hs ltac:(lia)).
    + exact (make_inv_fresh s cs Hs).
    + cbn. apply lookup_insert_eq.
    + by left.
Qed.

Lemma make_inv_invs q' i' : m_invs m' !! q' = Some i' → inv_wf m' q' i'.
Proof.
  destruct (take_id_fields _ _ _ His) as (_ & _ & _ & _ & _ & Els & Ens).
  destruct (take_id_fields _ _ _ Hit) as (_ & _ & _ & _ & _ & Elt & Ent).
  cbn [make_inv m_invs]. intros [[<- <-]|[Hne' Hi']]%lookup_insert_Some.
  - split; cbn; try done.
    + apply upd2_live. auto.
    + apply upd2_live. auto.
    + intros _ p [->| ->].
      * split; eexists; cbn; rewrite upd2_source by done; (split; [done|]);
          [by left|]. cbn. by rewrite Els.
      * split; eexists; cbn; rewrite upd2_target; (split; [done|]); [by left|]. cbn. by rewrite Elt.
  - pose proof (mo_invs _ _ _ _ Hm _ _ Hi') as Hwf. revert Hwf. apply inv_wf_mono.
    + intros p Hp. apply upd2_live. auto.
    + intros p Hp. eapply (online_upd2 m s t cs ct) in Hp; [exact Hp|done..].
    + intros p Hp. eapply (has_inv_upd2 m s t cs ct) in Hp; [exact Hp|done..| |].
      * unfold node_invs. cbn. rewrite Ens. by right.
      * unfold node_invs. cbn. rewrite Ent. by right.
    + done.
Qed.

Lemma make_inv_nodes q' : msum (node_refs q') (m_clients m') =
  msum (node_refs q') (m_clients m) + (if decide (q = q') then 2 else 0).
Proof.
  destruct (take_id_fields _ _ _ His) as (_ & _ & _ & _ & _ & _ & Ens).
  destruct (take_id_fields _ _ _ Hit) as (_ & _ & _ & _ & _ & _ & Ent).
  cbn. rewrite (msum_upd2 _ _ _ cs ct) by done. unfold node_refs, node_invs. cbn.
  rewrite Ens, Ent. cbn. case_decide; lia.
Qed.

Lemma make_inv_ok : mem_ok regs names held m'.
Proof.
  destruct (take_id_fields _ _ _ His) as (_ & _ & _ & Ers & Eps & Els & _).
  destruct (take_id_fields _ _ _ Hit) as (_ & _ & _ & Ert & Ept & Elt & _).
  pose proof Hm as Hm0. destruct Hm0. pose proof make_inv_nodes as Hnodes.
  assert (m_invs m !! q = None) as Hfresh by (by apply fresh_None).
  assert (∀ p, msum (inv_refs p) (m_invs m') =
    (if decide (s = p) then 1 else 0) + (if decide (t = p) then 1 else 0) + msum (inv_refs p) (m_invs m))
    as Hrefs by (intros p; cbn; by rewrite msum_insert_None by done).
  split; try done.
  - intros p [->|[->|Hp]]%upd2_live; cbn;
      [assert (0 < s < q)%nat by (by apply mo_client_keys0; eexists)
      |assert (0 < t < q)%nat by (by apply mo_client_keys0; eexists)
      |specialize (mo_client_keys0 p Hp)]; lia.
  - intros q' Hq'. cbn in *. pose proof (fresh_keys _ _ _ mo_brk0 mo_inv_keys0 q' Hq'). lia.
  - intros g Hg. specialize (mo_game_keys0 g Hg). cbn. lia.
  - intros p Hp. specialize (mo_player_keys0 p Hp). cbn. lia.
  - cbn. lia.
  - apply make_inv_clients.
  - apply make_inv_invs.
  - intros p c Hc. rewrite Hrefs. apply upd2_inv in Hc as [[-> ->]|[[-> ->]|(Hps & Hpt & Hc)]].
    + cbn. rewrite Ert. cbn. rewrite (mo_client_count0 _ _ Ht), decide_False, decide_True by done. lia.
    + cbn. rewrite Ers. cbn. rewrite (mo_client_count0 _ _ Hs), decide_True, decide_False by done. lia.
    + rewrite !decide_False by done. rewrite (mo_client_count0 _ _ Hc). lia.
  - intros p c Hc. apply upd2_inv in Hc as [[-> ->]|[[-> ->]|(Hps & Hpt & Hc)]]; [| |eauto]; cbn.
    + rewrite Ert. cbn. specialize (mo_client_pos0 _ _ Ht). lia.
    + rewrite Ers. cbn. specialize (mo_client_pos0 _ _ Hs). lia.
  - intros q' i' Hi'. rewrite Hnodes. cbn in Hi'. apply lookup_insert_Some in Hi' as [[<- <-]|[Hne' Hi']].
    + rewrite decide_True by done. rewrite msum_zero; [done|]. intros p c Hc.
      unfold node_refs. apply cnt_notin. by eapply make_inv_fresh.
    + rewrite decide_False by done. rewrite (mo_inv_count0 _ _ Hi'). lia.
  - cbn. intros q' i' [[<- <-]|[Hne' Hi']]%lookup_insert_Some; [by cbn|eauto].
  - cbn. intros g v Hg. rewrite msum_insert_None by done. unfold game_refs at 1. cbn.
    rewrite decide_False; [eauto|]. unfold NULL. intros <-.
    assert (0 < 0 < q)%nat; [|lia]. apply mo_game_keys0. by exists v.
  - cbn. intros p v Hv. rewrite (msum_upd2 _ _ _ cs ct) by done.
    unfold player_refs at 2 3 4 5. cbn. rewrite Els, Elt, Eps, Ept. cbn.
    rewrite (mo_player_count0 _ _ Hv). lia.
  - intros p Hp. apply upd2_live. auto.
Qed.
End make_inv.

(** ** Players and logging in *)

Section players.
Context (regs names : list ptr).
Implicit Types (m : mem) (held : list ptr).

(** A player may be replaced by one of the same name, the count of the held
    references changing with its own. *)
Lemma set_player_ok held held' m p v v' :
  mem_ok regs names held m → m_players m !! p = Some v → p_name v' = p_name v → p_ref_count v' ≤ INT_MAX →
  (∀ x, cnt x held' - cnt x held = if decide (x = p) then p_ref_count v' - p_ref_count v else 0) →
  (∀ x, x ∈ held' → x ∈ names) →
  mem_ok regs names held' (m_set_players (<[p := v']> (m_players m)) m).
Proof.
  intros Hm Hp Hname Hmax Hheld Hin. destruct Hm. split; try done; cbn.
  - intros x Hx. apply mo_player_keys0. eapply lookup_insert_live; [by exists v|done].
  - intros x c Hc. apply (client_wf_mono _ _ m); [done|eauto|eauto].
  - intros q i Hi. destruct (mo_invs0 q i Hi). by split.
  - intros x u [[<- <-]|[Hne Hu]]%lookup_insert_Some.
    + specialize (Hheld p). rewrite decide_True in Hheld by done.
      specialize (mo_player_count0 _ _ Hp). lia.
    + specialize (Hheld x). rewrite decide_False in Hheld by done.
      specialize (mo_player_count0 _ _ Hu). lia.
  - intros x u [[<- <-]|[Hne Hu]]%lookup_insert_Some; [done|eauto].
  - intros x Hx. apply lookup_insert_is_Some'. right. by apply mo_names0.
  - intros x y u u' Hx Hy Hu Hu'. 
    assert (∀ z w, <[p:=v']> (m_players m) !! z = Some w →
      ∃ w', m_players m !! z = Some w' ∧ p_name w' = p_name w) as Hold.
    { intros z w [[<- <-]|[_ Hw]]%lookup_insert_Some; eauto. }
    destruct (Hold x u Hu) as (u1 & Hu1 & <-). destruct (Hold y u' Hu') as (u2 & Hu2 & <-). eauto.
  - intros x Hx. apply mo_registered0. eapply lookup_insert_live; [by exists v|done].
Qed.

Lemma player_ref_ok held m p v :
  mem_ok regs names held m → p ∈ names → m_players m !! p = Some v → p_ref_count v < INT_MAX →
  mem_ok regs names (p :: held) (m_set_players (<[p := player_add 1 v]> (m_players m)) m).
Proof.
  intros Hm Hp Hv Hmax. eapply set_player_ok; [done|done|done|cbn; lia| |].
  - intros x. cbn. repeat case_decide; subst; try done; lia.
  - intros x [->|Hx]%elem_of_cons; [done|by apply (mo_held _ _ _ _ Hm)].
Qed.

(** The references that the running call holds, the one of the registry, and
    one for each client that is logged in. *)
Lemma player_refs_few held m p : mem_ok regs names held m → msum (player_refs p) (m_clients m) ≤ MAX_CLIENTS.
Proof.
  intros Hm. etrans; [apply (msum_listed _ 1 regs); [done|..]|pose proof (mo_regs_few _ _ _ _ Hm); lia].
  { intros x c _. unfold player_refs. case_decide; lia. }
  intros x c Hc Hx. unfold player_refs. apply decide_False. intros [Hon _]. apply Hx.
  by apply (cw_logged_in _ _ _ _ _ (mo_clients _ _ _ _ Hm x c Hc)).
Qed.

Lemma player_count_bounds held m p v : mem_ok regs names held m → m_players m !! p = Some v →
  0 < p_ref_count v ≤ Z.of_nat (length held) + 1 + MAX_CLIENTS.
Proof.
  intros Hm Hv. rewrite (mo_player_count _ _ _ _ Hm _ _ Hv).
  pose proof (player_refs_few held m p Hm). pose proof (cnt_nonneg p held). pose proof (cnt_length p held).
  assert (0 ≤ msum (player_refs p) (m_clients m)) by (apply msum_nonneg; intros; apply player_refs_nonneg).
  assert (p ∈ names) as Hp by (apply (mo_registered _ _ _ _ Hm); by exists v).
  rewrite (cnt_nodup_in p names (mo_names_nodup _ _ _ _ Hm) Hp). lia.
Qed.

(** A player that can be counted [n] times more, and how many references a
    call may hold for the registered clients to be counted once more. *)
Definition countable (n : nat) (v : PLAYER) : Prop := 0 < p_ref_count v ∧ p_ref_count v + Z.of_nat n ≤ INT_MAX.
Definition few (held : list ptr) : Prop := Z.of_nat (length held) + 3 * MAX_CLIENTS ≤ INT_MAX.

Lemma few_count held m p v : mem_ok regs names held m → few held → m_players m !! p = Some v →
  0 < p_ref_count v < INT_MAX.
Proof. intros Hm Hf Hv. pose proof (player_count_bounds held m p v Hm Hv). unfold few, MAX_CLIENTS in *. lia. Qed.

Lemma names_small held m : mem_ok regs names held m → (length names ≤ m_brk m)%nat.
Proof.
  intros Hm. apply nodup_bound; [apply Hm|]. intros p Hp. apply (mo_player_keys _ _ _ _ Hm), (mo_names _ _ _ _ Hm p Hp).
Qed.

Lemma few_countable held m p v : mem_ok regs names held m → few held → m_players m !! p = Some v →
  countable (length regs) v.
Proof.
  intros Hm Hf Hv. pose proof (player_count_bounds held m p v Hm Hv). pose proof (mo_regs_few _ _ _ _ Hm).
  unfold countable, few, MAX_CLIENTS in *. lia.
Qed.

(** A held player is registered, so that dropping the reference never frees it. *)
Lemma player_unref_ok held m p v :
  mem_ok regs names (p :: held) m → m_players m !! p = Some v →
  player_unref v = Some (Some (player_add (-1) v)) ∧
  mem_ok regs names held (m_set_players (<[p := player_add (-1) v]> (m_players m)) m).
Proof.
  intros Hm Hv. assert (p ∈ names) as Hp by (apply (mo_held _ _ _ _ Hm); by left).
  pose proof (mo_player_count _ _ _ _ Hm _ _ Hv) as Hc. cbn in Hc. rewrite decide_True in Hc by done.
  assert (0 ≤ msum (player_refs p) (m_clients m)) by (apply msum_nonneg; intros; apply player_refs_nonneg).
  pose proof (cnt_nonneg p held). pose proof (cnt_in p names Hp). pose proof (mo_player_max _ _ _ _ Hm _ _ Hv).
  rewrite player_unref_add by lia. destruct (Z.eqb_spec (p_ref_count v) 1); [lia|].
  split; [done|]. eapply set_player_ok; [done|done|done|cbn; lia| |].
  - intros x. cbn. repeat case_decide; subst; try done; lia.
  - intros x Hx. apply (mo_held _ _ _ _ Hm). by right.
Qed.

Lemma player_rating_ok held m p v r :
  mem_ok regs names held m → m_players m !! p = Some v →
  mem_ok regs names held (m_set_players (<[p := player_set_rating v r]> (m_players m)) m).
Proof.
  intros Hm Hv. eapply set_player_ok; [done|done|done|exact (mo_player_max _ _ _ _ Hm p v Hv)| |apply Hm].
  intros x. cbn. case_decide; lia.
Qed.

(** Logging in and out: the client takes over, or leaves, one reference. *)
Lemma set_login_ok held held' m p c pl st :
  mem_ok regs names held m → m_clients m !! p = Some c →
  let c' := c_set_logged_in st (c_set_player pl c) in
  (pl = NULL ∨ pl ∈ names) → (st = CLIENT_LOGGED_IN → pl ≠ NULL ∧ p ∈ regs) →
  (st ≠ CLIENT_LOGGED_IN → ∀ q i, m_invs m !! q = Some i → i_source i = p ∨ i_target i = p →
    i_state i = INV_CLOSED_STATE) →
  (∀ x, cnt x held' + player_refs x c' = cnt x held + player_refs x c) →
  (∀ x, x ∈ held' → x ∈ names) →
  mem_ok regs names held' (m_set_clients (<[p := c']> (m_clients m)) m).
Proof.
  intros Hm Hp c' Hpl Hin Hout Hcnt Hheld. destruct Hm.
  assert (live (m_clients m) p) as Hlp by (by exists c).
  assert (∀ x c0, m_clients m !! x = Some c0 → ∃ c1, <[p:=c']> (m_clients m) !! x = Some c1 ∧
    node_invs c1 = node_invs c0 ∧ (x ≠ p → c1 = c0) ∧ (x = p → c_logged_in c1 = st)) as Hnew.
  { intros x c0 Hx. destruct (decide (x = p)) as [->|].
    - rewrite lookup_insert_eq. simplify_eq. eexists. split; [done|]. by split.
    - rewrite lookup_insert_ne by done. eexists. split; [done|]. by split. }
  split; try done; cbn.
  - intros x Hx. apply mo_client_keys0. by eapply lookup_insert_live.
  - intros x c0. intros [[<- <-]|[Hne Hc]]%lookup_insert_Some.
    + destruct (mo_clients0 p c Hp). by split.
    + apply (client_wf_mono _ _ m); [done|eauto|eauto].
  - intros q i Hi. destruct (mo_invs0 q i Hi) as [H1 H2 H3 H4 H5 H6]. split; try done.
    + by apply lookup_insert_is_Some'; right.
    + by apply lookup_insert_is_Some'; right.
    + intros Hs x Hx. destruct (H6 Hs x Hx) as [(c0 & Hc0 & Hq) (c1 & Hc1 & Hon)].
      destruct (Hnew x c0 Hc0) as (c2 & Hc2 & Hn2 & Hne2 & Heq2). split; exists c2; (split; [exact Hc2|]).
      * by rewrite Hn2.
      * destruct (decide (x = p)) as [->|Hxp]; [|rewrite Hne2 by done; congruence].
        rewrite Heq2 by done. destruct (decide (st = CLIENT_LOGGED_IN)); [done|].
        exfalso. apply Hs. eapply Hout; [done|done|naive_solver].
  - intros x c0 [[<- <-]|[Hne Hc]]%lookup_insert_Some; [|eauto]. cbn. eauto.
  - intros x c0 [[<- <-]|[Hne Hc]]%lookup_insert_Some; [|eauto]. cbn. eauto.
  - intros q i Hi. rewrite (msum_insert_same _ _ _ c) by done. eauto.
  - intros x v Hv. rewrite (msum_insert_Some _ _ _ c) by done.
    rewrite (mo_player_count0 _ _ Hv). specialize (Hcnt x). lia.
  - intros x Hx. apply lookup_insert_is_Some'. right. by apply mo_regs0.
Qed.
End players.

(** ** New players and clients, and leaving *)

Lemma new_player_ok regs names held m name :
  mem_ok regs names held m →
  (∀ p v, p ∈ names → m_players m !! p = Some v → p_name v ≠ name) →
  mem_ok regs (names ++ [m_brk m]) (m_brk m :: held)
    (mkMEM (S (m_brk m)) (m_clients m) (m_invs m) (m_games m)
       (<[m_brk m := player_add 1 (player_create name)]> (m_players m))).
Proof.
  intros Hm Hnew. destruct Hm.
  assert (m_players m !! m_brk m = None) as Hfresh by (by apply fresh_None).
  assert (m_brk m ∉ names) as Hnn.
  { intros Hin. destruct (mo_names0 _ Hin) as [v Hv]. congruence. }
  assert (∀ p v, p ∈ names ++ [m_brk m] → <[m_brk m := player_add 1 (player_create name)]> (m_players m) !! p = Some v →
    (p = m_brk m ∧ p_name v = name) ∨ (p ∈ names ∧ m_players m !! p = Some v)) as Hold.
  { intros p v Hp [[<- <-]|[Hne Hv]]%lookup_insert_Some; [by left|].
    right. apply elem_of_app in Hp as [Hp|Hp%list_elem_of_singleton]; [done|congruence]. }
  split; try done; cbn.
  - intros p Hp. specialize (mo_client_keys0 p Hp). lia.
  - intros p Hp. specialize (mo_inv_keys0 p Hp). lia.
  - intros p Hp. specialize (mo_game_keys0 p Hp). lia.
  - by apply fresh_keys.
  - lia.
  - intros p c Hc. destruct (mo_clients0 p c Hc). split; try done; cbn; [lia| |].
    + intros a Ha. specialize (cw_addrs0 a Ha). lia.
    + destruct cw_player0 as [|]; [by left|]. right. apply elem_of_app. by left.
  - intros q i Hi. destruct (mo_invs0 q i Hi). by split.
  - intros p v. rewrite cnt_app. cbn. intros [[<- <-]|[Hne Hv]]%lookup_insert_Some.
    + rewrite decide_True by done. rewrite (cnt_notin _ held), (cnt_notin _ names); [|done|naive_solver].
      rewrite msum_zero; [done|]. intros p c Hc. unfold player_refs. apply decide_False.
      intros [_ Heq]. destruct (cw_player _ _ _ _ _ (mo_clients0 p c Hc)); [|congruence].
      unfold NULL in *. lia.
    + rewrite decide_False by done. rewrite (mo_player_count0 _ _ Hv). lia.
  - intros p v [[<- <-]|[Hne Hv]]%lookup_insert_Some; [done|eauto].
  - apply NoDup_app. split; [done|]. split; [|apply NoDup_singleton].
    by intros x Hx ->%list_elem_of_singleton.
  - intros p [Hp| ->%list_elem_of_singleton]%elem_of_app; apply lookup_insert_is_Some'; [right|by left].
    by apply mo_names0.
  - intros x [->|Hx]%elem_of_cons; apply elem_of_app; [right; by left|left; by apply mo_held0].
  - intros p q v u Hp Hq Hv Hu Heq.
    destruct (Hold p v Hp Hv) as [[-> Hn]|[Hp' Hv']], (Hold q u Hq Hu) as [[-> Hn']|[Hq' Hu']];
      [done| | |eauto]; exfalso; [eapply (Hnew q u)|eapply (Hnew p v)]; try done; congruence.
  - intros x [->|Hx]%lookup_insert_is_Some'; apply elem_of_app; [right; by left|left; by apply mo_registered0].
Qed.

Definition fresh_client (cr : ptr) (fd : Z) : CLIENT :=
  mkCLIENT false cr fd 1 NULL CLIENT_LOGGED_OUT (initial_ids 100) 0 100 [].

Lemma fresh_client_wf regs names m p cr fd : client_wf regs names m p (fresh_client cr fd).
Proof.
  assert (∀ A (x : A), x ∈ ([] : list A) → False) as Hnil by (intros A x H; by apply elem_of_nil in H).
  split; try done.
  - apply initial_ids_ok.
  - cbn. lia.
  - intros id. split; [|intros H; by apply Hnil in H].
    intros [H0 Hid]. exfalso. cbn [fresh_client c_available_ids] in Hid.
    unfold initial_ids in Hid. apply list_lookup_fmap_Some in Hid as (x & Hx & _). lia.
  - constructor.
  - constructor.
  - constructor.
  - intros a Ha. by apply Hnil in Ha.
  - intros a Ha. by apply Hnil in Ha.
  - by left.
Qed.

Lemma client_wf_regs_app regs regs' names m p c :
  client_wf regs names m p c → client_wf (regs ++ regs') names m p c.
Proof. apply client_wf_regs. intros. apply elem_of_app. by left. Qed.

Lemma register_ok regs names held m cr fd :
  mem_ok regs names held m → Z.of_nat (length regs) < MAX_CLIENTS →
  mem_ok (regs ++ [m_brk m]) names held
    (mkMEM (S (m_brk m)) (<[m_brk m := fresh_client cr fd]> (m_clients m))
       (m_invs m) (m_games m) (m_players m)).
Proof.
  intros Hm Hfew. destruct Hm.
  assert (m_clients m !! m_brk m = None) as Hfresh by (by apply fresh_None).
  assert (m_brk m ∉ regs) as Hnr.
  { intros Hin. destruct (mo_regs0 _ Hin) as [v Hv]. congruence. }
  assert (∀ p, live (m_clients m) p → p ≠ m_brk m) as Hne'.
  { intros p Hp ->. specialize (mo_client_keys0 _ Hp). lia. }
  assert (∀ q i, m_invs m !! q = Some i → i_source i ≠ m_brk m ∧ i_target i ≠ m_brk m) as Hparties.
  { intros q i Hi. destruct (mo_invs0 q i Hi). auto. }
  assert (∀ p, live (m_clients m) p → cnt p (regs ++ [m_brk m]) = cnt p regs) as Hcnt.
  { intros p Hp. rewrite cnt_app. cbn. rewrite decide_False by (intros E; by apply (Hne' p Hp)). lia. }
  split; try done; cbn.
  - by apply fresh_keys.
  - intros p Hp. specialize (mo_inv_keys0 p Hp). lia.
  - intros p Hp. specialize (mo_game_keys0 p Hp). lia.
  - intros p Hp. specialize (mo_player_keys0 p Hp). lia.
  - lia.
  - intros p c [[<- <-]|[Hne Hc]]%lookup_insert_Some; [apply fresh_client_wf|].
    apply client_wf_regs_app. apply (client_wf_mono _ _ m); [cbn; lia|eauto|eauto].
  - intros q i Hi. pose proof (mo_invs0 q i Hi) as Hwf. revert Hwf. apply inv_wf_mono; try done.
    + intros p Hp. by apply lookup_insert_is_Some'; right.
    + intros p (c & Hc & Hon). exists c. cbn. split; [|done].
      rewrite lookup_insert_ne; [done|]. intros E. rewrite <-E in Hc. congruence.
    + intros p (c & Hc & Hon). exists c. cbn. split; [|done].
      rewrite lookup_insert_ne; [done|]. intros E. rewrite <-E in Hc. congruence.
  - intros p c [[<- <-]|[Hne Hc]]%lookup_insert_Some.
    + rewrite cnt_app, cnt_notin by done. cbn. rewrite decide_True by done.
      rewrite msum_zero; [done|]. intros q i Hi. destruct (Hparties q i Hi). unfold inv_refs.
      by rewrite !decide_False.
    + rewrite Hcnt by (by eexists). eauto.
  - intros p c [[<- <-]|[Hne Hc]]%lookup_insert_Some; [done|eauto].
  - intros q i Hi. rewrite msum_insert_None by done. rewrite (mo_inv_count0 _ _ Hi). done.
  - intros p v Hv. rewrite msum_insert_None by done. rewrite (mo_player_count0 _ _ Hv).
    unfold player_refs at 2. cbn. rewrite decide_False by (by intros [? _]). lia.
  - apply NoDup_app. split; [done|]. split; [|apply NoDup_singleton].
    by intros x Hx ->%list_elem_of_singleton.
  - rewrite length_app. cbn. lia.
  - intros p [Hp| ->%list_elem_of_singleton]%elem_of_app; apply lookup_insert_is_Some'; [right|by left].
    by apply mo_regs0.
Qed.

(** A client that has logged out leaves the registry: it is freed, unless
    closed invitations still point to it. *)
Definition unref_client (p : ptr) (c : CLIENT) (h : gmap nat CLIENT) : gmap nat CLIENT :=
  if c_ref_count c =? 1 then delete p h else <[p := add_refs (-1) c]> h.

Section unregister.
Context (regs regs' names held : list ptr) (m : mem) (p : ptr) (c : CLIENT).
Context (Hm : mem_ok regs names held m) (Hregs : regs ≡ₚ (p :: regs')).
Context (Hp : m_clients m !! p = Some c) (Hout : c_logged_in c ≠ CLIENT_LOGGED_IN).
Abbreviation m' := (m_set_clients (unref_client p c (m_clients m)) m) (only parsing).

Lemma unregister_nodup : (p ∉ regs') ∧ NoDup regs'.
Proof. pose proof (mo_regs_nodup _ _ _ _ Hm) as H. rewrite Hregs in H. by apply NoDup_cons in H. Qed.

Lemma unregister_freed : c_ref_count c = 1 →
  node_invs c = [] ∧ ∀ q i, m_invs m !! q = Some i → i_source i ≠ p ∧ i_target i ≠ p.
Proof.
  intros Hc. pose proof (mo_client_count _ _ _ _ Hm p c Hp) as H. rewrite Hregs in H. cbn in H.
  rewrite decide_True in H by done. pose proof (cnt_nonneg p regs').
  assert (0 ≤ msum (inv_refs p) (m_invs m)) by (apply msum_nonneg; intros; apply inv_refs_nonneg).
  assert (∀ q i, m_invs m !! q = Some i → i_source i ≠ p ∧ i_target i ≠ p) as Hno.
  { intros q i Hi. pose proof (msum_ge (inv_refs p) _ q i (λ k v _, inv_refs_nonneg p v) Hi) as Hle.
    unfold inv_refs in Hle at 1. repeat case_decide; lia || done. }
  split; [|done]. destruct (node_invs c) as [|q l] eqn:E; [done|]. exfalso.
  destruct (cw_invs _ _ _ _ _ (mo_clients _ _ _ _ Hm p c Hp) q) as (i & Hi & Hpi); [rewrite E; by left|].
  destruct (Hno q i Hi). naive_solver.
Qed.

Lemma unregister_lookup x cx : m_clients m' !! x = Some cx →
  (x = p ∧ cx = add_refs (-1) c ∧ c_ref_count c ≠ 1) ∨ (x ≠ p ∧ m_clients m !! x = Some cx).
Proof.
  cbn. unfold unref_client. destruct (Z.eqb_spec (c_ref_count c) 1).
  - intros [? ?]%lookup_delete_Some. right. done.
  - intros [[<- <-]|[? ?]]%lookup_insert_Some; [by left|by right].
Qed.

Lemma unregister_other x : x ≠ p → m_clients m' !! x = m_clients m !! x.
Proof.
  intros Hx. cbn. unfold unref_client. destruct (_ =? _);
    [by rewrite lookup_delete_ne|by rewrite lookup_insert_ne].
Qed.

Lemma unregister_sum f : (node_invs c = [] → f c = 0) → f (add_refs (-1) c) = f c →
  msum f (m_clients m') = msum f (m_clients m).
Proof.
  intros Hf Hr. cbn. unfold unref_client. destruct (Z.eqb_spec (c_ref_count c) 1) as [E|].
  - rewrite (msum_delete f (m_clients m) p c Hp), Hf; [done|by apply unregister_freed].
  - by apply (msum_insert_same _ _ _ c).
Qed.

Lemma unregister_party x q i : m_invs m !! q = Some i → i_source i = x ∨ i_target i = x →
  live (m_clients m) x → live (m_clients m') x.
Proof.
  intros Hi Hx Hl. destruct (decide (x = p)) as [->|]; [|unfold live; by rewrite unregister_other].
  cbn. unfold unref_client. destruct (Z.eqb_spec (c_ref_count c) 1) as [E|].
  - destruct (unregister_freed E) as [_ Hno]. destruct (Hno q i Hi). naive_solver.
  - unfold live. rewrite lookup_insert_eq. eauto.
Qed.

Lemma unregister_clients x cx : m_clients m' !! x = Some cx → client_wf regs' names m' x cx.
Proof.
  assert (∀ x cx, x ≠ p ∨ c_logged_in cx ≠ CLIENT_LOGGED_IN → client_wf regs names m x cx → client_wf regs' names m' x cx) as H.
  { intros x0 c0 Hx0 Hwf. destruct (client_wf_mono _ _ m m' x0 c0 ltac:(done) ltac:(eauto) Hwf).
    split; try done. intros Hon. destruct (cw_logged_in0 Hon) as [Hpl Hx].
    split; [done|]. rewrite Hregs in Hx. apply elem_of_cons in Hx as [->|]; [|done]. naive_solver. }
  intros [(-> & -> & Hne)|[Hne Hx]]%unregister_lookup.
  - apply H; [by right|]. apply client_wf_refs. by apply Hm.
  - apply H; [by left|by apply Hm].
Qed.

Lemma unregister_invs q i : m_invs m !! q = Some i → inv_wf m' q i.
Proof.
  intros Hi. destruct (mo_invs _ _ _ _ Hm q i Hi) as [H1 H2 H3 H4 H5 H6].
  split; try done.
  - eapply unregister_party; eauto.
  - eapply unregister_party; eauto.
  - intros Hs x Hx. destruct (H6 Hs x Hx) as [(c0 & Hc0 & Hq) (c1 & Hc1 & Hon)].
    assert (x ≠ p) as Hxp by (intros ->; congruence).
    split; [exists c0|exists c1]; by rewrite unregister_other.
Qed.

Lemma unregister_ok : mem_ok regs' names held m'.
Proof.
  destruct unregister_nodup as [Hnp Hnd]. pose proof Hm as Hm0. destruct Hm0.
  assert (∀ x cx, m_clients m' !! x = Some cx →
    c_ref_count cx = cnt x regs' + msum (inv_refs x) (m_invs m)) as Hcount.
  { intros x cx [(-> & -> & Hne)|[Hne Hx]]%unregister_lookup.
    - cbn. rewrite (mo_client_count0 _ _ Hp), Hregs. cbn. rewrite decide_True by done. lia.
    - rewrite (mo_client_count0 _ _ Hx), Hregs. cbn. rewrite decide_False by congruence. lia. }
  split; try done; cbn.
  - intros x [cx Hx]. apply mo_client_keys0.
    apply unregister_lookup in Hx as [(-> & _ & _)|[_ Hx]]; by eexists.
  - apply unregister_clients.
  - apply unregister_invs.
  - intros x cx Hx. pose proof Hx as [(-> & -> & Hne)|[Hne Hx']]%unregister_lookup; [|eauto].
    cbn. specialize (mo_client_pos0 _ _ Hp). lia.
  - intros q i Hi. rewrite unregister_sum; [eauto| |done].
    intros Hn. unfold node_refs. by rewrite Hn.
  - intros x v Hv. rewrite unregister_sum; [eauto| |done].
    intros _. unfold player_refs. apply decide_False. by intros [? _].
  - rewrite Hregs in mo_regs_few0. cbn in mo_regs_few0. lia.
  - intros x Hx. assert (x ≠ p) as Hxp by (by intros ->). unfold live.
    change (is_Some (m_clients m' !! x)). rewrite unregister_other by done.
    apply mo_regs0. rewrite Hregs. by right.
Qed.
End unregister.
