(* ===== verification/Effects.v ===== *)
(** * What the calls do, when they return

    For each operation below the handlers, an equation that gives its result
    and the world it leaves, on the states the server reaches: mutexes and
    semaphores free, memory available, pointers live.  A call that sends is
    described by the packets it sends. *)
From S2P Require Import Prelude Game Player World Objects Protocol Wire PlayerRegistry Invitation Client Sessions ClientRegistry Accounting.

(** ** What a call may change outside the heaps *)

(** The registries and the supply of memory are untouched, and connections
    only gain output. *)
Definition only_sends (w w' : world) : Prop := ∀ fd k, w_net w !! fd = Some k →
  ∃ k', w_net w' !! fd = Some k' ∧ (writable k → writable k') ∧ same_input k k' ∧
    k_out k `prefix_of` k_out k'.

Definition quiet (w w' : world) : Prop :=
  w_oom w' = w_oom w ∧ w_cregs w' = w_cregs w ∧ w_pregs w' = w_pregs w ∧
  w_is_sem_init w' = w_is_sem_init w ∧ only_sends w w'.

(** The call returns [a] in [w'], with the semaphores as they were. *)
Definition ran {A} (m : M A) (w : world) (a : A) (w' : world) : Prop :=
  m w = Ret a w' ∧ w_sems w' = w_sems w ∧ quiet w w'.

#[export] Instance only_sends_preorder : PreOrder only_sends.
Proof.
  split.
  - intros w fd k Hk. exists k. done.
  - intros w1 w2 w3 H H' fd k Hk. destruct (H fd k Hk) as (k2 & Hk2 & Hw2 & Hi2 & Hp2).
    destruct (H' fd k2 Hk2) as (k3 & Hk3 & Hw3 & Hi3 & Hp3). exists k3.
    split; [done|]. split; [auto|]. split; [by trans k2|by trans (k_out k2)].
Qed.

#[export] Instance quiet_preorder : PreOrder quiet.
Proof.
  split.
  - intros w. by split_and!.
  - intros w1 w2 w3 (E1 & E2 & E3 & E4 & H) (E1' & E2' & E3' & E4' & H').
    split; [congruence|]. split; [congruence|]. split; [congruence|]. split; [congruence|]. by trans w2.
Qed.

Lemma quiet_sends w w' : quiet w w' → only_sends w w'.
Proof. by intros (_ & _ & _ & _ & H). Qed.

Lemma same_net_sends w w' : w_net w' = w_net w → only_sends w w'.
Proof. intros E fd k Hk. exists k. rewrite E. done. Qed.

(** ** Lemmas on worlds *)

Lemma sems_restore s i v : s !! i = Some v → <[i := v - 1 + 1]> (<[i := v - 1]> s) = (s : list Z).
Proof.
  intros H. rewrite list_insert_insert_eq. replace (v - 1 + 1) with v by lia.
  by apply list_insert_id.
Qed.

Lemma set_sems_id w s : w_sems w = s → set_sems s w = w.
Proof. intros <-. by destruct w. Qed.

(** Worlds with the same components are equal. *)
Lemma world_ext w w' :
  mem_of w = mem_of w' → w_cregs w = w_cregs w' → w_pregs w = w_pregs w' →
  w_sems w = w_sems w' → w_is_sem_init w = w_is_sem_init w' → w_net w = w_net w' →
  w_oom w = w_oom w' → w_clock w = w_clock w' → w = w'.
Proof. destruct w, w'. cbn. unfold mem_of. cbn. intros Hm. injection Hm. intros. by subst. Qed.

Lemma mem_clients w m : mem_of w = m → w_clients w = m_clients m.
Proof. by intros <-. Qed.
Lemma mem_invs w m : mem_of w = m → w_invs w = m_invs m.
Proof. by intros <-. Qed.
Lemma mem_games w m : mem_of w = m → w_games w = m_games m.
Proof. by intros <-. Qed.
Lemma mem_players w m : mem_of w = m → w_players w = m_players m.
Proof. by intros <-. Qed.
Lemma mem_brk w m : mem_of w = m → w_brk w = m_brk m.
Proof. by intros <-. Qed.

(** ** Memory operations *)

Definition upd_inv (q : ptr) (i : INVITATION) (w : world) : world :=
  set_invs (<[q := i]> (w_invs w)) w.

Lemma upd_inv_lookup q i w : w_invs (upd_inv q i w) !! q = Some i.
Proof. apply lookup_insert_eq. Qed.

Lemma upd_inv_twice q i i' w : upd_inv q i' (upd_inv q i w) = upd_inv q i' w.
Proof. unfold upd_inv, set_invs. simpl. by rewrite insert_insert_eq. Qed.

Lemma load_inv_run q i w : w_invs w !! q = Some i → load q w = Ret i w.
Proof. exact (load_run (V:=INVITATION) q i w). Qed.
Lemma update_inv_run q f i w : w_invs w !! q = Some i → update q f w = Ret () (upd_inv q (f i) w).
Proof. exact (update_run (V:=INVITATION) q f i w). Qed.

(** Counting, in range. *)
Lemma count_client_run p d c w : w_clients w !! p = Some c → INT_MIN ≤ c_ref_count c + d ≤ INT_MAX →
  update_opt p (c_count d) w = Ret () (upd_client p (add_refs d c) w).
Proof. intros Hp Hd. exact (update_opt_run (V:=CLIENT) p _ c _ w Hp (c_count_add d c Hd)). Qed.

Lemma count_inv_run q d i w : w_invs w !! q = Some i → INT_MIN ≤ i_ref_count i + d ≤ INT_MAX →
  update_opt q (i_count d) w = Ret () (upd_inv q (i_set_ref_count (i_ref_count i + d) i) w).
Proof.
  intros Hq Hd. assert (i_count d i = Some (i_set_ref_count (i_ref_count i + d) i)) as E
    by (unfold i_count; by rewrite int_op_Some).
  exact (update_opt_run (V:=INVITATION) q _ i _ w Hq E).
Qed.

Lemma client_ref_run p c w :
  w_clients w !! p = Some c → c_lock c = false → 0 ≤ c_ref_count c < INT_MAX →
  client_ref p w = Ret p (upd_client p (add_refs 1 c) w).
Proof.
  intros Hp Hl Hr. unfold client_ref. run lock_client_run.
  run (count_client_run p) by (first [apply upd_client_lookup|cbn; unfold INT_MIN; lia]).
  run unlock_client_run by (apply upd_client_lookup).
  rewrite !upd_client_twice. by destruct c; simplify_eq/=.
Qed.

(** [client_unref] that does not free, and that frees a logged-out client. *)
Lemma client_unref_run `{Libm} p c w :
  w_clients w !! p = Some c → c_lock c = false → 1 < c_ref_count c ≤ INT_MAX →
  client_unref p w = Ret () (upd_client p (add_refs (-1) c) w).
Proof.
  intros Hp Hl Hr. unfold client_unref, gets. unfold mbind at 1, M_bind at 1. cbn [client_unref_fuel].
  run lock_client_run. run (count_client_run p) by (first [apply upd_client_lookup|cbn; unfold INT_MIN, INT_MAX in *; lia]).
  run unlock_client_run by (apply upd_client_lookup).
  run load_client_run by (apply upd_client_lookup). rewrite !upd_client_twice.
  cbn [c_set_lock add_refs c_set_ref_count c_ref_count].
  destruct (Z.eqb_spec (c_ref_count c + -1) 0); [lia|]. by destruct c; simplify_eq/=.
Qed.

Lemma client_unref_free_run `{Libm} p c w :
  w_clients w !! p = Some c → c_lock c = false → c_ref_count c = 1 →
  c_logged_in c = CLIENT_LOGGED_OUT →
  client_unref p w = Ret () (set_clients (delete p (w_clients w)) w).
Proof.
  intros Hp Hl Hr Ho. unfold client_unref, gets. unfold mbind at 1, M_bind at 1. cbn [client_unref_fuel].
  run lock_client_run. run (count_client_run p) by (first [apply upd_client_lookup|cbn; unfold INT_MIN, INT_MAX in *; lia]).
  run unlock_client_run by (apply upd_client_lookup).
  run load_client_run by (apply upd_client_lookup). rewrite !upd_client_twice.
  cbn [c_set_lock add_refs c_set_ref_count c_ref_count c_logged_in]. rewrite Hr, Ho.
  change (1 + -1 =? 0) with true. rewrite decide_False by done. flat.
  erewrite (free_run (V:=CLIENT)) by (apply (upd_client_lookup p)). cbn. unfold set_clients. cbn.
  by rewrite delete_insert_eq.
Qed.

Lemma unref_client_run `{Libm} p c w :
  w_clients w !! p = Some c → c_lock c = false → 0 < c_ref_count c ≤ INT_MAX → c_logged_in c = CLIENT_LOGGED_OUT →
  client_unref p w = Ret () (set_clients (unref_client p c (w_clients w)) w).
Proof.
  intros Hp Hl Hr Ho. unfold unref_client. destruct (Z.eqb_spec (c_ref_count c) 1).
  - by apply (client_unref_free_run p c).
  - apply (client_unref_run p c); [done..|lia].
Qed.

(** ** Invitations *)

Lemma inv_ref_run q i w :
  w_invs w !! q = Some i → 0 ≤ i_ref_count i < INT_MAX → inv_ref q w = Ret q (upd_inv q (i_set_ref_count (i_ref_count i + 1) i) w).
Proof. intros Hq Hr. unfold inv_ref. by run (count_inv_run q) by (first [exact Hq|unfold INT_MIN; lia]). Qed.

Lemma inv_unref_run `{Libm} q i w :
  w_invs w !! q = Some i → 1 < i_ref_count i ≤ INT_MAX →
  inv_unref q w = Ret () (upd_inv q (i_set_ref_count (i_ref_count i - 1) i) w).
Proof.
  intros Hq Hr. unfold inv_unref, inv_unref'. run (count_inv_run q) by (first [exact Hq|unfold INT_MIN; lia]).
  run load_inv_run by (apply upd_inv_lookup). cbn [i_set_ref_count i_ref_count].
  by destruct (Z.eqb_spec (i_ref_count i + -1) 0); [lia|].
Qed.

(** The game of an invitation goes with it. *)
Definition drop_game (g : ptr) (w : world) : world :=
  if decide (g = NULL) then w else set_games (delete g (w_games w)) w.

Lemma game_unref_run g v w :
  w_games w !! g = Some v → g_ref_count v = 1 →
  game_unref_at g w = Ret () (set_games (delete g (w_games w)) w).
Proof.
  intros Hg Hr. rewrite (game_unref_at_run g v None w Hg); [done|]. unfold game_unref, game_drop. by rewrite Hr.
Qed.

Lemma game_drop_run g w :
  (g ≠ NULL → ∃ v, w_games w !! g = Some v ∧ g_ref_count v = 1) →
  (if decide (g ≠ NULL) then game_unref_at g else mret ()) w = Ret () (drop_game g w).
Proof.
  intros Hg. unfold drop_game. destruct (decide (g = NULL)) as [|Hn].
  - by rewrite decide_False by (by intros H).
  - rewrite decide_True by done. destruct (Hg Hn) as (v & Hv & Hv1). by apply game_unref_run with v.
Qed.

Lemma inv_unref_last_run `{Libm} q i w cs ct :
  w_invs w !! q = Some i → i_ref_count i = 1 → i_source i ≠ i_target i →
  (i_game i ≠ NULL → ∃ v, w_games w !! i_game i = Some v ∧ g_ref_count v = 1) →
  w_clients w !! i_source i = Some cs → c_lock cs = false → 1 < c_ref_count cs ≤ INT_MAX →
  w_clients w !! i_target i = Some ct → c_lock ct = false → 1 < c_ref_count ct ≤ INT_MAX →
  inv_unref q w = Ret () (set_invs (delete q (w_invs w))
    (set_clients (upd2 (i_source i) (i_target i) (add_refs (-1) cs) (add_refs (-1) ct) (w_clients w))
      (drop_game (i_game i) w))).
Proof.
  intros Hq Hr Hne Hg Hs Hsl Hsr Ht Htl Htr. unfold inv_unref, inv_unref'. run (count_inv_run q) by (first [exact Hq|rewrite Hr; done]).
  run load_inv_run by (apply upd_inv_lookup).
  cbn [i_set_ref_count i_ref_count i_game i_source i_target]. rewrite Hr. change (1 + -1 =? 0) with true.
  run game_drop_run by exact Hg. unfold drop_game.
  set (w1 := if decide (i_game i = NULL) then _ else _).
  assert (w_clients w1 = w_clients w ∧ w_invs w1 = <[q := i_set_ref_count 0 i]> (w_invs w)) as [Ec Ei]
    by (unfold w1; by case_decide).
  run client_unref_run by (first [rewrite Ec; exact Hs|done]).
  run client_unref_run by (first [cbn; rewrite Ec, lookup_insert_ne by done; exact Ht|done]).
  erewrite (free_run (V:=INVITATION)) by (cbn; rewrite Ei; apply lookup_insert_eq).
  unfold w1, upd2. change (1 - 1) with 0.
  case_decide; cbn; unfold set_clients, set_invs, set_games; cbn; by rewrite delete_insert_eq.
Qed.

Lemma inv_create_run s t rs rt w cs ct :
  w_oom w = [] → (0 < w_brk w)%nat → s ≠ t →
  w_clients w !! s = Some cs → c_lock cs = false → 0 ≤ c_ref_count cs < INT_MAX →
  w_clients w !! t = Some ct → c_lock ct = false → 0 ≤ c_ref_count ct < INT_MAX →
  inv_create s t rs rt w = Ret (w_brk w)
    (set_clients (upd2 s t (add_refs 1 cs) (add_refs 1 ct) (w_clients w))
      (upd_inv (w_brk w) (mkINV INV_OPEN_STATE 1 s t NULL rs rt) (set_brk (S (w_brk w)) w))).
Proof.
  intros Hoom Hb Hne Hs Hsl Hsr Ht Htl Htr. unfold inv_create, calloc_obj.
  run calloc_run. set (q := w_brk w).
  assert (∀ v, alloc (V:=INVITATION) v w = Ret q (upd_inv q v (set_brk (S q) w))) as Ha by done.
  run Ha. rewrite decide_False by (unfold NULL; lia).
  run inv_ref_run by (first [apply upd_inv_lookup|done]).
  run update_inv_run by apply upd_inv_lookup.
  run client_ref_run by (first [exact Hs|done]).
  run update_inv_run by apply upd_inv_lookup.
  run client_ref_run by (first [cbn; rewrite lookup_insert_ne by done; exact Ht|done]).
  run update_inv_run by apply upd_inv_lookup.
  cbn. unfold mret, M_ret. f_equal. unfold upd_inv, upd2, set_clients, set_invs. cbn.
  by rewrite !insert_insert_eq.
Qed.

(** ** The lists *)

(** A section between [sem_wait] and [sem_post] of a free semaphore. *)
Lemma sem_section_end (w w' : world) i v :
  w_sems w !! i = Some v → 0 < v → w_sems w' = <[i := v - 1]> (w_sems w) →
  sem_post i w' = Ret () (set_sems (w_sems w) w').
Proof.
  intros Hi Hv Hs. rewrite (sem_post_run i (v - 1)).
  2: { rewrite Hs. apply list_lookup_insert_eq. by eapply lookup_lt_Some. }
  by rewrite Hs, sems_restore.
Qed.

Lemma client_add_invitation_run p c q i w :
  w_clients w !! p = Some c → c_lock c = false → w_oom w = [] → ids_ok c →
  c_current_id_size c * 2 ≤ INT_MAX → w_invs w !! q = Some i → 0 ≤ i_ref_count i < INT_MAX →
  w_sems w !! CLIENT_INVITE_SEM = Some 1 →
  ∃ id c', take_id c = Some (id, c') ∧
    client_add_invitation p q w = Ret id
      (upd_client p (with_node (w_brk w) id q c')
        (upd_inv q (i_set_ref_count (i_ref_count i + 1) i) (set_brk (S (w_brk w)) w))).
Proof.
  intros Hp Hl Hoom Hok Hmax Hq Hr Hsem.
  destruct (get_available_id_run p c
    (set_brk (S (w_brk w)) (set_sems (<[CLIENT_INVITE_SEM := 1 - 1]> (w_sems w)) w)) Hp Hl Hoom Hok Hmax)
    as (id & c' & Htake & Hget).
  exists id, c'. split; [done|]. unfold client_add_invitation.
  destruct (take_id_fields _ _ _ Htake) as (El & _ & _ & _ & _ & _ & En).
  run sem_wait_run. run calloc_unchecked_run.
  assert (∀ w0, fresh_addr w0 = Ret (w_brk w0) (set_brk (S (w_brk w0)) w0)) as Hf by done.
  run Hf. run Hget. run inv_ref_run by (first [exact Hq|exact Hr]).
  run load_client_run by apply upd_client_lookup.
  run lock_client_run by (first [apply upd_client_lookup|congruence]).
  run update_client_run by apply upd_client_lookup.
  run unlock_client_run by apply upd_client_lookup.
  rewrite !upd_client_twice.
  run (sem_section_end w) by (first [exact Hsem|lia|done]).
  unfold mret, M_ret. f_equal. unfold upd_client, upd_inv, set_clients, set_invs, set_sems. cbn.
  rewrite insert_insert_eq. do 2 f_equal. unfold with_node.
  rewrite Hl in El. destruct c'; simpl in *. by subst.
Qed.

(** The node is not on the list. *)
Lemma client_remove_none_run `{Libm} p c q w :
  w_clients w !! p = Some c → q ∉ node_invs c → w_sems w !! CLIENT_INVITE_SEM = Some 1 →
  client_remove_invitation p q w = Ret (-1) w.
Proof.
  intros Hp Hq Hsem. unfold client_remove_invitation, client_remove_invitation'.
  run sem_wait_run. run load_client_run by (first [exact Hp|done]).
  pose proof (find_node_invs q (c_invite_head c)) as Hf.
  destruct (find_node _ _) as [n|].
  - destruct Hf as [Hn Hi]. exfalso. apply Hq. rewrite <-Hi. by apply list_elem_of_fmap_2.
  - run (sem_section_end w) by (first [exact Hsem|lia|done]).
    unfold mret, M_ret. f_equal. by destruct w.
Qed.

Section remove.
Context `{Libm}.
Context (p : ptr) (c : CLIENT) (q : ptr) (i : INVITATION) (w : world).
Context (Hp : w_clients w !! p = Some c) (Hl : c_lock c = false) (Hok : ids_ok c).
Context (Hids : ∀ id, id ∈ node_ids c → id_used c id).
Context (Hqc : q ∈ node_invs c) (Hq : w_invs w !! q = Some i).
Context (Hsem : w_sems w !! CLIENT_INVITE_SEM = Some 1).

(** The start of the call, up to [inv_unref]. *)
Lemma client_remove_start : ∃ n, id_used c (n_id n) ∧
  drop_node q c = give_id (n_id n) (c_set_invites (unlink q (c_invite_head c)) c) ∧
  client_remove_invitation p q w =
    (inv_unref q;; purge_id p (n_id n);; sem_post CLIENT_INVITE_SEM;; mret (n_id n))
    (upd_client p (c_set_invites (unlink q (c_invite_head c)) c)
      (set_sems (<[CLIENT_INVITE_SEM := 1 - 1]> (w_sems w)) w)).
Proof.
  destruct (find_node_in q c Hqc) as (n & Hf & Hn & Hi). exists n.
  split; [apply Hids; by apply list_elem_of_fmap_2|].
  split; [unfold drop_node; by rewrite Hf|].
  unfold client_remove_invitation, client_remove_invitation'.
  run sem_wait_run. run load_client_run by (first [exact Hp|done]). rewrite Hf.
  by run (update_client_run p _ c) by exact Hp.
Qed.

(** It is not the last reference to the invitation. *)
Lemma client_remove_keep_run : 1 < i_ref_count i ≤ INT_MAX →
  ∃ id, 0 ≤ id ∧ client_remove_invitation p q w =
    Ret id (upd_client p (drop_node q c) (upd_inv q (i_set_ref_count (i_ref_count i - 1) i) w)).
Proof.
  intros Hr. destruct client_remove_start as (n & Hn & Hd & ->). exists (n_id n). split; [apply Hn|].
  run inv_unref_run by (first [exact Hq|done]).
  run purge_id_run by (first [cbn; apply lookup_insert_eq|done]).
  run (sem_section_end w) by (first [exact Hsem|lia|done]).
  unfold mret, M_ret. f_equal. rewrite Hd.
  unfold upd_client, upd_inv, set_clients, set_invs, set_sems. cbn. by rewrite insert_insert_eq.
Qed.

(** It is: the invitation goes, with its game, and its clients lose a
    reference each. *)
Lemma client_remove_last_run o co :
  i_ref_count i = 1 →
  (i_source i = p ∧ i_target i = o) ∨ (i_source i = o ∧ i_target i = p) → p ≠ o →
  (i_game i ≠ NULL → ∃ v, w_games w !! i_game i = Some v ∧ g_ref_count v = 1) →
  1 < c_ref_count c ≤ INT_MAX → w_clients w !! o = Some co → c_lock co = false → 1 < c_ref_count co ≤ INT_MAX →
  ∃ id, 0 ≤ id ∧ client_remove_invitation p q w = Ret id (set_invs (delete q (w_invs w))
    (set_clients (upd2 p o (add_refs (-1) (drop_node q c)) (add_refs (-1) co) (w_clients w))
      (drop_game (i_game i) w))).
Proof.
  intros Hr Hpo Hne Hg Hcr Ho Hol Hor.
  destruct client_remove_start as (n & Hn & Hd & ->). exists (n_id n). split; [apply Hn|].
  set (c1 := c_set_invites (unlink q (c_invite_head c)) c) in *.
  set (w1 := upd_client p c1 _).
  assert (w_clients w1 !! p = Some c1) as Hp1 by apply lookup_insert_eq.
  assert (w_clients w1 !! o = Some co) as Ho1 by (cbn; by rewrite lookup_insert_ne).
  assert (inv_unref q w1 = Ret () (set_invs (delete q (w_invs w1))
    (set_clients (upd2 p o (add_refs (-1) c1) (add_refs (-1) co) (w_clients w1))
      (drop_game (i_game i) w1)))) as Hunref.
  { destruct Hpo as [[Es Et]|[Es Et]].
    - rewrite <-Es, <-Et in *. by apply inv_unref_last_run.
    - rewrite upd2_swap by done. rewrite <-Es, <-Et in *. by apply inv_unref_last_run. }
  run Hunref.
  run (purge_id_run p (add_refs (-1) c1)) by (first [cbn; by apply upd2_source|done]).
  run (sem_section_end w) by (first [exact Hsem|lia|unfold drop_game; by case_decide]).
  unfold mret, M_ret. f_equal. rewrite Hd.
  assert (∀ a b a' (h : gmap nat CLIENT), <[p := a]> (upd2 p o a' b (<[p := c1]> h)) = upd2 p o a b h) as Hupd.
  { intros a b a' h. unfold upd2. rewrite (insert_insert_ne _ p o) by done. by rewrite !insert_insert_eq. }
  unfold drop_game. case_decide; (apply world_ext; try done); unfold mem_of, w1; cbn; by rewrite Hupd.
Qed.
End remove.

(** ** Packets *)

(** A call that only reads the clock and sends the packets [l]. *)
Definition sends {A} (m : M A) (w : world) (l : list NOTICE) (Q : A → Prop) : Prop :=
  ∃ a w', ran m w a w' ∧ mem_of w' = mem_of w ∧ told w w' l ∧ Q a.

Lemma ran_bind {A B} (m : M A) (k : A → M B) w a w1 b w2 :
  ran m w a w1 → ran (k a) w1 b w2 → ran (m ≫= k) w b w2.
Proof.
  intros (E1 & S1 & Q1) (E2 & S2 & Q2). split; [by rewrite (bind_run _ _ _ _ _ E1)|].
  split; [congruence|by trans w1].
Qed.

Lemma ran_ret {A} (a : A) w : ran (mret a) w a w.
Proof. split; [done|]. split; [done|reflexivity]. Qed.

Lemma create_header_sends n size w :
  w_oom w = [] → size = data_len (nt_data n) →
  sends (create_header (nt_type n) (nt_id n) (nt_role n) size) w [] (λ h, ∃ ts, h = notice_header n ts).
Proof.
  intros Hoom ->. unfold create_header, calloc_unchecked, calloc, clock_gettime.
  destruct (w_clock w) as [|ts l] eqn:Hc.
  - eexists _, w. split; [|split; [done|split; [apply told_refl|by exists (0, 0)]]].
    split; [|split; [done|reflexivity]]. unfold mbind, M_bind. rewrite Hoom. cbn [mret M_ret]. by rewrite Hc.
  - eexists _, (set_clock l w). split; [|split; [done|split; [by apply told_none|by exists ts]]].
    split; [|split; [done|exact (reflexivity (R:=quiet) w)]]. unfold mbind, M_bind. rewrite Hoom. cbn [mret M_ret]. by rewrite Hc.
Qed.

Lemma notice_size n ts : ntohs (h_size (notice_header n ts)) = uint16 (data_len (nt_data n)).
Proof. apply ntohs_htons. Qed.

Lemma uint16_le z : 0 ≤ z → uint16 z ≤ z.
Proof. intros. unfold uint16. apply Z.mod_le; lia. Qed.

(** The payload of a packet is long enough for its header. *)
Lemma notice_fits n ts buf :
  nt_data n = Some buf → ntohs (h_size (notice_header n ts)) ≤ Z.of_nat (length buf).
Proof. intros E. rewrite notice_size, E. apply uint16_le. unfold data_len, strlen. lia. Qed.

(** A packet that [proto_send_packet] accepts. *)
Definition notice_ok (n : NOTICE) : Prop := if nt_data n is Some buf then 0 < uint16 (strlen buf) else True.

Lemma notice_payload n ts : notice_ok n → payload_ok (notice_header n ts) (nt_data n).
Proof.
  pose proof (notice_size n ts) as E. pose proof (notice_fits n ts) as F. unfold notice_ok, payload_ok.
  rewrite E in *. by destruct (nt_data n) as [buf|]; [split; [|apply F]|].
Qed.

(** The connection of a registered client is open and accepts bytes, and the
    client knows its registry. *)
Definition open_conn (w : world) (p : ptr) : Prop :=
  ∃ c k, w_clients w !! p = Some c ∧ w_net w !! c_fd c = Some k ∧ writable k ∧
    is_Some (w_cregs w !! c_cr c).

(** The fields of a client that only creating it and logging in change. *)
Definition same_peer (c c' : CLIENT) : Prop :=
  c_fd c' = c_fd c ∧ c_cr c' = c_cr c ∧ c_player c' = c_player c.

Lemma same_peer_refl c : same_peer c c.
Proof. done. Qed.
#[export] Hint Resolve same_peer_refl : core.

Lemma proto_send_sends n ts k w :
  w_net w !! nt_fd n = Some k → writable k →
  sends (proto_send_packet (nt_fd n) (notice_header n ts) (nt_data n)) w [n] (λ r, notice_ok n → r = 0).
Proof.
  intros Hk Hw. pose proof (proto_send_packet_wp _ _ _ w k Hk (notice_fits n ts)) as Hwp.
  apply wp_inv in Hwp as (r & w' & E & k' & out & -> & Hin & Hout & _ & Hres & Hwr).
  destruct (Hwr Hw) as [Hw' ->].
  exists r, (set_conn (nt_fd n) k' w). split; [|split; [done|split; [by eapply told_one|]]].
  - split; [done|]. split; [done|]. split_and!; try done. intros fd' k0 Hk0. cbn.
    destruct (decide (nt_fd n = fd')) as [<-|].
    + rewrite lookup_insert_eq. simplify_eq. exists k'. split; [done|].
      split; [done|]. split; [done|]. rewrite Hout. by apply prefix_app_r.
    + rewrite lookup_insert_ne by done. exists k0. split; [done|]. split; [done|]. split; reflexivity.
  - intros Hp. destruct Hres as [[-> _]|[_ [?|Hne]]]; [done|done|]. by destruct Hne; apply notice_payload.
Qed.

Lemma sends_bind {A B} (m : M A) (k : A → M B) w l l' Q R :
  sends m w l Q →
  (∀ a w', ran m w a w' → mem_of w' = mem_of w → Q a → sends (k a) w' l' R) → sends (m ≫= k) w (l ++ l') R.
Proof.
  intros (a & w1 & Hr & Hm & Ht & Ha) Hk. destruct (Hk a w1 Hr Hm Ha) as (b & w2 & Hr2 & Hm2 & Ht2 & Hb).
  exists b, w2. split; [by eapply ran_bind|]. split; [congruence|]. split; [by eapply told_trans|done].
Qed.

Lemma sends_weaken {A} (m : M A) w l (Q R : A → Prop) : sends m w l Q → (∀ a, Q a → R a) → sends m w l R.
Proof. intros (a & w' & Hr & Hm & Ht & Ha) HQR. exists a, w'. auto. Qed.

Lemma sends_eq {A} (m m' : M A) w l Q : m w = m' w → sends m w l Q → sends m' w l Q.
Proof. intros E (a & w' & (Er & Hr) & H). exists a, w'. split; [|done]. split; [by rewrite <-E|done]. Qed.

(** Under the mutex of the client, which is free again at the end. *)
Lemma locked_sends {A} p c w (m : M A) l Q :
  w_clients w !! p = Some c → c_lock c = false →
  sends m (upd_client p (c_set_lock true c) w) l Q →
  sends (lock_client p;; r ← m; unlock_client p;; mret r) w l Q.
Proof.
  intros Hp Hl (r & w' & (E & S & Qt) & Hm & Ht & HQ).
  assert (w_clients w' !! p = Some (c_set_lock true c)) as Hp'.
  { change (m_clients (mem_of w') !! p = Some (c_set_lock true c)). rewrite Hm.
    apply upd_client_lookup. }
  exists r, (upd_client p c w'). split; [|split; [|split; [|done]]].
  - split; [|split; [exact S|exact Qt]].
    run lock_client_run. run E. run unlock_client_run by (exact Hp'). unfold mret, M_ret. f_equal.
    by rewrite c_set_lock_twice, c_set_lock_id.
  - unfold mem_of, upd_client, set_clients in *. cbn in *. injection Hm as -> -> -> -> ->.
    by rewrite insert_insert_eq, insert_id.
  - exact Ht.
Qed.

(** The client behind a pointer, to send to its connection. *)
Lemma load_then_sends {A} p c w (k : CLIENT → M A) l Q :
  w_clients w !! p = Some c → sends (k c) w l Q → sends (c ← load p; k c) w l Q.
Proof. intros Hp. apply sends_eq. by run load_client_run by exact Hp. Qed.

Lemma client_send_packet_sends p c k n ts w :
  w_clients w !! p = Some c → c_lock c = false → nt_fd n = c_fd c →
  w_net w !! c_fd c = Some k → writable k →
  sends (client_send_packet p (notice_header n ts) (nt_data n)) w [n] (λ r, notice_ok n → r = 0).
Proof.
  intros Hp Hl Hfd Hk Hw.
  eapply (sends_eq (lock_client p;; r ← (c ← load p; proto_send_packet (c_fd c) (notice_header n ts) (nt_data n));
    unlock_client p;; mret r)).
  - unfold client_send_packet, mbind, M_bind. destruct (lock_client p w); [|done..]. by destruct (load p _).
  - eapply locked_sends; [done|done|]. eapply load_then_sends; [apply upd_client_lookup|].
    cbn [c_set_lock c_fd]. rewrite <-Hfd in *. by eapply proto_send_sends.
Qed.

(** The header, then the packet. *)
Lemma packet_sends p c k n size w :
  w_oom w = [] → size = data_len (nt_data n) →
  w_clients w !! p = Some c → c_lock c = false → nt_fd n = c_fd c →
  w_net w !! c_fd c = Some k → writable k →
  sends (h ← create_header (nt_type n) (nt_id n) (nt_role n) size; client_send_packet p h (nt_data n)) w [n]
    (λ r, notice_ok n → r = 0).
Proof.
  intros Hoom Hsz Hp Hl Hfd Hk Hw. change [n] with ([] ++ [n]).
  eapply sends_bind; [by apply create_header_sends|].
  intros h w1 (_ & _ & (_ & _ & _ & _ & Hn)) Hm [ts ->]. destruct (Hn _ _ Hk) as (k' & Hk' & Hw' & _).
  apply (client_send_packet_sends p c k'); [by rewrite (mem_clients _ _ Hm)|done..|auto].
Qed.

(** [client_send_ack] and [client_send_nack]: the size of an ACK is the low
    half of the length it is given. *)
Definition send_simple (p : ptr) (type : Z) (size : Z) (data : option (list byte)) : M Z :=
  lock_client p;; pkt ← create_header type 0 0 size; c ← load p;
  ret ← proto_send_packet (c_fd c) pkt data; unlock_client p;; mret ret.

Lemma send_simple_sends p c k type data w :
  w_oom w = [] → w_clients w !! p = Some c → c_lock c = false →
  w_net w !! c_fd c = Some k → writable k →
  sends (send_simple p type (data_len data) data) w [note w p type 0 0 data] (λ _, True).
Proof.
  intros Hoom Hp Hl Hk Hw. set (n := note w p type 0 0 data).
  assert (nt_fd n = c_fd c) as Hfd by exact (fd_of_lookup w p c Hp).
  eapply (sends_eq (lock_client p;; r ← (pkt ← create_header type 0 0 (data_len data); c ← load p;
    proto_send_packet (c_fd c) pkt data); unlock_client p;; mret r)).
  - unfold send_simple, mbind, M_bind. destruct (lock_client p w); [|done..].
    destruct (create_header _ _ _ _ _); [|done..]. by destruct (load p _).
  - eapply locked_sends; [done|done|]. change [n] with ([] ++ [n]).
    eapply sends_bind; [by apply (create_header_sends n)|].
    intros h w1 (_ & _ & (_ & _ & _ & _ & Hn)) Hm1 [ts ->]. destruct (Hn _ _ Hk) as (k1 & Hk1 & Hw1 & _).
    eapply (load_then_sends _ (c_set_lock true c)).
    { rewrite (mem_clients _ _ Hm1). apply upd_client_lookup. }
    cbn [c_set_lock c_fd]. rewrite <-Hfd in *.
    eapply sends_weaken; [eapply (proto_send_sends n ts); [exact Hk1|auto]|done].
Qed.
