(* ===== verification/Handlers.v ===== *)
(** * The requests preserve the invariant

    The operations of [src/client.c] on invitations, run by a registered
    client on a server that satisfies the invariant of [Accounting], return
    without blocking and without undefined behaviour, and leave the server
    in a state that satisfies it again.  The kernel is taken to accept what
    the server writes to its registered clients, and memory to last. *)
From S2P Require Import Prelude Game Player World Objects Protocol Wire PlayerRegistry Invitation Client Sessions ClientRegistry Accounting Effects.

(** ** The server between two requests *)

Definition free_sems : list Z := replicate CLIENT_SEM_FUNCTIONS 1.

(** The semaphores that the operations on invitations take are free. *)
Definition op_free (s : list Z) : Prop :=
  s !! CLIENT_INVITE_SEM = Some 1 ∧ s !! CLIENT_INVITE_OP_SEM = Some 1 ∧ s !! CLIENT_UPDATE_ELO = Some 1.

(** A rating moves by at most 32 points in a game, and every finished game
    has taken an address. *)
Definition rated (m : mem) : Prop := ∀ p v, m_players m !! p = Some v →
  Z.abs (p_rating v - PLAYER_INITIAL_RATING) ≤ 32 * (Z.of_nat (m_brk m) - Z.of_nat (size (m_games m))).

Record core (regs names held : list ptr) (w : world) : Prop := {
  co_mem : mem_ok regs names held (mem_of w);
  co_rated : rated (mem_of w);
  co_sems : op_free (w_sems w);
  co_oom : w_oom w = [];
  co_open p : p ∈ regs → open_conn w p;
  co_unique p q c c' : p ∈ regs → q ∈ regs → w_clients w !! p = Some c → w_clients w !! q = Some c' →
    c_player c = c_player c' → c_player c ≠ NULL → p = q;
  co_fds p q c c' : p ∈ regs → q ∈ regs → w_clients w !! p = Some c → w_clients w !! q = Some c' →
    c_fd c = c_fd c' → p = q
}.

(** [op], the rest of an operation that started in [w], returns with a result
    that satisfies [Q], in a state that satisfies the invariant again; the
    registered clients keep their connections. *)
Definition safe_from {A} (regs names : list ptr) (op : M A) (w w0 : world) (Q : A → world → Prop) : Prop :=
  wp op w0 (λ a w', w_sems w' = w_sems w ∧ quiet w w' ∧ peers regs w w' ∧ core regs names [] w' ∧ Q a w').
Definition safe {A} (regs names : list ptr) (op : M A) (w : world) (Q : A → world → Prop) : Prop :=
  safe_from regs names op w w Q.

(** ** Lemmas on the invariant *)

Section core.
Context (regs names : list ptr).
Implicit Types (w : world).

Lemma quiet_open w w' p : mem_of w' = mem_of w → quiet w w' → open_conn w p → open_conn w' p.
Proof.
  intros Hm (_ & Ecr & _ & _ & Hn) (c & k & Hc & Hk & Hw & Hcr).
  destruct (Hn _ _ Hk) as (k' & Hk' & Hw' & _). exists c, k'.
  rewrite (mem_clients _ _ Hm), Ecr. auto.
Qed.

Lemma rated_mono m m' : rated m → m_players m' = m_players m →
  Z.of_nat (m_brk m) - Z.of_nat (size (m_games m)) ≤ Z.of_nat (m_brk m') - Z.of_nat (size (m_games m')) →
  rated m'.
Proof. intros Hr Hp Hle p v Hv. rewrite Hp in Hv. specialize (Hr p v Hv). lia. Qed.

Lemma core_sends held w w' : core regs names held w → mem_of w' = mem_of w → w_sems w' = w_sems w →
  quiet w w' → core regs names held w'.
Proof.
  intros [] Hm Hs Hq. split.
  - by rewrite Hm.
  - by rewrite Hm.
  - by rewrite Hs.
  - destruct Hq as (-> & _). done.
  - intros p Hp. eapply quiet_open; eauto.
  - intros p q c c' Hp Hq'. rewrite (mem_clients _ _ Hm). by apply co_unique0.
  - intros p q c c' Hp Hq'. rewrite (mem_clients _ _ Hm). by apply co_fds0.
Qed.

(** The descriptors of the clients do not change, so that connections stay open. *)
Lemma core_change held held' w w' regs' names' :
  core regs names held w → mem_ok regs' names' held' (mem_of w') → rated (mem_of w') →
  w_sems w' = w_sems w → quiet w w' →
  (∀ p c, p ∈ regs' → w_clients w !! p = Some c →
    p ∈ regs ∧ ∃ c', w_clients w' !! p = Some c' ∧ same_peer c c') →
  (∀ p, p ∈ regs' → live (w_clients w) p) →
  core regs' names' held' w'.
Proof.
  intros [] Hm Hr Hs Hq Hfd Hlive. split; [done|done|by rewrite Hs|by destruct Hq as (-> & _)| | |].
  3: { intros p q c c' Hp Hq' Hc Hc' E. destruct (Hlive p Hp) as [c0 Hc0]. destruct (Hlive q Hq') as [c0' Hc0'].
       destruct (Hfd p c0 Hp Hc0) as (Hpr & c1 & Hc1 & Ef & _). rewrite Hc in Hc1. injection Hc1 as <-.
       destruct (Hfd q c0' Hq' Hc0') as (Hqr & c1 & Hc1 & Ef' & _). rewrite Hc' in Hc1. injection Hc1 as <-.
       eapply co_fds0; [exact Hpr|exact Hqr|exact Hc0|exact Hc0'|congruence]. }
  2: { intros p q c c' Hp Hq' Hc Hc' E Hn. destruct (Hlive p Hp) as [c0 Hc0]. destruct (Hlive q Hq') as [c0' Hc0'].
       destruct (Hfd p c0 Hp Hc0) as (Hpr & c1 & Hc1 & _ & _ & Ep). rewrite Hc in Hc1. injection Hc1 as <-.
       destruct (Hfd q c0' Hq' Hc0') as (Hqr & c1 & Hc1 & _ & _ & Eq). rewrite Hc' in Hc1. injection Hc1 as <-.
       eapply co_unique0; [exact Hpr|exact Hqr|exact Hc0|exact Hc0'|congruence|congruence]. }
  intros p Hp. destruct (Hlive p Hp) as [c Hc]. destruct (Hfd p c Hp Hc) as (Hpr & c' & Hc' & Hfd' & Hcr' & _).
  destruct (co_open0 p Hpr) as (c0 & k & Hc0 & Hk & Hw & Hcr).
  destruct Hq as (_ & Ecr & _ & _ & Hn). destruct (Hn _ _ Hk) as (k' & Hk' & Hw' & _).
  rewrite Hc in Hc0. injection Hc0 as <-. exists c', k'. rewrite Hfd', Hcr', Ecr. auto.
Qed.

(** An invitation on both lists is referenced exactly twice. *)
Lemma inv_count_two m q i cs ct :
  mem_ok regs names [] m → m_invs m !! q = Some i →
  m_clients m !! i_source i = Some cs → m_clients m !! i_target i = Some ct →
  q ∈ node_invs cs → q ∈ node_invs ct → i_ref_count i = 2.
Proof.
  intros Hm Hq Hs Ht Hqs Hqt. rewrite (mo_inv_count _ _ _ _ Hm _ _ Hq).
  pose proof (iw_distinct _ _ _ (mo_invs _ _ _ _ Hm _ _ Hq)) as Hne.
  set (e := c_set_invites [] cs).
  pose proof (msum_upd2 (node_refs q) _ _ cs ct e e _ Hne Hs Ht) as Hsum.
  rewrite msum_zero in Hsum.
  - unfold node_refs in Hsum. cbn in Hsum.
    rewrite (cnt_nodup_in q (node_invs cs)), (cnt_nodup_in q (node_invs ct)) in Hsum; try done.
    + unfold node_refs. lia.
    + by apply (mo_clients _ _ _ _ Hm _ _ Ht).
    + by apply (mo_clients _ _ _ _ Hm _ _ Hs).
  - intros p c [[_ ->]|[[_ ->]|(Hps & Hpt & Hp)]]%upd2_inv; [done|done|].
    apply cnt_notin. intros Hc. destruct (party_nodes _ _ _ _ _ _ Hm Hq p c Hp Hc); done.
Qed.

(** A client with an invitation has at least two references when registered. *)
Lemma party_ref_count m p c q i :
  mem_ok regs names [] m → p ∈ regs → m_clients m !! p = Some c →
  m_invs m !! q = Some i → i_source i = p ∨ i_target i = p → 1 < c_ref_count c ≤ INT_MAX.
Proof.
  intros Hm Hr Hp Hq Hi. split; [|by apply (mo_client_pos _ _ _ _ Hm p c)]. rewrite (mo_client_count _ _ _ _ Hm _ _ Hp).
  rewrite cnt_nodup_in by (try done; apply Hm).
  pose proof (msum_ge (inv_refs p) _ q i (λ _ v _, inv_refs_nonneg p v) Hq) as Hle.
  assert (0 < inv_refs p i); [|lia].
  unfold inv_refs. repeat case_decide; naive_solver lia.
Qed.

Lemma game_count_one m q i :
  mem_ok regs names [] m → m_invs m !! q = Some i → i_game i ≠ NULL →
  i_state i = INV_ACCEPTED_STATE ∧
  ∃ g, m_games m !! i_game i = Some g ∧ played g ∧ g_is_over g = 0 ∧ g_ref_count g = 1.
Proof.
  intros Hm Hq Hg. destruct (mo_invs _ _ _ _ Hm _ _ Hq) as [_ _ _ _ Hst _].
  destruct (i_state i); [done| |done]. split; [done|]. destruct Hst as (g & ? & ? & ?).
  exists g. auto using played_ref_count.
Qed.
End core.

(** ** Removing an invitation from its two lists *)

Section remove_both.
Context `{Libm}.
Context (regs names : list ptr).

(** The state of the heaps when the removal starts: those of [m], where the
    invariant holds, but for the state of the invitation and its game. *)
Record closing (m : mem) (q : ptr) (i i' : INVITATION) (w : world) : Prop := {
  cl_inv : m_invs m !! q = Some i;
  cl_source : i_source i' = i_source i;
  cl_target : i_target i' = i_target i;
  cl_count : i_ref_count i' = 2;
  cl_brk : w_brk w = m_brk m;
  cl_clients : w_clients w = m_clients m;
  cl_players : w_players w = m_players m;
  cl_invs : w_invs w = <[q := i']> (m_invs m);
  cl_game : i_game i' = i_game i;
  cl_games : i_game i = NULL ∧ w_games w = m_games m ∨
    i_game i ≠ NULL ∧ ∃ v, g_ref_count v = 1 ∧ w_games w = <[i_game i := v]> (m_games m)
}.

Lemma closing_game m q i i' w : closing m q i i' w →
  (i_game i' ≠ NULL → ∃ v, w_games w !! i_game i' = Some v ∧ g_ref_count v = 1).
Proof.
  intros [] Hg. rewrite cl_game0 in *. destruct cl_games0 as [[? _]|(_ & v & Hv & ->)]; [done|].
  exists v. split; [apply lookup_insert_eq|done].
Qed.

Lemma mem_of_dropped a b g w :
  mem_of (set_invs a (set_clients b (drop_game g w))) =
  mkMEM (w_brk w) b a (if decide (g = NULL) then w_games w else delete g (w_games w)) (w_players w).
Proof. unfold drop_game. by case_decide. Qed.

(** The two calls of [client_remove_invitation], from either side first. *)
(** [drop_inv_ok] for the two clients in either order. *)
Lemma drop_parties_ok m q i p o cp co :
  mem_ok regs names [] m → m_invs m !! q = Some i → p ≠ o →
  (i_source i = p ∧ i_target i = o) ∨ (i_source i = o ∧ i_target i = p) →
  m_clients m !! p = Some cp → q ∈ node_invs cp → p ∈ regs →
  m_clients m !! o = Some co → q ∈ node_invs co → o ∈ regs →
  mem_ok regs names [] (drop_inv q p o (i_game i) cp co m).
Proof.
  intros Hm Hq Hne [[Es Et]|[Es Et]] Hp Hqp Hpr Ho Hqo Hor; subst.
  - by apply drop_inv_ok.
  - assert (drop_inv q (i_target i) (i_source i) (i_game i) cp co m =
      drop_inv q (i_source i) (i_target i) (i_game i) co cp m) as -> by (unfold drop_inv; by rewrite upd2_swap by done).
    by apply drop_inv_ok.
Qed.

Lemma remove_both_run m q i i' w p o cp co :
  mem_ok regs names [] m → closing m q i i' w →
  w_sems w !! CLIENT_INVITE_SEM = Some 1 →
  (i_source i = p ∧ i_target i = o) ∨ (i_source i = o ∧ i_target i = p) →
  m_clients m !! p = Some cp → q ∈ node_invs cp → p ∈ regs →
  m_clients m !! o = Some co → q ∈ node_invs co → o ∈ regs →
  ∃ id1 id2 w1 w2, 0 ≤ id1 ∧ 0 ≤ id2 ∧
    ran (client_remove_invitation p q) w id1 w1 ∧ ran (client_remove_invitation o q) w1 id2 w2 ∧
    w_net w2 = w_net w ∧
    mem_of w2 = drop_inv q p o (i_game i) cp co m ∧ mem_ok regs names [] (mem_of w2).
Proof.
  intros Hm Hcl Hsem Hpo Hp Hqp Hpr Ho Hqo Hor. pose proof (closing_game _ _ _ _ _ Hcl) as Hgame.
  pose proof Hcl as [Hq Hes Het Hcount Hb Hc Hpl Hinv Hg Hgs].
  destruct (mo_clients _ _ _ _ Hm p cp Hp) as [Hpl0 Hpok _ _ Hpused _ _ _ _ _ _ _].
  destruct (mo_clients _ _ _ _ Hm o co Ho) as [Hol0 Hook _ _ Houset _ _ _ _ _ _ _].
  assert (p ≠ o) as Hne.
  { pose proof (iw_distinct _ _ _ (mo_invs _ _ _ _ Hm _ _ Hq)). naive_solver congruence. }
  assert (i_source i = p ∨ i_target i = p) as Hip by tauto.
  assert (i_source i = o ∨ i_target i = o) as Hio by tauto.
  pose proof (party_ref_count _ _ _ _ _ _ _ Hm Hpr Hp Hq Hip) as Hrp.
  pose proof (party_ref_count _ _ _ _ _ _ _ Hm Hor Ho Hq Hio) as Hro.
  destruct (client_remove_keep_run p cp q i' w) as (id1 & Hid1 & E1);
    [by rewrite Hc|done|done|intros; by apply Hpused|done|rewrite Hinv; apply lookup_insert_eq|done|by rewrite Hcount|].
  set (i1 := i_set_ref_count (i_ref_count i' - 1) i') in *.
  set (w1 := upd_client p (drop_node q cp) (upd_inv q i1 w)) in *.
  destruct (drop_node_fields q cp) as (Hdl & _ & _ & Hdr & _).
  destruct (client_remove_last_run o co q i1 w1 ) with (o := p) (co := drop_node q cp)
    as (id2 & Hid2 & E2); try done; try congruence; try apply lookup_insert_eq.
  - unfold w1. cbn. rewrite Hc, lookup_insert_ne by done. done.
  - intros; by apply Houset.
  - unfold i1. cbn. by rewrite Hcount.
  - unfold i1. cbn. rewrite Hes, Het. tauto.
  - eexists id1, id2, w1, _. split; [done|]. split; [done|].
    split; [split; [exact E1|]; split; [done|exact (reflexivity (R:=quiet) w)]|].
    split.
    { split; [exact E2|]. unfold drop_game. case_decide; (split; [done|exact (reflexivity (R:=quiet) w1)]). }
    split; [unfold drop_game; by case_decide|].
    match goal with |- mem_of ?x = ?y ∧ _ => assert (mem_of x = y) as Emem end.
    { rewrite mem_of_dropped. unfold drop_inv, w1, i1. cbn. rewrite Hg, Hc, Hinv, Hb, Hpl.
      rewrite insert_insert_eq, delete_insert_eq, upd2_swap by done. unfold upd2.
      rewrite insert_insert_eq. f_equal. case_decide as Hn; destruct Hgs as [[Hn' ->]|(Hn' & v & _ & ->)]; try done.
      by rewrite delete_insert_eq. }
    split; [exact Emem|]. rewrite Emem. by apply drop_parties_ok.
Qed.
End remove_both.

(** ** Looking up and closing *)

(** The invitation a client knows by an identifier. *)
Definition known_as (c : CLIENT) (id : Z) : ptr :=
  match find_node (λ n, n_id n =? id) (c_invite_head c) with
  | Some n => n_invitation n
  | None => NULL
  end.

Lemma get_invitation_run p c id w :
  w_clients w !! p = Some c → c_lock c = false →
  client_get_invitation p id w = Ret (known_as c id) w.
Proof.
  intros Hp Hl. unfold client_get_invitation, known_as.
  run lock_client_run. run load_client_run by apply upd_client_lookup.
  run unlock_client_run by apply upd_client_lookup.
  rewrite upd_client_twice, c_set_lock_twice, (c_set_lock_id c false), upd_client_id by done.
  cbn [c_invite_head c_set_lock]. by destruct (find_node _ _).
Qed.

Lemma known_as_in c id : known_as c id = NULL ∨ known_as c id ∈ node_invs c.
Proof.
  unfold known_as. pose proof (find_node_ids id (c_invite_head c)) as Hf.
  destruct (find_node _ _) as [n|]; [right|by left]. destruct Hf. by apply list_elem_of_fmap_2.
Qed.

(** The identifier under which a client knows an invitation. *)
Definition id_of (c : CLIENT) (q : ptr) : Z :=
  if find_node (λ n, Nat.eqb (n_invitation n) q) (c_invite_head c) is Some n then n_id n else -1.

Definition id_for (w : world) (p q : ptr) : Z := if w_clients w !! p is Some c then id_of c q else -1.

Lemma get_invitation_id_run p c q w w0 :
  w_clients w = w_clients w0 → w_clients w0 !! p = Some c → c_lock c = false →
  client_get_invitation_id p q w = Ret (id_for w0 p q) w.
Proof.
  intros Ec Hp Hl. unfold client_get_invitation_id, id_for, id_of. rewrite Hp. rewrite <-Ec in Hp.
  run lock_client_run. run load_client_run by apply upd_client_lookup.
  run unlock_client_run by apply upd_client_lookup.
  rewrite upd_client_twice, c_set_lock_twice, (c_set_lock_id c false), upd_client_id by done.
  cbn [c_invite_head c_set_lock]. by destruct (find_node _ _).
Qed.

Lemma inv_close_null_run r w : inv_close NULL r w = Ret (-1) w.
Proof. done. Qed.

Lemma inv_close_open_run q i w :
  q ≠ NULL → w_invs w !! q = Some i → i_state i = INV_OPEN_STATE → i_game i = NULL →
  inv_close q NULL_ROLE w = Ret 0 (upd_inv q (i_set_state INV_CLOSED_STATE i) w).
Proof.
  intros Hn Hq Hs Hg. unfold inv_close. rewrite decide_False by done. run load_inv_run.
  rewrite Hs, Hg. rewrite decide_False by naive_solver. rewrite !decide_False by naive_solver.
  flat. by run update_inv_run.
Qed.

(** What [inv_close] refuses. *)
Lemma inv_close_fail_run q i r w :
  q ≠ NULL → w_invs w !! q = Some i →
  (i_state i = INV_CLOSED_STATE ∨ (i_state i = INV_ACCEPTED_STATE ∧ r = NULL_ROLE) ∨
   (i_state i = INV_OPEN_STATE ∧ r ≠ NULL_ROLE)) →
  inv_close q r w = Ret (-1) w.
Proof.
  intros Hn Hq Hs. unfold inv_close. rewrite decide_False by done. run load_inv_run.
  destruct Hs as [Hs|[[Hs Hr]|[Hs Hr]]]; rewrite Hs.
  - by rewrite decide_True by done.
  - rewrite decide_False by naive_solver. case_decide; [done|]. by rewrite decide_True by done.
  - rewrite decide_False by naive_solver. rewrite decide_False by naive_solver.
    rewrite decide_False by naive_solver.
    rewrite (decide_False (P := INV_OPEN_STATE = INV_ACCEPTED_STATE)) by done. flat.
    by rewrite decide_True by done.
Qed.

Lemma inv_close_accepted_run q i r v w :
  q ≠ NULL → w_invs w !! q = Some i → i_state i = INV_ACCEPTED_STATE → i_game i ≠ NULL →
  r ≠ NULL_ROLE → w_games w !! i_game i = Some v →
  inv_close q r w = Ret 0 (upd_inv q (i_set_state INV_CLOSED_STATE i)
    (set_games (<[i_game i := (game_resign v r).2]> (w_games w)) w)).
Proof.
  intros Hn Hq Hs Hg Hr Hv. unfold inv_close. rewrite decide_False by done. run load_inv_run.
  rewrite Hs. rewrite decide_False by naive_solver. rewrite decide_False by naive_solver.
  rewrite decide_False by naive_solver.
  rewrite (decide_True (P := INV_ACCEPTED_STATE = INV_ACCEPTED_STATE)) by done.
  run game_resign_at_run by exact Hv.
  rewrite decide_False by naive_solver. rewrite decide_False by naive_solver.
  by run update_inv_run by exact Hq.
Qed.

(** ** Running under [wp] *)

Lemma wp_step {A B} (m : M A) (k : A → M B) w a w' Q :
  m w = Ret a w' → wp (k a) w' Q → wp (m ≫= k) w Q.
Proof. intros E HQ. unfold wp. by rewrite (bind_run _ _ _ _ _ E). Qed.

Lemma wp_assoc {A B C} (m : M A) (f : A → M B) (g : B → M C) w Q :
  wp (m ≫= (λ x, f x ≫= g)) w Q → wp ((m ≫= f) ≫= g) w Q.
Proof. unfold wp. by rewrite bind_assoc. Qed.

(** [step lem]: the next call runs by [lem]. *)
Ltac norm :=
  cbn [negb Z.eqb Pos.eqb]; cbv beta iota;
  repeat (lazymatch goal with
          | |- wp (mbind ?g (mbind ?f ?m)) ?w ?Q => refine (wp_assoc m f g w Q _)
          | |- wp (mbind ?k (mret ?a)) ?w ?Q => refine (wp_step (mret a) k w a w Q eq_refl _)
          end; cbv beta iota).
Tactic Notation "step" uconstr(lem) :=
  norm; eapply wp_step; [by eapply lem|]; norm.
Tactic Notation "step" uconstr(lem) "by" tactic3(t) :=
  norm; eapply wp_step; [eapply lem; t|]; norm.

Ltac name_world w := match goal with |- wp _ ?x _ => set (w := x) end.

(** ** Sections of the global semaphores *)

Lemma leave_section {A} i (r : A) (w w' : world) :
  w_sems w !! i = Some 1 → w_sems w' = <[i := 1 - 1]> (w_sems w) →
  (sem_post i;; mret r) w' = Ret r (set_sems (w_sems w) w').
Proof. intros Hi Hs. by run (sem_section_end w w') by (first [exact Hi|lia|exact Hs]). Qed.

Abbreviation op_sems w := (<[CLIENT_INVITE_OP_SEM := 1 - 1]> (w_sems w)).

(** Inside a request the other two are still free. *)
Lemma op_sems_other w j : op_free (w_sems w) → j = CLIENT_INVITE_SEM ∨ j = CLIENT_UPDATE_ELO →
  op_sems w !! j = Some 1.
Proof. intros (H1 & _ & H2) [->| ->]; by rewrite list_lookup_insert_ne. Qed.

Section handlers.
Context `{Libm}.
Context (regs names : list ptr).
Implicit Types (w : world) (p : ptr).

Lemma le_op w : core regs names [] w → w_sems w !! CLIENT_INVITE_OP_SEM = Some 1.
Proof. intros Hc. apply (co_sems _ _ _ _ Hc). Qed.

Lemma enter_op w : core regs names [] w → sem_wait CLIENT_INVITE_OP_SEM w = Ret () (set_sems (op_sems w) w).
Proof. intros Hc. by rewrite (sem_wait_run _ 1) by (first [by apply le_op|lia]). Qed.

Lemma peers_kept w w' :
  core regs names [] w →
  (∀ p c, p ∈ regs → w_clients w !! p = Some c → ∃ c', w_clients w' !! p = Some c' ∧ same_peer c c') →
  peers regs w w'.
Proof.
  intros Hc Hfd p Hp. destruct (mo_regs _ _ _ _ (co_mem _ _ _ _ Hc) p Hp) as [c Hcp].
  destruct (Hfd p c Hp Hcp) as (c' & Hcp' & Hf & _).
  by rewrite (fd_of_lookup w p c Hcp), (fd_of_lookup w' p c' Hcp').
Qed.

(** Out of the section with new heaps and the same descriptors. *)
Lemma leave_change {A} i (r : A) w w' l (Q : A → world → Prop) :
  core regs names [] w → w_sems w !! i = Some 1 →
  mem_ok regs names [] (mem_of w') → rated (mem_of w') →
  w_sems w' = <[i := 1 - 1]> (w_sems w) → quiet w w' → told w w' l →
  (∀ p c, p ∈ regs → w_clients w !! p = Some c → ∃ c', w_clients w' !! p = Some c' ∧ same_peer c c') →
  (∀ w'', mem_of w'' = mem_of w' → told w w'' l → Q r w'') →
  safe_from regs names (sem_post i;; mret r) w w' Q.
Proof.
  intros Hc Hi Hm Hr Hs Hq Ht Hfd HQ. unfold safe_from, wp. rewrite (leave_section i r w) by done.
  split; [done|]. split; [exact Hq|]. split; [by apply peers_kept|]. split; [|by apply HQ].
  apply (core_change regs names [] [] w); [done|exact Hm|exact Hr|done|exact Hq| |].
  - intros p c Hp Hw. split; [done|]. by apply Hfd.
  - intros p Hp. by apply (mo_regs _ _ _ _ (co_mem _ _ _ _ Hc)).
Qed.

(** Back out of the section with the heaps as they were. *)
Lemma leave_same {A} i (r : A) w w' l (Q : A → world → Prop) :
  core regs names [] w → w_sems w !! i = Some 1 →
  mem_of w' = mem_of w → w_sems w' = <[i := 1 - 1]> (w_sems w) → quiet w w' → told w w' l →
  (∀ w'', mem_of w'' = mem_of w → told w w'' l → Q r w'') →
  safe_from regs names (sem_post i;; mret r) w w' Q.
Proof.
  intros Hc Hi Hm Hs Hq Ht HQ. eapply leave_change; try done.
  - rewrite Hm. apply Hc.
  - rewrite Hm. apply Hc.
  - intros p c _ Hp. exists c. by rewrite (mem_clients _ _ Hm).
  - intros w'' Hm'. apply HQ. congruence.
Qed.

(** Descriptors after a removal. *)
Lemma drop_inv_fd q s t g cs ct m p c :
  m_clients m !! s = Some cs → m_clients m !! t = Some ct → m_clients m !! p = Some c →
  ∃ c', m_clients (drop_inv q s t g cs ct m) !! p = Some c' ∧ same_peer c c'.
Proof.
  intros Hs Ht Hp. cbn. unfold upd2.
  destruct (drop_node_fields q cs) as (_ & Hrs & Hfs & _ & Hps & _).
  destruct (drop_node_fields q ct) as (_ & Hrt & Hft & _ & Hpt & _).
  destruct (decide (p = t)) as [->|]; [rewrite lookup_insert_eq; eexists; split; [done|split_and!; cbn; congruence]|].
  rewrite lookup_insert_ne by done.
  destruct (decide (p = s)) as [->|]; [rewrite lookup_insert_eq; eexists; split; [done|split_and!; cbn; congruence]|].
  rewrite lookup_insert_ne by done. eauto.
Qed.

(** A registered client as the operations find it. *)
Lemma registered_client w p :
  core regs names [] w → p ∈ regs → ∃ c k, w_clients w !! p = Some c ∧ client_wf regs names (mem_of w) p c ∧
    w_net w !! c_fd c = Some k ∧ writable k.
Proof.
  intros Hc Hp. destruct (co_open _ _ _ _ Hc p Hp) as (c & k & Hw & Hk & Hwr & _). exists c, k.
  split; [done|]. split; [|done]. by apply (mo_clients _ _ _ _ (co_mem _ _ _ _ Hc)).
Qed.

(** The parties of an invitation that is not closed. *)
Lemma open_party w q i p :
  core regs names [] w → w_invs w !! q = Some i → i_state i ≠ INV_CLOSED_STATE →
  p = i_source i ∨ p = i_target i →
  p ∈ regs ∧ ∃ c k, w_clients w !! p = Some c ∧ q ∈ node_invs c ∧ client_wf regs names (mem_of w) p c ∧
    c_logged_in c = CLIENT_LOGGED_IN ∧ w_net w !! c_fd c = Some k ∧ writable k.
Proof.
  intros Hc Hq Hs Hp. pose proof (co_mem _ _ _ _ Hc) as Hm.
  destruct (iw_open _ _ _ (mo_invs _ _ _ _ Hm q i Hq) Hs p Hp) as [(c & Hcp & Hin) (c' & Hcp' & Hon)].
  rewrite Hcp in Hcp'. injection Hcp' as <-.
  destruct (cw_logged_in _ _ _ _ _ (mo_clients _ _ _ _ Hm p c Hcp) Hon) as [_ Hr]. split; [done|].
  destruct (registered_client w p Hc Hr) as (c0 & k & Hc0 & Hwf & Hk & Hwr).
  change (w_clients w !! p = Some c) in Hcp. rewrite Hcp in Hc0. injection Hc0 as <-. exists c, k. auto 10.
Qed.

Lemma inv_key w q i : core regs names [] w → w_invs w !! q = Some i → q ≠ NULL.
Proof.
  intros Hc Hq. assert (0 < q < w_brk w)%nat; [|unfold NULL; lia].
  apply (mo_inv_keys _ _ _ _ (co_mem _ _ _ _ Hc)). by exists i.
Qed.
(** ** Revoking and declining *)

(** The heaps after [inv_close] on an open invitation and a notification. *)
Lemma closing_open w w' q i :
  core regs names [] w → w_invs w !! q = Some i → i_state i = INV_OPEN_STATE →
  mem_of w' = mem_of (upd_inv q (i_set_state INV_CLOSED_STATE i) w) →
  closing (mem_of w) q i (i_set_state INV_CLOSED_STATE i) w'.
Proof.
  intros Hc Hq Hs Hm. pose proof (co_mem _ _ _ _ Hc) as Hmem.
  pose proof (mo_invs _ _ _ _ Hmem q i Hq) as [_ _ _ _ Hst Ho]. rewrite Hs in Hst.
  assert (i_state i ≠ INV_CLOSED_STATE) as Hnc by congruence.
  destruct (Ho Hnc _ (or_introl eq_refl)) as [(cs & Hcs & Hqs) _].
  destruct (Ho Hnc _ (or_intror eq_refl)) as [(ct & Hct & Hqt) _].
  unfold mem_of in Hm. cbn in Hm. injection Hm as E1 E2 E3 E4 E5.
  split; try done. 2: { left. done. }
  cbn. by apply (inv_count_two _ _ _ _ _ _ _ Hmem Hq Hcs Hct).
Qed.

(** Both lists lose the invitation. *)
Lemma close_open_both w w3 q i p o cp co :
  core regs names [] w → w_invs w !! q = Some i → i_state i = INV_OPEN_STATE →
  mem_of w3 = mem_of (upd_inv q (i_set_state INV_CLOSED_STATE i) w) →
  w_sems w3 = op_sems w → quiet w w3 →
  (i_source i = p ∧ i_target i = o) ∨ (i_source i = o ∧ i_target i = p) →
  w_clients w !! p = Some cp → q ∈ node_invs cp → p ∈ regs →
  w_clients w !! o = Some co → q ∈ node_invs co → o ∈ regs →
  ∃ id1 id2 w4 w5, id1 ≠ -1 ∧ id2 ≠ -1 ∧
    client_remove_invitation p q w3 = Ret id1 w4 ∧ client_remove_invitation o q w4 = Ret id2 w5 ∧
    w_sems w5 = op_sems w ∧ quiet w w5 ∧ w_net w5 = w_net w3 ∧
    mem_of w5 = drop_inv q p o (i_game i) cp co (mem_of w) ∧ mem_ok regs names [] (mem_of w5).
Proof.
  intros Hc Hq Hs Hm3 Hsem Hqt Hpo Hp Hqp Hpr Ho Hqo Hor.
  destruct (remove_both_run regs names (mem_of w) q i (i_set_state INV_CLOSED_STATE i) w3 p o cp co)
    as (id1 & id2 & w4 & w5 & H1 & H2 & (E4 & S4 & Q4) & (E5 & S5 & Q5) & Hn5 & Hm5 & Hok); try done.
  - apply Hc.
  - by apply closing_open.
  - rewrite Hsem. apply op_sems_other; [apply Hc|by left].
  - exists id1, id2, w4, w5. split; [lia|]. split; [lia|]. split; [done|]. split; [done|].
    split; [congruence|]. split; [by trans w3; [done|trans w4]|done].
Qed.

(** One list only: the other side keeps a closed invitation. *)
Lemma close_open_one w w3 q i p cp :
  core regs names [] w → w_invs w !! q = Some i → i_state i = INV_OPEN_STATE →
  mem_of w3 = mem_of (upd_inv q (i_set_state INV_CLOSED_STATE i) w) →
  w_sems w3 = op_sems w → quiet w w3 →
  w_clients w !! p = Some cp → q ∈ node_invs cp →
  ∃ id1 w4, id1 ≠ -1 ∧ client_remove_invitation p q w3 = Ret id1 w4 ∧
    client_remove_invitation p q w4 = Ret (-1) w4 ∧
    w_sems w4 = op_sems w ∧ quiet w w4 ∧ w_net w4 = w_net w3 ∧
    mem_of w4 = close_one q p cp i (mem_of w) ∧ mem_ok regs names [] (mem_of w4).
Proof.
  intros Hc Hq Hs Hm3 Hsem Hqt Hp Hqp. pose proof (co_mem _ _ _ _ Hc) as Hmem.
  destruct (mo_clients _ _ _ _ Hmem p cp Hp) as [Hl Hok _ _ Hused _ Hnd _ _ _ _ _].
  pose proof (closing_open w w3 q i Hc Hq Hs Hm3) as [_ _ _ Hcount Hb Hcl Hpl Hinv _ Hg].
  assert (w_sems w3 !! CLIENT_INVITE_SEM = Some 1) as Hs2
    by (rewrite Hsem; apply op_sems_other; [apply Hc|by left]).
  destruct (client_remove_keep_run p cp q (i_set_state INV_CLOSED_STATE i) w3)
    as (id1 & Hid1 & E1); try done.
  - rewrite Hcl. exact Hp.
  - intros id. apply Hused.
  - rewrite Hinv. apply lookup_insert_eq.
  - cbn in Hcount |- *. by rewrite Hcount.
  - eexists id1, _. split; [lia|]. split; [exact E1|].
    assert (mem_of (upd_client p (drop_node q cp)
      (upd_inv q (i_set_ref_count (i_ref_count i - 1) (i_set_state INV_CLOSED_STATE i)) w3)) =
      close_one q p cp i (mem_of w)) as Em.
    { unfold mem_of, close_one. cbn. rewrite Hb, Hcl, Hpl, Hinv, insert_insert_eq.
      destruct Hg as [[_ ->]|(Hg & _)]; [done|]. exfalso. apply Hg.
      pose proof (iw_state _ _ _ (mo_invs _ _ _ _ Hmem q i Hq)) as Hst. by rewrite Hs in Hst. }
    split.
    { apply (client_remove_none_run p (drop_node q cp)); [apply lookup_insert_eq| |exact Hs2].
      rewrite drop_node_invs by done. tauto. }
    split; [exact Hsem|]. split; [exact Hqt|]. split; [done|]. split; [exact Em|].
    cbn in Em |- *. rewrite Em. by apply close_one_ok.
Qed.
(** A registered client as a later call of the same operation finds it. *)
Lemma peer_conn w w' o c c' :
  core regs names [] w → o ∈ regs → w_clients w !! o = Some c → w_clients w' !! o = Some c' →
  same_peer c c' → c_lock c' = c_lock c → quiet w w' →
  w_oom w' = [] ∧ fd_of w o = c_fd c' ∧ c_lock c' = false ∧ ∃ k, w_net w' !! c_fd c' = Some k ∧ writable k.
Proof.
  intros Hc Ho Hco Hco' (Hfd & _) Hl (Eoom & _ & _ & _ & Hnet).
  destruct (registered_client w o Hc Ho) as (c0 & k & Hc0 & Hwf & Hk & Hw). simplify_eq.
  destruct (Hnet _ _ Hk) as (k' & Hk' & Hw' & _). split; [rewrite Eoom; apply Hc|].
  split; [by rewrite (fd_of_lookup w o c Hco)|]. split; [rewrite Hl; apply Hwf|].
  exists k'. rewrite Hfd. auto.
Qed.

(** Sending a packet to it. *)
Lemma peer_run w w' o c c' type id role data size :
  core regs names [] w → o ∈ regs → w_clients w !! o = Some c → w_clients w' !! o = Some c' →
  same_peer c c' → c_lock c' = c_lock c → quiet w w' → size = data_len data →
  ∃ r w2, (pkt ← create_header type id role size; client_send_packet o pkt data) w' = Ret r w2 ∧
    w_sems w2 = w_sems w' ∧ quiet w' w2 ∧ mem_of w2 = mem_of w' ∧ told w' w2 [note w o type id role data] ∧
    (notice_ok (note w o type id role data) → r = 0).
Proof.
  intros Hc Ho Hco Hco' Hp Hl Hq Hsz.
  destruct (peer_conn w w' o c c' Hc Ho Hco Hco' Hp Hl Hq) as (Hoom & Hfd & Hl' & k & Hk & Hw).
  destruct (packet_sends o c' k (note w o type id role data) size w') as (r & w2 & (E & S2 & Q2) & Hm & Ht & Hr);
    try done. by exists r, w2.
Qed.

(** To a party of an invitation, before the clients change. *)
Lemma notify_run w w' q i o type id role data size :
  core regs names [] w → w_invs w !! q = Some i → i_state i ≠ INV_CLOSED_STATE →
  o = i_source i ∨ o = i_target i → w_clients w' = w_clients w → quiet w w' →
  size = data_len data → notice_ok (note w o type id role data) →
  ∃ w2, (pkt ← create_header type id role size; client_send_packet o pkt data) w' = Ret 0 w2 ∧
    w_sems w2 = w_sems w' ∧ quiet w' w2 ∧ mem_of w2 = mem_of w' ∧ told w' w2 [note w o type id role data].
Proof.
  intros Hc Hq Hs Ho Hcl Hqt Hsz Hok.
  destruct (open_party w q i o Hc Hq Hs Ho) as (Hor & c & _ & Hco & _).
  destruct (peer_run w w' o c c type id role data size) as (r & w2 & E & S2 & Q2 & M2 & T2 & Hr);
    [done|done|done|by rewrite Hcl|done|done|done|done|]. rewrite (Hr Hok) in E. by exists w2.
Qed.

Lemma wp_notify {A} w w2 o type id role size data r (k : Z → M A) Q :
  (pkt ← create_header type id role size; client_send_packet o pkt data) w = Ret r w2 →
  wp (k r) w2 Q →
  wp (pkt ← create_header type id role size; s ← client_send_packet o pkt data; k s) w Q.
Proof. intros E HQ. refine (_ (wp_step _ k _ _ _ Q E HQ)). unfold wp. by rewrite bind_assoc. Qed.

(** The invitation a client knows by an identifier, and its contents. *)
Definition invitation_of (p : ptr) (id : Z) w : option (ptr * INVITATION) :=
  c ← w_clients w !! p; i ← w_invs w !! known_as c id; Some (known_as c id, i).

(** The start of a request: what the identifier stands for. *)
Lemma find_party w p id :
  core regs names [] w → p ∈ regs →
  let w0 := set_sems (op_sems w) w in
  ∃ c, w_clients w !! p = Some c ∧ client_get_invitation p id w0 = Ret (known_as c id) w0 ∧
    ((known_as c id = NULL ∧ w_invs w !! known_as c id = None ∧ invitation_of p id w = None) ∨
     (known_as c id ≠ NULL ∧
      ∃ i, w_invs w !! known_as c id = Some i ∧ (i_source i = p ∨ i_target i = p) ∧
        invitation_of p id w = Some (known_as c id, i))).
Proof.
  intros Hc Hp w0. destruct (registered_client w p Hc Hp) as (c & k & Hcp & Hwf & _).
  exists c. split; [done|]. split; [apply (get_invitation_run p c id w0 Hcp (cw_lock _ _ _ _ _ Hwf))|].
  destruct (known_as_in c id) as [Hq|Hq]; [left|right].
  - rewrite Hq. split; [done|]. unfold invitation_of. rewrite Hcp. cbn. rewrite Hq.
    destruct (w_invs w !! NULL) eqn:E; [|done]. by destruct (inv_key _ _ _ Hc E).
  - destruct (cw_invs _ _ _ _ _ Hwf _ Hq) as (i & Hi & Hpi). split; [by eapply inv_key|]. exists i.
    split; [done|]. split; [done|]. unfold invitation_of. rewrite Hcp. cbn. cbn in Hi. by rewrite Hi.
Qed.

(** The end of a request that is refused. *)
Lemma op_fail {A} w (r : A) (Q : A → world → Prop) :
  core regs names [] w → (∀ w'', mem_of w'' = mem_of w → told w w'' [] → Q r w'') →
  safe_from regs names (sem_post CLIENT_INVITE_OP_SEM;; mret r) w (set_sems (op_sems w) w) Q.
Proof. intros Hc HQ. eapply leave_same; try done; [by apply le_op|apply (reflexivity (R:=quiet) w)|by apply told_none]. Qed.

Lemma inv_get_target_run q i w : q ≠ NULL → w_invs w !! q = Some i → inv_get_target q w = Ret (i_target i) w.
Proof. intros Hn Hq. unfold inv_get_target. rewrite decide_False by done. by run load_inv_run. Qed.
Lemma inv_get_source_run q i w : q ≠ NULL → w_invs w !! q = Some i → inv_get_source q w = Ret (i_source i) w.
Proof. intros Hn Hq. unfold inv_get_source. rewrite decide_False by done. by run load_inv_run. Qed.
Lemma inv_get_game_run q i w : q ≠ NULL → w_invs w !! q = Some i → inv_get_game q w = Ret (i_game i) w.
Proof. intros Hn Hq. unfold inv_get_game. rewrite decide_False by done. by run load_inv_run. Qed.

Lemma inv_get_source_role_run q i w :
  w_invs w !! q = Some i → inv_get_source_role q w = Ret (i_source_role i) w.
Proof. intros Hq. unfold inv_get_source_role. by run load_inv_run. Qed.
Lemma inv_get_target_role_run q i w :
  w_invs w !! q = Some i → inv_get_target_role q w = Ret (i_target_role i) w.
Proof. intros Hq. unfold inv_get_target_role. by run load_inv_run. Qed.

(** Games behind a pointer. *)
Lemma unparse_at_run g v w :
  w_oom w = [] → w_games w !! g = Some v → game_unparse_state_at g w = Ret (game_unparse_state v) w.
Proof.
  intros Ho Hg. unfold game_unparse_state_at. run calloc_unchecked_run by exact Ho. by run (load_run (V:=GAME)).
Qed.
Lemma parse_at_run g v role str w :
  w_oom w = [] → w_games w !! g = Some v → game_parse_move_at g role str w = Ret (game_parse_move v role str) w.
Proof. intros Ho Hg. unfold game_parse_move_at. run calloc_run by exact Ho. by run (load_run (V:=GAME)). Qed.
Lemma set_game_id g v w : w_games w !! g = Some v → set_games (<[g := v]> (w_games w)) w = w.
Proof. intros Hg. apply world_ext; try done. unfold mem_of. cbn. by rewrite insert_id. Qed.

Lemma no_game_at_null w : core regs names [] w → w_games w !! NULL = None.
Proof.
  intros Hc. destruct (w_games w !! NULL) eqn:E; [|done]. exfalso.
  assert (0 < NULL < w_brk w)%nat; [|unfold NULL in *; lia].
  apply (mo_game_keys _ _ _ _ (co_mem _ _ _ _ Hc)). by eexists.
Qed.

Lemma game_not_null w p g : core regs names [] w → m_games (mem_of w) !! p = Some g → p ≠ NULL.
Proof. intros Hc Hg ->. change (w_games w !! NULL = Some g) in Hg. by rewrite no_game_at_null in Hg. Qed.

Lemma rated_drop q s t g cs ct m : rated m → rated (drop_inv q s t g cs ct m).
Proof.
  intros Hr. apply (rated_mono m); [done|done|]. cbn. case_decide; [lia|].
  destruct (m_games m !! g) as [v|] eqn:E.
  - assert (size (delete g (m_games m)) = pred (size (m_games m))) by (apply map_size_delete_Some; by exists v). lia.
  - rewrite delete_id by done. lia.
Qed.

(** Out of a request that removed the invitation from both lists, starting
    from the heaps [m]. *)
Lemma leave_dropped {A} m (r : A) w w' q s t g cs ct l (Q : A → world → Prop) :
  core regs names [] w → m_clients m = w_clients w → rated m →
  w_sems w' = op_sems w → quiet w w' → told w w' l →
  w_clients w !! s = Some cs → w_clients w !! t = Some ct →
  mem_of w' = drop_inv q s t g cs ct m → mem_ok regs names [] (mem_of w') →
  (∀ w'', mem_of w'' = drop_inv q s t g cs ct m → told w w'' l → Q r w'') →
  safe_from regs names (sem_post CLIENT_INVITE_OP_SEM;; mret r) w w' Q.
Proof.
  intros Hc Hmc Hr Hs Hq Ht Hcs Hct Hm Hok HQ. eapply leave_change; try done; [by apply le_op| | |].
  - rewrite Hm. by apply rated_drop.
  - intros p c _ Hp. rewrite (mem_clients _ _ Hm). rewrite <-Hmc in *. by eapply drop_inv_fd.
  - intros w'' Hm''. apply HQ. congruence.
Qed.

(** Out of a request that removed it from one list. *)
Lemma leave_closed_one {A} (r : A) w w' q p c i l (Q : A → world → Prop) :
  core regs names [] w →
  w_sems w' = op_sems w → quiet w w' → told w w' l →
  w_clients w !! p = Some c →
  mem_of w' = close_one q p c i (mem_of w) → mem_ok regs names [] (mem_of w') →
  (∀ w'', mem_of w'' = close_one q p c i (mem_of w) → told w w'' l → Q r w'') →
  safe_from regs names (sem_post CLIENT_INVITE_OP_SEM;; mret r) w w' Q.
Proof.
  intros Hc Hs Hq Ht Hcp Hm Hok HQ. eapply leave_change; try done; [by apply le_op| | |].
  - rewrite Hm. by apply (rated_mono (mem_of w)); [apply Hc|done|].
  - intros x cx _ Hx. rewrite (mem_clients _ _ Hm). cbn. destruct (decide (x = p)) as [->|].
    + rewrite lookup_insert_eq. destruct (drop_node_fields q c) as (_ & Hr & Hf & _ & Hpl & _).
      eexists. split; [done|split_and!; congruence].
    + rewrite lookup_insert_ne by done. exists cx. done.
  - intros w'' Hm''. apply HQ. congruence.
Qed.

(** What revoking does.  An open invitation of which the client is the
    source is closed, freed and taken off both lists; one of which it is the
    target is closed too, but stays on the list of the source, and the answer
    is an error; anything else is an error that changes nothing. *)
Definition revoke_spec (p : ptr) (id : Z) (w : world) (r : Z) (w' : world) : Prop :=
  ∃ c, w_clients w !! p = Some c ∧
  match w_invs w !! known_as c id with
  | Some i =>
      if decide (i_state i = INV_OPEN_STATE) then
        if decide (i_source i = p) then
          r = 0 ∧ ∃ ct, w_clients w !! i_target i = Some ct ∧
            mem_of w' = drop_inv (known_as c id) p (i_target i) NULL c ct (mem_of w)
        else r = -1 ∧ mem_of w' = close_one (known_as c id) p c i (mem_of w)
      else r = -1 ∧ mem_of w' = mem_of w
  | None => r = -1 ∧ mem_of w' = mem_of w
  end.

(** What declining does: the same with the sides exchanged, but a source that
    declines its own invitation is told that it succeeded. *)
Definition decline_spec (p : ptr) (id : Z) (w : world) (r : Z) (w' : world) : Prop :=
  ∃ c, w_clients w !! p = Some c ∧
  match w_invs w !! known_as c id with
  | Some i =>
      if decide (i_state i = INV_OPEN_STATE) then
        if decide (i_target i = p) then
          r = 0 ∧ ∃ cs, w_clients w !! i_source i = Some cs ∧
            mem_of w' = drop_inv (known_as c id) p (i_source i) NULL c cs (mem_of w)
        else r = 0 ∧ mem_of w' = close_one (known_as c id) p c i (mem_of w)
      else r = -1 ∧ mem_of w' = mem_of w
  | None => r = -1 ∧ mem_of w' = mem_of w
  end.

(** Whom they tell: the target that an open invitation is revoked, the source
    that it is declined, whoever asks. *)
Definition revoke_notices (p : ptr) (id : Z) w : list NOTICE :=
  if invitation_of p id w is Some (q, i) then
    if decide (i_state i = INV_OPEN_STATE)
    then [note w (i_target i) JEUX_REVOKED_PKT (id_for w (i_target i) q) 0 None] else []
  else [].

Definition decline_notices (p : ptr) (id : Z) w : list NOTICE :=
  if invitation_of p id w is Some (q, i) then
    if decide (i_state i = INV_OPEN_STATE)
    then [note w (i_source i) JEUX_DECLINED_PKT (id_for w (i_source i) q) 0 None] else []
  else [].

Lemma open_no_game w q i : core regs names [] w → w_invs w !! q = Some i →
  i_state i = INV_OPEN_STATE → i_game i = NULL.
Proof.
  intros Hc Hi Hs. pose proof (iw_state _ _ _ (mo_invs _ _ _ _ (co_mem _ _ _ _ Hc) q i Hi)) as H1.
  by rewrite Hs in H1.
Qed.

Lemma client_revoke_safe w p id :
  core regs names [] w → p ∈ regs → safe regs names (client_revoke_invitation p id) w
    (λ r w', revoke_spec p id w r w' ∧ told w w' (revoke_notices p id w)).
Proof.
  intros Hc Hp. unfold safe, safe_from, client_revoke_invitation, client_revoke_invitation'.
  step enter_op. set (w0 := set_sems _ w).
  destruct (find_party w p id Hc Hp) as (c & Hcp & Eq & Hq). unfold revoke_spec, revoke_notices.
  step Eq. set (q := known_as c id) in *.
  destruct Hq as [(Hq0 & Hn & Eio)|(Hq0 & i & Hi & Hpi & Eio)]; rewrite Eio.
  { rewrite Hq0. step inv_close_null_run. apply op_fail; [done|]. intros w'' Hm Ht. split; [|done]. exists c.
    fold q. by rewrite Hn. }
  destruct (decide (i_state i = INV_OPEN_STATE)) as [Hs|Hs].
  2: { assert (inv_close q NULL_ROLE w0 = Ret (-1) w0) as E.
       { eapply inv_close_fail_run; [done|exact Hi|]. destruct (i_state i); tauto. }
       step E. apply op_fail; [done|]. intros w'' Hm Ht. split; [|done].
       exists c. fold q. rewrite Hi. by rewrite decide_False by done. }
  pose proof (open_no_game w q i Hc Hi Hs) as Hg.
  assert (i_state i ≠ INV_CLOSED_STATE) as Hnc by congruence.
  step inv_close_open_run by (first [exact Hi|done]).
  set (w1 := upd_inv q (i_set_state INV_CLOSED_STATE i) w0).
  step (inv_get_target_run q (i_set_state INV_CLOSED_STATE i)) by (first [apply upd_inv_lookup|done]).
  cbn [i_set_state i_target].
  destruct (open_party w q i _ Hc Hi Hnc (or_intror eq_refl)) as (Htr & ct & kt & Hct & Hqt & Hwft & _).
  step (get_invitation_id_run (i_target i) ct q w1 w) by (first [done|apply Hwft]).
  destruct (notify_run w w1 q i (i_target i) JEUX_REVOKED_PKT (id_for w (i_target i) q) 0 None 0)
    as (w2 & E2 & S2 & Q2 & M2 & T2); [done|done|done|by right|done|exact (reflexivity (R:=quiet) w)|done|done|].
  eapply wp_notify; [exact E2|]. norm.
  destruct (decide (i_source i = p)) as [Hsp|Hsp].
  - destruct (open_party w q i p Hc Hi Hnc (or_introl (eq_sym Hsp))) as (_ & cp & kp & Hcp' & Hqp & _).
    rewrite Hcp in Hcp'. injection Hcp' as <-.
    destruct (close_open_both w w2 q i p (i_target i) c ct)
      as (id1 & id2 & w4 & w5 & H1 & H2 & E4 & E5 & S5 & Q5 & N5 & M5 & Hok); try done; [by left|].
    step E4. destruct (Z.eqb_spec id1 (-1)); [done|]. step E5. destruct (Z.eqb_spec id2 (-1)); [done|].
    rewrite Hg in M5. eapply (leave_dropped (mem_of w) 0 w w5 q p (i_target i) NULL c ct); try done;
      [apply Hc|by eapply told_until|].
    intros w'' Hm Ht. split; [|exact Ht]. exists c. fold q. rewrite Hi, Hs. rewrite !decide_True by done. eauto.
  - destruct Hpi as [?|Htp]; [done|]. rewrite <-Htp in *.
    rewrite Hcp in Hct. injection Hct as <-.
    destruct (close_open_one w w2 q i (i_target i) c)
      as (id1 & w4 & H1 & E4 & E5 & S4 & Q4 & N4 & M4 & Hok); try done.
    step E4. destruct (Z.eqb_spec id1 (-1)); [done|]. step E5.
    eapply (leave_closed_one (-1) w w4 q (i_target i) c i); try done; [by eapply told_until|].
    intros w'' Hm Ht. split; [|exact Ht]. exists c. fold q. rewrite Hi, Hs. rewrite decide_True by done. by rewrite decide_False by done.
Qed.

Lemma client_decline_safe w p id :
  core regs names [] w → p ∈ regs → safe regs names (client_decline_invitation p id) w
    (λ r w', decline_spec p id w r w' ∧ told w w' (decline_notices p id w)).
Proof.
  intros Hc Hp. unfold safe, safe_from, client_decline_invitation, client_decline_invitation'.
  step enter_op. set (w0 := set_sems _ w).
  destruct (find_party w p id Hc Hp) as (c & Hcp & Eq & Hq). unfold decline_spec, decline_notices.
  step Eq. set (q := known_as c id) in *.
  destruct Hq as [(Hq0 & Hn & Eio)|(Hq0 & i & Hi & Hpi & Eio)]; rewrite Eio.
  { rewrite Hq0. step inv_close_null_run. apply op_fail; [done|]. intros w'' Hm Ht. split; [|done]. exists c.
    fold q. by rewrite Hn. }
  destruct (decide (i_state i = INV_OPEN_STATE)) as [Hs|Hs].
  2: { assert (inv_close q NULL_ROLE w0 = Ret (-1) w0) as E.
       { eapply inv_close_fail_run; [done|exact Hi|]. destruct (i_state i); tauto. }
       step E. apply op_fail; [done|]. intros w'' Hm Ht. split; [|done].
       exists c. fold q. rewrite Hi. by rewrite decide_False by done. }
  pose proof (open_no_game w q i Hc Hi Hs) as Hg.
  assert (i_state i ≠ INV_CLOSED_STATE) as Hnc by congruence.
  step inv_close_open_run by (first [exact Hi|done]).
  set (w1 := upd_inv q (i_set_state INV_CLOSED_STATE i) w0).
  step (inv_get_source_run q (i_set_state INV_CLOSED_STATE i)) by (first [apply upd_inv_lookup|done]).
  cbn [i_set_state i_source].
  destruct (open_party w q i _ Hc Hi Hnc (or_introl eq_refl)) as (Hsr & cs & ks & Hcs & Hqs & Hwfs & _).
  step (get_invitation_id_run (i_source i) cs q w1 w) by (first [done|apply Hwfs]).
  destruct (notify_run w w1 q i (i_source i) JEUX_DECLINED_PKT (id_for w (i_source i) q) 0 None 0)
    as (w2 & E2 & S2 & Q2 & M2 & T2); [done|done|done|by left|done|exact (reflexivity (R:=quiet) w)|done|done|].
  eapply wp_notify; [exact E2|]. norm.
  destruct (decide (i_target i = p)) as [Htp|Htp].
  - destruct (open_party w q i p Hc Hi Hnc (or_intror (eq_sym Htp))) as (_ & cp & kp & Hcp' & Hqp & _).
    rewrite Hcp in Hcp'. injection Hcp' as <-.
    destruct (close_open_both w w2 q i p (i_source i) c cs)
      as (id1 & id2 & w4 & w5 & H1 & H2 & E4 & E5 & S5 & Q5 & N5 & M5 & Hok); try done; [by right|].
    step E4. step E5. rewrite Hg in M5.
    eapply (leave_dropped (mem_of w) 0 w w5 q p (i_source i) NULL c cs); try done;
      [apply Hc|by eapply told_until|].
    intros w'' Hm Ht. split; [|exact Ht]. exists c. fold q. rewrite Hi, Hs. rewrite !decide_True by done. eauto.
  - destruct Hpi as [Hsp|?]; [|done]. rewrite <-Hsp in *.
    rewrite Hcp in Hcs. injection Hcs as <-.
    destruct (close_open_one w w2 q i (i_source i) c)
      as (id1 & w4 & H1 & E4 & E5 & S4 & Q4 & N4 & M4 & Hok); try done.
    step E4. step E5. eapply (leave_closed_one 0 w w4 q (i_source i) c i); try done; [by eapply told_until|].
    intros w'' Hm Ht. split; [|exact Ht]. exists c. fold q. rewrite Hi, Hs. rewrite decide_True by done. by rewrite decide_False by done.
Qed.

(** ** Accepting *)

Lemma accept_core w q i w' :
  core regs names [] w → w_invs w !! q = Some i → i_state i = INV_OPEN_STATE →
  mem_of w' = accept_inv q i (mem_of w) → mem_ok regs names [] (mem_of w').
Proof. intros Hc Hi Hs ->. apply accept_inv_ok; [apply Hc|done..]. Qed.

(** What accepting does: the target of an open invitation starts the game,
    and gets the initial board when it moves first; nobody else can. *)
Definition accept_spec (p : ptr) (id : Z) (w : world) (r : Z * option (list byte)) (w' : world) : Prop :=
  ∃ c, w_clients w !! p = Some c ∧
  match w_invs w !! known_as c id with
  | Some i =>
      if decide (i_target i = p ∧ i_state i = INV_OPEN_STATE) then
        r = (0, if decide (i_target_role i = FIRST_PLAYER_ROLE)
                then Some (game_unparse_state game_create) else None) ∧
        mem_of w' = accept_inv (known_as c id) i (mem_of w)
      else r = (-1, None) ∧ mem_of w' = mem_of w
  | None => r = (-1, None) ∧ mem_of w' = mem_of w
  end.

(** The source is told, with the initial board when it moves first. *)
Definition accept_notices (p : ptr) (id : Z) w : list NOTICE :=
  if invitation_of p id w is Some (q, i) then
    if decide (i_target i = p ∧ i_state i = INV_OPEN_STATE)
    then [note w (i_source i) JEUX_ACCEPTED_PKT (id_for w (i_source i) q) 0
            (if decide (i_target_role i ≠ FIRST_PLAYER_ROLE) then Some (game_unparse_state game_create) else None)]
    else []
  else [].

Lemma rated_accept w q i : core regs names [] w → rated (accept_inv q i (mem_of w)).
Proof.
  intros Hc. apply (rated_mono (mem_of w)); [apply Hc|done|]. cbn.
  rewrite map_size_insert_None; [lia|].
  apply (fresh_None _ _ (mo_game_keys _ _ _ _ (co_mem _ _ _ _ Hc))).
Qed.

Lemma inv_accept_run q i w :
  q ≠ NULL → w_invs w !! q = Some i → i_state i = INV_OPEN_STATE → w_oom w = [] → w_brk w ≠ 0%nat →
  inv_accept q w = Ret 0 (upd_inv q (i_set_game (w_brk w) (i_set_state INV_ACCEPTED_STATE i))
    (set_brk (S (w_brk w)) (set_games (<[w_brk w := game_create]> (w_games w)) w))).
Proof.
  intros Hn Hq Hs Hoom Hb. unfold inv_accept. rewrite decide_False by done. run load_inv_run.
  rewrite decide_False by naive_solver. run update_inv_run. unfold game_create_at, calloc_obj.
  run calloc_run. set (w1 := upd_inv q _ w).
  assert (alloc game_create w1 = Ret (w_brk w) (set_brk (S (w_brk w1)) (set_games (<[w_brk w := game_create]> (w_games w1)) w1)))
    as E by done. run E.
  run update_inv_run by (cbn; apply lookup_insert_eq). rewrite decide_False by done.
  unfold mret, M_ret. f_equal. apply world_ext; try done. unfold mem_of, w1. cbn.
  by rewrite insert_insert_eq.
Qed.

(** The end of [client_accept_invitation], from [inv_accept] on. *)
Definition accept_rest (inv : ptr) : M (Z * option (list byte)) :=
  r ← inv_accept inv;
  if r =? -1 then sem_post CLIENT_INVITE_OP_SEM;; mret (-1, None) else
  game ← inv_get_game inv;
  source ← inv_get_source inv;
  source_id ← client_get_invitation_id source inv;
  role ← inv_get_target_role inv;
  game_state ← game_unparse_state_at game;
  let first := decide (role ≠ FIRST_PLAYER_ROLE) in
  let strp := if first then None else Some game_state in
  pkt ← create_header JEUX_ACCEPTED_PKT source_id 0 (if first then strlen game_state else 0);
  s ← client_send_packet source pkt (if first then Some game_state else None);
  if s =? -1 then sem_post CLIENT_INVITE_OP_SEM;; mret (-1, strp) else
  sem_post CLIENT_INVITE_OP_SEM;;
  mret (0, strp).

(** The call when the client is the target of an open invitation. *)
Lemma accept_open_safe w q i :
  core regs names [] w → q ≠ NULL → w_invs w !! q = Some i → i_state i = INV_OPEN_STATE →
  let first := decide (i_target_role i ≠ FIRST_PLAYER_ROLE) in
  let board := game_unparse_state game_create in
  safe_from regs names (accept_rest q) w (set_sems (op_sems w) w) (λ r w',
    r = (0, if first then None else Some board) ∧ mem_of w' = accept_inv q i (mem_of w) ∧
    told w w' [note w (i_source i) JEUX_ACCEPTED_PKT (id_for w (i_source i) q) 0 (if first then Some board else None)]).
Proof.
  intros Hc Hq0 Hi Hs first board. unfold safe_from, accept_rest. set (w0 := set_sems _ w).
  assert (w_brk w ≠ 0%nat) as Hb by (pose proof (mo_brk _ _ _ _ (co_mem _ _ _ _ Hc)); cbn in *; lia).
  assert (i_state i ≠ INV_CLOSED_STATE) as Hnc by congruence.
  step (inv_accept_run q i) by (first [exact Hi|exact (co_oom _ _ _ _ Hc)|done]).
  set (i' := i_set_game (w_brk w) (i_set_state INV_ACCEPTED_STATE i)). name_world w1.
  assert (w_invs w1 !! q = Some i') as Hi' by apply upd_inv_lookup.
  step (inv_get_game_run q i') by (first [exact Hi'|done]).
  step (inv_get_source_run q i') by (first [exact Hi'|done]).
  cbn [i' i_set_game i_set_state i_game i_source].
  destruct (open_party w q i _ Hc Hi Hnc (or_introl eq_refl)) as (_ & cs & ks & Hcs & _ & Hwfs & _).
  step (get_invitation_id_run (i_source i) cs q w1 w) by (first [done|apply Hwfs]).
  step (inv_get_target_role_run q i') by exact Hi'. cbn [i' i_set_game i_set_state i_target_role].
  step (unparse_at_run (w_brk w) game_create) by (first [exact (co_oom _ _ _ _ Hc)|apply lookup_insert_eq]).
  fold first board.
  destruct (notify_run w w1 q i (i_source i) JEUX_ACCEPTED_PKT (id_for w (i_source i) q) 0
    (if first then Some board else None) (if first then strlen board else 0)) as (w2 & E2 & S2 & Q2 & M2 & T2);
    [done|done|done|by left|done|exact (reflexivity (R:=quiet) w)|by destruct first|by destruct first|].
  eapply wp_notify; [exact E2|]. norm.
  eapply leave_change; try done; [by apply le_op| | | |by intros w'' Hm; rewrite Hm, M2].
  - rewrite M2. eapply accept_core; [done|exact Hi|done|reflexivity].
  - rewrite M2. by apply (rated_accept w q i).
  - intros p' c' _ Hp'. exists c'. by rewrite (mem_clients _ _ M2).
Qed.

Lemma client_accept_safe w p id :
  core regs names [] w → p ∈ regs → safe regs names (client_accept_invitation p id) w
    (λ r w', accept_spec p id w r w' ∧ told w w' (accept_notices p id w)).
Proof.
  intros Hc Hp. unfold safe, safe_from, client_accept_invitation.
  step enter_op. set (w0 := set_sems _ w).
  destruct (find_party w p id Hc Hp) as (c & Hcp & Eq & Hq). unfold accept_spec, accept_notices.
  step Eq. set (q := known_as c id) in *.
  assert (p ≠ NULL) as Hp0.
  { assert (0 < p < w_brk w)%nat; [|unfold NULL; lia].
    apply (mo_client_keys _ _ _ _ (co_mem _ _ _ _ Hc)). by exists c. }
  destruct Hq as [(Hq0 & Hn & Eio)|(Hq0 & i & Hi & Hpi & Eio)]; rewrite Eio.
  { rewrite Hq0. step (ran_ret (A:=ptr)). rewrite decide_True by done.
    apply op_fail; [done|]. intros w'' Hm Ht. split; [|done]. exists c. fold q. by rewrite Hn. }
  step inv_get_target_run by (first [exact Hi|done]).
  destruct (decide (i_target i ≠ p)) as [Htp|Htp].
  { apply op_fail; [done|]. intros w'' Hm Ht. rewrite decide_False by tauto. split; [|done]. exists c. fold q.
    rewrite Hi. by rewrite decide_False by tauto. }
  apply dec_stable in Htp. destruct (decide (i_state i = INV_OPEN_STATE)) as [Hs|Hs].
  2: { assert (inv_accept q w0 = Ret (-1) w0) as E.
       { unfold inv_accept. rewrite decide_False by done. run load_inv_run by exact Hi.
         by rewrite decide_True by done. }
       step E. apply op_fail; [done|]. intros w'' Hm Ht. rewrite decide_False by tauto. split; [|done]. exists c.
       fold q. rewrite Hi. by rewrite decide_False by tauto. }
  eapply wp_mono; [by apply (accept_open_safe w q i)|].
  intros r w' (Hsem & Hqt & Hpe & Hc' & -> & Hm & Ht). repeat (split; [done|]).
  rewrite (decide_True (P := _ ∧ _)) by done. split; [|done]. exists c. split; [done|]. fold q. rewrite Hi.
  rewrite decide_True by done. split; [|done]. f_equal. repeat case_decide; naive_solver.
Qed.

(** ** Inviting *)

(** A number of allocations for which neither a rating, nor a reference
    count, nor the size of a table of identifiers overflows an [int]. *)
Definition MAX_BRK : Z := 30000000.

Lemma ids_room w p c :
  client_wf regs names (mem_of w) p c → Z.of_nat (w_brk w) ≤ MAX_BRK →
  c_current_id_size c * 2 ≤ INT_MAX.
Proof. intros Hwf Hb. pose proof (cw_size _ _ _ _ _ Hwf) as Hs. cbn in Hs. unfold MAX_BRK, INT_MAX in *. lia. Qed.

Lemma ref_room held w p c :
  core regs names held w → w_clients w !! p = Some c → Z.of_nat (w_brk w) ≤ MAX_BRK → 0 ≤ c_ref_count c < INT_MAX.
Proof.
  intros Hc Hp Hb. pose proof (mo_client_pos _ _ _ _ (co_mem _ _ _ _ Hc) p c Hp).
  pose proof (client_count_small _ _ _ _ p c (co_mem _ _ _ _ Hc) Hp) as Hs. cbn in Hs. unfold MAX_BRK, INT_MAX in *. lia.
Qed.

Lemma online_player w p c :
  core regs names [] w → w_clients w !! p = Some c → c_logged_in c = CLIENT_LOGGED_IN →
  ∃ v, w_players w !! c_player c = Some v.
Proof.
  intros Hc Hp Hon. pose proof (co_mem _ _ _ _ Hc) as Hm.
  destruct (mo_clients _ _ _ _ Hm p c Hp) as [_ _ _ _ _ _ _ _ _ _ Hpl Hlog].
  destruct (Hlog Hon) as [Hn _]. destruct Hpl as [|Hin]; [done|].
  apply (mo_names _ _ _ _ Hm _ Hin).
Qed.

Lemma take_id_some c : ids_ok c → c_current_id_size c * 2 ≤ INT_MAX → ∃ id c', take_id c = Some (id, c') ∧ 0 ≤ id.
Proof. intros Hok Hmax. destruct (take_id_spec c Hok Hmax) as (id & c' & ? & _ & ? & _). eauto. Qed.

(** The two lists are extended: all of the call but the notification. *)
Lemma make_lists_run w s t rs rt cs ct :
  core regs names [] w → s ≠ t → Z.of_nat (w_brk w) ≤ MAX_BRK →
  w_clients w !! s = Some cs → w_clients w !! t = Some ct →
  let w0 := set_sems (op_sems w) w in
  ∃ ids idt cs' ct' w1 w2 w3,
    take_id (add_refs 1 cs) = Some (ids, cs') ∧ take_id (add_refs 1 ct) = Some (idt, ct') ∧
    0 ≤ ids ∧ 0 ≤ idt ∧
    inv_create s t rs rt w0 = Ret (w_brk w) w1 ∧
    client_add_invitation s (w_brk w) w1 = Ret ids w2 ∧
    client_add_invitation t (w_brk w) w2 = Ret idt w3 ∧
    w_sems w3 = w_sems w0 ∧ quiet w w3 ∧ w_net w3 = w_net w ∧
    mem_of w3 = mkMEM (w_brk w + 3)
      (upd2 s t (with_node (w_brk w + 1) ids (w_brk w) cs') (with_node (w_brk w + 2) idt (w_brk w) ct') (w_clients w))
      (<[w_brk w := mkINV INV_OPEN_STATE 3 s t NULL rs rt]> (w_invs w)) (w_games w) (w_players w).
Proof.
  intros Hc Hne Hb Hs Ht w0. pose proof (co_mem _ _ _ _ Hc) as Hm.
  pose proof (mo_clients _ _ _ _ Hm s cs Hs) as Hwfs. pose proof (mo_clients _ _ _ _ Hm t ct Ht) as Hwft.
  pose proof (ids_room w s cs Hwfs Hb) as Hroom. pose proof (ids_room w t ct Hwft Hb) as Hroomt.
  pose proof (cw_lock _ _ _ _ _ Hwfs) as Hls. pose proof (cw_lock _ _ _ _ _ Hwft) as Hlt.
  destruct (take_id_some (add_refs 1 cs) (cw_ids _ _ _ _ _ Hwfs) Hroom) as (ids & cs' & Es & Hids).
  destruct (take_id_some (add_refs 1 ct) (cw_ids _ _ _ _ _ Hwft) Hroomt) as (idt & ct' & Et & Hidt).
  pose proof (mo_brk _ _ _ _ Hm) as Hb0. cbn in Hb0.
  pose proof (op_sems_other w _ (co_sems _ _ _ _ Hc) (or_introl eq_refl)) as Hsem.
  eassert (inv_create s t rs rt w0 = Ret (w_brk w) _) as E1
    by (apply (inv_create_run s t rs rt w0 cs ct); try done; first [apply Hc|by eapply ref_room]).
  match type of E1 with _ = Ret _ ?x => set (w1 := x) in * end.
  destruct (client_add_invitation_run s (add_refs 1 cs) (w_brk w) (mkINV INV_OPEN_STATE 1 s t NULL rs rt) w1)
    as (ids1 & cs1 & Es1 & E2); try done; [by apply upd2_source|apply Hc|apply Hwfs|apply upd_inv_lookup|].
  rewrite Es in Es1. injection Es1 as <- <-.
  match type of E2 with _ = Ret _ ?x => set (w2 := x) in * end.
  destruct (client_add_invitation_run t (add_refs 1 ct) (w_brk w) (mkINV INV_OPEN_STATE 2 s t NULL rs rt) w2)
    as (idt1 & ct1 & Et1 & E3); try done; [| |apply Hwft|apply upd_inv_lookup|].
  { cbn. rewrite lookup_insert_ne by done. apply upd2_target. }
  { apply Hc. }
  rewrite Et in Et1. injection Et1 as <- <-.
  exists ids, idt, cs', ct', w1, w2. eexists. do 4 (split; [done|]). split; [exact E1|].
  split; [exact E2|]. split; [exact E3|]. split; [done|]. split; [exact (reflexivity (R:=quiet) w)|].
  split; [done|]. unfold mem_of, w2, w1. cbn. rewrite !insert_insert_eq.
  f_equal; [lia|]. unfold upd2. rewrite (insert_insert_ne _ s t) by done.
  rewrite !insert_insert_eq. rewrite Nat.add_1_r. do 2 f_equal. f_equal. lia.
Qed.
(** What inviting does: a new open invitation on both lists, under an
    identifier that neither client uses. *)
Definition invite_spec (s t : ptr) (rs rt : GAME_ROLE) (w : world) (r : Z) (w' : world) : Prop :=
  ∃ cs ct cs' ct' idt, w_clients w !! s = Some cs ∧ w_clients w !! t = Some ct ∧
    take_id (add_refs 1 cs) = Some (r, cs') ∧ take_id (add_refs 1 ct) = Some (idt, ct') ∧ 0 ≤ r ∧
    mem_of w' = make_inv s t rs rt cs' ct' r idt (mem_of w).

(** The target is told who invites it, and for which role. *)
Definition new_id w (p : ptr) : Z :=
  default (-1) (c ← w_clients w !! p; fst <$> take_id (add_refs 1 c)).
Definition name_for w (p : ptr) : list byte :=
  default [] (c ← w_clients w !! p; p_name <$> w_players w !! c_player c).
Definition invite_notices (s t : ptr) (rt : GAME_ROLE) w : list NOTICE :=
  [note w t JEUX_INVITED_PKT (new_id w t) (role_int rt) (Some (name_for w s))].

(** What the rest of the server sees of the extended lists. *)
Lemma make_peers w w' s t cs ct cs' ct' a b ids idt x :
  w_clients w !! s = Some cs → w_clients w !! t = Some ct → s ≠ t →
  take_id (add_refs 1 cs) = Some (ids, cs') → take_id (add_refs 1 ct) = Some (idt, ct') →
  w_clients w' = upd2 s t (with_node a ids x cs') (with_node b idt x ct') (w_clients w) →
  ∀ p c, w_clients w !! p = Some c → ∃ c', w_clients w' !! p = Some c' ∧ same_peer c c' ∧ c_lock c' = c_lock c.
Proof.
  intros Hs Ht Hne Es Et Ec p c Hp. rewrite Ec. unfold same_peer.
  destruct (take_id_fields _ _ _ Es) as (Els & Ers & Efs & _ & Eps & _).
  destruct (take_id_fields _ _ _ Et) as (Elt & Ert & Eft & _ & Ept & _).
  destruct (decide (p = t)) as [->|]; [|destruct (decide (p = s)) as [->|]].
  - rewrite upd2_target. eexists. split; [done|]. cbn. rewrite Elt, Ert, Eft, Ept. cbn. by simplify_eq.
  - rewrite upd2_source by done. eexists. split; [done|]. cbn. rewrite Els, Ers, Efs, Eps. cbn. by simplify_eq.
  - exists c. unfold upd2. by rewrite !lookup_insert_ne by done.
Qed.

Lemma client_make_invitation_safe w s t rs rt cs ct :
  core regs names [] w → s ∈ regs → t ∈ regs → s ≠ t → Z.of_nat (w_brk w) ≤ MAX_BRK →
  w_clients w !! s = Some cs → c_logged_in cs = CLIENT_LOGGED_IN →
  w_clients w !! t = Some ct → c_logged_in ct = CLIENT_LOGGED_IN →
  rs ≠ NULL_ROLE → rt = opponent_of rs →
  safe regs names (client_make_invitation s t rs rt) w
    (λ r w', invite_spec s t rs rt w r w' ∧ told w w' (invite_notices s t rt w)).
Proof.
  intros Hc Hsr Htr Hne Hb Hs Hon Ht Hont Hrs Hrt.
  unfold safe, safe_from, client_make_invitation, client_make_invitation'.
  pose proof (co_mem _ _ _ _ Hc) as Hm. pose proof (mo_brk _ _ _ _ Hm) as Hb0. cbn in Hb0.
  step enter_op.
  destruct (make_lists_run w s t rs rt cs ct Hc Hne Hb Hs Ht)
    as (ids & idt & cs' & ct' & w1 & w2 & w3 & Es & Et & Hids & Hidt & E1 & E2 & E3 & S3 & Q3 & N3 & M3).
  step E1. rewrite decide_False by (unfold NULL; lia). step E2.
  destruct (Z.eqb_spec ids (-1)); [lia|]. step E3. destruct (Z.eqb_spec idt (-1)); [lia|].
  pose proof (make_peers w w3 _ _ _ _ _ _ _ _ _ _ _ Hs Ht Hne Es Et (mem_clients _ _ M3)) as Hpeers.
  step (load_client_run s (with_node (w_brk w + 1) ids (w_brk w) cs'))
    by (rewrite (mem_clients _ _ M3); cbn; by apply upd2_source).
  destruct (take_id_fields _ _ _ Es) as (_ & _ & _ & _ & Eps & _ & _).
  cbn [with_node c_set_invites c_player]. rewrite Eps. cbn [add_refs c_set_ref_count c_player].
  destruct (online_player w s cs Hc Hs Hon) as (v & Hv).
  assert (player_get_name_at (c_player cs) w3 = Ret (p_name v) w3) as En.
  { unfold player_get_name_at. by run (load_run (V:=PLAYER)) by (cbn; rewrite (mem_players _ _ M3); exact Hv). }
  step En. destruct (Hpeers t ct Ht) as (ct3 & Ht3 & Hpt & Hlt).
  destruct (peer_run w w3 t ct ct3 JEUX_INVITED_PKT idt (role_int rt) (Some (p_name v)) (strlen (p_name v)))
    as (r & w4 & E4 & S4 & Q4 & M4 & T4 & _); try done.
  eapply wp_notify; [exact E4|].
  rewrite M3 in M4. step (inv_unref_run (w_brk w) (mkINV INV_OPEN_STATE 3 s t NULL rs rt))
    by (first [rewrite (mem_invs _ _ M4); apply lookup_insert_eq|done]).
  name_world w5.
  assert (mem_of w5 = make_inv s t rs rt cs' ct' ids idt (mem_of w)) as M5.
  { unfold w5, upd_inv, set_invs, mem_of, make_inv in *. cbn in *. injection M4 as -> -> -> -> ->.
    by rewrite insert_insert_eq. }
  apply (leave_change _ _ _ _ [note w t JEUX_INVITED_PKT idt (role_int rt) (Some (p_name v))]);
    try done; [by apply le_op| | | | | | |].
  - rewrite M5. apply make_inv_ok with cs ct; try done; 
      first [by eapply ref_room|eapply ids_room; [by apply (mo_clients _ _ _ _ Hm)|done]].
  - rewrite M5. apply (rated_mono (mem_of w)); [apply Hc|done|]. cbn. lia.
  - unfold w5. cbn. by rewrite S4, S3.
  - by trans w3; [|exact Q4].
  - by apply (told_from w w3).
  - intros x cx _ Hx. destruct (Hpeers x cx Hx) as (c' & Hc' & Hp' & _). exists c'. split; [|done].
    rewrite (mem_clients _ _ M3) in Hc'. by rewrite (mem_clients _ _ M5).
  - intros w6 Hm6 Ht6. rewrite M5 in Hm6. split; [by exists cs, ct, cs', ct', idt|].
    unfold invite_notices, new_id, name_for. rewrite Hs, Ht. cbn. by rewrite Et, Hv.
Qed.
End handlers.
