(* ===== verification/Directory.v ===== *)
(** * Finding players: the two registries as the requests use them

    The searches of [preg_register] and [creg_lookup], the references that
    [creg_all_players] takes and its callers drop again, and what they leave
    behind. *)
From S2P Require Import Prelude Game Player World Objects Protocol Wire PlayerRegistry Invitation Client Sessions ClientRegistry Server Accounting Effects Handlers.

(** ** The registry of clients *)

Record creg_wf (r : CLIENT_REGISTRY) : Prop := {
  rw_mutex : cr_mutex r = false;
  rw_length : 0 ≤ cr_length r ≤ MAX_CLIENTS;
  rw_array : Z.of_nat (length (cr_clients r)) = MAX_CLIENTS;
  rw_queue : cr_login_queue r = MAX_CLIENTS - cr_length r;
  rw_sem : 0 ≤ cr_sem r
}.

Lemma lock_creg_run cr r w :
  w_cregs w !! cr = Some r → cr_mutex r = false →
  lock_creg cr w = Ret () (set_cregs (<[cr := cr_set_mutex true r]> (w_cregs w)) w).
Proof.
  intros Hr Hm. unfold lock_creg. run (load_run (V:=CLIENT_REGISTRY)) by exact Hr. rewrite Hm.
  exact (store_run (V:=CLIENT_REGISTRY) cr r _ w Hr).
Qed.

Lemma unlock_creg_run cr r w :
  w_cregs w !! cr = Some r →
  unlock_creg cr w = Ret () (set_cregs (<[cr := cr_set_mutex false r]> (w_cregs w)) w).
Proof. intros Hr. exact (update_run (V:=CLIENT_REGISTRY) cr _ r w Hr). Qed.

Lemma cr_mutex_id r : cr_mutex r = false → cr_set_mutex false (cr_set_mutex true r) = r.
Proof. destruct r; cbn. by intros ->. Qed.

(** A call under the mutex of the registry that leaves the registry alone. *)
Lemma creg_locked {A} cr r w (m : M A) a w' :
  w_cregs w !! cr = Some r → cr_mutex r = false →
  let w0 := set_cregs (<[cr := cr_set_mutex true r]> (w_cregs w)) w in
  m w0 = Ret a w' → w_cregs w' = w_cregs w0 →
  (lock_creg cr;; x ← m; unlock_creg cr;; mret x) w = Ret a (set_cregs (w_cregs w) w').
Proof.
  intros Hr Hm w0 E Hcr. run lock_creg_run by (first [exact Hr|exact Hm]). run E.
  run (unlock_creg_run cr (cr_set_mutex true r)) by (rewrite Hcr; apply lookup_insert_eq).
  unfold mret, M_ret. f_equal. rewrite Hcr. unfold w0. cbn.
  by rewrite insert_insert_eq, cr_mutex_id, insert_id.
Qed.

(** ** References to players *)

(** The players with one more reference for each occurrence in [l]. *)
Definition bump (l : list ptr) (h : gmap nat PLAYER) : gmap nat PLAYER :=
  map_imap (λ p v, Some (mkPLAYER (p_name v) (p_ref_count v + cnt p l) (p_rating v))) h.

Lemma bump_lookup l h p : bump l h !! p =
  (λ v, mkPLAYER (p_name v) (p_ref_count v + cnt p l) (p_rating v)) <$> h !! p.
Proof. unfold bump. rewrite map_lookup_imap. by destruct (h !! p). Qed.

(** What the registry knows of its players: names and ratings. *)
Definition accounts (h : gmap nat PLAYER) : gmap nat (list byte * Z) :=
  (λ v, (p_name v, p_rating v)) <$> h.

Lemma accounts_bump l h : accounts (bump l h) = accounts h.
Proof. apply map_eq. intros p. unfold accounts. rewrite !lookup_fmap, bump_lookup. by destruct (h !! p). Qed.

Lemma accounts_insert_same h p v v' :
  h !! p = Some v → p_name v' = p_name v → p_rating v' = p_rating v → accounts (<[p := v']> h) = accounts h.
Proof.
  intros Hp En Er. unfold accounts. rewrite fmap_insert, En, Er. apply insert_id.
  by rewrite lookup_fmap, Hp.
Qed.

Lemma bump_nil h : bump [] h = h.
Proof.
  apply map_eq. intros p. rewrite bump_lookup. destruct (h !! p) as [[]|]; [|done]. cbn. do 2 f_equal. lia.
Qed.

Lemma bump_perm l l' h : l ≡ₚ l' → bump l h = bump l' h.
Proof. intros Hp. apply map_eq. intros p. rewrite !bump_lookup. by rewrite (cnt_proper p _ _ Hp). Qed.

Lemma bump_ref p v l h : h !! p = Some v →
  ∃ u, bump l h !! p = Some u ∧ p_name u = p_name v ∧ p_rating u = p_rating v ∧
    <[p := player_add 1 u]> (bump l h) = bump (p :: l) h.
Proof.
  intros Hp. rewrite bump_lookup, Hp. eexists. split; [done|]. split; [done|]. split; [done|].
  apply map_eq. intros x. destruct (decide (x = p)) as [->|Hne].
  - rewrite lookup_insert_eq, bump_lookup, Hp. cbn. rewrite decide_True by done. unfold player_add. cbn.
    do 2 f_equal. lia.
  - rewrite lookup_insert_ne by done. rewrite !bump_lookup. cbn. by rewrite decide_False by done.
Qed.

Lemma bump_count n p v l h u : h !! p = Some v → countable n v → (length l ≤ n)%nat →
  bump l h !! p = Some u → 0 < p_ref_count u ≤ INT_MAX ∧ ((length l < n)%nat → p_ref_count u < INT_MAX).
Proof.
  intros Hp [Hpos Hmax] Hl. rewrite bump_lookup, Hp. intros [= <-]. cbn.
  pose proof (cnt_nonneg p l). pose proof (cnt_length p l). lia.
Qed.

Definition bumped (l : list ptr) (w0 w : world) : world := set_players (bump l (w_players w0)) w.

Lemma player_ref_bump n p v l w0 w :
  w_players w0 !! p = Some v → countable n v → (length l < n)%nat →
  player_ref_at p (bumped l w0 w) = Ret p (bumped (p :: l) w0 w).
Proof.
  intros Hp Hv Hl. destruct (bump_ref p v l _ Hp) as (u & Hu & _ & _ & E). unfold player_ref_at.
  destruct (bump_count n p v l _ u Hp Hv ltac:(lia) Hu) as [Hpos Hmax].
  run (update_opt_run (V:=PLAYER) p player_ref u) by (first [exact Hu|apply player_ref_add; lia]).
  unfold mret, M_ret. f_equal. unfold bumped. cbn. by rewrite E.
Qed.

Lemma player_unref_bump n p v l w0 w :
  w_players w0 !! p = Some v → countable n v → (length l < n)%nat →
  player_unref_at p (bumped (p :: l) w0 w) = Ret () (bumped l w0 w).
Proof.
  intros Hp Hv Hl. destruct (bump_ref p v l _ Hp) as (u & Hu & _ & _ & E).
  destruct (bump_count n p v l _ u Hp Hv ltac:(lia) Hu) as [Hpos Hmax].
  rewrite (player_unref_at_run p (player_add 1 u) (Some u)).
  - unfold bumped. cbn. by rewrite <-E, insert_insert_eq, insert_id.
  - cbn. rewrite <-E. apply lookup_insert_eq.
  - rewrite player_unref_add by (cbn; lia). cbn. destruct (Z.eqb_spec (p_ref_count u + 1) 1); [lia|].
    do 2 f_equal. destruct u. unfold player_add. cbn. f_equal. lia.
Qed.

Lemma player_name_bump p v l w0 w :
  w_players w0 !! p = Some v → player_get_name_at p (bumped l w0 w) = Ret (p_name v) (bumped l w0 w).
Proof.
  intros Hp. destruct (bump_ref p v l _ Hp) as (u & Hu & <- & _). unfold player_get_name_at.
  by run (load_run (V:=PLAYER) p u) by exact Hu.
Qed.

Lemma player_rating_bump p v l w0 w :
  w_players w0 !! p = Some v → player_get_rating_at p (bumped l w0 w) = Ret (p_rating v) (bumped l w0 w).
Proof.
  intros Hp. destruct (bump_ref p v l _ Hp) as (u & Hu & _ & <- & _). unfold player_get_rating_at.
  by run (load_run (V:=PLAYER) p u) by exact Hu.
Qed.

Lemma bumped_nil w : bumped [] w w = w.
Proof. unfold bumped. rewrite bump_nil. by destruct w. Qed.

(** ** The players of the registered clients *)

(** The player pointers of the clients [l] that have one. *)
Fixpoint players_of (h : gmap nat CLIENT) (l : list ptr) : list ptr :=
  match l with
  | [] => []
  | p :: l' =>
      match h !! p with
      | Some c => if decide (c_player c = NULL) then players_of h l' else c_player c :: players_of h l'
      | None => players_of h l'
      end
  end.

Lemma players_of_length h l : (length (players_of h l) ≤ length l)%nat.
Proof. induction l as [|p l IH]; cbn; [done|]. destruct (h !! p); [case_decide|]; cbn; lia. Qed.

Lemma collect_players_run n w0 w l acc :
  w_clients w = w_clients w0 → (length l + length acc ≤ n)%nat →
  (∀ p, p ∈ l → p ≠ NULL ∧ ∃ c, w_clients w0 !! p = Some c ∧
     (c_player c = NULL ∨ ∃ v, w_players w0 !! c_player c = Some v ∧ countable n v)) →
  collect_players l (bumped acc w0 w) =
    Ret (players_of (w_clients w0) l) (bumped (players_of (w_clients w0) l ++ acc) w0 w).
Proof.
  intros Hcl. revert acc. induction l as [|p l IH]; intros acc Hn0 Hl; [done|]. cbn [length] in Hn0.
  destruct (Hl p ltac:(by left)) as (Hn & c & Hp & Hpl). cbn [collect_players players_of].
  rewrite decide_False, Hp by done.
  assert (client_get_player p (bumped acc w0 w) = Ret (c_player c) (bumped acc w0 w)) as E.
  { unfold client_get_player. rewrite decide_False by done.
    by run (load_client_run p c) by (cbn; by rewrite Hcl). }
  run E. destruct (decide (c_player c = NULL)) as [Hz|Hz].
  - apply IH; [lia|]. intros x Hx. apply Hl. by right.
  - destruct Hpl as [?|(v & Hv & Hcv)]; [done|].
    run (player_ref_bump n _ v) by (first [exact Hv|exact Hcv|lia]).
    run IH by (first [cbn; lia|intros x Hx; apply Hl; by right]). unfold mret, M_ret. f_equal.
    unfold bumped. f_equal. apply bump_perm. cbn. symmetry. apply Permutation_middle.
Qed.

Section directory.
Context (regs names : list ptr).
Implicit Types (w : world) (p cr : ptr).

(** What the registered clients point to. *)
Lemma registered_players held w p :
  core regs names held w → p ∈ regs → p ≠ NULL ∧ ∃ c, w_clients w !! p = Some c ∧
    (c_player c = NULL ∨ ∃ v, w_players w !! c_player c = Some v ∧ (few held → countable (length regs) v)).
Proof.
  intros Hc Hp. pose proof (co_mem _ _ _ _ Hc) as Hm.
  destruct (mo_regs _ _ _ _ Hm p Hp) as [c Hcp]. split.
  - assert (0 < p < w_brk w)%nat; [|unfold NULL; lia]. apply (mo_client_keys _ _ _ _ Hm). by exists c.
  - exists c. split; [done|]. destruct (cw_player _ _ _ _ _ (mo_clients _ _ _ _ Hm p c Hcp)) as [|Hin];
      [by left|right]. destruct (mo_names _ _ _ _ Hm _ Hin) as [v Hv]. exists v. split; [done|].
    intros Hf. exact (few_countable _ _ _ _ _ _ Hm Hf Hv).
Qed.

(** Their players are registered and live. *)
Lemma players_of_names held w l p :
  core regs names held w → few held → (∀ x, x ∈ l → x ∈ regs) → p ∈ players_of (w_clients w) l →
  p ∈ names ∧ ∃ v, w_players w !! p = Some v ∧ countable (length regs) v.
Proof.
  intros Hc Hf Hl Hp. pose proof (co_mem _ _ _ _ Hc) as Hm.
  assert (p ∈ names) as Hin.
  { induction l as [|x l IH]; [by apply elem_of_nil in Hp|]. cbn in Hp.
    destruct (w_clients w !! x) as [c|] eqn:Hx; [|apply IH; [intros y Hy; apply Hl; by right|done]].
    case_decide as Hz; [apply IH; [intros y Hy; apply Hl; by right|done]|].
    apply elem_of_cons in Hp as [->|Hp]; [|apply IH; [intros y Hy; apply Hl; by right|done]].
    by destruct (cw_player _ _ _ _ _ (mo_clients _ _ _ _ Hm x c Hx)). }
  split; [done|]. destruct (mo_names _ _ _ _ Hm _ Hin) as [v Hv]. exists v. split; [done|].
  exact (few_countable _ _ _ _ _ _ Hm Hf Hv).
Qed.

Lemma creg_all_players_run held cr r w :
  core regs names held w → few held → w_cregs w !! cr = Some r → cr_mutex r = false → cr_registered r = regs →
  creg_all_players cr w =
    Ret (Some (players_of (w_clients w) regs)) (bumped (players_of (w_clients w) regs) w w).
Proof.
  intros Hc Hf Hr Hmx Hregs. unfold creg_all_players.
  run lock_creg_run by (first [exact Hr|exact Hmx]). set (w1 := set_cregs _ w).
  run calloc_run by exact (co_oom _ _ _ _ Hc).
  run (load_run (V:=CLIENT_REGISTRY)) by apply lookup_insert_eq.
  change (cr_registered (cr_set_mutex true r)) with (cr_registered r). rewrite Hregs.
  assert (w1 = bumped [] w w1) as E by (unfold bumped; by rewrite bump_nil).
  rewrite E at 1.
  run (collect_players_run (length regs) w w1 regs []) by (first [done|cbn; lia|intros p Hp;
    destruct (registered_players held w p Hc Hp) as (? & c & ? & [|(v & ? & ?)]); (split; [done|]); eauto 10]).
  rewrite app_nil_r.
  run (unlock_creg_run cr (cr_set_mutex true r)) by apply lookup_insert_eq.
  unfold mret, M_ret. f_equal. unfold bumped, w1. cbn.
  unfold set_cregs, set_players. cbn. rewrite insert_insert_eq, cr_mutex_id, insert_id by done. done.
Qed.

(** Does one of the players have this name? *)
Definition name_of (h : gmap nat PLAYER) (name : list byte) (p : ptr) : bool :=
  match h !! p with Some v => bool_decide (p_name v = name) | None => false end.

Lemma name_taken_run n name ps acc w0 w :
  (length ps + length acc ≤ n)%nat →
  (∀ p, p ∈ ps → ∃ v, w_players w0 !! p = Some v ∧ countable n v) →
  name_taken ps name (bumped (ps ++ acc) w0 w) = Ret (existsb (name_of (w_players w0) name) ps) (bumped acc w0 w).
Proof.
  induction ps as [|p ps IH]; intros Hn Hps; [done|]. cbn [length] in Hn.
  destruct (Hps p ltac:(by left)) as (v & Hv & Hpos). cbn [name_taken existsb app].
  run (player_name_bump p v) by exact Hv.
  run (player_unref_bump n p v) by (first [exact Hv|exact Hpos|rewrite length_app; lia]).
  run IH by (first [lia|intros x Hx; apply Hps; by right]). unfold name_of at 2. by rewrite Hv.
Qed.
End directory.

(** ** The list of users *)

Lemma digits_length f n acc (k : nat) :
  0 ≤ n < 10 ^ Z.of_nat k → (0 < k)%nat → (length (digits_aux f n acc) ≤ k + length acc)%nat.
Proof.
  revert n acc k. induction f as [|f IH]; intros n acc k Hn Hk; cbn; [lia|].
  destruct (Z.eqb_spec (n / 10) 0); cbn; [lia|].
  destruct k as [|[|k]]; [lia|exfalso; change (10 ^ Z.of_nat 1) with 10 in Hn; apply n0, Z.div_small; lia|].
  specialize (IH (n / 10) ((48 + n mod 10) :: acc) (S k)). cbn [length] in IH.
  assert (0 ≤ n / 10 < 10 ^ Z.of_nat (S k)) as Hr; [|specialize (IH Hr); lia].
  split; [apply Z.div_pos; lia|]. apply Z.div_lt_upper_bound; [lia|].
  rewrite (Nat2Z.inj_succ (S k)), Z.pow_succ_r in Hn; lia.
Qed.

Lemma decimal_length n : -999 ≤ n ≤ 9999 → (length (decimal n) ≤ 4)%nat.
Proof.
  intros Hn. unfold decimal. destruct (Z.ltb_spec n 0); cbn [length].
  - pose proof (digits_length 20 (- n) [] 3 ltac:(change (10 ^ Z.of_nat 3) with 1000; lia) ltac:(lia)) as H1.
    cbn [length] in H1. lia.
  - pose proof (digits_length 20 n [] 4 ltac:(change (10 ^ Z.of_nat 4) with 10000; lia) ltac:(lia)) as H1.
    cbn [length] in H1. lia.
Qed.

Definition line_of (v : PLAYER) : list byte := p_name v ++ [9] ++ decimal (p_rating v) ++ [10].

Lemma user_line_fits v : -999 ≤ p_rating v ≤ 9999 → user_line (p_name v) (p_rating v) = Some (line_of v).
Proof.
  intros Hr. pose proof (decimal_length _ Hr). unfold user_line, strlen.
  rewrite !length_app. cbn [length]. zcase; [lia|done].
Qed.

(** The text of the list of users. *)
Definition users_text (h : gmap nat PLAYER) (ps : list ptr) : list byte :=
  mjoin ((λ p, default [] (line_of <$> h !! p)) <$> ps).

Lemma users_lines_run n ps acc w0 w :
  (length ps + length acc ≤ n)%nat →
  (∀ p, p ∈ ps → ∃ v, w_players w0 !! p = Some v ∧ countable n v ∧ -999 ≤ p_rating v ≤ 9999) →
  users_lines ps (bumped (ps ++ acc) w0 w) = Ret (users_text (w_players w0) ps) (bumped acc w0 w).
Proof.
  induction ps as [|p ps IH]; intros Hn Hps; [done|]. cbn [length] in Hn.
  destruct (Hps p ltac:(by left)) as (v & Hv & Hpos & Hr). cbn [users_lines app].
  run (player_name_bump p v) by exact Hv. run (player_rating_bump p v) by exact Hv.
  run defined_run by (by apply user_line_fits).
  run (player_unref_bump n p v) by (first [exact Hv|exact Hpos|rewrite length_app; lia]).
  run IH by (first [lia|intros x Hx; apply Hps; by right]). unfold users_text. cbn. by rewrite Hv.
Qed.

(** ** Finding a client by the name of its player *)

(** The first of the clients [l] whose player, or last player, has the name. *)
Fixpoint found (w : world) (l : list ptr) (user : list byte) : ptr :=
  match l with
  | [] => NULL
  | p :: l' =>
      match w_clients w !! p with
      | Some c => if name_of (w_players w) user (c_player c) then p else found w l' user
      | None => found w l' user
      end
  end.

Section lookup.
Context (regs names : list ptr).
Implicit Types (w : world) (p cr : ptr).

Lemma found_in w l user : found w l user = NULL ∨ found w l user ∈ l.
Proof.
  induction l as [|p l IH]; cbn; [by left|].
  destruct (w_clients w !! p) as [c|]; [destruct (name_of _ _ _); [right; by left|]|];
    (destruct IH as [->|IH]; [by left|right; by right]).
Qed.

(** [creg_lookup] takes a reference to the client it returns, if any. *)
Definition found_ref (p : ptr) w : world :=
  match w_clients w !! p with Some c => upd_client p (add_refs 1 c) w | None => w end.

Lemma lookup_user_run held w0 w l user :
  core regs names held w0 → Z.of_nat (w_brk w0) ≤ MAX_BRK → w_clients w = w_clients w0 → w_players w = w_players w0 →
  (∀ p, p ∈ l → p ∈ regs) →
  lookup_user l user w = Ret (found w0 l user) (found_ref (found w0 l user) w).
Proof.
  intros Hc Hb Ecl Epl. assert (w_clients w !! NULL = None) as Hnull.
  { rewrite Ecl. destruct (w_clients w0 !! NULL) as [c|] eqn:E; [|done].
    assert (0 < NULL < w_brk w0)%nat as [Hn _]; [|by apply Nat.lt_irrefl in Hn].
    apply (mo_client_keys _ _ _ _ (co_mem _ _ _ _ Hc)). by exists c. }
  induction l as [|p l IH]; intros Hl.
  { cbn [lookup_user found]. unfold found_ref. by rewrite Hnull. }
  destruct (registered_players regs names held w0 p Hc ltac:(apply Hl; by left)) as (Hn & c & Hp & Hpl).
  cbn [lookup_user found]. rewrite decide_False, Hp by done.
  assert (client_get_player p w = Ret (c_player c) w) as E.
  { unfold client_get_player. rewrite decide_False by done.
    by run (load_client_run p c) by (by rewrite Ecl). }
  run E. pose proof (co_mem _ _ _ _ Hc) as Hm.
  destruct (decide (c_player c = NULL)) as [Hz|Hz].
  - unfold name_of. destruct (w_players w0 !! c_player c) as [v|] eqn:Hv.
    + exfalso. assert (0 < c_player c < w_brk w0)%nat as [Hn' _]; [|rewrite Hz in Hn'; by apply Nat.lt_irrefl in Hn'].
      apply (mo_player_keys _ _ _ _ Hm). by exists v.
    + apply IH. intros x Hx. apply Hl. by right.
  - destruct Hpl as [?|(v & Hv & _)]; [done|].
    assert (player_get_name_at (c_player c) w = Ret (p_name v) w) as En.
    { unfold player_get_name_at. by run (load_run (V:=PLAYER) _ v) by (cbn; by rewrite Epl). }
    run En. unfold name_of. rewrite Hv. destruct (decide (p_name v = user)) as [Hu|Hu].
    + rewrite bool_decide_true by done.
      rewrite (client_ref_run p c); [|by rewrite Ecl|apply (mo_clients _ _ _ _ Hm p c Hp)|by eapply ref_room].
      unfold found_ref. by rewrite Ecl, Hp.
    + rewrite bool_decide_false by done. apply IH. intros x Hx. apply Hl. by right.
Qed.

Lemma creg_lookup_run held cr r w user :
  core regs names held w → Z.of_nat (w_brk w) ≤ MAX_BRK → cr ≠ NULL → w_cregs w !! cr = Some r → cr_mutex r = false →
  cr_registered r = regs →
  creg_lookup cr user w = Ret (found w regs user) (found_ref (found w regs user) w).
Proof.
  intros Hc Hb Hn Hr Hmx Hregs. unfold creg_lookup. rewrite decide_False by done.
  run lock_creg_run by (first [exact Hr|exact Hmx]). set (w1 := set_cregs _ w).
  run (load_run (V:=CLIENT_REGISTRY)) by apply lookup_insert_eq.
  change (cr_registered (cr_set_mutex true r)) with (cr_registered r). rewrite Hregs.
  run (lookup_user_run held w w1) by (first [done|exact Hc|exact Hb]).
  assert (w_cregs (found_ref (found w regs user) w1) = w_cregs w1) as Ecr
    by (unfold found_ref; by destruct (w_clients w1 !! _)).
  run (unlock_creg_run cr (cr_set_mutex true r)) by (rewrite Ecr; apply lookup_insert_eq).
  unfold mret, M_ret. f_equal. rewrite Ecr. unfold w1. cbn. rewrite insert_insert_eq, cr_mutex_id, insert_id by done.
  unfold found_ref. cbn. destruct (w_clients w !! _); by destruct w.
Qed.
End lookup.
