(* ===== verification/Playing.v ===== *)
(** * Playing: moves, resignations and ratings

    [client_make_move] and [client_resign_game] of [src/client.c], and
    [post_player_results], preserve the invariant, and what they do to the
    game, to the invitation and to the two ratings. *)
From S2P Require Import Prelude Game Player Elo World Objects Protocol Wire PlayerRegistry Invitation Client Sessions ClientRegistry Accounting Effects Handlers.

(** ** The sides of an invitation *)

Definition side (p : ptr) (i : INVITATION) : GAME_ROLE :=
  if decide (p = i_source i) then i_source_role i else i_target_role i.
Definition other (p : ptr) (i : INVITATION) : ptr :=
  if decide (p = i_source i) then i_target i else i_source i.

Lemma side_not_null i p : roles_ok i → side p i ≠ NULL_ROLE.
Proof.
  intros [Hs Ht]. unfold side. case_decide; [done|]. rewrite Ht. by destruct (i_source_role i).
Qed.

Lemma other_role i p : roles_ok i →
  (if decide (p = i_source i) then i_target_role i else i_source_role i) = opponent_of (side p i).
Proof. intros [Hs Ht]. unfold side. rewrite Ht. case_decide; [done|]. by destruct (i_source_role i). Qed.

(** ** Posting a result *)

Section results.
Context `{LibmLaws}.

(** The ratings after a game between two players. *)
Definition posted (p1 p2 : ptr) (result : Z) (h : gmap nat PLAYER) : gmap nat PLAYER :=
  if decide (p1 = p2) then h else
  match h !! p1, h !! p2 with
  | Some v1, Some v2 =>
      match elo_update (p_rating v1) (p_rating v2) result with
      | Some (n1, n2) => <[p2 := player_set_rating v2 n2]> (<[p1 := player_set_rating v1 n1]> h)
      | None => h
      end
  | _, _ => h
  end.

(** The same for the clients of a game, of which the first has the role [r]. *)
Definition settled (c co : CLIENT) (r winner : GAME_ROLE) (h : gmap nat PLAYER) : gmap nat PLAYER :=
  if decide (r = FIRST_PLAYER_ROLE)
  then posted (c_player c) (c_player co) (role_int winner) h
  else posted (c_player co) (c_player c) (role_int winner) h.

Lemma player_post_result_run p1 p2 v1 v2 result w :
  p1 ≠ NULL → p2 ≠ NULL → w_players w !! p1 = Some v1 → w_players w !! p2 = Some v2 →
  Z.abs (p_rating v1) ≤ MAX_RATING → Z.abs (p_rating v2) ≤ MAX_RATING → 0 ≤ result ≤ 2 →
  player_post_result p1 p2 result w = Ret () (set_players (posted p1 p2 result (w_players w)) w).
Proof.
  intros Hn1 Hn2 H1 H2 Hb1 Hb2 Hr. unfold player_post_result, posted.
  rewrite decide_False by tauto. destruct (decide (p1 = p2)) as [->|Hne]; [by destruct w|].
  destruct (Z.ltb_spec result 0); [lia|]. destruct (Z.ltb_spec 2 result); [lia|]. cbn [orb].
  destruct (elo_update_gain (p_rating v1) (p_rating v2) result (-32) 32)
    as (n1 & n2 & E & _); [done..|by apply gain_range|].
  run (load_run (V:=PLAYER)) by exact H1. run (load_run (V:=PLAYER)) by exact H2.
  rewrite H1, H2, E. run defined_run.
  run (store_run (V:=PLAYER)) by exact H1.
  rewrite (store_run (V:=PLAYER) p2 v2); [done|]. cbn. by rewrite lookup_insert_ne.
Qed.

Lemma posted_drift p1 p2 result h p v' :
  (∀ q v, h !! q = Some v → Z.abs (p_rating v) ≤ MAX_RATING) →
  posted p1 p2 result h !! p = Some v' → ∃ v, h !! p = Some v ∧ Z.abs (p_rating v' - p_rating v) ≤ 32.
Proof.
  unfold posted. intros Hb Hp. assert (∀ v : PLAYER, Z.abs (p_rating v - p_rating v) ≤ 32) as Hz by (intros; lia).
  destruct (decide (p1 = p2)); [eauto|].
  destruct (h !! p1) as [v1|] eqn:H1; [|eauto]. destruct (h !! p2) as [v2|] eqn:H2; [|eauto].
  destruct (elo_update_gain (p_rating v1) (p_rating v2) result (-32) 32)
    as (n1 & n2 & E & Hn1 & Hn2 & _); [eauto|eauto|lia|lia|apply gain_range; eauto|]. rewrite E in Hp.
  apply lookup_insert_Some in Hp as [[<- <-]|[_ Hp]]; [exists v2; split; [done|cbn; lia]|].
  apply lookup_insert_Some in Hp as [[<- <-]|[_ Hp]]; [exists v1; split; [done|cbn; lia]|eauto].
Qed.

Lemma posted_ok regs names held m p1 p2 result :
  mem_ok regs names held m →
  mem_ok regs names held (m_set_players (posted p1 p2 result (m_players m)) m).
Proof.
  intros Hm. unfold posted. assert (m_set_players (m_players m) m = m) as Eid by (by destruct m).
  destruct (decide (p1 = p2)); [by rewrite Eid|].
  destruct (m_players m !! p1) as [v1|] eqn:H1; [|by rewrite Eid].
  destruct (m_players m !! p2) as [v2|] eqn:H2; [|by rewrite Eid].
  destruct (elo_update _ _ _) as [[n1 n2]|]; [|by rewrite Eid].
  pose proof (player_rating_ok _ _ _ _ p1 v1 n1 Hm H1) as Hm1.
  refine (player_rating_ok _ _ _ _ p2 v2 n2 Hm1 _). cbn. by rewrite lookup_insert_ne.
Qed.

Lemma settled_ok regs names held m c co r winner :
  mem_ok regs names held m →
  mem_ok regs names held (m_set_players (settled c co r winner (m_players m)) m).
Proof. intros Hm. unfold settled. case_decide; by apply posted_ok. Qed.

(** Posting a result uses up a finished game. *)
Lemma settled_rated m m' c co r winner :
  rated m → Z.of_nat (m_brk m) ≤ MAX_BRK →
  m_brk m' = m_brk m → m_players m' = settled c co r winner (m_players m) →
  (size (m_games m') < size (m_games m))%nat → rated m'.
Proof.
  intros Hr Hb Eb Ep Hs p v' Hv. rewrite Ep in Hv.
  assert (∀ q v, m_players m !! q = Some v → Z.abs (p_rating v) ≤ MAX_RATING) as Hmax.
  { intros q v Hq. specialize (Hr q v Hq). unfold MAX_BRK, MAX_RATING, PLAYER_INITIAL_RATING in *. lia. }
  assert (∃ v, m_players m !! p = Some v ∧ Z.abs (p_rating v' - p_rating v) ≤ 32) as (v & Hv0 & Hd).
  { unfold settled in Hv. case_decide; by eapply posted_drift. }
  specialize (Hr p v Hv0). lia.
Qed.
End results.

(** ** Resigning *)

Section playing.
Context `{LibmLaws}.
Context (regs names : list ptr).
Implicit Types (w : world) (p : ptr).

Lemma client_key w p c : core regs names [] w → w_clients w !! p = Some c → p ≠ NULL.
Proof.
  intros Hc Hp. assert (0 < p < w_brk w)%nat; [|unfold NULL; lia].
  apply (mo_client_keys _ _ _ _ (co_mem _ _ _ _ Hc)). by exists c.
Qed.

Lemma client_get_player_run p c w :
  p ≠ NULL → w_clients w !! p = Some c → client_get_player p w = Ret (c_player c) w.
Proof. intros Hn Hp. unfold client_get_player. rewrite decide_False by done. by run load_client_run. Qed.

Lemma online_rated w p c :
  core regs names [] w → Z.of_nat (w_brk w) ≤ MAX_BRK → w_clients w !! p = Some c →
  c_logged_in c = CLIENT_LOGGED_IN →
  c_player c ≠ NULL ∧ ∃ v, w_players w !! c_player c = Some v ∧ Z.abs (p_rating v) ≤ MAX_RATING.
Proof.
  intros Hc Hb Hp Hon. destruct (online_player _ _ w p c Hc Hp Hon) as (v & Hv).
  split; [by apply (cw_logged_in _ _ _ _ _ (mo_clients _ _ _ _ (co_mem _ _ _ _ Hc) p c Hp))|].
  exists v. split; [done|]. pose proof (co_rated _ _ _ _ Hc _ _ Hv) as Hr. cbn in Hr.
  unfold MAX_BRK, MAX_RATING, PLAYER_INITIAL_RATING in *. lia.
Qed.

Lemma post_player_results_run w w' p o c co r winner :
  core regs names [] w → Z.of_nat (w_brk w) ≤ MAX_BRK →
  w_sems w' = op_sems w → w_players w' = w_players w → w_clients w' = w_clients w →
  w_clients w !! p = Some c → c_logged_in c = CLIENT_LOGGED_IN →
  w_clients w !! o = Some co → c_logged_in co = CLIENT_LOGGED_IN →
  post_player_results p o r winner w' =
    Ret 0 (set_players (settled c co r winner (w_players w)) w').
Proof.
  intros Hc Hb Hs Hpl Hcl Hp Hon Ho Hono.
  destruct (online_rated w p c Hc Hb Hp Hon) as (Hn1 & v1 & Hv1 & Hr1).
  destruct (online_rated w o co Hc Hb Ho Hono) as (Hn2 & v2 & Hv2 & Hr2).
  pose proof (client_key w p c Hc Hp) as Hpn. pose proof (client_key w o co Hc Ho) as Hon0.
  assert (op_sems w !! CLIENT_UPDATE_ELO = Some 1) as Helo by (apply op_sems_other; [apply Hc|by right]).
  assert (0 ≤ role_int winner ≤ 2) as Hres by (destruct winner; cbn; lia).
  unfold post_player_results. rewrite <-Hs in Helo.
  run (sem_wait_run CLIENT_UPDATE_ELO 1). set (w1 := set_sems _ w').
  assert (∀ x cx, w_clients w !! x = Some cx → x ≠ NULL → client_get_player x w1 = Ret (c_player cx) w1) as Hget.
  { intros x cx Hx Hxn. apply client_get_player_run; [done|]. cbn. by rewrite Hcl. }
  assert (∀ x y vx vy, w_players w !! x = Some vx → w_players w !! y = Some vy → x ≠ NULL → y ≠ NULL →
    Z.abs (p_rating vx) ≤ MAX_RATING → Z.abs (p_rating vy) ≤ MAX_RATING →
    (player_post_result x y (role_int winner);; sem_post CLIENT_UPDATE_ELO;; mret 0) w1 =
    Ret 0 (set_players (posted x y (role_int winner) (w_players w)) w')) as Hpost.
  { intros x y vx vy Hx Hy Hxn Hyn Hbx Hby.
    run (player_post_result_run x y vx vy) by (first [done|cbn; by rewrite Hpl]).
    cbn [w_players w1 set_sems]. rewrite Hpl.
    run (sem_section_end (set_players (posted x y (role_int winner) (w_players w)) w')) by (first [exact Helo|lia|done]).
    done. }
  unfold settled. case_decide.
  - run (Hget p c). run (Hget o co). cbn [fst snd]. rewrite decide_False by tauto. by eapply Hpost.
  - run (Hget o co). run (Hget p c). cbn [fst snd]. rewrite decide_False by tauto. by eapply Hpost.
Qed.

(** An invitation whose game is over leaves both lists, and the game is freed. *)
Lemma close_game_both w w3 q i i' v p o cp co h :
  core regs names [] w → w_invs w !! q = Some i → i_game i ≠ NULL →
  mem_ok regs names [] (m_set_players h (mem_of w)) →
  mem_of w3 = mkMEM (w_brk w) (w_clients w) (<[q := i']> (w_invs w)) (<[i_game i := v]> (w_games w)) h →
  i_source i' = i_source i → i_target i' = i_target i → i_game i' = i_game i →
  i_ref_count i' = i_ref_count i → g_ref_count v = 1 →
  w_sems w3 = op_sems w → quiet w w3 →
  (i_source i = p ∧ i_target i = o) ∨ (i_source i = o ∧ i_target i = p) →
  w_clients w !! p = Some cp → q ∈ node_invs cp → p ∈ regs →
  w_clients w !! o = Some co → q ∈ node_invs co → o ∈ regs →
  ∃ id1 id2 w4 w5, id1 ≠ -1 ∧ id2 ≠ -1 ∧
    client_remove_invitation p q w3 = Ret id1 w4 ∧ client_remove_invitation o q w4 = Ret id2 w5 ∧
    w_sems w5 = op_sems w ∧ quiet w w5 ∧ w_net w5 = w_net w3 ∧
    mem_of w5 = drop_inv q p o (i_game i) cp co (m_set_players h (mem_of w)) ∧
    mem_ok regs names [] (mem_of w5).
Proof.
  intros Hc Hq Hg Hok Hm3 E1 E2 E3 E4 Hv Hsem Hqt Hpo Hp Hqp Hpr Ho Hqo Hor.
  assert (i_ref_count i = 2) as Hcount.
  { destruct Hpo as [[Es Et]|[Es Et]]; rewrite <-Es, <-Et in *.
    - by apply (inv_count_two _ _ (mem_of w) q i cp co (co_mem _ _ _ _ Hc)).
    - by apply (inv_count_two _ _ (mem_of w) q i co cp (co_mem _ _ _ _ Hc)). }
  destruct (remove_both_run regs names (m_set_players h (mem_of w)) q i i' w3 p o cp co)
    as (id1 & id2 & w4 & w5 & H1 & H2 & (E5 & S5 & Q5) & (E6 & S6 & Q6) & Hn5 & Hm5 & Hok5); try done.
  - unfold mem_of in Hm3. injection Hm3 as F1 F2 F3 F4 F5. split; try done; [congruence|].
    right. split; [done|]. eauto.
  - rewrite Hsem. apply op_sems_other; [apply Hc|by left].
  - exists id1, id2, w4, w5. split; [lia|]. split; [lia|]. split; [done|]. split; [done|].
    split; [congruence|]. split; [by trans w3; [done|trans w4]|done].
Qed.

(** What resigning does: the game of an accepted invitation goes to the
    opponent, both ratings are updated, and the invitation leaves both
    lists; anything else is an error that changes nothing. *)
Definition ended (p q : ptr) (c : CLIENT) (i : INVITATION) (winner : GAME_ROLE) (w w' : world) : Prop :=
  ∃ co, w_clients w !! other p i = Some co ∧
    mem_of w' = drop_inv q p (other p i) (i_game i) c co
      (m_set_players (settled c co (side p i) winner (w_players w)) (mem_of w)).

Definition resign_spec (p : ptr) (id : Z) (w : world) (r : Z) (w' : world) : Prop :=
  ∃ c, w_clients w !! p = Some c ∧
  match w_invs w !! known_as c id with
  | Some i =>
      if decide (i_state i = INV_ACCEPTED_STATE)
      then r = 0 ∧ ended p (known_as c id) c i (opponent_of (side p i)) w w'
      else r = -1 ∧ mem_of w' = mem_of w
  | None => r = -1 ∧ mem_of w' = mem_of w
  end.

(** The opponent is told. *)
Definition resign_notices (p : ptr) (id : Z) w : list NOTICE :=
  if invitation_of p id w is Some (q, i) then
    if decide (i_state i = INV_ACCEPTED_STATE)
    then [note w (other p i) JEUX_RESIGNED_PKT (id_for w (other p i) q) 0 None] else []
  else [].

Lemma other_party p i : i_source i = p ∨ i_target i = p → i_source i ≠ i_target i →
  ((i_source i = p ∧ i_target i = other p i) ∨ (i_source i = other p i ∧ i_target i = p)) ∧
  (other p i = i_source i ∨ other p i = i_target i) ∧ (p = i_source i ∨ p = i_target i).
Proof. intros Hp Hne. unfold other. case_decide; subst; naive_solver. Qed.

(** Both sides of a game, as the operations find them. *)
Lemma game_parties w q i p :
  core regs names [] w → w_invs w !! q = Some i → i_state i ≠ INV_CLOSED_STATE →
  i_source i = p ∨ i_target i = p →
  ((i_source i = p ∧ i_target i = other p i) ∨ (i_source i = other p i ∧ i_target i = p)) ∧
  (∃ c, w_clients w !! p = Some c ∧ q ∈ node_invs c ∧ p ∈ regs ∧ c_logged_in c = CLIENT_LOGGED_IN) ∧
  (∃ co, w_clients w !! other p i = Some co ∧ q ∈ node_invs co ∧ other p i ∈ regs ∧
     c_logged_in co = CLIENT_LOGGED_IN ∧ c_lock co = false).
Proof.
  intros Hc Hi Hs Hp.
  destruct (other_party p i Hp (iw_distinct _ _ _ (mo_invs _ _ _ _ (co_mem _ _ _ _ Hc) q i Hi)))
    as (Hside & Ho & Hp').
  destruct (open_party _ _ w q i p Hc Hi Hs Hp') as (Hr & c & k & Hcp & Hin & _ & Hon & _).
  destruct (open_party _ _ w q i _ Hc Hi Hs Ho) as (Hro & co & ko & Hco & Hino & Hwfo & Hono & _).
  split; [done|]. split; [exists c; done|]. exists co. split; [done|]. split; [done|].
  split; [done|]. split; [done|]. apply Hwfo.
Qed.

Lemma size_drop_game (h : gmap nat GAME) g v : h !! g = Some v → (size (delete g h) < size h)%nat.
Proof.
  intros Hg. assert (size (delete g h) = pred (size h)) as E by (apply map_size_delete_Some; by exists v).
  assert (size h ≠ 0%nat); [|lia]. intros Hz. apply map_size_empty_inv in Hz. subst. done.
Qed.

Lemma leave_ended {A} (r : A) w w' q p i c co winner l (Q : A → world → Prop) :
  core regs names [] w → Z.of_nat (w_brk w) ≤ MAX_BRK →
  w_invs w !! q = Some i → i_game i ≠ NULL →
  w_sems w' = op_sems w → quiet w w' → told w w' l →
  w_clients w !! p = Some c → w_clients w !! other p i = Some co →
  mem_of w' = drop_inv q p (other p i) (i_game i) c co
    (m_set_players (settled c co (side p i) winner (w_players w)) (mem_of w)) →
  mem_ok regs names [] (mem_of w') →
  (∀ w'', ended p q c i winner w w'' → told w w'' l → Q r w'') →
  safe_from regs names (sem_post CLIENT_INVITE_OP_SEM;; mret r) w w' Q.
Proof.
  intros Hc Hb Hi Hg Hs Hq Ht Hcp Hco Hm Hok HQ.
  destruct (game_count_one _ _ (mem_of w) q i (co_mem _ _ _ _ Hc) Hi Hg) as (_ & g & Hgm & _).
  eapply leave_change; try done; [by eapply le_op| | |].
  - rewrite Hm. apply (settled_rated (mem_of w) _ c co (side p i) winner); [apply Hc|done..|].
    cbn. rewrite decide_False by done. by apply (size_drop_game _ _ g).
  - intros x cx _ Hx. rewrite (mem_clients _ _ Hm). by eapply drop_inv_fd.
  - intros w'' Hm'' Ht''. apply HQ; [|done]. exists co. split; [done|congruence].
Qed.

Lemma game_resign_ref_count g r : g_ref_count (game_resign g r).2 = g_ref_count g.
Proof. unfold game_resign. by case_decide. Qed.

Lemma client_resign_safe w p id :
  core regs names [] w → p ∈ regs → Z.of_nat (w_brk w) ≤ MAX_BRK →
  safe regs names (client_resign_game p id) w
    (λ r w', resign_spec p id w r w' ∧ told w w' (resign_notices p id w)).
Proof.
  intros Hc Hp Hb. unfold safe, safe_from, client_resign_game, client_resign_game'.
  step enter_op. set (w0 := set_sems _ w).
  destruct (find_party _ _ w p id Hc Hp) as (c & Hcp & Eq & Hq). unfold resign_spec, resign_notices.
  step Eq. set (q := known_as c id) in *. pose proof (client_key w p c Hc Hcp) as Hpn.
  destruct Hq as [(Hq0 & Hn & Eio)|(Hq0 & i & Hi & Hpi & Eio)]; rewrite Eio.
  { rewrite Hq0. step (ran_ret (A:=ptr)). step (ran_ret (A:=ptr)). rewrite decide_True by done.
    apply op_fail; [done|]. intros w'' Hm Ht. split; [|done]. exists c. fold q. by rewrite Hn. }
  pose proof (mo_invs _ _ _ _ (co_mem _ _ _ _ Hc) q i Hi) as Hiw.
  step inv_get_source_run by (first [exact Hi|done]). step inv_get_target_run by (first [exact Hi|done]).
  rewrite decide_False by naive_solver.
  step inv_get_source_role_run by exact Hi. step inv_get_target_role_run by exact Hi. fold (side p i) (other p i).
  rewrite (other_role i p (iw_roles _ _ _ Hiw)). pose proof (side_not_null i p (iw_roles _ _ _ Hiw)) as Hsn.
  destruct (decide (i_state i = INV_ACCEPTED_STATE)) as [Hs|Hs].
  2: { assert (inv_close q (side p i) w0 = Ret (-1) w0) as E.
       { eapply inv_close_fail_run; [done|exact Hi|]. destruct (i_state i); tauto. }
       step E. apply op_fail; [done|]. intros w'' Hm Ht. split; [|done]. exists c. fold q. rewrite Hi.
       by rewrite decide_False by done. }
  pose proof (iw_state _ _ _ Hiw) as Hst. rewrite Hs in Hst. destruct Hst as (g & Hg & Hpl & Hov).
  pose proof (game_not_null _ _ w _ g Hc Hg) as Hgn.
  step (inv_close_accepted_run q i (side p i) g) by (first [exact Hi|exact Hg|done]).
  set (v := (game_resign g (side p i)).2).
  assert (g_ref_count v = 1) as Hv.
  { unfold v. rewrite game_resign_ref_count. by apply played_ref_count. }
  name_world w1.
  destruct (game_parties w q i p Hc Hi ltac:(congruence) Hpi)
    as (Hside & (c' & Hcp' & Hqp & Hpr & Hon) & (co & Hco & Hqo & Hor & Hono & Hlo)).
  rewrite Hcp in Hcp'. injection Hcp' as <-.
  step (get_invitation_id_run (other p i) co q w1 w) by done.
  destruct (notify_run regs names w w1 q i (other p i) JEUX_RESIGNED_PKT (id_for w (other p i) q) 0 None 0)
    as (w2 & E2 & S2 & Q2 & M2 & T2);
    [done|done|congruence|apply (other_party p i Hpi (iw_distinct _ _ _ Hiw))|done|exact (reflexivity (R:=quiet) w)|done|done|].
  eapply wp_notify; [exact E2|]. norm.
  assert (quiet w w2) as Q3 by exact Q2.
  step (post_player_results_run w w2 p (other p i) c co (side p i) (opponent_of (side p i)))
    by (first [done|exact S2|exact (mem_players _ _ M2)|exact (mem_clients _ _ M2)]).
  set (h := settled _ _ _ _ _). name_world w3.
  destruct (close_game_both w w3 q i (i_set_state INV_CLOSED_STATE i) v p (other p i) c co h)
    as (id1 & id2 & w4 & w5 & H1 & H2 & E4 & E5 & S5 & Q5 & N5 & M5 & Hok); try done.
  { by apply settled_ok, Hc. }
  { unfold mem_of in *. cbn. cbn in M2. injection M2 as -> -> -> -> _. done. }
  step E4. destruct (Z.eqb_spec id1 (-1)); [done|]. step E5. destruct (Z.eqb_spec id2 (-1)); [done|].
  eapply (leave_ended 0 w w5 q p i c co (opponent_of (side p i))); try done; [by eapply told_until|].
  intros w'' He Ht. split; [|exact Ht]. exists c. split; [done|]. fold q. rewrite Hi. rewrite decide_True by done. done.
Qed.

(** ** Moving *)

(** What a move does.  An invitation without a game, a move the parser or the
    game refuses: an error that changes nothing.  Otherwise the game takes
    the move, and if that ends it both ratings are updated and the
    invitation leaves both lists. *)
Definition move_spec (p : ptr) (id : Z) (move : list byte) (w : world) (r : Z) (w' : world) : Prop :=
  ∃ c, w_clients w !! p = Some c ∧
  (r = -1 ∧ mem_of w' = mem_of w ∧
     (∀ i g mv g', w_invs w !! known_as c id = Some i → w_games w !! i_game i = Some g →
        game_parse_move g (side p i) move = Some mv → game_apply_move g mv ≠ Some (0, g')) ∨
   r = 0 ∧ ∃ i g mv g', w_invs w !! known_as c id = Some i ∧ w_games w !! i_game i = Some g ∧
     game_parse_move g (side p i) move = Some mv ∧ game_apply_move g mv = Some (0, g') ∧
     if g_is_over g' =? 0
     then mem_of w' = m_set_games (<[i_game i := g']> (w_games w)) (mem_of w)
     else ended p (known_as c id) c i (g_winner g') w w').

(** The move of a parsed string is one of the nine squares, for the role of
    the player who sent it. *)
Lemma game_parse_move_range g role str mv :
  game_parse_move g role str = Some mv → 0 ≤ mv_move mv ≤ 8 ∧ mv_role mv = role.
Proof.
  unfold game_parse_move.
  assert (∀ z, (if (z <? 0) || (8 <? z) then None else Some (mkMOVE z role)) = Some mv →
    0 ≤ mv_move mv ≤ 8 ∧ mv_role mv = role) as Hz.
  { intros z. destruct (Z.ltb_spec z 0), (Z.ltb_spec 8 z); cbn; intros; simplify_eq/=; lia || (split; [lia|done]). }
  destruct (_ =? 1); [apply Hz|]. destruct (_ =? 4); [|done].
  destruct (_ || _); [done|]. destruct (_ && _); [done|]. destruct (_ && _); [done|apply Hz].
Qed.

(** A move in range has a result; an accepted one continues the game. *)
Lemma game_apply_move_total g mv :
  played g → g_is_over g = 0 → 0 ≤ mv_move mv ≤ 8 →
  game_apply_move g mv = Some (-1, g) ∨
  ∃ g', game_apply_move g mv = Some (0, g') ∧ played g' ∧ g_ref_count g' = 1.
Proof.
  intros Hp Ho Hm. destruct (game_apply_move g mv) as [[r g']|] eqn:E.
  - pose proof (game_apply_move_inv _ _ _ _ E) as [[-> ->]|[-> _]]; [by left|right].
    assert (played g') as Hp' by eauto using played. eauto using played_ref_count.
  - exfalso. unfold game_apply_move, game_place in E. case_decide; [done|].
    destruct (Z.ltb_spec (mv_move mv) 0); [lia|].
    destruct (played_wf g Hp) as [Hlen _].
    destruct (lookup_lt_is_Some_2 (g_rows g) (Z.to_nat (mv_move mv))) as [x Hx]; [lia|].
    rewrite Hx in E. by destruct (negb _).
Qed.

(** The game after a move that is accepted. *)
Definition next_game (p : ptr) (i : INVITATION) (move : list byte) w : option GAME :=
  g ← w_games w !! i_game i; mv ← game_parse_move g (side p i) move;
  match game_apply_move g mv with Some (0, g') => Some g' | _ => None end.

(** The opponent is told the new board, and both players how the game ended. *)
Definition ended_notices (p q : ptr) (i : INVITATION) (id : Z) (winner : GAME_ROLE) w : list NOTICE :=
  [note w (other p i) JEUX_ENDED_PKT (id_for w (other p i) q) (role_int winner) None;
   note w p JEUX_ENDED_PKT id (role_int winner) None].

Definition moved_notices (p q : ptr) (i : INVITATION) (id : Z) (g' : GAME) w : list NOTICE :=
  note w (other p i) JEUX_MOVED_PKT (id_for w (other p i) q) 0 (Some (game_unparse_state g')) ::
  if g_is_over g' =? 0 then [] else ended_notices p q i id (g_winner g') w.

Definition move_notices (p : ptr) (id : Z) (move : list byte) w : list NOTICE :=
  if invitation_of p id w is Some (q, i) then
    if next_game p i move w is Some g' then moved_notices p q i id g' w else []
  else [].

(** A header, and a packet that goes out under it. *)
Lemma header_run w w' n size :
  core regs names [] w → quiet w w' → size = data_len (nt_data n) →
  ∃ ts w2, create_header (nt_type n) (nt_id n) (nt_role n) size w' = Ret (notice_header n ts) w2 ∧
    w_sems w2 = w_sems w' ∧ quiet w w2 ∧ mem_of w2 = mem_of w' ∧ told w' w2 [].
Proof.
  intros Hc Hq Hsz. pose proof Hq as (Eoom & _).
  destruct (create_header_sends n size w') as (h & w2 & (E & S2 & Q2) & M2 & T2 & ts & ->);
    [rewrite Eoom; apply Hc|done|].
  exists ts, w2. split; [done|]. split; [done|]. split; [by trans w'|done].
Qed.

Lemma send_run w w' o n ts :
  core regs names [] w → o ∈ regs → w_clients w' = w_clients w → quiet w w' →
  nt_fd n = fd_of w o → notice_ok n →
  ∃ w2, client_send_packet o (notice_header n ts) (nt_data n) w' = Ret 0 w2 ∧ w_sems w2 = w_sems w' ∧
    quiet w w2 ∧ mem_of w2 = mem_of w' ∧ told w' w2 [n].
Proof.
  intros Hc Ho Hcl Hq Hfd Hok. destruct (registered_client _ _ w o Hc Ho) as (co & _ & Hco & _).
  assert (w_clients w' !! o = Some co) as Hco' by (by rewrite Hcl).
  destruct (peer_conn _ _ w w' o co co Hc Ho Hco Hco' (same_peer_refl co) eq_refl Hq) as (_ & Efd & Hl & k & Hk & Hw).
  destruct (client_send_packet_sends o co k n ts w') as (r & w2 & (E & S2 & Q2) & M2 & T2 & Hr);
    [done|done|congruence|done|done|].
  rewrite (Hr Hok) in E. exists w2. split; [done|]. split; [done|]. split; [by trans w'|done].
Qed.

(** The two packets at the end of a game share a header. *)
Lemma ended_packets_run w w' p q i id winner :
  core regs names [] w → p ∈ regs → other p i ∈ regs → w_clients w' = w_clients w → quiet w w' →
  let n1 := note w (other p i) JEUX_ENDED_PKT (id_for w (other p i) q) (role_int winner) None in
  let n2 := note w p JEUX_ENDED_PKT id (role_int winner) None in
  ∃ ts w2 w3 w4, create_header JEUX_ENDED_PKT (id_for w (other p i) q) (role_int winner) 0 w' =
      Ret (notice_header n1 ts) w2 ∧
    client_send_packet (other p i) (notice_header n1 ts) None w2 = Ret 0 w3 ∧
    client_send_packet p (notice_header n2 ts) None w3 = Ret 0 w4 ∧
    w_sems w4 = w_sems w' ∧ quiet w w4 ∧ mem_of w4 = mem_of w' ∧
    told w' w4 (ended_notices p q i id winner w).
Proof.
  intros Hc Hp Ho Hcl Hq n1 n2.
  destruct (header_run w w' n1 0 Hc Hq eq_refl) as (ts & w2 & E2 & S2 & Q2 & M2 & T2).
  destruct (send_run w w2 (other p i) n1 ts) as (w3 & E3 & S3 & Q3 & M3 & T3);
    [done|done|by rewrite (mem_clients _ _ M2)|done..|].
  destruct (send_run w w3 p n2 ts) as (w4 & E4 & S4 & Q4 & M4 & T4);
    [done|done|by rewrite (mem_clients _ _ M3), <-Hcl; exact (mem_clients _ _ M2)|done..|].
  exists ts, w2, w3, w4. split; [exact E2|]. split; [exact E3|]. split; [exact E4|].
  split; [congruence|]. split; [done|]. split; [congruence|].
  exact (told_trans _ _ _ _ _ T2 (told_trans _ _ _ _ _ T3 T4)).
Qed.

(** The end of [client_make_move], from the result of the move on, and from
    the test whether the game is over. *)
Definition finish_over (p o q g : ptr) (oid id : Z) (role : GAME_ROLE) : M Z :=
  winner ← game_get_winner_at g;
  pkt ← create_header JEUX_ENDED_PKT oid (role_int winner) 0;
  s1 ← client_send_packet o pkt None;
  if s1 =? -1 then sem_post CLIENT_INVITE_OP_SEM;; mret (-1) else
  let pkt := mkHDR (h_type pkt) (uint8 id) (h_role pkt) (h_size pkt)
               (h_timestamp_sec pkt) (h_timestamp_nsec pkt) in
  s2 ← client_send_packet p pkt None;
  if s2 =? -1 then sem_post CLIENT_INVITE_OP_SEM;; mret (-1) else
  post_player_results p o role winner;;
  r1 ← client_remove_invitation p q;
  if r1 =? -1 then sem_post CLIENT_INVITE_OP_SEM;; mret (-1) else
  r2 ← client_remove_invitation o q;
  if r2 =? -1 then sem_post CLIENT_INVITE_OP_SEM;; mret (-1) else
  sem_post CLIENT_INVITE_OP_SEM;;
  mret 0.

Definition finish_move (p o q g : ptr) (oid id : Z) (role : GAME_ROLE) : M Z :=
  over ← game_is_over_at g;
  if over =? 0 then sem_post CLIENT_INVITE_OP_SEM;; mret 0 else finish_over p o q g oid id role.

Definition announce_move (p o q g : ptr) (id : Z) (role : GAME_ROLE) : M Z :=
  state ← game_unparse_state_at g;
  oid ← client_get_invitation_id o q;
  pkt ← create_header JEUX_MOVED_PKT oid 0 (strlen state);
  s ← client_send_packet o pkt (Some state);
  if s =? -1 then sem_post CLIENT_INVITE_OP_SEM;; mret (-1) else
  finish_move p o q g oid id role.

(** The world after an accepted move and its notification. *)
Definition moved (w w' : world) (i : INVITATION) (g' : GAME) : Prop :=
  mem_of w' = m_set_games (<[i_game i := g']> (w_games w)) (mem_of w) ∧ w_sems w' = op_sems w.

(** The move was the last of the game. *)
Lemma finish_over_safe w w3 q i g g' p c id l :
  core regs names [] w → Z.of_nat (w_brk w) ≤ MAX_BRK → w_invs w !! q = Some i →
  i_source i = p ∨ i_target i = p → i_state i = INV_ACCEPTED_STATE → i_game i ≠ NULL →
  w_games w !! i_game i = Some g → g_ref_count g' = 1 → w_clients w !! p = Some c →
  moved w w3 i g' → quiet w w3 → told w w3 l →
  safe_from regs names (finish_over p (other p i) q (i_game i) (id_for w (other p i) q) id (side p i)) w w3
    (λ r w', r = 0 ∧ ended p q c i (g_winner g') w w' ∧ told w w' (l ++ ended_notices p q i id (g_winner g') w)).
Proof.
  intros Hc Hb Hi Hpi Hs Hgn Hg Hg1 Hcp [M3 S3] Q3 T3. unfold safe_from, finish_over.
  assert (w_games w3 !! i_game i = Some g') as Hg3
    by (rewrite (mem_games _ _ M3); apply lookup_insert_eq).
  destruct (game_parties w q i p Hc Hi ltac:(congruence) Hpi)
    as (Hside & (c' & Hcp' & Hqp & Hpr & Hon) & (co & Hco & Hqo & Hor & Hono & Hlo)).
  rewrite Hcp in Hcp'. injection Hcp' as <-.
  assert (game_get_winner_at (i_game i) w3 = Ret (g_winner g') w3) as E5
    by (unfold game_get_winner_at; by run (load_run (V:=GAME)) by exact Hg3).
  step E5.
  destruct (ended_packets_run w w3 p q i id (g_winner g') Hc Hpr Hor (mem_clients _ _ M3) Q3)
    as (ts & w4 & w5 & w6 & E6 & E7 & E8 & S6 & Q6 & M6 & T6). rewrite M3 in M6.
  step E6. step E7. step E8.
  step (post_player_results_run w w6 p (other p i) c co (side p i) (g_winner g'))
    by (first [done|exact (mem_players _ _ M6)|exact (mem_clients _ _ M6)|congruence]).
  set (h := settled _ _ _ _ _). name_world w7.
  destruct (close_game_both w w7 q i i g' p (other p i) c co h)
    as (id1 & id2 & w8 & w9 & H1 & H2 & E9 & E10 & S10 & Q10 & N10 & M10 & Hok); try done.
  { by apply settled_ok, Hc. }
  { unfold mem_of, w7. cbn.
    rewrite (mem_brk _ _ M6), (mem_clients _ _ M6), (mem_invs _ _ M6), (mem_games _ _ M6). cbn.
    by rewrite (insert_id (w_invs w)) by exact Hi. }
  { change (w_sems w6 = op_sems w). by rewrite S6. }
  step E9. destruct (Z.eqb_spec id1 (-1)); [done|]. step E10. destruct (Z.eqb_spec id2 (-1)); [done|].
  eapply (leave_ended 0 w w9 q p i c co (g_winner g')); try done.
  eapply told_until; [exact N10|]. exact (told_trans _ _ _ _ _ T3 T6).
Qed.

Lemma finish_move_safe w w3 q i g g' p c id l :
  core regs names [] w → Z.of_nat (w_brk w) ≤ MAX_BRK → w_invs w !! q = Some i →
  i_source i = p ∨ i_target i = p → i_state i = INV_ACCEPTED_STATE → i_game i ≠ NULL →
  w_games w !! i_game i = Some g → played g' → g_ref_count g' = g_ref_count g → g_ref_count g' = 1 →
  w_clients w !! p = Some c → moved w w3 i g' → quiet w w3 → told w w3 l →
  safe_from regs names (finish_move p (other p i) q (i_game i) (id_for w (other p i) q) id (side p i)) w w3
    (λ r w', r = 0 ∧
      (if g_is_over g' =? 0
       then mem_of w' = m_set_games (<[i_game i := g']> (w_games w)) (mem_of w)
       else ended p q c i (g_winner g') w w') ∧
      told w w' (l ++ (if g_is_over g' =? 0 then [] else ended_notices p q i id (g_winner g') w))).
Proof.
  intros Hc Hb Hi Hpi Hs Hgn Hg Hpl' Href Hg1 Hcp Hmv Q3 T3. pose proof Hmv as [M3 S3].
  unfold safe_from, finish_move.
  assert (w_games w3 !! i_game i = Some g') as Hg3
    by (rewrite (mem_games _ _ M3); apply lookup_insert_eq).
  assert (game_is_over_at (i_game i) w3 = Ret (g_is_over g') w3) as E4.
  { unfold game_is_over_at. run (update_run (V:=GAME)) by exact Hg3. rewrite (game_is_over_stable g' Hpl').
    change (set_heap _ w3) with (set_games (<[i_game i := g']> (w_games w3)) w3). rewrite set_game_id by done.
    by run (load_run (V:=GAME)) by exact Hg3. }
  step E4. destruct (Z.eqb_spec (g_is_over g') 0) as [Hov'|Hov']; [|by eapply finish_over_safe].
  rewrite app_nil_r. eapply leave_change; try done; [by eapply le_op| | | |by intros w'' ->].
  - rewrite M3. by apply (set_game_ok regs names [] (mem_of w) (i_game i) g g'); [apply Hc|..].
  - rewrite M3. apply (rated_mono (mem_of w)); [apply Hc|done|]. cbn.
    rewrite map_size_insert_Some by (by exists g). done.
  - intros x cx _ Hx. rewrite (mem_clients _ _ M3). eauto.
Qed.

(** After the game has taken the move. *)
Lemma announce_move_safe w q i g g' p c id :
  core regs names [] w → Z.of_nat (w_brk w) ≤ MAX_BRK → w_invs w !! q = Some i →
  i_source i = p ∨ i_target i = p → i_state i = INV_ACCEPTED_STATE → i_game i ≠ NULL →
  w_games w !! i_game i = Some g → played g' → g_ref_count g' = g_ref_count g → g_ref_count g' = 1 →
  w_clients w !! p = Some c →
  safe_from regs names (announce_move p (other p i) q (i_game i) id (side p i)) w
    (set_games (<[i_game i := g']> (w_games w)) (set_sems (op_sems w) w))
    (λ r w', r = 0 ∧
      (if g_is_over g' =? 0
       then mem_of w' = m_set_games (<[i_game i := g']> (w_games w)) (mem_of w)
       else ended p q c i (g_winner g') w w') ∧
      told w w' (moved_notices p q i id g' w)).
Proof.
  intros Hc Hb Hi Hpi Hs Hgn Hg Hpl' Href Hg1 Hcp. unfold safe_from, announce_move.
  set (w1 := set_games _ _).
  destruct (game_parties w q i p Hc Hi ltac:(congruence) Hpi)
    as (Hside & _ & (co & Hco & _ & _ & _ & Hlo)).
  step (unparse_at_run (i_game i) g') by (first [exact (co_oom _ _ _ _ Hc)|apply lookup_insert_eq]). step (get_invitation_id_run (other p i) co q w1 w) by done.
  destruct (notify_run regs names w w1 q i (other p i) JEUX_MOVED_PKT (id_for w (other p i) q) 0
    (Some (game_unparse_state g')) (strlen (game_unparse_state g'))) as (w2 & E2 & S2 & Q2 & M2 & T2);
    [done|done|congruence|tauto || naive_solver|done|exact (reflexivity (R:=quiet) w)|done|done|].
  eapply wp_notify; [exact E2|]. norm.
  by apply (finish_move_safe w w2 q i g g' p c id [_]).
Qed.

Lemma client_make_move_safe w p id move :
  core regs names [] w → p ∈ regs → Z.of_nat (w_brk w) ≤ MAX_BRK →
  safe regs names (client_make_move p id move) w
    (λ r w', move_spec p id move w r w' ∧ told w w' (move_notices p id move w)).
Proof.
  intros Hc Hp Hb. unfold safe, safe_from, client_make_move.
  step enter_op. set (w0 := set_sems _ w).
  destruct (find_party _ _ w p id Hc Hp) as (c & Hcp & Eq & Hq). unfold move_spec, move_notices.
  step Eq. set (q := known_as c id) in *. pose proof (client_key w p c Hc Hcp) as Hpn.
  destruct Hq as [(Hq0 & Hn & Eio)|(Hq0 & i & Hi & Hpi & Eio)]; rewrite Eio.
  { rewrite Hq0. step (ran_ret (A:=ptr)). rewrite decide_True by done.
    apply op_fail; [done|]. intros w'' Hm Ht. split; [|done]. exists c. split; [done|]. left.
    split; [done|]. split; [done|]. fold q. rewrite Hn. done. }
  pose proof (mo_invs _ _ _ _ (co_mem _ _ _ _ Hc) q i Hi) as Hiw.
  step inv_get_game_run by (first [exact Hi|done]).
  destruct (decide (i_game i = NULL)) as [Hgn|Hgn].
  { assert (w_games w !! i_game i = None) as Hg by (rewrite Hgn; by eapply no_game_at_null).
    unfold next_game. rewrite Hg. apply op_fail; [done|]. intros w'' Hm Ht. split; [|done]. exists c.
    split; [done|]. left. split; [done|]. split; [done|]. fold q. rewrite Hi. intros ? g mv g' [= <-]. by rewrite Hg. }
  destruct (game_count_one _ _ (mem_of w) q i (co_mem _ _ _ _ Hc) Hi Hgn) as (Hs & g & Hg & Hpl & Hov & Hg1).
  step inv_get_source_run by (first [exact Hi|done]). step inv_get_target_run by (first [exact Hi|done]).
  rewrite decide_False by naive_solver.
  step inv_get_source_role_run by exact Hi. step inv_get_target_role_run by exact Hi. fold (side p i) (other p i).
  step (parse_at_run (i_game i) g) by (first [exact (co_oom _ _ _ _ Hc)|exact Hg]). change (w_games w !! i_game i = Some g) in Hg.
  assert (next_game p i move w = mv ← game_parse_move g (side p i) move;
    match game_apply_move g mv with Some (0, g') => Some g' | _ => None end) as -> by (unfold next_game; by rewrite Hg).
  destruct (game_parse_move g (side p i) move) as [mv|] eqn:Emv; cbn [mbind option_bind].
  2: { apply op_fail; [done|]. intros w'' Hm Ht. split; [|done]. exists c. split; [done|]. left. split; [done|].
       split; [done|]. fold q. rewrite Hi. intros ? g0 mv g' [= <-] Hg0. simplify_eq. by rewrite Emv. }
  destruct (game_parse_move_range _ _ _ _ Emv) as [Hmv Hrole].
  destruct (game_apply_move_total g mv Hpl Hov Hmv) as [Ea|(g' & Ea & Hpl' & Hg1')]; rewrite Ea.
  { step (game_apply_move_at_run (i_game i) g mv) by (first [exact Hg|exact Ea]). rewrite set_game_id by exact Hg.
    apply op_fail; [done|]. intros w'' Hm Ht. split; [|done]. exists c. split; [done|]. left.
    split; [done|]. split; [done|].
    fold q. rewrite Hi. intros ? g0 mv0 g' [= <-] Hg0. simplify_eq. rewrite Emv. intros [= <-]. by rewrite Ea. }
  step (game_apply_move_at_run (i_game i) g mv) by (first [exact Hg|exact Ea]). eapply wp_mono; [apply (announce_move_safe w q i g g' p c id); try done; congruence|].
  intros r w' (Hsem & Hqt & Hpe & Hc' & -> & Hres & Ht). repeat (split; [done|]).
  split; [|exact Ht]. exists c. split; [done|]. right. split; [done|]. by exists i, g, mv, g'.
Qed.
End playing.
