(* ===== verification/Logout.v ===== *)
(** * Logging out

    [client_logout] of [src/client.c]: the walk over the list of invitations
    visits every node although each step unlinks the node it is at, and when
    it is over nothing but closed invitations is left of the client. *)
From stdpp Require Import relations.
From S2P Require Import Prelude Game Player Elo World Objects Protocol Wire PlayerRegistry Invitation Client Sessions ClientRegistry Accounting Effects Handlers Playing.

(** ** The walk over the list *)

Lemma known_as_node c n :
  NoDup (node_ids c) → n ∈ c_invite_head c → known_as c (n_id n) = n_invitation n.
Proof.
  unfold known_as, node_ids, find_node. induction (c_invite_head c) as [|x l IH]; intros Hnd Hn;
    [by apply elem_of_nil in Hn|]. rewrite fmap_cons in Hnd. apply NoDup_cons in Hnd as [Hx Hnd].
  cbn. destruct (Z.eqb_spec (n_id x) (n_id n)) as [E|E].
  - apply elem_of_cons in Hn as [->|Hn]; [done|]. exfalso. apply Hx. rewrite E. by apply list_elem_of_fmap_2.
  - apply elem_of_cons in Hn as [->|Hn]; [done|]. by apply IH.
Qed.

Lemma node_at_middle pre n l :
  NoDup (n_addr <$> pre ++ n :: l) → node_at (n_addr n) (pre ++ n :: l) = Some (n, head_addr l).
Proof.
  induction pre as [|x pre IH]; cbn; intros Hnd.
  - rewrite Nat.eqb_refl. by destruct l.
  - apply NoDup_cons in Hnd as [Hx Hnd]. destruct (Nat.eqb_spec (n_addr x) (n_addr n)) as [E|E].
    + exfalso. apply Hx. rewrite E. apply list_elem_of_fmap_2, elem_of_app. right. by left.
    + by apply IH.
Qed.

Lemma unlink_middle pre n l :
  NoDup (n_invitation <$> pre ++ n :: l) → unlink (n_invitation n) (pre ++ n :: l) = pre ++ l.
Proof.
  induction pre as [|x pre IH]; cbn; intros Hnd.
  - by rewrite Nat.eqb_refl.
  - apply NoDup_cons in Hnd as [Hx Hnd]. destruct (Nat.eqb_spec (n_invitation x) (n_invitation n)) as [E|E].
    + exfalso. apply Hx. rewrite E. apply list_elem_of_fmap_2, elem_of_app. right. by left.
    + f_equal. by apply IH.
Qed.

Section logout.
Context `{LibmLaws}.
Context (regs names : list ptr).
Implicit Types (w : world) (p : ptr).

(** The node is on an invitation that is closed. *)
Definition node_closed w (n : INVITATION_NODE) : Prop :=
  ∃ i, w_invs w !! n_invitation n = Some i ∧ i_state i = INV_CLOSED_STATE.

(** What one step of the walk does to the server: nothing, or an invitation
    of the client is taken back, or a game of the client is resigned. *)
Definition undo (p : ptr) w w' : Prop :=
  mem_of w' = mem_of w ∨
  ∃ x i c co, mem_ok regs names [] (mem_of w) ∧ w_clients w !! p = Some c ∧ w_invs w !! x = Some i ∧
    (i_source i = p ∨ i_target i = p) ∧ w_clients w !! other p i = Some co ∧
    (i_state i = INV_OPEN_STATE ∧
       mem_of w' = drop_inv x p (other p i) NULL c co (mem_of w) ∨
     i_state i = INV_ACCEPTED_STATE ∧ ended p x c i (opponent_of (side p i)) w w').

(** Whom the step at a node tells: the opponent of a game that it is resigned,
    the other side of an open invitation that it is revoked or declined. *)
Definition parting_notices (p : ptr) w (n : INVITATION_NODE) : list NOTICE :=
  if w_invs w !! n_invitation n is Some i then
    let tell type := [note w (other p i) type (id_for w (other p i) (n_invitation n)) 0 None] in
    match i_state i with
    | INV_OPEN_STATE => tell (if decide (i_source i = p) then JEUX_REVOKED_PKT else JEUX_DECLINED_PKT)
    | INV_ACCEPTED_STATE => tell JEUX_RESIGNED_PKT
    | INV_CLOSED_STATE => []
    end
  else [].

Definition logout_notices (p : ptr) w : list NOTICE :=
  if w_clients w !! p is Some c then
    if decide (c_logged_in c = CLIENT_LOGGED_IN) then concat (parting_notices p w <$> c_invite_head c) else []
  else [].

Lemma parting_same p w w' n : mem_of w' = mem_of w → parting_notices p w' n = parting_notices p w n.
Proof.
  intros Hm. unfold parting_notices, note, fd_of, id_for.
  by rewrite (mem_invs _ _ Hm), (mem_clients _ _ Hm).
Qed.

(** Taking an invitation away leaves the others as the clients know them. *)
Lemma id_of_drop q q' c : q' ≠ q → id_of (drop_node q c) q' = id_of c q'.
Proof.
  intros Hne. unfold drop_node. destruct (find_node _ _); [|done]. unfold id_of, find_node. cbn.
  induction (c_invite_head c) as [|n l IH]; [done|]. cbn.
  destruct (Nat.eqb_spec (n_invitation n) q), (Nat.eqb_spec (n_invitation n) q') as [|Hq]; cbn; try congruence.
  - by rewrite (proj2 (Nat.eqb_eq _ _)).
  - by rewrite (proj2 (Nat.eqb_neq _ _) Hq).
Qed.

Lemma drop_inv_seen q s t g cs ct m w w' o q' :
  m_clients m = w_clients w → mem_of w' = drop_inv q s t g cs ct m →
  w_clients w !! s = Some cs → w_clients w !! t = Some ct → q' ≠ q →
  fd_of w' o = fd_of w o ∧ id_for w' o q' = id_for w o q'.
Proof.
  intros Em Hm Hs Ht Hne. unfold fd_of, id_for. rewrite (mem_clients _ _ Hm). cbn. rewrite Em. unfold upd2.
  assert (∀ c, c_fd (add_refs (-1) (drop_node q c)) = c_fd c ∧ id_of (add_refs (-1) (drop_node q c)) q' = id_of c q')
    as Hsame by (intros c; split; [apply (drop_node_fields q c)|by apply (id_of_drop q q' c)]).
  destruct (decide (o = t)) as [->|]; [rewrite lookup_insert_eq, Ht; apply Hsame|]. rewrite lookup_insert_ne by done.
  destruct (decide (o = s)) as [->|]; [rewrite lookup_insert_eq, Hs; apply Hsame|]. by rewrite lookup_insert_ne by done.
Qed.

(** One step of the walk: the invitation is closed and off the list, or it
    was closed before and nothing happens; what the walk would tell at the
    other nodes does not change. *)
Definition visited (p : ptr) (c : CLIENT) (n : INVITATION_NODE) w w' : Prop :=
  w_brk w' = w_brk w ∧ undo p w w' ∧
  (∀ m, n_invitation m ≠ n_invitation n → parting_notices p w' m = parting_notices p w m) ∧
  ∃ c', w_clients w' !! p = Some c' ∧ c_logged_in c' = c_logged_in c ∧ c_player c' = c_player c ∧
    (node_closed w n ∧ mem_of w' = mem_of w ∨
     c_invite_head c' = unlink (n_invitation n) (c_invite_head c) ∧
     w_invs w' = delete (n_invitation n) (w_invs w)).

Lemma visited_same p c n w w' :
  w_clients w !! p = Some c → node_closed w n → mem_of w' = mem_of w → visited p c n w w'.
Proof.
  intros Hp Hn Hm. split; [exact (mem_brk _ _ Hm)|]. split; [by left|].
  split; [intros; by apply parting_same|]. exists c.
  split; [by rewrite (mem_clients _ _ Hm)|]. auto.
Qed.

Lemma visited_drop p o c co n g m w w' :
  m_clients m = w_clients w → m_brk m = w_brk w → m_invs m = w_invs w →
  p ≠ o → n_invitation n ∈ node_invs c → w_clients w !! p = Some c → w_clients w !! o = Some co →
  mem_of w' = drop_inv (n_invitation n) p o g c co m → undo p w w' → visited p c n w w'.
Proof.
  intros E1 E2 E3 Hne Hn Hcp Hco Hm Hu. split; [by rewrite (mem_brk _ _ Hm)|]. split; [done|]. split.
  { intros x Hx. unfold parting_notices, note. rewrite (mem_invs _ _ Hm). cbn. rewrite E3, lookup_delete_ne by done.
    destruct (w_invs w !! n_invitation x) as [i|]; [|done].
    by destruct (drop_inv_seen _ _ _ _ _ _ _ w w' (other p i) (n_invitation x) E1 Hm Hcp Hco Hx) as [-> ->]. }
  destruct (drop_node_perm _ _ Hn) as (n' & _ & _ & _ & _ & _ & Hdrop).
  destruct (drop_node_fields (n_invitation n) c) as (_ & _ & _ & _ & Hpl & Hli & _).
  exists (add_refs (-1) (drop_node (n_invitation n) c)).
  split; [rewrite (mem_clients _ _ Hm); by apply upd2_source|]. split; [done|]. split; [done|].
  right. split; [cbn; by rewrite Hdrop|]. rewrite (mem_invs _ _ Hm). cbn. by rewrite E3.
Qed.

(** The invitation at the node was open, or its game went on. *)
Lemma visited_closed p c n i co m w w' :
  core regs names [] w → w_clients w !! p = Some c → n_invitation n ∈ node_invs c →
  w_invs w !! n_invitation n = Some i → i_source i = p ∨ i_target i = p →
  w_clients w !! other p i = Some co →
  m_clients m = w_clients w → m_brk m = w_brk w → m_invs m = w_invs w →
  mem_of w' = drop_inv (n_invitation n) p (other p i) (i_game i) c co m →
  (i_state i = INV_OPEN_STATE ∧ mem_of w' = drop_inv (n_invitation n) p (other p i) NULL c co (mem_of w) ∨
   i_state i = INV_ACCEPTED_STATE ∧ ended p (n_invitation n) c i (opponent_of (side p i)) w w') →
  visited p c n w w'.
Proof.
  intros Hc Hcp Hq Hi Hpi Hco E1 E2 E3 Hm Hcase.
  pose proof (iw_distinct _ _ _ (mo_invs _ _ _ _ (co_mem _ _ _ _ Hc) _ _ Hi)) as Hdist.
  apply (visited_drop p (other p i) c co n (i_game i) m); try done.
  - unfold other. case_decide; naive_solver.
  - right. exists (n_invitation n), i, c, co. split; [apply Hc|]. by repeat (split; [done|]).
Qed.

(** The body of the loop at one node. *)
Definition visit (p : ptr) (n : INVITATION_NODE) : M Z :=
  game ← inv_get_game (n_invitation n);
  if decide (game ≠ NULL) then client_resign_game p (n_id n)
  else
    source ← inv_get_source (n_invitation n);
    if decide (source = p) then client_revoke_invitation p (n_id n)
    else client_decline_invitation p (n_id n).

(** Without a game, an invitation is open or closed. *)
Lemma gameless_closed w n i :
  core regs names [] w → w_invs w !! n_invitation n = Some i → i_game i = NULL →
  i_state i ≠ INV_ACCEPTED_STATE ∧ (i_state i ≠ INV_OPEN_STATE → node_closed w n).
Proof.
  intros Hc Hi Hg. pose proof (iw_state _ _ _ (mo_invs _ _ _ _ (co_mem _ _ _ _ Hc) _ _ Hi)) as Hst.
  pose proof (no_game_at_null _ _ w Hc) as Hnone.
  assert (i_state i ≠ INV_ACCEPTED_STATE) as Hna.
  { intros Hs. rewrite Hs, Hg in Hst. destruct Hst as (g & Hg' & _). cbn in Hg'. congruence. }
  split; [done|]. intros Hno. exists i. split; [done|]. by destruct (i_state i).
Qed.

Lemma visit_safe w p c n :
  core regs names [] w → p ∈ regs → Z.of_nat (w_brk w) ≤ MAX_BRK →
  w_clients w !! p = Some c → n ∈ c_invite_head c →
  safe regs names (visit p n) w (λ _ w', visited p c n w w' ∧ told w w' (parting_notices p w n)).
Proof.
  intros Hc Hp Hb Hcp Hn. pose proof (mo_clients _ _ _ _ (co_mem _ _ _ _ Hc) p c Hcp) as Hwf.
  pose proof (known_as_node c n (cw_nodup_ids _ _ _ _ _ Hwf) Hn) as Hk.
  assert (n_invitation n ∈ node_invs c) as Hq by (by apply list_elem_of_fmap_2).
  destruct (cw_invs _ _ _ _ _ Hwf _ Hq) as (i & Hi & Hpi).
  change (w_invs w !! n_invitation n = Some i) in Hi. pose proof (inv_key _ _ _ _ _ Hc Hi) as Hq0.
  pose proof (iw_distinct _ _ _ (mo_invs _ _ _ _ (co_mem _ _ _ _ Hc) _ _ Hi)) as Hdist.
  assert (invitation_of p (n_id n) w = Some (n_invitation n, i)) as Eio
    by (unfold invitation_of; rewrite Hcp; cbn; by rewrite Hk, Hi).
  unfold visit, safe, safe_from, parting_notices. rewrite Hi. step inv_get_game_run by (first [exact Hi|done]).
  destruct (decide (i_game i ≠ NULL)) as [Hg|Hg].
  - destruct (game_count_one _ _ (mem_of w) _ i (co_mem _ _ _ _ Hc) Hi Hg) as (Hs & _).
    eapply wp_mono; [by apply client_resign_safe|]. intros r w' (Hsem & Hqt & Hpe & Hc' & (c' & Hcp' & Hsp) & Ht).
    unfold resign_notices in Ht. rewrite Eio, decide_True in Ht by done. rewrite Hs.
    repeat (split; [done|]). split; [|exact Ht]. rewrite Hcp in Hcp'. injection Hcp' as <-.
    rewrite Hk, Hi in Hsp. rewrite decide_True in Hsp by done. destruct Hsp as (_ & co & Hco & Hm).
    eapply (visited_closed p c n i co); [done|done|done|done|done|exact Hco| | | |exact Hm|]; try done.
    right. split; [done|]. by exists co.
  - apply dec_stable in Hg. step inv_get_source_run by (first [exact Hi|done]).
    destruct (gameless_closed w n i Hc Hi Hg) as [Hna Hclosed].
    destruct (decide (i_source i = p)) as [Hs|Hs].
    + assert (other p i = i_target i) as Eo by (unfold other; by rewrite decide_True).
      eapply wp_mono; [by apply client_revoke_safe|].
      intros r w' (Hsem & Hqt & Hpe & Hc' & (c' & Hcp' & Hsp) & Ht). unfold revoke_notices in Ht. rewrite Eio in Ht.
      repeat (split; [done|]). rewrite Hcp in Hcp'. injection Hcp' as <-. rewrite Hk, Hi in Hsp.
      destruct (decide (i_state i = INV_OPEN_STATE)) as [Ho|Hno].
      * rewrite decide_True in Hsp by done. destruct Hsp as (_ & ct & Hct & Hm). rewrite <-Eo in Ht, Hm; rewrite <-Eo in Hct.
        rewrite Ho. split; [|exact Ht]. apply (visited_closed p c n i ct (mem_of w)); try done; [by rewrite Hg|by left].
      * destruct Hsp as [_ Hm]. split; [by apply visited_same; auto|]. by destruct (i_state i).
    + destruct Hpi as [?|Htp]; [done|].
      assert (other p i = i_source i) as Eo by (unfold other; by rewrite decide_False by naive_solver).
      eapply wp_mono; [by apply client_decline_safe|].
      intros r w' (Hsem & Hqt & Hpe & Hc' & (c' & Hcp' & Hsp) & Ht). unfold decline_notices in Ht. rewrite Eio in Ht.
      repeat (split; [done|]). rewrite Hcp in Hcp'. injection Hcp' as <-. rewrite Hk, Hi in Hsp.
      destruct (decide (i_state i = INV_OPEN_STATE)) as [Ho|Hno].
      * rewrite decide_True in Hsp by done. destruct Hsp as (_ & cs & Hcs & Hm). rewrite <-Eo in Ht, Hm; rewrite <-Eo in Hcs.
        rewrite Ho. split; [|exact Ht].
        apply (visited_closed p c n i cs (mem_of w)); try done; [by right|by rewrite Hg|by left].
      * destruct Hsp as [_ Hm]. split; [by apply visited_same; auto|]. by destruct (i_state i).
Qed.

(** What the walk leaves: the same client, on closed invitations only. *)
Definition walked (p : ptr) (c : CLIENT) w w' : Prop :=
  w_brk w' = w_brk w ∧ rtc (undo p) w w' ∧ ∃ c', w_clients w' !! p = Some c' ∧
    c_logged_in c' = c_logged_in c ∧ c_player c' = c_player c ∧
    Forall (node_closed w') (c_invite_head c').

Lemma walk_over p c pre w :
  core regs names [] w → w_clients w !! p = Some c → c_invite_head c = pre ++ [] → Forall (node_closed w) pre →
  safe regs names (mret ()) w (λ _ w', walked p c w w' ∧ told w w' []).
Proof.
  intros Hc Hcp Hl Hpre. rewrite app_nil_r in Hl. split; [done|]. split; [reflexivity|]. split; [done|].
  split; [done|]. split; [|apply told_refl]. split; [done|]. split; [done|]. exists c. by rewrite Hl.
Qed.

(** After the visit of [n] the nodes before the next one are on closed
    invitations. *)
Lemma visited_rest p c c1 pre n l w w1 :
  w_clients w !! p = Some c → w_clients w1 !! p = Some c1 → c_invite_head c = pre ++ n :: l →
  NoDup (n_invitation <$> pre ++ n :: l) → Forall (node_closed w) pre →
  (node_closed w n ∧ mem_of w1 = mem_of w ∨
   c_invite_head c1 = unlink (n_invitation n) (c_invite_head c) ∧ w_invs w1 = delete (n_invitation n) (w_invs w)) →
  ∃ pre', c_invite_head c1 = pre' ++ l ∧ Forall (node_closed w1) pre'.
Proof.
  intros Hcp Hcp1 Hl Hni Hpre [[Hcl Hm]|[Hul Hdel]].
  - exists (pre ++ [n]). rewrite (mem_clients _ _ Hm) in Hcp1. cbn in Hcp1.
    rewrite Hcp in Hcp1. injection Hcp1 as <-. rewrite Hl. split; [by rewrite <-app_assoc|].
    unfold node_closed. rewrite (mem_invs _ _ Hm). apply Forall_app. split; [done|by constructor].
  - exists pre. rewrite Hul, Hl, unlink_middle by done. split; [done|].
    apply Forall_forall. intros x Hx. pose proof (proj1 (Forall_forall _ _) Hpre x Hx) as (i & Hi & Hsi).
    exists i. split; [|done]. rewrite Hdel, lookup_delete_ne; [done|]. intros E.
    rewrite fmap_app, fmap_cons in Hni. apply NoDup_app in Hni as (_ & Hdis & _).
    apply (Hdis (n_invitation x)); [by apply list_elem_of_fmap_2|]. rewrite E. by left.
Qed.

(** The loop from node [l] on, after [pre]; it ends within the length of the
    list it started from. *)
Lemma logout_loop_safe fuel pre l w p c :
  core regs names [] w → p ∈ regs → Z.of_nat (w_brk w) ≤ MAX_BRK →
  w_clients w !! p = Some c → c_invite_head c = pre ++ l → Forall (node_closed w) pre →
  (length l ≤ fuel)%nat →
  safe regs names (logout_loop client_unref fuel p (head_addr l)) w
    (λ _ w', walked p c w w' ∧ told w w' (concat (parting_notices p w <$> l))).
Proof.
  revert pre l w c. induction fuel as [|fuel IH]; intros pre l w c Hc Hp Hb Hcp Hl Hpre Hlen.
  { destruct l; [|cbn in Hlen; lia]. by apply (walk_over p c pre). }
  destruct l as [|n l]; [by apply (walk_over p c pre)|].
  pose proof (mo_clients _ _ _ _ (co_mem _ _ _ _ Hc) p c Hcp) as Hwf.
  pose proof (cw_nodup_addrs _ _ _ _ _ Hwf) as Hna. pose proof (cw_nodup_invs _ _ _ _ _ Hwf) as Hni.
  unfold node_addrs in Hna. unfold node_invs in Hni. rewrite Hl in Hna, Hni.
  assert (n ∈ c_invite_head c) as Hn by (rewrite Hl; apply elem_of_app; right; by left).
  assert (n_addr n ≠ NULL) as Hn0.
  { pose proof (cw_addrs _ _ _ _ _ Hwf (n_addr n) ltac:(by apply list_elem_of_fmap_2)). unfold NULL. lia. }
  unfold safe, safe_from. cbn [logout_loop head_addr]. rewrite decide_False by done.
  step load_client_run. rewrite Hl.
  assert (defined (node_at (n_addr n) (pre ++ n :: l)) w = Ret (n, head_addr l) w) as Enode
    by (by rewrite node_at_middle).
  step Enode. cbn [fst snd].
  enough (wp (visit p n;; logout_loop client_unref fuel p (head_addr l)) w
    (λ _ w', w_sems w' = w_sems w ∧ quiet w w' ∧ peers regs w w' ∧ core regs names [] w' ∧ walked p c w w' ∧
      told w w' (concat (parting_notices p w <$> n :: l)))) as Hvisit.
  { unfold visit, wp in Hvisit. by rewrite bind_assoc in Hvisit. }
  apply wp_bind. eapply wp_mono; [by apply visit_safe|].
  intros r w1 (Hs1 & Hq1 & Hpe1 & Hc1 & (Hb1 & Hu1 & Hsee & c1 & Hcp1 & Hlog & Hpl & Hcase) & Ht1).
  destruct (visited_rest p c c1 pre n l w w1) as (pre' & Hl' & Hpre'); [done..|].
  cbn in Hlen.
  eapply wp_mono; [eapply (IH pre' l w1 c1); [done|done|lia|done|done|done|lia]|].
  intros _ w2 (Hs2 & Hq2 & Hpe2 & Hc2 & (Hb2 & Hu2 & c2 & Hcp2 & Hlog2 & Hpl2 & Hall) & Ht2).
  split; [congruence|]. split; [by trans w1|]. split; [by trans w1|]. split; [done|]. split.
  2: { cbn. apply (told_trans _ _ _ _ _ Ht1).
       assert (parting_notices p w1 <$> l = parting_notices p w <$> l) as <-; [|done].
       apply list_fmap_ext. intros j m Hm. apply Hsee. intros E.
       rewrite fmap_app, fmap_cons in Hni. apply NoDup_app in Hni as (_ & _ & Hni).
       apply NoDup_cons in Hni as [Hni _]. apply Hni. rewrite <-E. apply list_elem_of_fmap_2.
       by eapply list_elem_of_lookup_2. }
  split; [congruence|].
  split; [by eapply rtc_l|].
  exists c2. split; [done|]. split; [congruence|]. split; [congruence|done].
Qed.

(** ** Leaving *)

Lemma core_set_sems held w s : core regs names held w → op_free s → core regs names held (set_sems s w).
Proof. intros []. by split. Qed.

Lemma rated_player m p v v' : rated m → m_players m !! p = Some v → p_rating v' = p_rating v →
  rated (m_set_players (<[p := v']> (m_players m)) m).
Proof.
  intros Hr Hp E x u Hx. cbn in Hx. apply lookup_insert_Some in Hx as [[<- <-]|[_ Hx]].
  - rewrite E. exact (Hr _ _ Hp).
  - exact (Hr _ _ Hx).
Qed.

Lemma player_unref_rating v v' : player_unref v = Some (Some v') → p_rating v' = p_rating v.
Proof. intros (u & (n & _ & [= <-])%bind_Some & E)%bind_Some. case_match; by simplify_eq. Qed.

Lemma player_unref_name v v' : player_unref v = Some (Some v') → p_name v' = p_name v.
Proof. intros (u & (n & _ & [= <-])%bind_Some & E)%bind_Some. case_match; by simplify_eq. Qed.

(** A logged-in client with closed invitations only gives its player back. *)
Lemma leave_player w p c :
  core regs names [] w → w_clients w !! p = Some c → c_logged_in c = CLIENT_LOGGED_IN →
  Forall (node_closed w) (c_invite_head c) →
  ∃ v v', w_players w !! c_player c = Some v ∧ player_unref v = Some (Some v') ∧
    let m' := mkMEM (w_brk w) (<[p := c_set_logged_in CLIENT_LOGGED_OUT c]> (w_clients w)) (w_invs w)
                (w_games w) (<[c_player c := v']> (w_players w)) in
    mem_ok regs names [] m' ∧ rated m'.
Proof.
  intros Hc Hp Hon Hall. pose proof (co_mem _ _ _ _ Hc) as Hm.
  pose proof (mo_clients _ _ _ _ Hm p c Hp) as Hwf.
  destruct (cw_logged_in _ _ _ _ _ Hwf Hon) as [Hpl Hr].
  destruct (cw_player _ _ _ _ _ Hwf) as [|Hin]; [done|].
  assert (c_set_logged_in CLIENT_LOGGED_OUT (c_set_player (c_player c) c) = c_set_logged_in CLIENT_LOGGED_OUT c)
    as Eset by (by destruct c).
  assert (mem_ok regs names [c_player c] (m_set_clients (<[p := c_set_logged_in CLIENT_LOGGED_OUT c]> (w_clients w)) (mem_of w))) as Hm1.
  { rewrite <-Eset. apply (set_login_ok regs names [] _ (mem_of w)); try done; [by right| | |].
    - intros _ q i Hi Hpi. destruct (decide (i_state i = INV_CLOSED_STATE)) as [|Hne]; [done|].
      assert (has_inv (mem_of w) p q) as (c0 & Hc0 & Hq).
      { apply (iw_open _ _ _ (mo_invs _ _ _ _ Hm q i Hi) Hne). destruct Hpi; auto. }
      change (w_clients w !! p = Some c0) in Hc0. rewrite Hp in Hc0. injection Hc0 as <-.
      apply list_elem_of_fmap in Hq as (n & -> & Hn).
      destruct (proj1 (Forall_forall _ _) Hall n Hn) as (i' & Hi' & Hs').
      change (w_invs w !! n_invitation n = Some i) in Hi. congruence.
    - intros x. unfold player_refs. cbn. rewrite Hon.
      rewrite (decide_False (P := CLIENT_LOGGED_OUT = CLIENT_LOGGED_IN ∧ _)) by naive_solver.
      repeat case_decide; naive_solver lia.
    - by intros x ->%list_elem_of_singleton. }
  destruct (mo_names _ _ _ _ Hm _ Hin) as [v Hv].
  destruct (player_unref_ok regs names [] _ _ v Hm1 Hv) as (Hv' & Hm2).
  exists v, (player_add (-1) v). split; [done|]. split; [done|]. split; [exact Hm2|].
  exact (rated_player (m_set_clients _ (mem_of w)) _ v _ (co_rated _ _ _ _ Hc) Hv (player_unref_rating _ _ Hv')).
Qed.

(** Its invitations taken back and its games resigned, the client gives its
    player back. *)
Definition left_server (p : ptr) (c : CLIENT) w w' : Prop :=
  ∃ w0 w1 c1 v v', mem_of w0 = mem_of w ∧ rtc (undo p) w0 w1 ∧ w_clients w1 !! p = Some c1 ∧
    c_player c1 = c_player c ∧ c_logged_in c1 = CLIENT_LOGGED_IN ∧
    w_players w1 !! c_player c = Some v ∧ player_unref v = Some (Some v') ∧
    mem_of w' = mkMEM (w_brk w1) (<[p := c_set_logged_in CLIENT_LOGGED_OUT c1]> (w_clients w1))
      (w_invs w1) (w_games w1) (<[c_player c := v']> (w_players w1)).

(** What logging out does. *)
Definition logout_spec (p : ptr) w (r : Z) w' : Prop :=
  w_brk w' = w_brk w ∧ ∃ c, w_clients w !! p = Some c ∧
  if decide (c_logged_in c = CLIENT_LOGGED_IN) then
    r = 0 ∧ left_server p c w w' ∧
    ∃ c', w_clients w' !! p = Some c' ∧ c_logged_in c' = CLIENT_LOGGED_OUT ∧
      Forall (node_closed w') (c_invite_head c')
  else r = -1 ∧ mem_of w' = mem_of w.

Lemma client_logout_safe w p :
  core regs names [] w → w_sems w !! CLIENT_LOGOUT_SEM = Some 1 → p ∈ regs →
  Z.of_nat (w_brk w) ≤ MAX_BRK →
  safe regs names (client_logout p) w (λ r w', logout_spec p w r w' ∧ told w w' (logout_notices p w)).
Proof.
  intros Hc Hsem Hp Hb. destruct (registered_client _ _ w p Hc Hp) as (c & k & Hcp & _).
  unfold safe, safe_from, client_logout, client_logout', logout_spec, logout_notices. rewrite Hcp.
  step load_client_run.
  destruct (decide (c_logged_in c = CLIENT_LOGGED_IN)) as [Hon|Hoff].
  2: { rewrite decide_True by done. split; [done|]. split; [reflexivity|]. split; [done|]. split; [done|].
       split; [|apply told_refl]. split; [done|]. exists c. by rewrite decide_False by done. }
  rewrite decide_False by tauto. step (sem_wait_run CLIENT_LOGOUT_SEM 1). set (w1 := set_sems _ w).
  assert (core regs names [] w1) as Hc1.
  { apply core_set_sems; [done|]. destruct (co_sems _ _ _ _ Hc) as (H1 & H2 & H3).
    split_and!; by rewrite list_lookup_insert_ne. }
  step load_client_run. apply wp_bind.
  eapply wp_mono; [by eapply (logout_loop_safe _ [] (c_invite_head c) w1 p c)|].
  intros [] w2 (Hs2 & Hq2 & Hpe2 & Hc2 & (Hb2 & Hu2 & c2 & Hcp2 & Hlog2 & Hpl2 & Hall) & Ht2).
  destruct (leave_player w2 p c2 Hc2 Hcp2 ltac:(congruence) Hall) as (v & v' & Hv & Hv' & Hm3 & Hr3).
  step load_client_run.
  set (w3 := set_players (<[c_player c2 := v']> (w_players w2)) w2).
  assert (player_unref_at (c_player c2) w2 = Ret () w3) as E3.
  { by rewrite (player_unref_at_run _ v _ w2 Hv Hv'). }
  step E3. step (update_client_run p _ c2) by exact Hcp2. name_world w4.
  assert (w_sems w4 = <[CLIENT_LOGOUT_SEM := 1 - 1]> (w_sems w)) as Hs4 by exact Hs2.
  unfold wp. rewrite (leave_section CLIENT_LOGOUT_SEM 0 w) by done.
  split; [done|]. split; [exact Hq2|]. split.
  { intros x Hx. etrans; [|exact (Hpe2 x Hx)]. unfold fd_of. cbn. destruct (decide (x = p)) as [->|].
    - by rewrite lookup_insert_eq, Hcp2.
    - by rewrite lookup_insert_ne. }
  split.
  - apply core_set_sems; [|apply Hc].
    apply (core_change regs names [] [] w2); [done|exact Hm3|exact Hr3|done|exact (reflexivity (R:=quiet) w2)| |].
    + intros x cx Hx Hcx. split; [done|]. cbn. destruct (decide (x = p)) as [->|].
      * rewrite lookup_insert_eq. eexists. split; [done|]. by rewrite Hcp2 in Hcx; injection Hcx as <-.
      * rewrite lookup_insert_ne by done. eauto.
    + intros x Hx. by apply (mo_regs _ _ _ _ (co_mem _ _ _ _ Hc2)).
  - split; [|exact Ht2]. split; [exact Hb2|]. exists c. split; [done|]. rewrite decide_True by done. split; [done|].
    split.
    { exists w1, w2, c2, v, v'. rewrite <-Hpl2. repeat (split; [done || congruence|]). done. }
    exists (c_set_logged_in CLIENT_LOGGED_OUT c2). split; [apply lookup_insert_eq|]. split; [done|exact Hall].
Qed.
End logout.
