(* ===== verification/Requests.v ===== *)
(** * Requests of a registered client: the handlers of [src/server.c]

    Every request handler but LOGIN, run for a registered client on a server
    that satisfies the invariant: it returns, the invariant holds again, and
    the effect on the server is the one of the operation it calls. *)
From S2P Require Import Prelude Game Player Elo World Objects Protocol Wire PlayerRegistry Invitation Client Sessions ClientRegistry Server Accounting Effects Handlers Directory Playing Logout.

(** ** The server between two requests *)

(** The registry of players counts its nodes. *)
Definition preg_wf (q : PLAYER_REGISTRY) : Prop :=
  pr_length q = Z.of_nat (length (pr_head q)) ∧ pr_length q ≤ INT_MAX.

Record serves (cr pr : ptr) (r : CLIENT_REGISTRY) (q : PLAYER_REGISTRY) (w : world) : Prop := {
  sv_cr : cr ≠ NULL;
  sv_creg : w_cregs w = {[cr := r]};
  sv_preg : w_pregs w !! pr = Some q;
  sv_nodes : preg_wf q;
  sv_wf : creg_wf r;
  sv_core : core (cr_registered r) (pr_head q) [] w;
  sv_sems : w_sems w = free_sems
}.

Section requests.
Context `{LibmLaws}.
Context (cr pr : ptr) (r : CLIENT_REGISTRY) (q : PLAYER_REGISTRY).
Implicit Types (w : world) (p : ptr).

Abbreviation regs := (cr_registered r).
Abbreviation names := (pr_head q).

(** A request that leaves both registries alone. *)
Definition handled {A} (op : M A) w (Q : A → world → Prop) : Prop :=
  wp op w (λ a w', serves cr pr r q w' ∧ quiet w w' ∧ Q a w').

Lemma serves_quiet w w' :
  serves cr pr r q w → core regs names [] w' → w_sems w' = w_sems w → quiet w w' → serves cr pr r q w'.
Proof.
  intros [] Hc Hs (_ & Ecr & Epr & _). split; try done; congruence.
Qed.

Lemma handled_safe {A} (op : M A) w Q :
  serves cr pr r q w → safe regs names op w Q → handled op w Q.
Proof.
  intros Hw Hs. eapply wp_mono; [exact Hs|]. intros a w' (H1 & H2 & _ & H3 & H4).
  split; [|done]. by eapply serves_quiet.
Qed.

(** A call that only sends. *)
Lemma handled_sends {A} (op : M A) w l Q :
  serves cr pr r q w → sends op w l Q → handled op w (λ a w', mem_of w' = mem_of w ∧ told w w' l ∧ Q a).
Proof.
  intros Hw (a & w' & (E & Hs & Hq) & Hm & Ht & HQ). unfold handled, wp. rewrite E.
  split; [|done]. apply (serves_quiet w); [done| |done|done]. apply (core_sends _ _ [] w); [apply Hw|done..].
Qed.

Lemma handled_bind {A B} (op : M A) (k : A → M B) w Q R :
  handled op w Q →
  (∀ a w', serves cr pr r q w' → Q a w' → handled (k a) w' R) → handled (op ≫= k) w R.
Proof.
  intros Hop Hk. apply wp_bind. eapply wp_mono; [exact Hop|]. intros a w' (Hw & Hq & HQ).
  eapply wp_mono; [by apply Hk|]. intros b w'' (Hw' & Hq' & HR). split; [done|]. split; [by trans w'|done].
Qed.

Lemma handled_ret {A} (a : A) w (Q : A → world → Prop) : serves cr pr r q w → Q a w → handled (mret a) w Q.
Proof. intros Hw HQ. split; [done|]. split; [reflexivity|done]. Qed.

Lemma handled_mono {A} (op : M A) w (Q R : A → world → Prop) :
  handled op w Q → (∀ a w', Q a w' → R a w') → handled op w R.
Proof. intros Ho HQR. eapply wp_mono; [exact Ho|]. naive_solver. Qed.

(** ** Replies *)

(** What [client_send_nack] and [client_send_ack] send. *)
Definition nack w (p : ptr) : NOTICE := note w p JEUX_NACK_PKT 0 0 None.
Definition ack w (p : ptr) (data : option (list byte)) : NOTICE := note w p JEUX_ACK_PKT 0 0 data.

(** The last packet of a request with this result. *)
Definition answer w (p : ptr) (s : Z) (data : option (list byte)) : NOTICE :=
  if s =? -1 then nack w p else ack w p data.

Lemma reply_handled w p type data :
  serves cr pr r q w → p ∈ regs →
  handled (send_simple p type (data_len data) data) w
    (λ _ w', mem_of w' = mem_of w ∧ told w w' [note w p type 0 0 data]).
Proof.
  intros Hw Hp. destruct (registered_client _ _ w p (sv_core _ _ _ _ _ Hw) Hp) as (c & k & Hcp & Hwf & Hk & Hwr).
  eapply handled_mono; [apply (handled_sends _ w [note w p type 0 0 data] (λ _, True)); [done|]|by intros ? ? (? & ? & _)].
  eapply send_simple_sends; try done; [apply (sv_core _ _ _ _ _ Hw)|apply Hwf].
Qed.

(** An answer, then a result. *)
Lemma nack_ret {A} w p (a : A) (R : A → world → Prop) :
  serves cr pr r q w → p ∈ regs → (∀ w', mem_of w' = mem_of w → told w w' [nack w p] → R a w') →
  handled (client_send_nack p;; mret a) w R.
Proof.
  intros Hw Hp HR. eapply handled_bind; [by apply (reply_handled w p JEUX_NACK_PKT None)|].
  intros s0 w' Hw' [Hm Ht]. apply handled_ret; [done|by apply HR].
Qed.

Lemma ack_ret {A} w p data n (a : A) (R : A → world → Prop) :
  serves cr pr r q w → p ∈ regs → n = data_len data →
  (∀ w', mem_of w' = mem_of w → told w w' [ack w p data] → R a w') →
  handled (client_send_ack p data n;; mret a) w R.
Proof.
  intros Hw Hp -> HR. eapply handled_bind; [by apply (reply_handled w p JEUX_ACK_PKT data)|].
  intros s0 w' Hw' [Hm Ht]. apply handled_ret; [done|by apply HR].
Qed.

(** After an operation the client still has its connection. *)
Lemma handled_then {A} w p (op : M A) (k : A → M Z) l (R : A → world → Prop) (Q : Z → world → Prop) :
  serves cr pr r q w → p ∈ regs → safe regs names op w (λ a w', R a w' ∧ told w w' l) →
  (∀ a w1, serves cr pr r q w1 → R a w1 → fd_of w1 p = fd_of w p → told w w1 l → handled (k a) w1 Q) →
  handled (op ≫= k) w Q.
Proof.
  intros Hw Hp Hop Hk. apply wp_bind. eapply wp_mono; [exact Hop|].
  intros a w1 (H1 & H2 & H3 & H4 & HR & Ht).
  assert (serves cr pr r q w1) as Hw1 by (by eapply serves_quiet).
  eapply wp_mono; [by apply (Hk a w1 Hw1 HR (H3 p Hp) Ht)|]. intros s w' (Hw' & Hq & HQ).
  split; [done|]. split; [by trans w1|done].
Qed.

(** The shape of most handlers: the operation, then NACK or ACK. *)
Lemma answered w p (op : M Z) l (R : Z → world → Prop) :
  serves cr pr r q w → p ∈ regs → safe regs names op w (λ s w', R s w' ∧ told w w' l) →
  (∀ s w1 w2, R s w1 → mem_of w2 = mem_of w1 → R s w2) → (∀ s w', R s w' → s = 0 ∨ s = -1) →
  handled (s ← op; if s =? -1 then client_send_nack p;; mret (-1) else client_send_ack p None 0;; mret 0) w
    (λ s w', R s w' ∧ told w w' (l ++ [answer w p s None])).
Proof.
  intros Hw Hp Hop Hmem Hres. apply (handled_then w p op _ l R); [done..|].
  intros s w1 Hw1 HR Hfd Ht. destruct (Hres _ _ HR) as [->| ->]; cbn [Z.eqb].
  - apply ack_ret; [done|done|done|]. intros w2 Hm Ht2. split; [by eapply Hmem|].
    apply (told_trans _ _ _ _ _ Ht). unfold answer, ack, note. cbn [Z.eqb]. by rewrite <-Hfd.
  - apply nack_ret; [done|done|]. intros w2 Hm Ht2. split; [by eapply Hmem|].
    apply (told_trans _ _ _ _ _ Ht). unfold answer, nack, note. cbn [Z.eqb]. by rewrite <-Hfd.
Qed.

(** ** REVOKE, DECLINE, RESIGN, MOVE, ACCEPT *)

Lemma serves_core w : serves cr pr r q w → core regs names [] w.
Proof. apply sv_core. Qed.

Lemma process_revoke_handled w p hdr :
  serves cr pr r q w → p ∈ regs →
  handled (process_revoke None p hdr) w (λ s w', revoke_spec p (h_id hdr) w s w' ∧
    told w w' (revoke_notices p (h_id hdr) w ++ [answer w p s None])).
Proof.
  intros Hw Hp. unfold process_revoke. rewrite decide_False by tauto.
  apply answered; [done|done|by apply client_revoke_safe, Hp; apply Hw| |].
  - unfold revoke_spec. intros s w1 w2 Hs ->. exact Hs.
  - unfold revoke_spec. intros s w' (c & _ & Hs). repeat case_match; naive_solver.
Qed.

Lemma process_decline_handled w p hdr :
  serves cr pr r q w → p ∈ regs →
  handled (process_decline None p hdr) w (λ s w', decline_spec p (h_id hdr) w s w' ∧
    told w w' (decline_notices p (h_id hdr) w ++ [answer w p s None])).
Proof.
  intros Hw Hp. unfold process_decline. rewrite decide_False by tauto.
  apply answered; [done|done|by apply client_decline_safe, Hp; apply Hw| |].
  - unfold decline_spec. intros s w1 w2 Hs ->. exact Hs.
  - unfold decline_spec. intros s w' (c & _ & Hs). repeat case_match; naive_solver.
Qed.

Lemma process_resign_handled w p hdr :
  serves cr pr r q w → p ∈ regs → Z.of_nat (w_brk w) ≤ MAX_BRK →
  handled (process_resign None p hdr) w (λ s w', resign_spec p (h_id hdr) w s w' ∧
    told w w' (resign_notices p (h_id hdr) w ++ [answer w p s None])).
Proof.
  intros Hw Hp Hb. unfold process_resign. rewrite decide_False by tauto.
  apply answered; [done|done|by apply client_resign_safe; [apply Hw|..]| |].
  - unfold resign_spec, ended. intros s w1 w2 Hs ->. exact Hs.
  - unfold resign_spec. intros s w' (c & _ & Hs). repeat case_match; naive_solver.
Qed.

Lemma strncpy_copy_run w s n : w_oom w = [] → strncpy_copy s n w = Ret (cstr (take (Z.to_nat n) s)) w.
Proof. intros Ho. unfold strncpy_copy. by run calloc_unchecked_run. Qed.

(** The move is the payload, cut off at the size of the header. *)
Definition move_request_spec (p : ptr) (hdr : JEUX_PACKET_HEADER) (payload : option (list byte)) w (s : Z) w' : Prop :=
  match payload with
  | None => s = -1 ∧ mem_of w' = mem_of w
  | Some m => move_spec p (h_id hdr) (cstr (take (Z.to_nat (ntohs (h_size hdr))) m)) w s w'
  end.

Definition move_request_notices (p : ptr) (hdr : JEUX_PACKET_HEADER) (payload : option (list byte)) w : list NOTICE :=
  if payload is Some m then move_notices p (h_id hdr) (cstr (take (Z.to_nat (ntohs (h_size hdr))) m)) w else [].

Lemma process_move_handled w p hdr payload :
  serves cr pr r q w → p ∈ regs → Z.of_nat (w_brk w) ≤ MAX_BRK →
  handled (process_move payload p hdr) w (λ s w', move_request_spec p hdr payload w s w' ∧
    told w w' (move_request_notices p hdr payload w ++ [answer w p s None])).
Proof.
  intros Hw Hp Hb. unfold process_move. destruct payload as [m|]; [|by apply nack_ret].
  unfold handled. eapply wp_step; [apply strncpy_copy_run, Hw|].
  apply answered; [done|done|by apply client_make_move_safe; [apply Hw|..]| |].
  - unfold move_request_spec, move_spec, ended. intros s w1 w2 Hs ->. exact Hs.
  - unfold move_request_spec, move_spec. naive_solver.
Qed.

Lemma process_accept_handled w p hdr :
  serves cr pr r q w → p ∈ regs →
  handled (process_accept None p hdr) w
    (λ s w', ∃ str, accept_spec p (h_id hdr) w (s, str) w' ∧
      told w w' (accept_notices p (h_id hdr) w ++ [answer w p s str])).
Proof.
  intros Hw Hp. unfold process_accept. rewrite decide_False by tauto.
  eapply handled_then; [done|exact Hp|by apply client_accept_safe; [apply Hw|]|].
  intros [s str] w1 Hw1 HR Hfd Ht. cbn [fst snd].
  assert (s = 0 ∨ s = -1) as Hs by (destruct HR as (c & _ & Hs); repeat case_match; naive_solver).
  assert (∀ w2, mem_of w2 = mem_of w1 → accept_spec p (h_id hdr) w (s, str) w2) as Hmem
    by (unfold accept_spec; intros w2 ->; exact HR).
  assert (∀ w2, told w1 w2 [answer w1 p s str] → told w w2 (accept_notices p (h_id hdr) w ++ [answer w p s str])) as Hans.
  { intros w2 Ht2. apply (told_trans _ _ _ _ _ Ht). unfold answer, ack, nack, note in *. by rewrite <-Hfd. }
  destruct Hs as [->| ->]; cbn [Z.eqb].
  - destruct str as [str|]; (apply ack_ret; [done|done|done|]); intros w2 Hm Ht2; eexists; (split; [by apply Hmem|by apply Hans]).
  - apply nack_ret; [done|done|]. intros w2 Hm Ht2. exists str. split; [by apply Hmem|by apply Hans].
Qed.

(** ** INVITE *)

(** An invitation can only be made between clients that are logged in.  The
    code does not check it: a client whose LOGIN has failed has no player and
    would be dereferenced, and the registry still finds the name of a client
    that has logged out and is not yet unregistered. *)
Definition invite_guard (p : ptr) (payload : option (list byte)) w : Prop :=
  ∀ user, payload = Some user → found w regs user ≠ NULL → found w regs user ≠ p →
    online (mem_of w) p ∧ online (mem_of w) (found w regs user).

(** The role in the packet is the one of the target. *)
Definition invite_roles (role : Z) : option (GAME_ROLE * GAME_ROLE) :=
  if role =? 1 then Some (SECOND_PLAYER_ROLE, FIRST_PLAYER_ROLE)
  else if role =? 2 then Some (FIRST_PLAYER_ROLE, SECOND_PLAYER_ROLE) else None.

Definition invite_request_spec (p : ptr) (hdr : JEUX_PACKET_HEADER) (payload : option (list byte))
    w (s : Z) w' : Prop :=
  match payload, invite_roles (h_role hdr) with
  | Some user, Some (rs, rt) =>
      if decide (found w regs user = NULL ∨ found w regs user = p) then s = -1 ∧ mem_of w' = mem_of w
      else s = 0 ∧ ∃ id, invite_spec p (found w regs user) rs rt w id w'
  | _, _ => s = -1 ∧ mem_of w' = mem_of w
  end.

(** The reference that the search takes is dropped at once. *)
Lemma lookup_unref_run w user :
  serves cr pr r q w → Z.of_nat (w_brk w) ≤ MAX_BRK → found w regs user ≠ NULL →
  creg_lookup cr user w = Ret (found w regs user) (found_ref (found w regs user) w) ∧
  client_unref (found w regs user) (found_ref (found w regs user) w) = Ret () w.
Proof.
  intros Hw Hb Hn. split.
  - apply (creg_lookup_run regs names [] cr r); [apply Hw|done|apply Hw| |apply Hw|done].
    rewrite (sv_creg _ _ _ _ _ Hw). apply lookup_singleton_eq.
  - destruct (found_in w regs user) as [?|Hin]; [done|].
    destruct (registered_client _ _ w _ (serves_core w Hw) Hin) as (c & k & Hcp & Hwf & _).
    unfold found_ref. rewrite Hcp.
    pose proof (mo_client_pos _ _ _ _ (co_mem _ _ _ _ (serves_core w Hw)) _ _ Hcp) as Hpos.
    pose proof (ref_room _ _ [] w _ c (serves_core w Hw) Hcp Hb).
    rewrite (client_unref_run _ (add_refs 1 c)); [|apply upd_client_lookup|apply Hwf|cbn; lia].
    rewrite upd_client_twice. f_equal.
    replace (add_refs (-1) (add_refs 1 c)) with c; [by apply upd_client_id|].
    destruct c; unfold add_refs, c_set_ref_count; cbn. f_equal. lia.
Qed.

(** The target is told, and the client gets the identifier of the invitation
    in the ACK. *)
Definition invite_request_notices (p : ptr) (hdr : JEUX_PACKET_HEADER) (payload : option (list byte)) w
    : list NOTICE :=
  match payload, invite_roles (h_role hdr) with
  | Some user, Some (rs, rt) =>
      if decide (found w regs user = NULL ∨ found w regs user = p) then [nack w p]
      else invite_notices p (found w regs user) rt w ++ [note w p JEUX_ACK_PKT (new_id w p) 0 None]
  | _, _ => [nack w p]
  end.

Lemma invite_made w p x rs rt :
  serves cr pr r q w → p ∈ regs → x ∈ regs → p ≠ x → Z.of_nat (w_brk w) ≤ MAX_BRK →
  online (mem_of w) p → online (mem_of w) x → rs ≠ NULL_ROLE → rt = opponent_of rs →
  handled (id ← client_make_invitation p x rs rt; h ← create_header JEUX_ACK_PKT id 0 0;
    client_send_packet p h None;; mret 0) w
    (λ s w', (s = 0 ∧ ∃ id, invite_spec p x rs rt w id w') ∧
      told w w' (invite_notices p x rt w ++ [note w p JEUX_ACK_PKT (new_id w p) 0 None])).
Proof.
  intros Hw Hp Hx Hne Hb (c & Hcp & Hon) (ct & Hct & Hont) Hrs Hrt.
  eapply handled_then; [done|exact Hp|by eapply (client_make_invitation_safe _ _ w p x rs rt c ct); [apply Hw|..]|].
  intros id w1 Hw1 Hinv Hfd Ht.
  destruct (registered_client _ _ w1 p (serves_core w1 Hw1) Hp) as (c1 & k1 & Hc1 & Hwf1 & Hk1 & Hwr1).
  set (n := note w1 p JEUX_ACK_PKT id 0 None).
  assert (sends (h ← create_header JEUX_ACK_PKT id 0 0; client_send_packet p h None) w1 [n] (λ r, notice_ok n → r = 0)) as Hs.
  { apply (packet_sends p c1 k1 n 0); try done; [apply (serves_core w1 Hw1)|apply Hwf1|by apply fd_of_lookup]. }
  unfold handled, wp. rewrite <-bind_assoc.
  eapply handled_bind; [by apply handled_sends|]. intros _ w2 Hw2 (Hm & Ht2 & _). apply handled_ret; [done|].
  split.
  - split; [done|]. exists id. unfold invite_spec. by rewrite Hm.
  - apply (told_trans _ _ _ _ _ Ht). unfold n, note in Ht2. rewrite Hfd in Ht2.
    destruct Hinv as (c0 & _ & c' & _ & _ & Hc0 & _ & Htake & _). unfold new_id. rewrite Hc0. cbn. by rewrite Htake.
Qed.

Lemma process_invite_handled w p hdr payload :
  serves cr pr r q w → p ∈ regs → Z.of_nat (w_brk w) ≤ MAX_BRK → invite_guard p payload w →
  handled (process_invite cr payload p hdr) w (λ s w', invite_request_spec p hdr payload w s w' ∧
    told w w' (invite_request_notices p hdr payload w)).
Proof.
  intros Hw Hp Hb Hg. unfold process_invite. destruct payload as [user|]; [|by apply nack_ret].
  unfold invite_request_spec, invite_request_notices. destruct (decide (found w regs user = NULL)) as [Hz|Hz].
  { unfold handled. eapply wp_step.
    { apply (creg_lookup_run regs names [] cr r); [apply Hw|done|apply Hw| |apply Hw|done].
      rewrite (sv_creg _ _ _ _ _ Hw). apply lookup_singleton_eq. }
    rewrite Hz. rewrite decide_True by done.
    assert (found_ref NULL w = w) as Eid.
    { unfold found_ref. destruct (w_clients w !! NULL) as [c|] eqn:E; [|done].
      by destruct (client_key _ _ w _ _ (serves_core w Hw) E). }
    rewrite Eid. apply nack_ret; [done|done|]. intros w' Hm Ht.
    destruct (invite_roles (h_role hdr)) as [[rs rt]|]; [|by split]. by rewrite !decide_True by tauto. }
  destruct (lookup_unref_run w user Hw Hb Hz) as [E1 E2].
  unfold handled. eapply wp_step; [exact E1|]. rewrite decide_False by done. eapply wp_step; [exact E2|].
  destruct (decide (p = found w regs user)) as [Hpe|Hpe].
  { apply nack_ret; [done|done|]. intros w' Hm Ht.
    destruct (invite_roles (h_role hdr)) as [[rs rt]|]; [|by split]. by rewrite !(decide_True (P := _ ∨ _)) by (right; congruence). }
  destruct (Hg user eq_refl Hz ltac:(congruence)) as [Hon Hont].
  destruct (found_in w regs user) as [?|Hin]; [done|]. set (x := found w regs user) in *.
  unfold invite_roles. cbn [role_int].
  destruct (Z.eqb_spec (h_role hdr) 1) as [Hr1|Hr1]; [|destruct (Z.eqb_spec (h_role hdr) 2) as [Hr2|Hr2]].
  - rewrite (decide_False (P := _ ∨ _)) by naive_solver. refine (handled_mono _ _ _ _ (invite_made w p x SECOND_PLAYER_ROLE FIRST_PLAYER_ROLE _ _ _ _ _ _ _ _ _) _);
      try done. intros s w' Hs. by rewrite decide_False by naive_solver.
  - rewrite (decide_False (P := _ ∨ _)) by naive_solver. refine (handled_mono _ _ _ _ (invite_made w p x FIRST_PLAYER_ROLE SECOND_PLAYER_ROLE _ _ _ _ _ _ _ _ _) _);
      try done. intros s w' Hs. by rewrite decide_False by naive_solver.
  - by apply nack_ret.
Qed.

(** ** USERS *)

(** A line of the list holds a rating of at most four characters; a longer
    one overflows the buffer of the code. *)
Definition users_guard w : Prop :=
  ∀ p v, w_players w !! p = Some v → -999 ≤ p_rating v ≤ 9999.

Lemma serves_all_players w :
  serves cr pr r q w →
  creg_all_players cr w =
    Ret (Some (players_of (w_clients w) regs)) (bumped (players_of (w_clients w) regs ++ []) w w).
Proof.
  intros Hw. rewrite app_nil_r. apply (creg_all_players_run regs names [] cr r); [apply Hw|done| |apply Hw|done].
  rewrite (sv_creg _ _ _ _ _ Hw). apply lookup_singleton_eq.
Qed.

Lemma serves_players w p :
  serves cr pr r q w → p ∈ players_of (w_clients w) regs →
  p ∈ names ∧ ∃ v, w_players w !! p = Some v ∧ countable (length regs) v.
Proof. intros Hw Hp. by eapply (players_of_names _ _ []); [apply Hw|done| |exact Hp]. Qed.

(** The lines of the list drop the references of [creg_all_players]. *)
Lemma serves_lines w : serves cr pr r q w → users_guard w →
  users_lines (players_of (w_clients w) regs) (bumped (players_of (w_clients w) regs ++ []) w w) =
    Ret (users_text (w_players w) (players_of (w_clients w) regs)) w.
Proof.
  intros Hw Hg. rewrite (users_lines_run (length regs)); [by rewrite bumped_nil| |].
  - pose proof (players_of_length (w_clients w) regs). cbn. lia.
  - intros x Hx. destruct (serves_players w x Hw Hx) as (_ & v & Hv & Hpos).
    exists v. split; [done|]. split; [done|]. by eapply Hg.
Qed.

Lemma process_users_handled w p :
  serves cr pr r q w → p ∈ regs → users_guard w →
  handled (process_users cr None p) w (λ s w', s = 0 ∧ mem_of w' = mem_of w ∧
    told w w' [ack w p (Some (users_text (w_players w) (players_of (w_clients w) regs)))]).
Proof.
  intros Hw Hp Hg. unfold process_users. rewrite decide_False by tauto.
  unfold handled. eapply wp_step; [by apply serves_all_players|]. eapply wp_step; [reflexivity|].
  eapply wp_step; [by apply serves_lines|]. by apply ack_ret.
Qed.

(** ** Logging out *)

Lemma logout_handled w p :
  serves cr pr r q w → p ∈ regs → Z.of_nat (w_brk w) ≤ MAX_BRK →
  handled (client_logout p) w (λ s w', logout_spec regs names p w s w' ∧ told w w' (logout_notices p w)).
Proof.
  intros Hw Hp Hb. apply handled_safe; [done|]. apply client_logout_safe; [apply Hw| |done|done].
  by rewrite (sv_sems _ _ _ _ _ Hw).
Qed.
End requests.
