(* ===== verification/Replies.v ===== *)
(** * The answers on the wire

    ACK and NACK as the peer reads them: the whole packet is appended to the
    output of the client's connection, and nothing else changes but the clock
    reading spent on its timestamp.  With it the exact effect of USERS, and of
    a request that is refused before any LOGIN. *)
From S2P Require Import Prelude Game Player Elo World Objects Protocol Wire PlayerRegistry Invitation Client Sessions ClientRegistry Server Accounting Effects Handlers Directory Playing Logout Requests.

(** The reading of the clock that comes next. *)
Definition now (w : world) : Z * Z := match w_clock w with [] => (0, 0) | ts :: _ => ts end.

Definition answer_header (type size : Z) (ts : Z * Z) : JEUX_PACKET_HEADER :=
  mkHDR (uint8 type) (uint8 0) (uint8 0) (htons size) (htonl ts.1) (htonl ts.2).

(** From [w] to [w'] the client [p] was sent this packet, and no more. *)
Definition answered_with (p : ptr) (type size : Z) (data : option (list byte)) (w w' : world) : Prop :=
  ∃ c k k', w_clients w !! p = Some c ∧ w_net w !! c_fd c = Some k ∧
    w' = set_conn (c_fd c) k' (set_clock (tail (w_clock w)) w) ∧ same_input k k' ∧
    k_out k' = k_out k ++ packet_bytes (answer_header type size (now w)) data.

(** The payload is cut off at the size that the header can hold. *)
Lemma answer_bytes type size buf ts :
  ntohs (h_size (answer_header type size ts)) = size mod 65536 ∧
  packet_bytes (answer_header type size ts) (Some buf) =
    header_bytes (answer_header type size ts) ++ take (Z.to_nat (size mod 65536)) buf.
Proof.
  assert (ntohs (htons size) = size mod 65536) as E by apply ntohs_htons.
  split; [exact E|]. unfold packet_bytes, payload_of. cbn [answer_header h_size]. by rewrite E.
Qed.

Section replies.
Context `{LibmLaws}.
Context (cr pr : ptr) (r : CLIENT_REGISTRY) (q : PLAYER_REGISTRY).
Implicit Types (w : world) (p : ptr).

Abbreviation regs := (cr_registered r).

Lemma create_header_run type size w : w_oom w = [] →
  create_header type 0 0 size w = Ret (answer_header type size (now w)) (set_clock (tail (w_clock w)) w).
Proof.
  intros Ho. unfold create_header, calloc_unchecked, calloc, clock_gettime, mbind, M_bind, now. rewrite Ho.
  cbn [mret M_ret]. destruct (w_clock w) eqn:E; [|done]. cbn. do 2 f_equal. destruct w. cbn in *. by rewrite E.
Qed.

Lemma send_simple_run w p type size data :
  serves cr pr r q w → p ∈ regs → (∀ buf, data = Some buf → uint16 size ≤ Z.of_nat (length buf)) →
  ∃ s w', send_simple p type size data w = Ret s w' ∧ answered_with p type size data w w'.
Proof.
  intros Hw Hp Hd. pose proof (sv_core _ _ _ _ _ Hw) as Hc.
  destruct (registered_client _ _ w p Hc Hp) as (c & k & Hcp & Hwf & Hk & Hwr).
  pose proof (cw_lock _ _ _ _ _ Hwf) as Hl. unfold send_simple.
  run lock_client_run. set (w1 := upd_client p _ w).
  run create_header_run by (exact (co_oom _ _ _ _ Hc)). change (now w1) with (now w). change (w_clock w1) with (w_clock w).
  run (load_client_run p (c_set_lock true c)) by apply upd_client_lookup.
  set (h := answer_header type size (now w)).
  assert (ntohs (h_size h) = uint16 size) as Hsz.
  { pose proof (create_header_wp type 0 0 size w (co_oom _ _ _ _ Hc)) as Hwp. unfold wp in Hwp.
    rewrite create_header_run in Hwp by apply Hc. apply Hwp. }
  destruct (wp_inv _ _ _ (proto_send_packet_wp (c_fd c) h data (set_clock (tail (w_clock w)) w1) k Hk
    ltac:(rewrite Hsz; exact Hd))) as (s & w2 & E & k' & out & -> & Hin & Hout & _ & _ & Hall).
  destruct (Hall Hwr) as [_ ->]. run E.
  run (unlock_client_run p (c_set_lock true c)) by (cbn; apply lookup_insert_eq).
  rewrite c_set_lock_twice, c_set_lock_id by done. exists s. eexists. split; [reflexivity|].
  exists c, k, k'. split; [done|]. split; [done|]. split; [|done].
  unfold w1, upd_client, set_conn, set_clock, set_net, set_clients. cbn.
  by rewrite insert_insert_eq, insert_id.
Qed.

(** USERS: the answer lists the players of the registered clients, in the
    order of the registry, one line each. *)
Lemma process_users_run w p :
  serves cr pr r q w → p ∈ regs → users_guard w →
  ∃ w', process_users cr None p w = Ret 0 w' ∧
    let lines := users_text (w_players w) (players_of (w_clients w) regs) in
    answered_with p JEUX_ACK_PKT (strlen lines) (Some lines) w w'.
Proof.
  intros Hw Hp Hg. unfold process_users. rewrite decide_False by tauto.
  run (serves_all_players cr pr r q w Hw). run (defined_run _ (players_of (w_clients w) regs)) by done.
  run (serves_lines cr pr r q w Hw Hg). set (lines := users_text _ _).
  destruct (send_simple_run w p JEUX_ACK_PKT (strlen lines) (Some lines) Hw Hp) as (s & w' & E & Ha).
  { intros buf [= <-]. apply uint16_le, strlen_nonneg. }
  change (client_send_ack p (Some lines) (strlen lines)) with (send_simple p JEUX_ACK_PKT (strlen lines) (Some lines)).
  run E. exists w'. split; [reflexivity|exact Ha].
Qed.

(** A request before any LOGIN: a NACK, and nothing else happens. *)
Definition requests : list Z := [JEUX_USERS_PKT; JEUX_INVITE_PKT; JEUX_REVOKE_PKT; JEUX_ACCEPT_PKT;
  JEUX_DECLINE_PKT; JEUX_MOVE_PKT; JEUX_RESIGN_PKT].

Lemma refused_run w p hdr payload :
  serves cr pr r q w → p ∈ regs → h_type hdr ∈ requests →
  ∃ w', dispatch cr pr p hdr payload 0 w = Ret (1, 0) w' ∧ answered_with p JEUX_NACK_PKT 0 None w w'.
Proof.
  intros Hw Hp Ht. destruct (send_simple_run w p JEUX_NACK_PKT 0 None Hw Hp) as (s & w' & E & Ha); [done|].
  exists w'. split; [|exact Ha].
  change (send_simple p JEUX_NACK_PKT 0 None) with (client_send_nack p) in E.
  assert (if_logged_in 0 p = λ m, client_send_nack p;; mret ()) as En by done.
  unfold dispatch. rewrite En. unfold requests in Ht. rewrite !elem_of_cons, elem_of_nil in Ht.
  destruct (Z.eqb_spec (h_type hdr) JEUX_LOGIN_PKT) as [El|_].
  { exfalso. rewrite El in Ht. by decompose [or] Ht. }
  do 7 match goal with |- context [h_type hdr =? ?t] =>
         destruct (Z.eqb_spec (h_type hdr) t) as [_|?]; [by run E|] end.
  exfalso. tauto.
Qed.
End replies.
