(* ===== verification/Login.v ===== *)
(** * Logging in

    [preg_register] finds the player of a name or makes one, [client_login]
    of [src/client.c] refuses a name that a registered client already plays
    under, and [process_login] of [src/server.c] puts them together. *)
From S2P Require Import Prelude Game Player Elo World Objects Protocol Wire PlayerRegistry Invitation Client Sessions ClientRegistry Server Accounting Effects Handlers Directory Playing Logout Requests.

(** ** The player registry *)

(** The first of the players [l] of that name. *)
Fixpoint named (h : gmap nat PLAYER) (l : list ptr) (name : list byte) : ptr :=
  match l with
  | [] => NULL
  | p :: l' => if name_of h name p then p else named h l' name
  end.

Lemma preg_find_run w l name :
  (∀ p, p ∈ l → ∃ v, w_players w !! p = Some v) →
  preg_find l name w = Ret (named (w_players w) l name) w.
Proof.
  induction l as [|p l IH]; intros Hl; [done|]. destruct (Hl p ltac:(by left)) as (v & Hv).
  cbn [preg_find named].
  assert (player_get_name_at p w = Ret (p_name v) w) as E
    by (unfold player_get_name_at; by run (load_run (V:=PLAYER) p v) by exact Hv).
  run E. unfold name_of. rewrite Hv. destruct (decide (p_name v = name)).
  - by rewrite bool_decide_true.
  - rewrite bool_decide_false by done. apply IH. intros x Hx. apply Hl. by right.
Qed.

Lemma named_spec h l name :
  (named h l name ∈ l ∧ name_of h name (named h l name) = true) ∨
  (named h l name = NULL ∧ ∀ p, p ∈ l → name_of h name p = false).
Proof.
  induction l as [|p l IH]; cbn; [right; split; [done|]; intros p Hp; by apply elem_of_nil in Hp|].
  destruct (name_of h name p) eqn:E; [left; split; [by left|done]|].
  destruct IH as [[Hin Hn]|[-> Hno]]; [left; split; [by right|done]|right].
  split; [done|]. intros x [->|Hx]%elem_of_cons; [done|auto].
Qed.

Section login.
Context `{LibmLaws}.
Context (cr pr : ptr) (r : CLIENT_REGISTRY) (q : PLAYER_REGISTRY).
Implicit Types (w : world) (p : ptr).

Abbreviation regs := (cr_registered r).
Abbreviation names := (pr_head q).

(** The server while calls hold references to the players [held]. *)
Record holding (q' : PLAYER_REGISTRY) (held : list ptr) (w : world) : Prop := {
  ho_creg : w_cregs w = {[cr := r]};
  ho_preg : w_pregs w !! pr = Some q';
  ho_nodes : preg_wf q';
  ho_few : few held;
  ho_core : core regs (pr_head q') held w;
  ho_sems : w_sems w = free_sems
}.

Lemma holding_serves q' w : holding q' [] w → cr ≠ NULL → creg_wf r → serves cr pr r q' w.
Proof. intros []. by split. Qed.

(** What registering does: the player of the name gets a reference, and is
    made with the initial rating when there is none. *)
Definition registers (name : list byte) w (q' : PLAYER_REGISTRY) (pl : ptr) w' : Prop :=
  (q' = q ∧ pl ∈ names ∧ name_of (w_players w) name pl = true ∧ w_players w' = bump [pl] (w_players w)) ∨
  ((∀ p, p ∈ names → name_of (w_players w) name p = false) ∧ pl = w_brk w ∧
   q' = mkPREG (names ++ [pl]) (pr_length q + 1) ∧
   w_players w' = <[pl := player_add 1 (player_create name)]> (w_players w)).

Lemma core_same_clients names0 names' held held' w w' :
  core regs names0 held w → mem_ok regs names' held' (mem_of w') → rated (mem_of w') →
  w_sems w' = w_sems w → w_oom w' = w_oom w → w_clients w' = w_clients w → w_net w' = w_net w →
  w_cregs w' = w_cregs w → core regs names' held' w'.
Proof.
  intros [] Hm Hr Hs Ho Hc Hn Hcr. split; [done|done|congruence|congruence| |by rewrite Hc|by rewrite Hc].
  intros p Hp. destruct (co_open p Hp) as (c & k & H1 & H2 & H3). exists c, k. by rewrite Hc, Hn, Hcr.
Qed.

Lemma rated_bump m l : rated m → rated (m_set_players (bump l (m_players m)) m).
Proof.
  intros Hr p v Hv. cbn in Hv. rewrite bump_lookup in Hv.
  destruct (m_players m !! p) as [u|] eqn:E; [|done]. injection Hv as <-. exact (Hr p u E).
Qed.

Lemma keys_size {V} (h : gmap nat V) (b : nat) : (∀ p, live h p → (0 < p < b)%nat) → (size h ≤ b)%nat.
Proof.
  intros Hk. rewrite <-(size_dom (D := gset nat)), <-(size_set_seq (C := gset nat) 0 b).
  apply subseteq_size. intros p Hp. apply elem_of_dom in Hp. apply elem_of_set_seq. specialize (Hk p Hp). lia.
Qed.

Lemma rated_new names0 held m name p :
  mem_ok regs names0 held m → rated m →
  rated (mkMEM (S (m_brk m)) (m_clients m) (m_invs m) (m_games m)
    (<[p := player_add 1 (player_create name)]> (m_players m))).
Proof.
  intros Hm Hr x v Hv. cbn in Hv. apply lookup_insert_Some in Hv as [[_ <-]|[_ Hv]]; cbn.
  - pose proof (keys_size _ _ (mo_game_keys _ _ _ _ Hm)).
    change (p_rating (player_create name)) with PLAYER_INITIAL_RATING. unfold PLAYER_INITIAL_RATING. lia.
  - specialize (Hr x v Hv). lia.
Qed.

Lemma player_create_at_run w name : w_oom w = [] → w_brk w ≠ NULL →
  player_create_at name w = Ret (w_brk w)
    (set_brk (S (w_brk w)) (set_players (<[w_brk w := player_create name]> (w_players w)) w)).
Proof.
  intros Hoom Hb. unfold player_create_at, calloc_obj. run calloc_run by exact Hoom.
  assert (alloc (player_create name) w = Ret (w_brk w) (set_brk (S (w_brk w))
    (set_players (<[w_brk w := player_create name]> (w_players w)) w))) as E by done. run E.
  rewrite decide_False by done. by run calloc_unchecked_run by exact Hoom.
Qed.

Lemma preg_register_run w name :
  serves cr pr r q w → Z.of_nat (w_brk w) ≤ MAX_BRK →
  ∃ q' pl w', preg_register pr name w = Ret pl w' ∧ holding q' [pl] w' ∧ registers name w q' pl w' ∧
    w_clients w' = w_clients w ∧ (w_invs w' = w_invs w ∧ w_games w' = w_games w ∧ w_net w' = w_net w) ∧ pl ≠ NULL.
Proof.
  intros Hw Hbrk. pose proof (serves_core _ _ _ _ w Hw) as Hc. pose proof (co_mem _ _ _ _ Hc) as Hm.
  assert (∀ p, p ∈ names → ∃ v, w_players w !! p = Some v) as Hlive
    by (intros p Hp; apply (mo_names _ _ _ _ Hm p Hp)).
  assert (∀ p, p ∈ names → p ≠ NULL) as Hnn.
  { intros p Hp ->. destruct (mo_names _ _ _ _ Hm NULL Hp) as [v Hv].
    assert (0 < NULL < w_brk w)%nat as [Hn _]; [|by apply Nat.lt_irrefl in Hn].
    apply (mo_player_keys _ _ _ _ Hm). by exists v. }
  unfold preg_register, preg_enter. run (load_run (V:=PLAYER_REGISTRY) pr q) by apply Hw.
  run preg_find_run by exact Hlive.
  destruct (named_spec (w_players w) names name) as [[Hin Hname]|[-> Hno]].
  - set (pl := named _ _ _) in *. rewrite decide_True by auto. flat. rewrite decide_False by auto. destruct (Hlive pl Hin) as [v Hv].
    pose proof (few_count _ _ [] _ pl v Hm ltac:(done) Hv) as Hcnt.
    exists q, pl, (bumped [pl] w w). rewrite <-(bumped_nil w) at 1.
    rewrite (player_ref_bump 1 pl v) by (first [exact Hv|unfold countable; lia|cbn; lia]).
    split; [done|]. split; [|split; [left; done|split; [done|split; [done|auto]]]].
    split; try apply Hw; [done|]. apply (core_same_clients names names [] [pl] w); try done.
    + destruct (bump_ref pl v [] _ Hv) as (u & Hu & _ & _ & E). rewrite bump_nil in *.
      change (mem_of (bumped [pl] w w)) with (m_set_players (bump [pl] (w_players w)) (mem_of w)).
      rewrite <-E. rewrite Hv in Hu. injection Hu as <-. apply player_ref_ok; [done..|lia].
    + apply (rated_bump (mem_of w)), Hc.
  - rewrite decide_False by tauto.
    assert (w_brk w ≠ NULL) as Hb by (pose proof (mo_brk _ _ _ _ Hm); cbn in *; unfold NULL; lia).
    run player_create_at_run by (first [apply Hc|done]). rewrite decide_False by done. run calloc_run by apply Hc.
    assert (pr_length q = Z.of_nat (length names) ∧ pr_length q + 1 ≤ INT_MAX) as [Hlen Hroom].
    { pose proof (names_small _ _ _ _ Hm) as Hs. cbn in Hs. destruct (sv_nodes _ _ _ _ _ Hw) as [-> _].
      split; [done|]. unfold MAX_BRK, INT_MAX in *. lia. }
    assert (pr_append (w_brk w) q = Some (mkPREG (names ++ [w_brk w]) (pr_length q + 1))) as Ea.
    { unfold pr_append, pr_count. cbn. rewrite int_op_Some; [done|]. unfold INT_MIN. lia. }
    run defined_run by exact Ea.
    run (store_run (V:=PLAYER_REGISTRY) pr q) by apply Hw. rewrite decide_False by done.
    unfold player_ref_at.
    run (update_opt_run (V:=PLAYER) _ player_ref (player_create name) (player_add 1 (player_create name)))
      by (first [apply lookup_insert_eq|done]).
    eexists (mkPREG (names ++ [w_brk w]) (pr_length q + 1)), (w_brk w), _. split; [done|].
    match goal with |- holding _ _ ?x ∧ _ => set (w' := x) end.
    assert (mem_of w' = mkMEM (S (w_brk w)) (w_clients w) (w_invs w) (w_games w)
      (<[w_brk w := player_add 1 (player_create name)]> (w_players w))) as Em.
    { unfold w', mem_of. cbn. by rewrite insert_insert_eq. }
    split; [|split; [right|split; [done|split; [done|done]]]].
    + split; [apply Hw|apply lookup_insert_eq| |done| |apply Hw].
      { split; [|done]. cbn. rewrite length_app, Hlen. cbn. lia. }
      apply (core_same_clients names _ [] [w_brk w] w); try done; rewrite Em.
      * apply (new_player_ok _ _ _ (mem_of w)); [done|]. intros p v Hp Hv E.
        specialize (Hno p Hp). unfold name_of in Hno. change (w_players w !! p = Some v) in Hv.
        rewrite Hv, bool_decide_true in Hno by done. done.
      * by eapply (rated_new _ _ (mem_of w)), Hc.
    + split; [done|]. split; [done|]. split; [done|]. exact (mem_players _ _ Em).
Qed.

(** ** The name is free *)

Definition name_free w (name : list byte) : Prop :=
  existsb (name_of (w_players w) name) (players_of (w_clients w) regs) = false.

(** The client once it plays under [pl]. *)
Definition playing (pl : ptr) (c : CLIENT) : CLIENT :=
  c_set_logged_in CLIENT_LOGGED_IN (c_set_player pl c).

Lemma login_sems : op_free (<[CLIENT_LOGIN_SEM := 1 - 1]> free_sems).
Proof. done. Qed.

Lemma client_login_run q' held pl w p c v :
  holding q' held w → creg_wf r → p ∈ regs → w_clients w !! p = Some c → c_player c = NULL →
  w_players w !! pl = Some v →
  client_login p pl w =
    if existsb (name_of (w_players w) (p_name v)) (players_of (w_clients w) regs) then Ret (-1) w
    else Ret 0 (upd_client p (playing pl c) (set_players (<[pl := player_add 1 v]> (w_players w)) w)).
Proof.
  intros Hh Hwf Hp Hcp Hz Hv. pose proof (ho_core _ _ _ Hh) as Hc. pose proof (co_mem _ _ _ _ Hc) as Hm.
  pose proof (mo_clients _ _ _ _ Hm p c Hcp) as Hcwf.
  assert (c_logged_in c = CLIENT_LOGGED_OUT) as Hout.
  { destruct (c_logged_in c) eqn:E; [done|]. by destruct (cw_logged_in _ _ _ _ _ Hcwf E). }
  assert (c_cr c = cr) as Ecr.
  { destruct (co_open _ _ _ _ Hc p Hp) as (c0 & k & Hc0 & _ & _ & [r0 Hr0]).
    rewrite Hcp in Hc0. injection Hc0 as <-. rewrite (ho_creg _ _ _ Hh) in Hr0.
    by apply lookup_singleton_Some in Hr0 as [-> _]. }
  unfold client_login. run (sem_wait_run CLIENT_LOGIN_SEM 1) by (first [by rewrite (ho_sems _ _ _ Hh)|lia]).
  set (w1 := set_sems _ w).
  assert (core regs (pr_head q') held w1) as Hc1.
  { apply core_set_sems; [done|]. rewrite (ho_sems _ _ _ Hh). apply login_sems. }
  run load_client_run by exact Hcp. rewrite decide_False by tauto. rewrite Ecr.
  run (creg_all_players_run regs (pr_head q') held cr r w1)
    by (first [exact Hc1|by apply Hwf|by eapply ho_few|done|cbn; rewrite (ho_creg _ _ _ Hh); apply lookup_singleton_eq]).
  run defined_run. run (player_name_bump pl v) by exact Hv.
  set (ps := players_of (w_clients w1) regs).
  assert (name_taken ps (p_name v) (bumped ps w1 w1) = Ret (existsb (name_of (w_players w) (p_name v)) ps) w1) as En.
  { pose proof (name_taken_run (length regs) (p_name v) ps [] w1 w1) as En. rewrite app_nil_r, bumped_nil in En. apply En.
    - rewrite Nat.add_0_r. apply players_of_length.
    - intros x Hx. eapply (players_of_names regs (pr_head q') held w1); [done|by eapply ho_few|done|exact Hx]. }
  run En. change ps with (players_of (w_clients w) regs). destruct (existsb _ _).
  - run (sem_section_end w w1) by (first [by rewrite (ho_sems _ _ _ Hh)|lia|done]).
    unfold mret, M_ret. f_equal. by destruct w.
  - pose proof (cw_lock _ _ _ _ _ Hcwf) as Hl.
    run (lock_client_run p c) by (first [exact Hcp|exact Hl]).
    run (update_client_run p _ (c_set_lock true c)) by apply upd_client_lookup.
    assert (∀ x, player_ref_at pl (upd_client p x w1) =
      Ret pl (upd_client p x (set_players (<[pl := player_add 1 v]> (w_players w)) w1))) as Er.
    { intros x. unfold player_ref_at. pose proof (few_count _ _ _ _ pl v Hm (ho_few _ _ _ Hh) Hv).
      by run (update_opt_run (V:=PLAYER) pl player_ref v) by (first [exact Hv|apply player_ref_add; lia]). }
    rewrite upd_client_twice. run Er.
    run (unlock_client_run p (c_set_player pl (c_set_lock true c))) by apply upd_client_lookup.
    rewrite upd_client_twice.
    run (update_client_run p _ (c_set_lock false (c_set_player pl (c_set_lock true c)))) by apply upd_client_lookup.
    rewrite upd_client_twice.
    set (w3 := upd_client p _ _).
    run (sem_section_end w w3) by (first [by rewrite (ho_sems _ _ _ Hh)|lia|done]).
    unfold mret, M_ret. f_equal. unfold w3, playing. destruct c. cbn in Hl. by subst.
Qed.

Lemma in_players_of h l p c : p ∈ l → h !! p = Some c → c_player c ≠ NULL → c_player c ∈ players_of h l.
Proof.
  intros Hp Hc Hn. induction l as [|x l IH]; [by apply elem_of_nil in Hp|]. cbn.
  apply elem_of_cons in Hp as [->|Hp].
  - rewrite Hc, decide_False by done. by left.
  - destruct (h !! x); [|auto]. case_decide; [auto|]. right. auto.
Qed.

(** The client takes over a reference that a call holds. *)
Lemma logged_in_holding q' held pl w p c v :
  w_cregs w = {[cr := r]} → w_pregs w !! pr = Some q' → preg_wf q' →
  w_sems w = free_sems → few held → core regs (pr_head q') (pl :: held) w → p ∈ regs → w_clients w !! p = Some c →
  c_player c = NULL → w_players w !! pl = Some v → pl ≠ NULL → name_free w (p_name v) →
  holding q' held (upd_client p (playing pl c) w).
Proof.
  intros Hcr Hpr Hnodes Hsems Hfew Hc Hp Hcp Hz Hv Hpl Hfree.
  pose proof (co_mem _ _ _ _ Hc) as Hm. pose proof (mo_clients _ _ _ _ Hm p c Hcp) as Hcwf.
  assert (pl ∈ pr_head q') as Hin by (apply (mo_held _ _ _ _ Hm); by left).
  split; try done.
  split; [|apply (co_rated _ _ _ _ Hc)|apply (co_sems _ _ _ _ Hc)|apply (co_oom _ _ _ _ Hc)| | |].
  - apply (set_login_ok regs (pr_head q') (pl :: held) held (mem_of w)); [done|done|by right|done|done| |].
    + intros x. unfold player_refs. cbn.
      rewrite (decide_False (P := c_logged_in c = CLIENT_LOGGED_IN ∧ _)).
      * repeat case_decide; naive_solver lia.
      * intros [Hon _]. by destruct (cw_logged_in _ _ _ _ _ Hcwf Hon).
    + intros x Hx. apply (mo_held _ _ _ _ Hm). by right.
  - intros x Hx. destruct (co_open _ _ _ _ Hc x Hx) as (cx & k & Hcx & Hk). unfold open_conn. cbn.
    destruct (decide (x = p)) as [->|Hne].
    + rewrite lookup_insert_eq. rewrite Hcp in Hcx. injection Hcx as <-. eauto.
    + rewrite lookup_insert_ne by done. eauto.
  - assert (∀ y cy, y ∈ regs → w_clients w !! y = Some cy → c_player cy ≠ pl) as Hno.
    { intros y cy Hy Hcy E. assert (name_of (w_players w) (p_name v) pl = true) as Hname
        by (unfold name_of; rewrite Hv; by apply bool_decide_true).
      assert (pl ∈ players_of (w_clients w) regs) as Hpin by (rewrite <-E; eapply in_players_of; eauto; congruence).
      unfold name_free in Hfree. apply not_true_iff_false in Hfree. apply Hfree, existsb_exists.
      exists pl. split; [by apply list_elem_of_In|done]. }
    intros x y cx cy Hx Hy Hcx Hcy E Hnx. cbn in Hcx, Hcy.
    apply lookup_insert_Some in Hcx as [[<- <-]|[Hxp Hcx]];
      apply lookup_insert_Some in Hcy as [[<- <-]|[Hyp Hcy]]; [done|..].
    + exfalso. by eapply (Hno y cy).
    + exfalso. by eapply (Hno x cx).
    + by eapply (co_unique _ _ _ _ Hc).
  - assert (∀ x cx, w_clients (upd_client p (playing pl c) w) !! x = Some cx →
      ∃ c0, w_clients w !! x = Some c0 ∧ c_fd c0 = c_fd cx) as Hfd.
    { intros x cx Hx. cbn in Hx. apply lookup_insert_Some in Hx as [[<- <-]|[_ Hx]]; eauto. }
    intros x y cx cy Hx Hy Hcx Hcy E. destruct (Hfd x cx Hcx) as (c1 & Hc1 & E1).
    destruct (Hfd y cy Hcy) as (c2 & Hc2 & E2). eapply (co_fds _ _ _ _ Hc); [done|done|done|done|congruence].
Qed.

(** Giving the reference back. *)
Lemma release_run q' pl w :
  holding q' [pl] w → cr ≠ NULL → creg_wf r →
  ∃ v v', w_players w !! pl = Some v ∧ player_unref v = Some (Some v') ∧
    let w' := set_players (<[pl := v']> (w_players w)) w in
    player_unref_at pl w = Ret () w' ∧ serves cr pr r q' w'.
Proof.
  intros Hh Hn Hwf. pose proof (ho_core _ _ _ Hh) as Hc. pose proof (co_mem _ _ _ _ Hc) as Hm.
  destruct (mo_names _ _ _ _ Hm pl) as [v Hv]; [apply (mo_held _ _ _ _ Hm); by left|].
  destruct (player_unref_ok _ _ _ _ pl v Hm Hv) as (Hv' & Hm').
  exists v, (player_add (-1) v). split; [done|]. split; [done|]. split.
  - by rewrite (player_unref_at_run pl v _ w Hv Hv').
  - split; try done; [apply (ho_creg _ _ _ Hh)|apply (ho_preg _ _ _ Hh)|apply (ho_nodes _ _ _ Hh)| |apply (ho_sems _ _ _ Hh)].
    apply (core_same_clients (pr_head q') _ [pl] [] w); try done.
    exact (rated_player (mem_of w) pl v _ (co_rated _ _ _ _ Hc) Hv (player_unref_rating _ _ Hv')).
Qed.

(** A refusal while the reference is held. *)
Lemma holding_nack q' held w p :
  holding q' held w → p ∈ regs →
  ∃ s w', client_send_nack p w = Ret s w' ∧ holding q' held w' ∧ mem_of w' = mem_of w ∧ only_sends w w' ∧
    told w w' [nack w p].
Proof.
  intros Hh Hp. pose proof (ho_core _ _ _ Hh) as Hc.
  destruct (co_open _ _ _ _ Hc p Hp) as (c & k & Hcp & Hk & Hw & _).
  assert (sends (send_simple p JEUX_NACK_PKT 0 None) w [nack w p] (λ _, True)) as (s & w' & (E & Hs & Hq) & Hm & Ht & _).
  { apply (send_simple_sends p c k JEUX_NACK_PKT None); try done; [apply Hc|].
    apply (mo_clients _ _ _ _ (co_mem _ _ _ _ Hc) p c Hcp). }
  exists s, w'. split; [exact E|]. split; [|split; [done|split; [by apply quiet_sends|done]]].
  destruct Hq as (Ho & Ecr & Epr & Hrest).
  split; [by rewrite Ecr; apply Hh|by rewrite Epr; apply Hh|apply Hh|apply Hh| |by rewrite Hs; apply Hh].
  by apply (core_sends _ _ _ w).
Qed.

(** The account of a name: the registered one, or a new one. *)
Definition named_account (name : list byte) (pl : ptr) (h h' : gmap nat PLAYER) : Prop :=
  (pl ∈ names ∧ (∃ rt, accounts h !! pl = Some (name, rt)) ∧ accounts h' = accounts h) ∨
  ((∀ x, x ∈ names → name_of h name x = false) ∧ accounts h !! pl = None ∧
   accounts h' = <[pl := (name, PLAYER_INITIAL_RATING)]> (accounts h)).

(** What LOGIN does.  A client that has a player, an empty name: an error
    that changes nothing.  A name that a registered client plays under: the
    client stays logged out.  Otherwise the client plays under the registered
    player of that name, whose rating is the one it had, 1500 for a new one. *)
Definition login_spec (p : ptr) (payload : option (list byte)) (hdr : JEUX_PACKET_HEADER)
    w (s : Z) w' : Prop :=
  ∃ c, w_clients w !! p = Some c ∧
  match payload with
  | None => s = -1 ∧ mem_of w' = mem_of w
  | Some m =>
      if decide (c_player c ≠ NULL ∨ strlen m = 0) then s = -1 ∧ mem_of w' = mem_of w
      else
        let name := cstr (take (Z.to_nat (ntohs (h_size hdr))) m) in
        s = 1 ∧ w_invs w' = w_invs w ∧ w_games w' = w_games w ∧
        if existsb (name_of (w_players w) name) (players_of (w_clients w) regs)
        then w_clients w' = w_clients w ∧ accounts (w_players w') = accounts (w_players w)
        else ∃ pl, w_clients w' = <[p := playing pl c]> (w_clients w) ∧
          named_account name pl (w_players w) (w_players w')
  end.

(** What the client is told.  One whose name is taken gets the NACK, and after
    it the ACK of a LOGIN that succeeded. *)
Definition login_notices (p : ptr) (payload : option (list byte)) (hdr : JEUX_PACKET_HEADER) w : list NOTICE :=
  match w_clients w !! p, payload with
  | Some c, Some m =>
      if decide (c_player c ≠ NULL ∨ strlen m = 0) then [nack w p]
      else
        let name := cstr (take (Z.to_nat (ntohs (h_size hdr))) m) in
        if existsb (name_of (w_players w) name) (players_of (w_clients w) regs)
        then [nack w p; ack w p None] else [ack w p None]
  | _, _ => [nack w p]
  end.

Lemma registers_keep name w q' pl w1 x v :
  serves cr pr r q w → registers name w q' pl w1 → w_players w !! x = Some v →
  ∃ v', w_players w1 !! x = Some v' ∧ p_name v' = p_name v ∧ p_rating v' = p_rating v.
Proof.
  intros Hw Hreg Hx. destruct Hreg as [(_ & _ & _ & ->)|(_ & -> & _ & ->)].
  - rewrite bump_lookup, Hx. eexists. split; [done|]. done.
  - exists v. split; [|done]. rewrite lookup_insert_ne; [done|]. intros <-.
    pose proof (co_mem _ _ _ _ (serves_core _ _ _ _ w Hw)) as Hm.
    assert (0 < w_brk w < w_brk w)%nat as [_ Hlt]; [|by apply Nat.lt_irrefl in Hlt].
    apply (mo_player_keys _ _ _ _ Hm). by exists v.
Qed.

Lemma registers_account name w q' pl w1 :
  serves cr pr r q w → registers name w q' pl w1 → named_account name pl (w_players w) (w_players w1).
Proof.
  intros Hw [(_ & Hin & Hn & E)|(Hno & -> & _ & E)]; rewrite E.
  - left. split; [done|]. split; [|apply accounts_bump]. unfold accounts. rewrite lookup_fmap.
    unfold name_of in Hn. destruct (w_players w !! pl) as [u|]; [|done].
    apply bool_decide_eq_true in Hn as <-. by eexists.
  - right. split; [done|]. unfold accounts. rewrite lookup_fmap, fmap_insert. split; [|done].
    pose proof (fresh_None _ _ (mo_player_keys _ _ _ _ (co_mem _ _ _ _ (serves_core _ _ _ _ w Hw)))) as Hb.
    change (w_players w !! w_brk w = None) in Hb. by rewrite Hb.
Qed.

Lemma registers_name name w q' pl w1 v :
  registers name w q' pl w1 → w_players w1 !! pl = Some v → p_name v = name.
Proof.
  intros [(_ & _ & Hn & ->)|(_ & -> & _ & ->)] Hv.
  - rewrite bump_lookup in Hv. unfold name_of in Hn. destruct (w_players w !! pl) as [u|]; [|done].
    injection Hv as <-. by apply bool_decide_eq_true in Hn.
  - rewrite lookup_insert_eq in Hv. by injection Hv as <-.
Qed.

Lemma registers_taken name w q' pl w1 n :
  serves cr pr r q w → registers name w q' pl w1 →
  existsb (name_of (w_players w1) n) (players_of (w_clients w) regs) =
  existsb (name_of (w_players w) n) (players_of (w_clients w) regs).
Proof.
  intros Hw Hreg.
  assert (∀ x, x ∈ players_of (w_clients w) regs → name_of (w_players w1) n x = name_of (w_players w) n x) as Hx.
  { intros x Hx. destruct (serves_players _ _ _ _ w x Hw Hx) as (_ & v & Hv & _).
    destruct (registers_keep name w q' pl w1 x v Hw Hreg Hv) as (v' & Hv' & En & _).
    unfold name_of. by rewrite Hv, Hv', En. }
  induction (players_of (w_clients w) regs) as [|x l IH]; [done|]. cbn.
  rewrite Hx by (by left). f_equal. apply IH. intros y Hy. apply Hx. by right.
Qed.

Lemma login_spec_intro p c m hdr w w1 w3 q' pl :
  let name := cstr (take (Z.to_nat (ntohs (h_size hdr))) m) in
  serves cr pr r q w → w_clients w !! p = Some c → c_player c = NULL → strlen m ≠ 0 →
  registers name w q' pl w1 →
  w_invs w3 = w_invs w → w_games w3 = w_games w → accounts (w_players w3) = accounts (w_players w1) →
  w_clients w3 = (if existsb (name_of (w_players w) name) (players_of (w_clients w) regs)
                  then w_clients w else <[p := playing pl c]> (w_clients w)) →
  login_spec p (Some m) hdr w 1 w3.
Proof.
  intros name Hw Hp Hz Hm Hreg Ei Eg Ea Ec. exists c. split; [done|].
  rewrite decide_False by naive_solver. fold name.
  split; [done|]. split; [done|]. split; [done|].
  pose proof (registers_account name w q' pl w1 Hw Hreg) as Hacc. unfold named_account in *. rewrite Ea.
  destruct (existsb _ _) eqn:Etaken; [|by exists pl].
  split; [done|]. destruct Hacc as [(_ & _ & ->)|(Hno & _)]; [done|exfalso].
  apply existsb_exists in Etaken as (x & Hx & Hname). apply list_elem_of_In in Hx.
  destruct (serves_players _ _ _ _ w x Hw Hx) as (Hin & _). by rewrite Hno in Hname.
Qed.

(** The end of LOGIN once [client_login] has decided. *)
Lemma login_tail q' pl w1 p (Q : Z → world → Prop) :
  p ∈ regs → (∃ w2, player_unref_at pl w1 = Ret () w2 ∧ serves cr pr r q' w2 ∧
    ∀ w3, mem_of w3 = mem_of w2 → only_sends w2 w3 → told w2 w3 [ack w2 p None] → Q 1 w3) →
  wp (player_unref_at pl;; client_send_ack p None 0;; mret 1) w1
    (λ s w', ∃ q', serves cr pr r q' w' ∧ Q s w').
Proof.
  intros Hp (w2 & E & Hw2 & HQ). eapply wp_step; [exact E|].
  eapply wp_mono; [by apply (ack_ret cr pr r q' w2 p None 0 1 (λ s w3, s = 1 ∧ mem_of w3 = mem_of w2 ∧ told w2 w3 [ack w2 p None]))|].
  intros s w' (H1 & Hq & -> & H2 & H3). exists q'. split; [done|]. apply HQ; [done|by apply quiet_sends|done].
Qed.

(** After a successful [client_login] the client has a reference of its own. *)
Lemma take_over_run q' pl w1 p c v :
  holding q' [pl] w1 → w_players w1 !! pl = Some v →
  player_unref_at pl (upd_client p (playing pl c) (set_players (<[pl := player_add 1 v]> (w_players w1)) w1)) =
    Ret () (upd_client p (playing pl c) w1).
Proof.
  intros Hh Hv. pose proof (co_mem _ _ _ _ (ho_core _ _ _ Hh)) as Hm.
  pose proof (few_count _ _ _ _ pl v Hm (ho_few _ _ _ Hh) Hv) as Hcnt.
  rewrite (player_unref_at_run pl (player_add 1 v) (Some v)); [|apply lookup_insert_eq|].
  2: { rewrite player_unref_add by (cbn; lia). cbn. destruct (Z.eqb_spec (p_ref_count v + 1) 1); [lia|].
       do 2 f_equal. destruct v. unfold player_add. cbn. f_equal. lia. }
  f_equal. apply world_ext; try done. unfold mem_of. cbn. f_equal.
  rewrite insert_insert_eq. by apply insert_id.
Qed.

(** The outcome of LOGIN. *)
Definition login_outcome (p : ptr) (payload : option (list byte)) (hdr : JEUX_PACKET_HEADER) w (s : Z) w' : Prop :=
  ∃ q', serves cr pr r q' w' ∧ only_sends w w' ∧ login_spec p payload hdr w s w' ∧
    told w w' (login_notices p payload hdr w).

(** Refused before the registry is asked. *)
Lemma login_refused w p payload hdr a :
  serves cr pr r q w → p ∈ regs → login_notices p payload hdr w = [nack w p] →
  (∀ w', mem_of w' = mem_of w → login_spec p payload hdr w a w') →
  wp (client_send_nack p;; mret a) w (login_outcome p payload hdr w).
Proof.
  intros Hw Hp El HQ. unfold login_outcome. rewrite El. eapply wp_mono.
  { apply (nack_ret cr pr r q w p a (λ s w', login_spec p payload hdr w s w' ∧ told w w' [nack w p])); auto. }
  intros s w' (H1 & Hq & H2). exists q. split; [done|]. split; [by apply quiet_sends|done].
Qed.

Section registered.
Context (w : world) (p : ptr) (c : CLIENT) (m : list byte) (hdr : JEUX_PACKET_HEADER).
Context (q' : PLAYER_REGISTRY) (pl : ptr) (w1 : world).
Let name := cstr (take (Z.to_nat (ntohs (h_size hdr))) m).
Context (Hw : serves cr pr r q w) (Hp : p ∈ regs) (Hcp : w_clients w !! p = Some c).
Context (Hz : c_player c = NULL) (Hlen : strlen m ≠ 0).
Context (Hh : holding q' [pl] w1) (Hreg : registers name w q' pl w1) (Ecl : w_clients w1 = w_clients w).
Context (Hinvs : w_invs w1 = w_invs w ∧ w_games w1 = w_games w ∧ w_net w1 = w_net w) (Hpl : pl ≠ NULL).

(** The name is taken: a NACK, and then the ACK. *)
Lemma login_taken_safe :
  existsb (name_of (w_players w) name) (players_of (w_clients w) regs) = true →
  wp (client_send_nack p;; player_unref_at pl;; client_send_ack p None 0;; mret 1) w1
    (login_outcome p (Some m) hdr w).
Proof.
  intros Etaken. unfold login_outcome, login_notices. rewrite Hcp, decide_False by tauto. fold name. rewrite Etaken.
  destruct (holding_nack q' [pl] w1 p Hh Hp) as (s & w2 & E2 & Hh2 & M2 & N2 & T2). step E2.
  destruct (release_run q' pl w2 Hh2 (sv_cr _ _ _ _ _ Hw) (sv_wf _ _ _ _ _ Hw)) as (u & u' & Hu & Hu' & Erel2 & Hserve2).
  apply (login_tail q' pl w2 p (λ s w', only_sends w w' ∧ login_spec p (Some m) hdr w s w' ∧ told w w' [nack w p; ack w p None])); [done|].
  eexists. split; [exact Erel2|]. split; [exact Hserve2|]. intros w3 M3 N3 T3.
  split; [etrans; [apply (same_net_sends w w1), Hinvs|by etrans]|]. split.
  2: { apply (told_from w w1); [apply Hinvs|]. unfold ack, nack, note, fd_of in T2, T3 |- *.
       cbn in T3. rewrite (mem_clients _ _ M2) in T3. cbn in T3. rewrite Ecl in T2, T3.
       exact (told_trans _ _ _ _ _ T2 T3). }
  eapply (login_spec_intro p c m hdr w w1 w3 q' pl); try done.
  - rewrite (mem_invs _ _ M3). cbn. rewrite (mem_invs _ _ M2). apply Hinvs.
  - rewrite (mem_games _ _ M3). cbn. rewrite (mem_games _ _ M2). apply Hinvs.
  - rewrite (mem_players _ _ M3). cbn. rewrite (mem_players _ _ M2).
    rewrite (mem_players _ _ M2) in Hu. apply (accounts_insert_same _ _ u); [exact Hu|exact (player_unref_name _ _ Hu')|exact (player_unref_rating _ _ Hu')].
  - fold name. rewrite Etaken, (mem_clients _ _ M3). cbn. by rewrite (mem_clients _ _ M2).
Qed.

(** The name is free: the client plays under it. *)
Lemma login_free_safe v :
  w_players w1 !! pl = Some v →
  existsb (name_of (w_players w) name) (players_of (w_clients w) regs) = false →
  wp (player_unref_at pl;; client_send_ack p None 0;; mret 1)
    (upd_client p (playing pl c) (set_players (<[pl := player_add 1 v]> (w_players w1)) w1))
    (login_outcome p (Some m) hdr w).
Proof.
  intros Hv Etaken. unfold login_outcome, login_notices. rewrite Hcp, decide_False by tauto. fold name. rewrite Etaken.
  pose proof (registers_name _ _ _ _ _ _ Hreg Hv) as Hname.
  assert (w_clients w1 !! p = Some c) as Hcp1 by (by rewrite Ecl).
  apply (login_tail q' pl _ p (λ s w', only_sends w w' ∧ login_spec p (Some m) hdr w s w' ∧ told w w' [ack w p None])); [done|].
  exists (upd_client p (playing pl c) w1). split; [by apply (take_over_run q')|].
  split.
  { apply holding_serves; [|apply Hw|apply Hw]. eapply (logged_in_holding q' [] pl); try done; try apply Hh. unfold name_free. rewrite Ecl, Hname.
    by rewrite (registers_taken name w q' pl w1 name Hw Hreg). }
  intros w3 M3 N3 T3. split; [etrans; [apply (same_net_sends w w1), Hinvs|exact N3]|]. split.
  2: { apply (told_from w w1); [apply Hinvs|]. unfold ack, note in T3 |- *.
       rewrite (fd_of_lookup _ p (playing pl c)) in T3 by apply upd_client_lookup.
       by rewrite (fd_of_lookup w p c Hcp). }
  eapply (login_spec_intro p c m hdr w w1 w3 q' pl); try done.
  - rewrite (mem_invs _ _ M3). apply Hinvs.
  - rewrite (mem_games _ _ M3). apply Hinvs.
  - by rewrite (mem_players _ _ M3).
  - fold name. rewrite Etaken, (mem_clients _ _ M3). cbn. by rewrite Ecl.
Qed.
End registered.

Lemma process_login_safe w p payload hdr :
  serves cr pr r q w → p ∈ regs → Z.of_nat (w_brk w) ≤ MAX_BRK → wp (process_login pr payload hdr p) w (login_outcome p payload hdr w).
Proof.
  intros Hw Hp Hb. pose proof (serves_core _ _ _ _ w Hw) as Hc.
  destruct (registered_client _ _ w p Hc Hp) as (c & k & Hcp & Hwf & _).
  unfold process_login. eapply wp_step; [apply (client_get_player_run p c); [by eapply client_key|exact Hcp]|].
  destruct (decide (c_player c ≠ NULL)) as [Hz|Hz].
  { apply login_refused; [done|done| |].
    - unfold login_notices. rewrite Hcp. destruct payload; [by rewrite decide_True by tauto|done].
    - intros w' Hm. exists c. split; [done|]. destruct payload; [|done]. by rewrite decide_True by tauto. }
  apply dec_stable in Hz. destruct payload as [m|].
  2: { apply login_refused; [done|done|unfold login_notices; by rewrite Hcp|intros w' Hm; by exists c]. }
  eapply wp_step; [apply strncpy_copy_run, Hw|]. set (name := cstr _).
  destruct (Z.eqb_spec (strlen m) 0) as [Hlen|Hlen].
  { apply login_refused; [done|done|unfold login_notices; by rewrite Hcp, decide_True by tauto|].
    intros w' Hm. exists c. split; [done|]. by rewrite decide_True by tauto. }
  destruct (preg_register_run w name Hw Hb) as (q' & pl & w1 & E1 & Hh & Hreg & Ecl & Hinvs & Hpl).
  eapply wp_step; [exact E1|]. rewrite decide_False by done.
  destruct (release_run q' pl w1 Hh (sv_cr _ _ _ _ _ Hw) (sv_wf _ _ _ _ _ Hw)) as (v & v' & Hv & _).
  pose proof (registers_name _ _ _ _ _ _ Hreg Hv) as Hname.
  assert (w_clients w1 !! p = Some c) as Hcp1 by (by rewrite Ecl).
  pose proof (client_login_run q' [pl] pl w1 p c v Hh (sv_wf _ _ _ _ _ Hw) Hp Hcp1 Hz Hv) as Elog.
  rewrite Ecl, Hname, (registers_taken name w q' pl w1 name Hw Hreg) in Elog.
  destruct (existsb _ _) eqn:Etaken.
  - step Elog. by apply (login_taken_safe w p c m hdr q' pl w1).
  - step Elog. by apply (login_free_safe w p c m hdr q' pl w1).
Qed.
End login.
