(* ===== verification/Service.v ===== *)
(** * The service loop

    [dispatch] and one iteration of [jeux_client_service] of [src/server.c],
    for a registered client and any bytes on its connection. *)
From S2P Require Import Prelude Game Player Elo World Objects Protocol Wire PlayerRegistry Invitation Client Sessions ClientRegistry Server Accounting Effects Handlers Directory Playing Logout Requests Replies Login.

Section service.
Context `{LibmLaws}.
Context (cr pr : ptr) (r : CLIENT_REGISTRY) (q : PLAYER_REGISTRY).
Implicit Types (w : world) (p : ptr).

Abbreviation regs := (cr_registered r).

(** Where the code relies on what it does not check. *)
Definition dispatch_guard (p : ptr) (hdr : JEUX_PACKET_HEADER) (payload : option (list byte))
    (flag : Z) w : Prop :=
  (h_type hdr = JEUX_USERS_PKT → flag ≠ 0 → users_guard w) ∧
  (h_type hdr = JEUX_INVITE_PKT → flag ≠ 0 → invite_guard r p payload w).

(** What a request does to the server, and whom it tells. *)
Definition request_spec (p : ptr) (hdr : JEUX_PACKET_HEADER) (payload : option (list byte)) w w' : Prop :=
  let type := h_type hdr in let id := h_id hdr in
  if type =? JEUX_USERS_PKT then mem_of w' = mem_of w ∧
    told w w' [ack w p (Some (users_text (w_players w) (players_of (w_clients w) regs)))]
  else if type =? JEUX_INVITE_PKT then ∃ s, invite_request_spec r p hdr payload w s w' ∧
    told w w' (invite_request_notices r p hdr payload w)
  else if type =? JEUX_REVOKE_PKT then ∃ s, revoke_spec p id w s w' ∧
    told w w' (revoke_notices p id w ++ [answer w p s None])
  else if type =? JEUX_ACCEPT_PKT then ∃ s str, accept_spec p id w (s, str) w' ∧
    told w w' (accept_notices p id w ++ [answer w p s str])
  else if type =? JEUX_DECLINE_PKT then ∃ s, decline_spec p id w s w' ∧
    told w w' (decline_notices p id w ++ [answer w p s None])
  else if type =? JEUX_MOVE_PKT then ∃ s, move_request_spec p hdr payload w s w' ∧
    told w w' (move_request_notices p hdr payload w ++ [answer w p s None])
  else if type =? JEUX_RESIGN_PKT then ∃ s, resign_spec p id w s w' ∧
    told w w' (resign_notices p id w ++ [answer w p s None])
  else mem_of w' = mem_of w ∧ told w w' [].

(** What a packet does: the result is whether the loop goes on, and the new
    login flag.  LOGIN sets the flag, a packet of type 0 logs out and ends the
    loop, and the other requests are refused while the flag is 0. *)
Definition dispatch_spec (p : ptr) (hdr : JEUX_PACKET_HEADER) (payload : option (list byte))
    (flag : Z) w (res : Z * Z) w' : Prop :=
  if h_type hdr =? JEUX_LOGIN_PKT then
    res.1 = 1 ∧ login_spec r q p payload hdr w res.2 w' ∧ told w w' (login_notices r p payload hdr w)
  else if h_type hdr =? JEUX_NO_PKT then
    res = (0, flag) ∧ (∃ s, logout_spec regs (pr_head q) p w s w') ∧ told w w' (logout_notices p w)
  else res = (1, flag) ∧
    if flag =? 0
    then mem_of w' = mem_of w ∧ told w w' (if decide (h_type hdr ∈ requests) then [nack w p] else [])
    else request_spec p hdr payload w w'.

Lemma request_handled {A} w p type flag (m : M Z) (a : A) (P : world → Prop) :
  serves cr pr r q w → p ∈ regs → type ∈ requests →
  (flag ≠ 0 → handled cr pr r q m w (λ _ w', P w')) →
  handled cr pr r q (if_logged_in flag p m;; mret a) w
    (λ res w', res = a ∧ if flag =? 0 then mem_of w' = mem_of w ∧
       told w w' (if decide (type ∈ requests) then [nack w p] else []) else P w').
Proof.
  intros Hw Hp Hty Hm. rewrite decide_True by done. unfold if_logged_in. destruct (Z.eqb_spec flag 0) as [Hf|Hf].
  - eapply (handled_bind _ _ _ _ _ _ _ (λ _ w', mem_of w' = mem_of w ∧ told w w' [nack w p])).
    + by apply nack_ret.
    + intros [] w' Hw' Hmem. by apply handled_ret.
  - eapply (handled_bind _ _ _ _ _ _ _ (λ _ w', P w')).
    + eapply handled_bind; [by apply Hm|]. intros s w' Hw' HP. by apply handled_ret.
    + intros [] w' Hw' HP. by apply handled_ret.
Qed.

Lemma keep_registry {A} (op : M A) w (Q R : A → world → Prop) :
  handled cr pr r q op w Q → (∀ a w', Q a w' → R a w') →
  wp op w (λ a w', ∃ q', serves cr pr r q' w' ∧ only_sends w w' ∧ R a w').
Proof.
  intros Ho HQR. eapply wp_mono; [exact Ho|]. intros a w' (Hw & Hq & HQ). exists q.
  split; [done|]. split; [by apply quiet_sends|auto].
Qed.

(** The branch of one type: the conditions on the type compute. *)
Ltac of_type E :=
  rewrite E;
  cbn [Z.eqb Pos.eqb JEUX_LOGIN_PKT JEUX_NO_PKT JEUX_USERS_PKT JEUX_INVITE_PKT JEUX_REVOKE_PKT
       JEUX_ACCEPT_PKT JEUX_DECLINE_PKT JEUX_MOVE_PKT JEUX_RESIGN_PKT].

Ltac one_request E :=
  of_type E; eapply keep_registry; [|intros res w'; exact id];
  apply request_handled; [done|done|apply (bool_decide_eq_true_1 _); reflexivity|intros Hf].

Lemma dispatch_safe w p hdr payload flag :
  serves cr pr r q w → p ∈ regs → Z.of_nat (w_brk w) ≤ MAX_BRK →
  dispatch_guard p hdr payload flag w →
  wp (dispatch cr pr p hdr payload flag) w
    (λ res w', ∃ q', serves cr pr r q' w' ∧ only_sends w w' ∧ dispatch_spec p hdr payload flag w res w').
Proof.
  intros Hw Hp Hb [Hgu Hgi]. unfold dispatch, dispatch_spec, request_spec.
  destruct (Z.eqb_spec (h_type hdr) JEUX_LOGIN_PKT) as [E1|N1].
  { apply wp_bind. eapply wp_mono; [by apply (process_login_safe cr pr r q)|].
    intros s w' (q' & Hw' & Hn & Hs & Ht). exists q'. by repeat (split; [done|]). }
  destruct (Z.eqb_spec (h_type hdr) JEUX_USERS_PKT) as [E|N2].
  { one_request E. eapply handled_mono; [apply process_users_handled; auto|]. by intros s w' [_ ?]. }
  destruct (Z.eqb_spec (h_type hdr) JEUX_INVITE_PKT) as [E|N3].
  { one_request E. eapply handled_mono; [apply process_invite_handled; auto|]. cbv beta. eauto. }
  destruct (Z.eqb_spec (h_type hdr) JEUX_REVOKE_PKT) as [E|N4].
  { one_request E. eapply handled_mono; [apply process_revoke_handled; auto|]. cbv beta. eauto. }
  destruct (Z.eqb_spec (h_type hdr) JEUX_ACCEPT_PKT) as [E|N5].
  { one_request E. eapply handled_mono; [apply process_accept_handled; auto|]. cbv beta. naive_solver. }
  destruct (Z.eqb_spec (h_type hdr) JEUX_DECLINE_PKT) as [E|N6].
  { one_request E. eapply handled_mono; [apply process_decline_handled; auto|]. cbv beta. eauto. }
  destruct (Z.eqb_spec (h_type hdr) JEUX_MOVE_PKT) as [E|N7].
  { one_request E. eapply handled_mono; [apply process_move_handled; auto|]. cbv beta. eauto. }
  destruct (Z.eqb_spec (h_type hdr) JEUX_RESIGN_PKT) as [E|N8].
  { one_request E. eapply handled_mono; [apply process_resign_handled; auto|]. cbv beta. eauto. }
  destruct (Z.eqb_spec (h_type hdr) JEUX_NO_PKT) as [E|N9].
  { eapply keep_registry; [|intros res w'; exact id]. eapply handled_bind; [by apply logout_handled|].
    intros s w' Hw' [Hs Ht]. apply handled_ret; [done|]. eauto. }
  apply wp_ret. exists q. split; [done|]. split; [done|]. split; [done|].
  destruct (flag =? 0); [|split; [done|apply told_refl]]. rewrite decide_False; [split; [done|apply told_refl]|].
  unfold requests. rewrite !elem_of_cons, elem_of_nil. tauto.
Qed.

(** ** Receiving *)

(** Whatever the connection holds, and whatever the reads return. *)
Lemma proto_recv_any fd w k :
  w_net w !! fd = Some k → w_oom w = [] →
  wp (proto_recv_packet fd true) w (λ res w', ∃ k', w' = set_conn fd k' w ∧ same_output k k' ∧
    (res.1.1 ≠ -1 → (length (k_in k') < length (k_in k))%nat)).
Proof.
  intros Hk Hoom. unfold proto_recv_packet. apply wp_bind.
  eapply wp_mono; [apply (read_all_wp _ _ _ k Hk); vm_compute; discriminate|].
  intros rh w1 (k1 & bs & -> & Hout & Hin & _ & Hres & _).
  destruct (Z.eqb_spec rh.1 (-1)) as [E|E]; [apply wp_ret; exists k1; by split_and!|].
  assert (length (k_in k1) < length (k_in k))%nat as Hless.
  { rewrite Hin, length_app. destruct Hres as [[_ Hl]|]; [unfold SIZEOF_HEADER in Hl; lia|done]. }
  pose proof (ntohs_range (h_size (header_of_bytes rh.2))) as Hr.
  destruct (Z.leb_spec (ntohs (h_size (header_of_bytes rh.2))) 0); [apply wp_ret; exists k1; by split_and!|].
  cbn [negb]. eapply wp_step; [by apply calloc_run|]. cbn [negb]. apply wp_bind.
  eapply wp_mono; [apply (read_all_wp _ _ _ k1 (set_conn_lookup fd k1 w)); lia|].
  intros rp w2 (k2 & bs2 & -> & Hout2 & Hin2 & _). apply wp_ret. exists k2.
  rewrite set_conn_twice. split; [done|]. split; [by trans k1|]. intros _.
  apply (f_equal length) in Hin2. rewrite length_app in Hin2. lia.
Qed.

Lemma serves_read w fd k k' :
  serves cr pr r q w → w_net w !! fd = Some k → same_output k k' → serves cr pr r q (set_conn fd k' w).
Proof.
  intros [H1 H2 H3 Hn H4 Hc H6] Hk [Ho Hw]. split; try done. destruct Hc. split; try done.
  intros p Hp. destruct (co_open p Hp) as (c & k0 & Hcp & Hk0 & Hw0 & Hcr). unfold open_conn. cbn.
  destruct (decide (fd = c_fd c)) as [->|Hne].
  - exists c, k'. split; [done|]. split; [apply lookup_insert_eq|]. split; [|done].
    rewrite Hk in Hk0. injection Hk0 as <-. unfold writable in *. by rewrite Hw.
  - exists c, k0. by rewrite lookup_insert_ne.
Qed.

(** The string the loop makes of a payload. *)
Definition payload_copy (hdr : JEUX_PACKET_HEADER) (payload : option (list byte)) : option (list byte) :=
  (λ b, cstr (take (Z.to_nat (ntohs (h_size hdr))) b)) <$> payload.

(** One round: a packet is dispatched, or the end of the input logs out. *)
Definition iteration_spec (p : ptr) (flag : Z) w (res : Z * Z) w' : Prop :=
  (res = (0, flag) ∧ ∃ w1 s, mem_of w1 = mem_of w ∧ logout_spec regs (pr_head q) p w1 s w') ∨
  (∃ w1 hdr payload, mem_of w1 = mem_of w ∧ dispatch_guard p hdr payload flag w1 ∧
     dispatch_spec p hdr payload flag w1 res w').

Lemma service_iteration_safe w p fd flag k :
  serves cr pr r q w → p ∈ regs → Z.of_nat (w_brk w) ≤ MAX_BRK → w_net w !! fd = Some k →
  (∀ res w1, proto_recv_packet fd true w = Ret res w1 → res.1.1 ≠ -1 →
     dispatch_guard p res.1.2 (payload_copy res.1.2 res.2) flag w1) →
  wp (service_iteration cr pr fd p flag) w
    (λ res w', ∃ q', serves cr pr r q' w' ∧ iteration_spec p flag w res w' ∧
      ∃ k', same_output k k' ∧ only_sends (set_conn fd k' w) w' ∧
        (res.1 ≠ 0 → (length (k_in k') < length (k_in k))%nat)).
Proof.
  intros Hw Hp Hb Hk Hg. unfold service_iteration.
  destruct (wp_inv _ _ _ (proto_recv_any fd w k Hk (co_oom _ _ _ _ (serves_core _ _ _ _ w Hw))))
    as (res & w1 & E & k' & -> & Hout & Hless).
  pose proof (serves_read w fd k k' Hw Hk Hout) as Hw1.
  eapply wp_step; [exact E|]. destruct (Z.eqb_spec res.1.1 (-1)) as [Hr|Hr].
  { eapply wp_mono; [eapply handled_bind; [by apply (logout_handled cr pr r q)|]|].
    - intros s w' Hw' [Hs _]. apply (handled_ret cr pr r q _ _ (λ res w', res = (0, flag) ∧ ∃ s, logout_spec regs (pr_head q) p (set_conn fd k' w) s w'));
        [done|]. split; [done|by exists s].
    - intros res' w' (Hw' & Hq & -> & s & Hs). exists q. split; [done|]. split.
      + left. split; [done|]. by exists (set_conn fd k' w), s.
      + exists k'. split; [done|]. split; [by apply quiet_sends|done]. }
  assert (∃ b, (match res.2 with None => mret None
    | Some p0 => s ← strncpy_copy p0 (ntohs (h_size res.1.2)); mret (Some s) end) (set_conn fd k' w) =
    Ret b (set_conn fd k' w) ∧ b = payload_copy res.1.2 res.2) as (b & Eb & ->).
  { eexists. split; [|done]. destruct res.2 as [pay|]; [|done].
    by run strncpy_copy_run by apply (co_oom _ _ _ _ (serves_core _ _ _ _ _ Hw1)). }
  eapply wp_step; [exact Eb|].
  eapply wp_mono; [apply dispatch_safe; [exact Hw1|done|done|by apply (Hg _ _ E)]|].
  intros res' w' (q' & Hw' & Hn & Hs). exists q'. split; [done|]. split.
  - right. exists (set_conn fd k' w), res.1.2, (payload_copy res.1.2 res.2).
    split; [done|]. split; [by apply (Hg _ _ E)|done].
  - exists k'. split; [done|]. split; [done|]. auto.
Qed.
End service.
