(* ===== verification/Lifecycle.v ===== *)
(** * Connecting, disconnecting, and the server as a whole

    [creg_register] and [creg_unregister] of [src/client_registry.c], and the
    server as a transition system: clients connect, the service loop of each
    handles one packet at a time, and clients disconnect. *)
From S2P Require Import Prelude Game Player Elo World Objects Protocol Wire PlayerRegistry Invitation Client Sessions ClientRegistry Server Accounting Effects Handlers Directory Playing Logout Requests Login Service.

(** ** The array of clients *)

Lemma take_insert_next (l : list ptr) n x : (n < length l)%nat → take (S n) (<[n := x]> l) = take n l ++ [x].
Proof.
  intros Hn. rewrite (take_S_r _ _ x) by (by apply list_lookup_insert_eq). by rewrite take_insert_ge by lia.
Qed.

(** Moving the entries after slot [i] up is deleting the entry. *)
Lemma shift_up_lookup n l i k :
  (i + n < length l)%nat →
  shift_up l (seq i n) !! k = if decide (i ≤ k < i + n)%nat then l !! S k else l !! k.
Proof.
  revert l i. induction n as [|n IH]; intros l i Hn; cbn [seq shift_up].
  { rewrite decide_False by lia. done. }
  rewrite IH by (rewrite length_insert; lia).
  destruct (lookup_lt_is_Some_2 l (S i)) as [x Hx]; [lia|]. rewrite Hx. cbn [default].
  destruct (decide (S i ≤ k < S i + n)%nat).
  - rewrite decide_True by lia. by rewrite list_lookup_insert_ne by lia.
  - destruct (decide (k = i)) as [->|Hk].
    + rewrite decide_True by lia. rewrite list_lookup_insert_eq by lia. done.
    + rewrite decide_False by lia. by rewrite list_lookup_insert_ne by lia.
Qed.

Lemma remove_slot_take (l : list ptr) i n :
  (i < n ≤ length l)%nat → take (n - 1) (remove_slot l i n) = delete i (take n l).
Proof.
  intros Hi. apply list_eq. intros k. unfold remove_slot.
  destruct (decide (k < n - 1)%nat) as [Hk|Hk].
  - rewrite lookup_take_lt by done. rewrite shift_up_lookup by (rewrite length_insert; lia).
    case_decide.
    + rewrite list_lookup_insert_ne by lia. rewrite list_lookup_delete_ge by lia. by rewrite lookup_take_lt by lia.
    + rewrite list_lookup_insert_ne by lia. rewrite list_lookup_delete_lt by lia. by rewrite lookup_take_lt by lia.
  - rewrite lookup_take_ge by lia. symmetry. apply lookup_ge_None_2.
    rewrite length_delete by (apply lookup_lt_is_Some_2; rewrite length_take; lia). rewrite length_take. lia.
Qed.

Lemma slot_of_spec p l : p ∈ l → ∃ i, slot_of p l = Some i ∧ l !! i = Some p.
Proof.
  induction l as [|x l IH]; intros Hp; [by apply elem_of_nil in Hp|]. cbn.
  destruct (Nat.eqb_spec x p) as [->|Hne]; [by exists 0%nat|].
  apply elem_of_cons in Hp as [->|Hp]; [done|]. destruct (IH Hp) as (i & -> & Hi). by exists (S i).
Qed.

Section lifecycle.
Context `{LibmLaws}.
Context (cr pr : ptr) (r : CLIENT_REGISTRY) (q : PLAYER_REGISTRY).
Implicit Types (w : world) (p : ptr).

Abbreviation regs := (cr_registered r).
Abbreviation names := (pr_head q).

Lemma serves_creg w : serves cr pr r q w → w_cregs w !! cr = Some r.
Proof. intros Hw. rewrite (sv_creg _ _ _ _ _ Hw). apply lookup_singleton_eq. Qed.

(** The world with this registry. *)
Definition in_reg (r1 : CLIENT_REGISTRY) w : world := set_cregs {[cr := r1]} w.

Lemma in_reg_id w : serves cr pr r q w → w = in_reg r w.
Proof. intros Hw. unfold in_reg. rewrite <-(sv_creg _ _ _ _ _ Hw). by destruct w. Qed.

Lemma reg_load r1 w : load cr (in_reg r1 w) = Ret r1 (in_reg r1 w).
Proof. apply (load_run (V:=CLIENT_REGISTRY)). apply lookup_singleton_eq. Qed.

Lemma reg_store r1 r2 w : store cr r2 (in_reg r1 w) = Ret () (in_reg r2 w).
Proof.
  rewrite (store_run (V:=CLIENT_REGISTRY) cr r1) by apply lookup_singleton_eq.
  unfold in_reg, set_cregs. cbn. by rewrite insert_singleton_eq.
Qed.

Lemma reg_update r1 f w : update cr f (in_reg r1 w) = Ret () (in_reg (f r1) w).
Proof. unfold update. run reg_load. apply reg_store. Qed.

Lemma reg_count d r1 w : 0 ≤ cr_length r1 ≤ MAX_CLIENTS → -1 ≤ d ≤ 1 →
  update_opt cr (cr_count d) (in_reg r1 w) = Ret () (in_reg (cr_set_length (cr_length r1 + d) r1) w).
Proof.
  intros Hl Hd. unfold update_opt. run reg_load. unfold cr_count.
  rewrite int_op_Some by (unfold MAX_CLIENTS, INT_MIN, INT_MAX in *; lia). apply reg_store.
Qed.

Lemma reg_lock r1 w : cr_mutex r1 = false → lock_creg cr (in_reg r1 w) = Ret () (in_reg (cr_set_mutex true r1) w).
Proof. intros Hm. unfold lock_creg. run reg_load. rewrite Hm. apply reg_store. Qed.

Lemma reg_unlock r1 w : unlock_creg cr (in_reg r1 w) = Ret () (in_reg (cr_set_mutex false r1) w).
Proof. apply reg_update. Qed.

(** ** Connecting *)

Lemma client_create_run fd w :
  w_oom w = [] → w_sems w = free_sems → w_brk w ≠ 0%nat →
  client_create cr fd w = Ret (w_brk w)
    (upd_client (w_brk w) (fresh_client cr fd) (set_brk (S (w_brk w)) w)).
Proof.
  intros Ho Hs Hb. unfold client_create.
  assert (init_semaphores w = Ret () w) as Ei.
  { unfold init_semaphores. destruct (_ =? 0); [|done]. by rewrite set_sems_id. }
  run Ei. run calloc_run by exact Ho. run calloc_run by exact Ho.
  set (c0 := mkCLIENT false cr fd 0 NULL CLIENT_LOGGED_OUT (initial_ids 100) 0 100 []).
  assert (alloc c0 w = Ret (w_brk w) (upd_client (w_brk w) c0 (set_brk (S (w_brk w)) w))) as Ea by done.
  run Ea. rewrite (client_ref_run _ c0) by (first [apply upd_client_lookup|done]).
  by rewrite upd_client_twice.
Qed.

Lemma creg_register_full fd w :
  serves cr pr r q w → MAX_CLIENTS ≤ cr_length r ∨ cr_no r = 1 →
  creg_register cr fd w = Ret NULL w.
Proof.
  intros Hw Hfull. unfold creg_register. rewrite decide_False by apply Hw.
  run (load_run (V:=CLIENT_REGISTRY)) by exact (serves_creg w Hw).
  destruct (Z.leb_spec MAX_CLIENTS (cr_length r)); [done|]. destruct Hfull as [?| ->]; [lia|done].
Qed.

(** The registry with one more client. *)
Definition creg_add (p : ptr) : CLIENT_REGISTRY :=
  mkCREG false (cr_sem r) (cr_length r + 1) (cr_no r)
    (<[Z.to_nat (cr_length r) := p]> (cr_clients r)) (cr_login_queue r - 1).

Lemma registered_length : creg_wf r → length regs = Z.to_nat (cr_length r).
Proof. intros [_ Hl Ha _ _]. unfold cr_registered. rewrite length_take. lia. Qed.

Lemma creg_add_ok p : creg_wf r → cr_length r < MAX_CLIENTS →
  creg_wf (creg_add p) ∧ cr_registered (creg_add p) = regs ++ [p].
Proof.
  intros [Hm Hl Ha Hq Hs] Hlt. split.
  - split; cbn; [done|lia| |lia|done]. by rewrite length_insert.
  - unfold cr_registered. cbn. replace (Z.to_nat (cr_length r + 1)) with (S (Z.to_nat (cr_length r))) by lia.
    apply take_insert_next. lia.
Qed.

(** A descriptor that [accept] returns is not that of a client: those are
    open. *)
Definition fd_unused (l : list ptr) (fd : Z) w : Prop :=
  ∀ p c, p ∈ l → w_clients w !! p = Some c → c_fd c ≠ fd.

(** The world with the new client. *)
Definition with_client (fd : Z) w : world :=
  upd_client (w_brk w) (fresh_client cr fd) (set_brk (S (w_brk w)) w).

Lemma register_core fd w k :
  serves cr pr r q w → w_net w !! fd = Some k → writable k → fd_unused regs fd w → cr_length r < MAX_CLIENTS →
  core (regs ++ [w_brk w]) names [] (in_reg (creg_add (w_brk w)) (with_client fd w)).
Proof.
  intros Hw Hk Hkw Hfree Hlt. pose proof (serves_core _ _ _ _ w Hw) as Hc. pose proof (co_mem _ _ _ _ Hc) as Hm.
  set (w1 := with_client fd w).
  pose proof (fresh_None _ _ (mo_client_keys _ _ _ _ Hm)) as Hfresh.
  assert (∀ x cx, x ∈ regs → w_clients w !! x = Some cx → w_clients w1 !! x = Some cx) as Hold.
  { intros x cx _ Hx. cbn. rewrite lookup_insert_ne; [done|]. intros <-.
    change (w_clients w !! w_brk w = None) in Hfresh. congruence. }
  split; [apply (register_ok regs names [] (mem_of w)); [done|]| |apply Hc|apply Hc| | |].
  - rewrite registered_length by apply Hw. pose proof (rw_length _ (sv_wf _ _ _ _ _ Hw)). lia.
  - apply (rated_mono (mem_of w)); [apply Hc|done|]. cbn. lia.
  - intros x [Hx| ->%list_elem_of_singleton]%elem_of_app.
    + destruct (co_open _ _ _ _ Hc x Hx) as (cx & kx & Hcx & Hkx & Hwx & Hcrx). exists cx, kx.
      split; [by apply Hold|]. split; [done|]. split; [done|]. cbn.
      rewrite (sv_creg _ _ _ _ _ Hw) in Hcrx. destruct Hcrx as [r0 [<- _]%lookup_singleton_Some].
      exists (creg_add (w_brk w)). apply lookup_singleton_eq.
    + exists (fresh_client cr fd), k. split; [apply lookup_insert_eq|]. split; [done|]. split; [done|].
      exists (creg_add (w_brk w)). apply lookup_singleton_eq.
  - assert (∀ x cx, x ∈ regs ++ [w_brk w] → w_clients w1 !! x = Some cx → c_player cx ≠ NULL →
      x ∈ regs ∧ w_clients w !! x = Some cx) as Hback.
    { intros x cx [Hx| ->%list_elem_of_singleton]%elem_of_app Hcx Hn.
      - destruct (co_open _ _ _ _ Hc x Hx) as (c0 & _ & Hc0 & _). rewrite (Hold x c0 Hx Hc0) in Hcx.
        by injection Hcx as <-.
      - cbn in Hcx. rewrite lookup_insert_eq in Hcx. by injection Hcx as <-. }
    intros x y cx cy Hx Hy Hcx Hcy E Hn.
    destruct (Hback x cx Hx Hcx Hn) as [Hx' Hcx']. destruct (Hback y cy Hy Hcy) as [Hy' Hcy']; [congruence|].
    by eapply (co_unique _ _ _ _ Hc).
  - assert (∀ x cx, x ∈ regs ++ [w_brk w] → w_clients w1 !! x = Some cx →
      (x ∈ regs ∧ w_clients w !! x = Some cx) ∨ (x = w_brk w ∧ c_fd cx = fd)) as Hfd.
    { intros x cx [Hx| ->%list_elem_of_singleton]%elem_of_app Hcx.
      - destruct (co_open _ _ _ _ Hc x Hx) as (c0 & _ & Hc0 & _). rewrite (Hold x c0 Hx Hc0) in Hcx.
        injection Hcx as <-. by left.
      - right. cbn in Hcx. rewrite lookup_insert_eq in Hcx. by injection Hcx as <-. }
    intros x y cx cy Hx Hy Hcx Hcy E.
    destruct (Hfd x cx Hx Hcx) as [[Hx' Hcx']|[-> Ex]], (Hfd y cy Hy Hcy) as [[Hy' Hcy']|[-> Ey]]; [|exfalso..|done].
    + by eapply (co_fds _ _ _ _ Hc).
    + by apply (Hfree x cx Hx' Hcx'); congruence.
    + by apply (Hfree y cy Hy' Hcy'); congruence.
Qed.

Lemma creg_register_safe fd w k :
  serves cr pr r q w → w_net w !! fd = Some k → writable k → fd_unused regs fd w →
  cr_length r < MAX_CLIENTS → cr_no r ≠ 1 →
  wp (creg_register cr fd) w (λ p w', p = w_brk w ∧ serves cr pr (creg_add p) q w' ∧
    w_net w' = w_net w ∧ mem_of w' = mkMEM (S (w_brk w)) (<[w_brk w := fresh_client cr fd]> (w_clients w))
      (w_invs w) (w_games w) (w_players w)).
Proof.
  intros Hw Hk Hkw Hfree Hlt Hno. pose proof (serves_core _ _ _ _ w Hw) as Hc.
  pose proof (co_mem _ _ _ _ Hc) as Hm. pose proof (sv_wf _ _ _ _ _ Hw) as Hwf.
  assert (w_brk w ≠ 0%nat) as Hb by (pose proof (mo_brk _ _ _ _ Hm); cbn in *; lia).
  rewrite (in_reg_id w Hw) at 1. unfold creg_register. rewrite decide_False by apply Hw. step reg_load.
  destruct (Z.leb_spec MAX_CLIENTS (cr_length r)); [lia|]. destruct (Z.eqb_spec (cr_no r) 1); [done|].
  assert (creg_wait_login_queue cr (in_reg r w) = Ret () (in_reg (cr_set_login_queue (cr_login_queue r - 1) r) w)) as Eq.
  { unfold creg_wait_login_queue. run reg_load. pose proof (rw_queue _ Hwf).
    destruct (Z.ltb_spec 0 (cr_login_queue r)); [apply reg_store|lia]. }
  step Eq. step reg_lock by apply Hwf. set (r1 := cr_set_mutex true _).
  step (client_create_run fd (in_reg r1 w)) by (first [apply Hc|apply Hw|done]).
  set (w1 := with_client fd w).
  change (upd_client _ _ _) with (in_reg r1 w1). change (w_brk (in_reg r1 w)) with (w_brk w).
  step reg_load. pose proof (rw_length _ Hwf) as Hlen.
  change (cr_length r1) with (cr_length r).
  destruct (Z.ltb_spec (cr_length r) 0); [lia|]. destruct (Z.leb_spec MAX_CLIENTS (cr_length r)); [lia|].
  cbn [orb]. step reg_update. step (reg_count 1) by (first [exact Hlen|done]). step reg_unlock. apply wp_ret.
  split; [done|]. assert (cr_set_mutex false _ = creg_add (w_brk w)) as -> by done.
  split; [|split; done]. destruct (creg_add_ok (w_brk w) Hwf Hlt) as [Hwf' Hregs].
  split; try done; try apply Hw. rewrite Hregs. by apply (register_core fd w k).
Qed.

(** ** Disconnecting *)

(** The registry without the client in slot [i]. *)
Definition creg_del (i : nat) : CLIENT_REGISTRY :=
  mkCREG false (if cr_length r - 1 =? 0 then cr_sem r + 1 else cr_sem r) (cr_length r - 1) (cr_no r)
    (remove_slot (cr_clients r) i (Z.to_nat (cr_length r))) (cr_login_queue r + 1).

Lemma creg_del_ok i : creg_wf r → (i < length regs)%nat →
  creg_wf (creg_del i) ∧ cr_registered (creg_del i) = delete i regs.
Proof.
  intros Hwf Hi. rewrite registered_length in Hi by done. destruct Hwf as [Hm Hl Ha Hq Hs]. split.
  - split; cbn; [done|lia| |lia|by destruct (_ =? 0); lia]. unfold remove_slot. by rewrite length_shift_up, length_insert.
  - unfold cr_registered. cbn. replace (Z.to_nat (cr_length r - 1)) with (Z.to_nat (cr_length r) - 1)%nat by lia.
    apply remove_slot_take. lia.
Qed.

(** What disconnecting does: the client is logged out and leaves the
    registry; it is freed, unless closed invitations still refer to it. *)
Definition unregister_spec (p : ptr) w w' : Prop :=
  ∃ w1 s c, logout_spec regs names p w s w1 ∧ mem_ok regs names [] (mem_of w1) ∧ w_clients w1 !! p = Some c ∧ c_logged_in c = CLIENT_LOGGED_OUT ∧
    mem_of w' = m_set_clients (unref_client p c (w_clients w1)) (mem_of w1).

Lemma unregister_brk p w w' : unregister_spec p w w' → w_brk w' = w_brk w.
Proof. intros (w1 & s & c & [Hb _] & _ & _ & _ & Hm). rewrite <-Hb. exact (mem_brk _ _ Hm). Qed.

(** The invariant without the client. *)
Lemma unregister_core p c i w r' :
  core regs names [] w → regs !! i = Some p → w_clients w !! p = Some c →
  c_logged_in c = CLIENT_LOGGED_OUT → (∃ r2, w_cregs w = {[cr := r2]}) →
  core (delete i regs) names [] (in_reg r' (set_clients (unref_client p c (w_clients w)) w)).
Proof.
  intros Hc Hi Hp Hout Hcr. pose proof (co_mem _ _ _ _ Hc) as Hm.
  pose proof (delete_Permutation regs i p Hi) as Hperm.
  destruct (unregister_nodup _ _ _ _ _ _ Hm Hperm) as [Hnin _].
  assert (∀ x, x ∈ delete i regs → x ∈ regs ∧ unref_client p c (w_clients w) !! x = w_clients w !! x) as Hother.
  { intros x Hx. split; [rewrite Hperm; by right|].
    apply (unregister_other (mem_of w) p c x). by intros ->. }
  split; [|exact (co_rated _ _ _ _ Hc)|apply Hc|apply Hc| | |].
  - apply (unregister_ok regs (delete i regs) names [] (mem_of w) p c); try done. by rewrite Hout.
  - intros x Hx. destruct (Hother x Hx) as [Hxr Heq].
    destruct (co_open _ _ _ _ Hc x Hxr) as (cx & kx & Hcx & Hkx & Hwx & [r0 Hr0]).
    exists cx, kx. split; [cbn; by rewrite Heq|]. split; [done|]. split; [done|]. cbn.
    assert (c_cr cx = cr) as ->; [|eexists; apply lookup_singleton_eq].
    destruct Hcr as [r2 E]. rewrite E in Hr0. by apply lookup_singleton_Some in Hr0 as [-> _].
  - intros x y cx cy Hx Hy Hcx Hcy. destruct (Hother x Hx) as [Hxr Hex]. destruct (Hother y Hy) as [Hyr Hey].
    cbn in Hcx, Hcy. rewrite Hex in Hcx. rewrite Hey in Hcy. by eapply (co_unique _ _ _ _ Hc).
  - intros x y cx cy Hx Hy Hcx Hcy. destruct (Hother x Hx) as [Hxr Hex]. destruct (Hother y Hy) as [Hyr Hey].
    cbn in Hcx, Hcy. rewrite Hex in Hcx. rewrite Hey in Hcy. by eapply (co_fds _ _ _ _ Hc).
Qed.

(** The semaphore that [creg_wait_for_empty] waits for. *)
Lemma reg_post_empty x w : (if cr_length x =? 0 then creg_post_sem cr else mret ()) (in_reg x w) =
  Ret () (in_reg (if cr_length x =? 0 then cr_set_sem (cr_sem x + 1) x else x) w).
Proof. destruct (cr_length x =? 0); [|done]. exact (reg_update x (λ x, cr_set_sem (cr_sem x + 1) x) w). Qed.

(** What the registry holds does not matter to the clients. *)
Lemma in_reg_core x w : serves cr pr r q w → core regs names [] (in_reg x w).
Proof.
  intros Hw. pose proof (serves_core _ _ _ _ w Hw) as Hc. destruct Hc. split; try done. intros y Hy.
  destruct (co_open y Hy) as (cy & ky & H1 & H2 & H3 & [r0 Hr0]). exists cy, ky. do 3 (split; [done|]).
  rewrite (sv_creg _ _ _ _ _ Hw) in Hr0. apply lookup_singleton_Some in Hr0 as [<- _].
  eexists. apply lookup_singleton_eq.
Qed.

Lemma creg_unregister_safe p w :
  serves cr pr r q w → p ∈ regs → Z.of_nat (w_brk w) ≤ MAX_BRK →
  wp (creg_unregister cr p) w (λ s w', s = 0 ∧ ∃ i, regs !! i = Some p ∧
    serves cr pr (creg_del i) q w' ∧ unregister_spec p w w' ∧ only_sends w w' ∧ told w w' (logout_notices p w)).
Proof.
  intros Hw Hp Hb. pose proof (serves_core _ _ _ _ w Hw) as Hc. pose proof (sv_wf _ _ _ _ _ Hw) as Hwf.
  destruct (registered_client _ _ w p Hc Hp) as (c0 & k0 & Hcp0 & _).
  destruct (slot_of_spec p regs Hp) as (i & Hslot & Hi).
  pose proof (sv_cr _ _ _ _ _ Hw) as Hcrn. pose proof (client_key _ _ w p c0 Hc Hcp0) as Hpn.
  rewrite (in_reg_id w Hw) at 1. unfold creg_unregister. rewrite decide_False by naive_solver.
  step reg_lock by apply Hwf. step reg_load.
  change (cr_registered (cr_set_mutex true r)) with regs. rewrite Hslot. step reg_update. name_world w1.
  assert (core regs names [] w1) as Hc1 by (by apply in_reg_core).
  apply wp_bind. eapply wp_mono.
  { apply (client_logout_safe regs names w1 p); [done| |done|done]. cbn. by rewrite (sv_sems _ _ _ _ _ Hw). }
  intros s w2 (Hs2 & Hq2 & _ & Hc2 & Hlog & Ht2).
  assert (∃ c, w_clients w2 !! p = Some c ∧ c_logged_in c = CLIENT_LOGGED_OUT) as (c & Hcp & Hout).
  { destruct Hlog as (_ & c & Hcp & Hcase). case_decide as Hon.
    - destruct Hcase as (_ & _ & c' & Hcp' & Hout & _). eauto.
    - destruct Hcase as [_ Hm2]. exists c. rewrite (mem_clients _ _ Hm2). split; [done|].
      by destruct (c_logged_in c). }
  assert (∃ r2, w2 = in_reg r2 w2 ∧ r2 = cr_set_clients (remove_slot (cr_clients r) i (Z.to_nat (cr_length r))) (cr_set_mutex true r))
    as (r2 & Ew2 & Er2).
  { eexists. split; [|done]. destruct Hq2 as (_ & Ecr & _). unfold in_reg. 
    match goal with |- _ = set_cregs ?h _ => assert (w_cregs w2 = h) as <- by exact Ecr end. by destruct w2. }
  pose proof (mo_clients _ _ _ _ (co_mem _ _ _ _ Hc2) p c Hcp) as Hcwf.
  eapply wp_step; [by apply (unref_client_run p c);
    [|apply Hcwf|exact (mo_client_pos _ _ _ _ (co_mem _ _ _ _ Hc2) p c Hcp)|]|].
  set (w3 := set_clients _ w2). replace w3 with (in_reg r2 w3) by (unfold w3; rewrite Ew2 at 4; by destruct w2).
  step (reg_count (-1)) by (first [rewrite Er2; apply Hwf|done]).
  unfold creg_post_login_queue. step reg_update. step reg_load.
  set (r3 := cr_set_login_queue _ _).
  step reg_post_empty. step reg_unlock. apply wp_ret. split; [done|]. exists i. split; [done|].
  assert (cr_set_mutex false (if cr_length r3 =? 0 then cr_set_sem (cr_sem r3 + 1) r3 else r3) = creg_del i) as ->.
  { unfold r3, creg_del. rewrite Er2. cbn. change (cr_length r + -1) with (cr_length r - 1). by destruct (cr_length r - 1 =? 0). }
  split; [|split; [exists w2, s, c; split; [exact Hlog|split; [apply Hc2|done]]|split; [exact (quiet_sends _ _ Hq2)|exact Ht2]]].
  apply lookup_lt_Some in Hi as Hilt. destruct (creg_del_ok i Hwf Hilt) as [Hwf' Hregs].
  destruct Hq2 as (Ho2 & Ecr2 & Epr2 & _).
  split; [done|done| |apply Hw|done| |].
  - cbn. rewrite Epr2. apply Hw.
  - rewrite Hregs. apply (unregister_core p c i w2); try done. eexists. exact Ecr2.
  - cbn. rewrite Hs2. apply Hw.
Qed.
End lifecycle.

(** ** The server, one call at a time *)

Section system.
Context `{LibmLaws}.
Context (cr pr : ptr).
Implicit Types (w : world) (p : ptr).

Definition registered w : list ptr :=
  match w_cregs w !! cr with Some r => cr_registered r | None => [] end.

(** A client connects, the loop of a service thread serves one packet, a
    client is unregistered; a peer connects, input arrives, a descriptor is
    closed. *)
Inductive EVENT : Type :=
| Connect (fd : Z)
| Packet (p : ptr) (fd flag : Z)
| Disconnect (p : ptr)
| Peer (fd : Z) (k : CONN)
| Input (fd : Z) (k : CONN)
| Close (fd : Z).

(** Every event that can happen: each call that returns, whatever it is given. *)
Inductive happens : EVENT → world → world → Prop :=
| happens_connect fd w p w' : creg_register cr fd w = Ret p w' → happens (Connect fd) w w'
| happens_packet p fd flag w res w' :
    service_iteration cr pr fd p flag w = Ret res w' → happens (Packet p fd flag) w w'
| happens_disconnect p w s w' : creg_unregister cr p w = Ret s w' → happens (Disconnect p) w w'
| happens_peer fd k w : happens (Peer fd k) w (set_conn fd k w)
| happens_input fd k w : happens (Input fd k) w (set_conn fd k w)
| happens_close fd w : happens (Close fd) w (set_net (delete fd (w_net w)) w).

(** The packets that [fd] can deliver are not among the requests that the
    code handles on trust. *)
Definition packet_guard (p : ptr) (fd flag : Z) w : Prop :=
  ∀ r res w1, w_cregs w !! cr = Some r → proto_recv_packet fd true w = Ret res w1 → res.1.1 ≠ -1 →
    dispatch_guard r p res.1.2 (payload_copy res.1.2 res.2) flag w1.

(** What is assumed of an event.  Of the kernel: descriptors are open and new
    ones not in use, and input leaves the output alone.  Of the threads: one
    serves and unregisters its own client.  Of the peers: their packets meet
    [packet_guard]. *)
Definition in_order (e : EVENT) w : Prop :=
  match e with
  | Connect fd => (∃ k, w_net w !! fd = Some k ∧ writable k) ∧ fd_unused (registered w) fd w
  | Packet p fd flag => p ∈ registered w ∧ (∃ k, w_net w !! fd = Some k) ∧ packet_guard p fd flag w
  | Disconnect p => p ∈ registered w
  | Peer fd k => w_net w !! fd = None ∧ writable k
  | Input fd k' => ∃ k, w_net w !! fd = Some k ∧ same_output k k'
  | Close fd => fd_unused (registered w) fd w
  end.

Definition orderly_step w w' : Prop := ∃ e, in_order e w ∧ happens e w w'.

(** The states of the orderly executions from [w0] on: whole calls one at a
    time, each event in order, as long as memory lasts.  What else can happen
    is in [Findings] and, for calls whose steps interleave, in [Parallel] and
    [Races]. *)
Inductive orderly (w0 : world) : world → Prop :=
| orderly_start : orderly w0 w0
| orderly_next w w' : orderly w0 w → Z.of_nat (w_brk w) ≤ MAX_BRK → orderly_step w w' → orderly w0 w'.

Lemma orderly_connect fd k w p w' : w_net w !! fd = Some k → writable k → fd_unused (registered w) fd w →
  creg_register cr fd w = Ret p w' → orderly_step w w'.
Proof. intros. exists (Connect fd). split; [split; [by exists k|done]|by eapply happens_connect]. Qed.

Lemma orderly_packet p fd k flag w res w' : p ∈ registered w → w_net w !! fd = Some k →
  packet_guard p fd flag w → service_iteration cr pr fd p flag w = Ret res w' → orderly_step w w'.
Proof. intros. exists (Packet p fd flag). split; [split; [done|split; [by exists k|done]]|by eapply happens_packet]. Qed.

Lemma orderly_disconnect p w s w' : p ∈ registered w → creg_unregister cr p w = Ret s w' → orderly_step w w'.
Proof. intros. exists (Disconnect p). split; [done|by eapply happens_disconnect]. Qed.

Lemma orderly_peer fd k w : w_net w !! fd = None → writable k → orderly_step w (set_conn fd k w).
Proof. intros. exists (Peer fd k). split; [done|constructor]. Qed.

Lemma orderly_input fd k k' w : w_net w !! fd = Some k → same_output k k' → orderly_step w (set_conn fd k' w).
Proof. intros. exists (Input fd k'). split; [by exists k|constructor]. Qed.

Lemma orderly_close fd w : fd_unused (registered w) fd w → orderly_step w (set_net (delete fd (w_net w)) w).
Proof. intros. exists (Close fd). split; [done|constructor]. Qed.

Definition serving w : Prop := ∃ r q, serves cr pr r q w.

Lemma registered_serves r q w : serves cr pr r q w → registered w = cr_registered r.
Proof. intros Hw. unfold registered. by rewrite (serves_creg _ _ _ _ _ Hw). Qed.

Lemma connect_runs w fd k : serving w → w_net w !! fd = Some k → writable k → fd_unused (registered w) fd w →
  wp (creg_register cr fd) w (λ _ w', serving w').
Proof.
  intros (r & q & Hw) Hk Hkw Hfree. rewrite (registered_serves r q w Hw) in Hfree.
  destruct (Z.le_gt_cases MAX_CLIENTS (cr_length r)) as [Hfull|Hlt];
    [|destruct (Z.eq_dec (cr_no r) 1) as [Hno|Hno]].
  - unfold wp. rewrite (creg_register_full cr pr r q fd w Hw) by auto. by exists r, q.
  - unfold wp. rewrite (creg_register_full cr pr r q fd w Hw) by auto. by exists r, q.
  - eapply wp_mono; [by apply (creg_register_safe cr pr r q fd w k)|].
    intros p w' (_ & Hw' & _). eexists _, _. exact Hw'.
Qed.

Lemma packet_runs w p fd k flag :
  serving w → Z.of_nat (w_brk w) ≤ MAX_BRK → p ∈ registered w → w_net w !! fd = Some k →
  packet_guard p fd flag w → wp (service_iteration cr pr fd p flag) w (λ _ w', serving w').
Proof.
  intros (r & q & Hw) Hb Hp Hk Hg. rewrite (registered_serves r q w Hw) in Hp.
  eapply wp_mono; [apply (service_iteration_safe cr pr r q w p fd flag k); try done|].
  - intros res w1. apply Hg. exact (serves_creg _ _ _ _ _ Hw).
  - intros res w' (q' & Hw' & _). eexists _, _. exact Hw'.
Qed.

Lemma disconnect_runs w p :
  serving w → Z.of_nat (w_brk w) ≤ MAX_BRK → p ∈ registered w →
  wp (creg_unregister cr p) w (λ s w', s = 0 ∧ serving w').
Proof.
  intros (r & q & Hw) Hb Hp. rewrite (registered_serves r q w Hw) in Hp.
  eapply wp_mono; [by apply (creg_unregister_safe cr pr r q p w)|].
  intros s w' (Hs & i & _ & Hw' & _). split; [done|]. eexists _, _. exact Hw'.
Qed.

Lemma peer_serves r q w fd k : serves cr pr r q w → w_net w !! fd = None → writable k →
  serves cr pr r q (set_conn fd k w).
Proof.
  intros [H1 H2 H3 Hn H4 Hc H6] Hk Hkw. split; try done. destruct Hc. split; try done.
  intros p Hp. destruct (co_open p Hp) as (c & k0 & Hcp & Hk0 & Hrest). exists c, k0.
  split; [done|]. split; [|done]. cbn. rewrite lookup_insert_ne; [done|]. intros E. by rewrite E, Hk0 in Hk.
Qed.

Lemma serves_close r q w fd : serves cr pr r q w → fd_unused (cr_registered r) fd w →
  serves cr pr r q (set_net (delete fd (w_net w)) w).
Proof.
  intros [H1 H2 H3 Hn H4 Hc H6] Hfree. split; try done. destruct Hc. split; try done.
  intros x Hx. destruct (co_open x Hx) as (c & k & Hcx & Hk & Hrest). exists c, k. split; [done|].
  split; [|done]. cbn. rewrite lookup_delete_ne; [done|]. intros E. by apply (Hfree x c Hx Hcx).
Qed.

Lemma step_serving w w' : serving w → Z.of_nat (w_brk w) ≤ MAX_BRK → orderly_step w w' → serving w'.
Proof.
  intros Hs Hb (e & He & Hh). destruct Hh as [fd w p w' E|p fd flag w res w' E|p w s w' E|fd k w|fd k' w|fd w].
  - destruct He as [(k & Hk & Hkw) Hfree].
    pose proof (connect_runs w fd k Hs Hk Hkw Hfree) as Hwp. unfold wp in Hwp. by rewrite E in Hwp.
  - destruct He as (Hp & (k & Hk) & Hg).
    pose proof (packet_runs w p fd k flag Hs Hb Hp Hk Hg) as Hwp. unfold wp in Hwp. by rewrite E in Hwp.
  - pose proof (disconnect_runs w p Hs Hb He) as Hwp. unfold wp in Hwp. rewrite E in Hwp. by destruct Hwp.
  - destruct Hs as (r & q & Hw), He. exists r, q. by apply peer_serves.
  - destruct Hs as (r & q & Hw), He as (k & Hk & Ho). exists r, q. by apply (serves_read cr pr r q w fd k k').
  - destruct Hs as (r & q & Hw). exists r, q. apply serves_close; [done|].
    cbn in He. by rewrite (registered_serves r q w Hw) in He.
Qed.

Lemma orderly_serving w0 w : serving w0 → orderly w0 w → serving w.
Proof. intros H1. induction 1 as [|w w' _ IH Hb Hstep]; [done|]. by apply (step_serving w). Qed.
End system.

(** ** Starting *)

(** Memory when [main] begins: nothing allocated, the semaphores as the
    loader leaves them, and a first peer on [fd]. *)
Definition boot_world (fd : Z) (k : CONN) : world :=
  mkWORLD 1 ∅ ∅ ∅ ∅ ∅ ∅ (replicate CLIENT_SEM_FUNCTIONS 0) 0 {[fd := k]} [] [].

(** [main] creates the registries, and the first client connects. *)
Definition boot (fd : Z) : M (ptr * ptr * ptr) :=
  cr ← creg_init; pr ← preg_init; p ← creg_register cr fd; mret (cr, pr, p).

(** The empty server, its semaphores initialised. *)
Definition empty_server (fd : Z) (k : CONN) : world :=
  mkWORLD 3 ∅ ∅ ∅ ∅ {[1%nat := mkCREG false 0 0 0 (replicate (Z.to_nat MAX_CLIENTS) NULL) MAX_CLIENTS]}
    {[2%nat := mkPREG [] 0]} free_sems 0 {[fd := k]} [] [].

Lemma empty_mem_ok b : (0 < b)%nat → mem_ok [] [] [] (mkMEM b ∅ ∅ ∅ ∅).
Proof.
  intros Hb. split; cbn; try done.
  all: try (intros x [y Hy]; by rewrite lookup_empty in Hy).
  all: try (intros x y Hy; by rewrite lookup_empty in Hy).
  all: try constructor.
  all: try (intros x Hx; by apply elem_of_nil in Hx).
  all: intros x y u v Hx; by apply elem_of_nil in Hx.
Qed.

Lemma empty_serves fd k : ∃ r q, serves 1 2 r q (empty_server fd k) ∧ cr_length r = 0 ∧ cr_no r = 0.
Proof.
  eexists _, (mkPREG [] 0). split; [|split; [|]].
  - split; [done|done|done|done| |split|done].
    + split; [done|done|done|done|done].
    + exact (empty_mem_ok 3 ltac:(lia)).
    + intros p v Hv. cbn in Hv. by rewrite lookup_empty in Hv.
    + done.
    + done.
    + intros p Hp. by apply elem_of_nil in Hp.
    + intros p q c c' Hp. by apply elem_of_nil in Hp.
    + intros p q c c' Hp. by apply elem_of_nil in Hp.
  - done.
  - done.
Qed.

Lemma boot_register fd k :
  boot fd (boot_world fd k) = (p ← creg_register 1 fd; mret (1%nat, 2%nat, p)) (empty_server fd k).
Proof. vm_compute. reflexivity. Qed.

Lemma boot_serving fd k : writable k →
  ∃ w, boot fd (boot_world fd k) = Ret (1%nat, 2%nat, 3%nat) w ∧ ∃ r q, serves 1 2 r q w.
Proof.
  intros Hk. destruct (empty_serves fd k) as (r & q & Hw & Hl & Hno).
  rewrite boot_register. pose proof (creg_register_safe 1 2 r q fd (empty_server fd k) k Hw) as Hwp.
  apply wp_inv in Hwp as (p & w & E & -> & Hs & _);
    [|apply lookup_singleton_eq|done|by intros x c _; cbn; rewrite lookup_empty|rewrite Hl; done|lia].
  exists w. rewrite (bind_run _ _ _ _ _ E). split; [done|]. eauto.
Qed.

Section start.
Context `{LibmLaws}.
Context (cr pr p0 : ptr) (fd0 : Z) (k0 : CONN) (w0 : world).

(** The state after the start of the server and its first connection. *)
Definition started : Prop := writable k0 ∧ boot fd0 (boot_world fd0 k0) = Ret (cr, pr, p0) w0.

Lemma started_serving w : started → orderly cr pr w0 w → serving cr pr w.
Proof.
  intros [Hk E] Hr. destruct (boot_serving fd0 k0 Hk) as (w1 & E1 & Hs).
  rewrite E in E1. injection E1 as -> -> -> ->. by eapply orderly_serving.
Qed.
End start.
