(* ===== verification/Lobby.v ===== *)
(** * The lobby: what the server promises to its clients

    The server without pointers to it: who is connected, who plays under
    which account, which invitations are open and which games are on, and the
    ratings.  Its steps are the ones that [README.md] and the comments of
    [include/client.h] give for each packet, each done by one client.
    [Refinement] shows that every step of the server is such steps. *)
From S2P Require Import Prelude Game Player World.

Inductive STAGE : Type :=
| Offered
| Playing (g : GAME).

(** An invitation that is not closed. *)
Record DEAL : Type := mkDEAL {
  d_source : ptr;
  d_target : ptr;
  d_source_role : GAME_ROLE;
  d_target_role : GAME_ROLE;
  d_stage : STAGE
}.

Record LOBBY : Type := mkLOBBY {
  lb_peers : gmap nat Z;                  (** client, descriptor *)
  lb_sessions : gmap nat ptr;             (** client, account *)
  lb_accounts : gmap nat (list byte * Z); (** account, name and rating *)
  lb_deals : gmap nat DEAL                (** the open invitations and the games *)
}.

Definition lobby_empty : LOBBY := mkLOBBY ∅ ∅ ∅ ∅.

Definition set_peers (h : gmap nat Z) (L : LOBBY) : LOBBY :=
  mkLOBBY h (lb_sessions L) (lb_accounts L) (lb_deals L).
Definition set_sessions (h : gmap nat ptr) (L : LOBBY) : LOBBY :=
  mkLOBBY (lb_peers L) h (lb_accounts L) (lb_deals L).
Definition set_accounts (h : gmap nat (list byte * Z)) (L : LOBBY) : LOBBY :=
  mkLOBBY (lb_peers L) (lb_sessions L) h (lb_deals L).
Definition set_deals (h : gmap nat DEAL) (L : LOBBY) : LOBBY :=
  mkLOBBY (lb_peers L) (lb_sessions L) (lb_accounts L) h.
Definition set_stage (s : STAGE) (d : DEAL) : DEAL :=
  mkDEAL (d_source d) (d_target d) (d_source_role d) (d_target_role d) s.

(** The client is one of the two sides, and its role. *)
Definition party (p : ptr) (d : DEAL) : Prop := d_source d = p ∨ d_target d = p.
Definition seat (p : ptr) (d : DEAL) : GAME_ROLE :=
  if decide (p = d_source d) then d_source_role d else d_target_role d.

(** Who moves first, and who second. *)
Definition first_side (d : DEAL) : ptr :=
  if decide (d_source_role d = FIRST_PLAYER_ROLE) then d_source d else d_target d.
Definition second_side (d : DEAL) : ptr :=
  if decide (d_source_role d = FIRST_PLAYER_ROLE) then d_target d else d_source d.

Section lobby.
Context `{Libm}.

(** The ratings after a game between the accounts [a1], which moved first,
    and [a2]. *)
Definition settle (a1 a2 : ptr) (winner : GAME_ROLE) (h : gmap nat (list byte * Z)) : gmap nat (list byte * Z) :=
  if decide (a1 = a2) then h else
  match h !! a1, h !! a2 with
  | Some (name1, r1), Some (name2, r2) =>
      match elo_update r1 r2 (role_int winner) with
      | Some (r1', r2') => <[a2 := (name2, r2')]> (<[a1 := (name1, r1')]> h)
      | None => h
      end
  | _, _ => h
  end.

(** The game of [x] is over: it leaves the lobby, and the accounts of its
    two sides are settled. *)
Definition conclude (x : ptr) (d : DEAL) (winner : GAME_ROLE) (L : LOBBY) : LOBBY :=
  match lb_sessions L !! first_side d, lb_sessions L !! second_side d with
  | Some a1, Some a2 =>
      set_accounts (settle a1 a2 winner (lb_accounts L)) (set_deals (delete x (lb_deals L)) L)
  | _, _ => set_deals (delete x (lb_deals L)) L
  end.

(** A request of the client [p]. *)
Inductive lobby_request (p : ptr) (L : LOBBY) : LOBBY → Prop :=
| L_login a :
    is_Some (lb_peers L !! p) → lb_sessions L !! p = None →
    is_Some (lb_accounts L !! a) → (∀ q, lb_sessions L !! q ≠ Some a) →
    lobby_request p L (set_sessions (<[p := a]> (lb_sessions L)) L)
| L_signup a name :
    is_Some (lb_peers L !! p) → lb_sessions L !! p = None →
    lb_accounts L !! a = None → (∀ b n rt, lb_accounts L !! b = Some (n, rt) → n ≠ name) →
    lobby_request p L (set_sessions (<[p := a]> (lb_sessions L))
      (set_accounts (<[a := (name, PLAYER_INITIAL_RATING)]> (lb_accounts L)) L))
| L_invite t role x :
    is_Some (lb_sessions L !! p) → is_Some (lb_sessions L !! t) → p ≠ t → role ≠ NULL_ROLE →
    lb_deals L !! x = None →
    lobby_request p L (set_deals (<[x := mkDEAL p t role (opponent_of role) Offered]> (lb_deals L)) L)
| L_accept x d :
    lb_deals L !! x = Some d → d_target d = p → d_stage d = Offered →
    lobby_request p L (set_deals (<[x := set_stage (Playing game_create) d]> (lb_deals L)) L)
| L_withdraw x d :
    lb_deals L !! x = Some d → party p d → d_stage d = Offered →
    lobby_request p L (set_deals (delete x (lb_deals L)) L)
| L_move x d g mv g' :
    lb_deals L !! x = Some d → party p d → d_stage d = Playing g → mv_role mv = seat p d →
    game_apply_move g mv = Some (0, g') → g_is_over g' = 0 →
    lobby_request p L (set_deals (<[x := set_stage (Playing g') d]> (lb_deals L)) L)
| L_last_move x d g mv g' :
    lb_deals L !! x = Some d → party p d → d_stage d = Playing g → mv_role mv = seat p d →
    game_apply_move g mv = Some (0, g') → g_is_over g' ≠ 0 →
    lobby_request p L (conclude x d (g_winner g') L)
| L_resign x d g :
    lb_deals L !! x = Some d → party p d → d_stage d = Playing g →
    lobby_request p L (conclude x d (opponent_of (seat p d)) L)
| L_leave :
    is_Some (lb_sessions L !! p) → (∀ x d, lb_deals L !! x = Some d → ¬ party p d) →
    lobby_request p L (set_sessions (delete p (lb_sessions L)) L).

(** One step, done by the client [p]. *)
Inductive lobby_step (p : ptr) (L : LOBBY) : LOBBY → Prop :=
| L_connect fd :
    lb_peers L !! p = None → lb_sessions L !! p = None → (∀ q fd', lb_peers L !! q = Some fd' → fd' ≠ fd) →
    lobby_step p L (set_peers (<[p := fd]> (lb_peers L)) L)
| L_request L' : lobby_request p L L' → lobby_step p L L'
| L_disconnect :
    is_Some (lb_peers L !! p) → lb_sessions L !! p = None →
    lobby_step p L (set_peers (delete p (lb_peers L)) L).

Lemma request_peers p L L' : lobby_request p L L' → lb_peers L' = lb_peers L.
Proof. intros []; try done; unfold conclude; by repeat case_match. Qed.

(** Only the client itself connects and disconnects. *)
Lemma step_peers p L L' x : lobby_step p L L' → x ≠ p → lb_peers L' !! x = lb_peers L !! x.
Proof.
  intros [fd _ _ _|L2 Hr|_ _] Hx; cbn; [by rewrite lookup_insert_ne|by rewrite (request_peers p L)|by rewrite lookup_delete_ne].
Qed.

(** ** What the lobby guarantees *)

Record lobby_ok (L : LOBBY) : Prop := {
  lo_session p a : lb_sessions L !! p = Some a → is_Some (lb_peers L !! p) ∧ is_Some (lb_accounts L !! a);
  lo_once p p' a : lb_sessions L !! p = Some a → lb_sessions L !! p' = Some a → p = p';
  lo_names a b n rt rt' : lb_accounts L !! a = Some (n, rt) → lb_accounts L !! b = Some (n, rt') → a = b;
  lo_fds p p' fd : lb_peers L !! p = Some fd → lb_peers L !! p' = Some fd → p = p';
  lo_sides x d : lb_deals L !! x = Some d → d_source d ≠ d_target d ∧
    ∀ p, party p d → is_Some (lb_sessions L !! p);
  lo_roles x d : lb_deals L !! x = Some d →
    d_source_role d ≠ NULL_ROLE ∧ d_target_role d = opponent_of (d_source_role d);
  lo_games x d g : lb_deals L !! x = Some d → d_stage d = Playing g → played g ∧ g_is_over g = 0
}.

Lemma lobby_empty_ok : lobby_ok lobby_empty.
Proof. split; intros *; unfold lobby_empty; cbn; by rewrite lookup_empty. Qed.

Lemma settle_name a1 a2 winner h a n rt :
  settle a1 a2 winner h !! a = Some (n, rt) → ∃ rt', h !! a = Some (n, rt').
Proof.
  unfold settle. destruct (decide (a1 = a2)); [eauto|]. destruct (h !! a1) as [[n1 r1]|] eqn:E1; [|eauto].
  destruct (h !! a2) as [[n2 r2]|] eqn:E2; [|eauto]. destruct (elo_update _ _ _) as [[r1' r2']|]; [|eauto].
  rewrite !lookup_insert_Some. naive_solver.
Qed.

Lemma settle_some a1 a2 winner h a : is_Some (h !! a) → is_Some (settle a1 a2 winner h !! a).
Proof.
  unfold settle. intros Ha. destruct (decide (a1 = a2)); [done|]. destruct (h !! a1) as [[n1 r1]|]; [|done].
  destruct (h !! a2) as [[n2 r2]|]; [|done]. destruct (elo_update _ _ _) as [[r1' r2']|]; [|done].
  rewrite !lookup_insert_is_Some'. tauto.
Qed.

Lemma set_deals_ok L h : lobby_ok L →
  (∀ x d, h !! x = Some d → lb_deals L !! x = Some d ∨
    (d_source d ≠ d_target d ∧ (∀ p, party p d → is_Some (lb_sessions L !! p)) ∧
     d_source_role d ≠ NULL_ROLE ∧ d_target_role d = opponent_of (d_source_role d) ∧
     ∀ g, d_stage d = Playing g → played g ∧ g_is_over g = 0)) →
  lobby_ok (set_deals h L).
Proof.
  intros [] Hh. split; cbn; try done.
  - intros x d Hx. destruct (Hh x d Hx) as [?|(? & ? & _)]; [by eapply lo_sides0|done].
  - intros x d Hx. destruct (Hh x d Hx) as [?|(_ & _ & ? & ? & _)]; [by eapply lo_roles0|done].
  - intros x d g Hx Hg. destruct (Hh x d Hx) as [?|(_ & _ & _ & _ & Hd)]; [by eapply lo_games0|auto].
Qed.

Lemma set_accounts_ok L h : lobby_ok L →
  (∀ a, is_Some (lb_accounts L !! a) → is_Some (h !! a)) →
  (∀ a b n rt rt', h !! a = Some (n, rt) → h !! b = Some (n, rt') → a = b) → lobby_ok (set_accounts h L).
Proof. intros [] H1 H2. split; cbn; try done. intros p a Hp. destruct (lo_session0 p a Hp). auto. Qed.

Lemma delete_deal_ok L x : lobby_ok L → lobby_ok (set_deals (delete x (lb_deals L)) L).
Proof. intros Hl. apply set_deals_ok; [done|]. intros y d [_ Hy]%lookup_delete_Some. by left. Qed.

Lemma conclude_ok L x d winner : lobby_ok L → lobby_ok (conclude x d winner L).
Proof.
  intros Hl. pose proof (delete_deal_ok L x Hl) as Hd. unfold conclude. repeat case_match; try done.
  apply set_accounts_ok; [done|intros; by apply settle_some|].
  intros a b nm rt rt' (u & Ha)%settle_name (u' & Hb)%settle_name. by eapply (lo_names L Hl).
Qed.

(** The stage of a deal changes. *)
Lemma set_stage_ok L x d s : lobby_ok L → lb_deals L !! x = Some d →
  (∀ g, s = Playing g → played g ∧ g_is_over g = 0) →
  lobby_ok (set_deals (<[x := set_stage s d]> (lb_deals L)) L).
Proof.
  intros Hl Hx Hs. apply set_deals_ok; [done|]. intros y e [[<- <-]|[_ Hy]]%lookup_insert_Some; [right|by left].
  destruct (lo_sides L Hl x d Hx). destruct (lo_roles L Hl x d Hx). done.
Qed.

Lemma add_session_ok L p a : lobby_ok L → is_Some (lb_peers L !! p) → is_Some (lb_accounts L !! a) →
  (∀ p', lb_sessions L !! p' ≠ Some a) → lobby_ok (set_sessions (<[p := a]> (lb_sessions L)) L).
Proof.
  intros [] Hp Ha Hno. split; cbn; try done.
  - intros p' a' [[<- <-]|[_ Hp']]%lookup_insert_Some; [done|by apply lo_session0].
  - intros p1 p2 a' [[<- <-]|[_ H1]]%lookup_insert_Some [[<- E]|[_ H2]]%lookup_insert_Some; subst; [done|..].
    + by destruct (Hno p2).
    + by destruct (Hno p1).
    + by eapply lo_once0.
  - intros x d Hx. destruct (lo_sides0 x d Hx) as [Hne Hs]. split; [done|].
    intros p' Hp'. apply lookup_insert_is_Some'. auto.
Qed.

Lemma lobby_request_ok p L L' : lobby_ok L → lobby_request p L L' → lobby_ok L'.
Proof.
  intros Hl Hs. destruct Hs as [a H1 H2 H3 H4|a name H1 H2 H3 H4|t role x H1 H2 H3 H4 H5|x d H1 H2 H3
    |x d H1 H2 H3|x d g mv g' H1 H2 H3 H4 H5 H6|x d g mv g' H1 H2 H3 H4 H5 H6|x d g H1 H2 H3|H1 H2].
  - by apply add_session_ok.
  - assert (lobby_ok (set_accounts (<[a := (name, PLAYER_INITIAL_RATING)]> (lb_accounts L)) L)) as Hl'.
    { apply set_accounts_ok; [done|intros; apply lookup_insert_is_Some'; auto|].
      intros a1 a2 n rt rt' [[<- E1]|[_ E1]]%lookup_insert_Some [[<- E2]|[_ E2]]%lookup_insert_Some;
        simplify_eq; [done|..].
      - by destruct (H4 a2 n rt').
      - by destruct (H4 a1 n rt).
      - by eapply (lo_names L Hl). }
    apply (add_session_ok _ _ _ Hl'); [done|cbn; apply lookup_insert_is_Some'; by left|].
    cbn. intros p' Hp'. destruct (lo_session L Hl p' a Hp') as [_ [u Hu]]. congruence.
  - apply set_deals_ok; [done|]. intros y d [[<- <-]|[_ Hy]]%lookup_insert_Some; [right|by left].
    split; [done|]. split; [intros p' [<-|<-]; done|]. done.
  - apply set_stage_ok; [done|done|]. intros g [= <-]. split; [constructor|done].
  - by apply delete_deal_ok.
  - apply set_stage_ok; [done|done|]. intros g1 [= <-]. destruct (lo_games L Hl x d g H1 H3) as [Hp Ho].
    split; [by eapply played_move|done].
  - by apply conclude_ok.
  - by apply conclude_ok.
  - destruct Hl. split; cbn; try done.
    + intros p' a [_ Hp']%lookup_delete_Some. by apply lo_session0.
    + intros p1 p2 a [_ E1]%lookup_delete_Some [_ E2]%lookup_delete_Some. by eapply lo_once0.
    + intros x d Hx. destruct (lo_sides0 x d Hx) as [Hne Hside]. split; [done|]. intros p' Hp'.
      rewrite lookup_delete_ne; [auto|]. intros <-. by apply (H2 x d).
Qed.

Lemma lobby_step_ok p L L' : lobby_ok L → lobby_step p L L' → lobby_ok L'.
Proof.
  intros Hl Hs. destruct Hs as [fd H1 H2 H3|L' Hr|H1 H2].
  - destruct Hl. split; cbn; try done.
    + intros p' a Hp'. destruct (lo_session0 p' a Hp'). split; [apply lookup_insert_is_Some'; auto|done].
    + intros p1 p2 fd' [[<- <-]|[_ E1]]%lookup_insert_Some [[<- E]|[_ E2]]%lookup_insert_Some; subst; [done|..].
      * by destruct (H3 p2 fd).
      * by destruct (H3 p1 fd').
      * by eapply lo_fds0.
  - by eapply lobby_request_ok.
  - destruct Hl. split; cbn; try done.
    + intros p' a Hp'. destruct (lo_session0 p' a Hp'). split; [|done].
      rewrite lookup_delete_ne; [done|]. intros <-. congruence.
    + intros p1 p2 fd [_ E1]%lookup_delete_Some [_ E2]%lookup_delete_Some. by eapply lo_fds0.
Qed.
End lobby.
