(* ===== verification/Refinement.v ===== *)
(** * The server implements the lobby

    The abstraction of the server's memory to a [LOBBY], the effect on the
    lobby of each update the requests make, and the simulation: a step of the
    server is a sequence of steps of the lobby by the client it serves. *)
From stdpp Require Import relations.
From S2P Require Import Prelude Game Player Elo World Objects Protocol Wire PlayerRegistry Invitation Client Sessions ClientRegistry Server Accounting Effects Handlers Directory Playing Logout Requests Login Service Lifecycle Lobby.

(** ** The abstraction *)

Definition session_of (c : CLIENT) : option ptr :=
  if decide (c_logged_in c = CLIENT_LOGGED_IN) then Some (c_player c) else None.

Definition deal_of (games : gmap nat GAME) (i : INVITATION) : option DEAL :=
  let deal := mkDEAL (i_source i) (i_target i) (i_source_role i) (i_target_role i) in
  match i_state i with
  | INV_OPEN_STATE => Some (deal Offered)
  | INV_ACCEPTED_STATE => (λ g, deal (Playing g)) <$> games !! i_game i
  | INV_CLOSED_STATE => None
  end.

(** The entries of these keys. *)
Definition among {V} (l : list ptr) (h : gmap nat V) : gmap nat V := filter (λ kv, kv.1 ∈ l) h.

Definition lobby_of (regs : list ptr) (m : mem) : LOBBY :=
  mkLOBBY (among regs (c_fd <$> m_clients m)) (omap session_of (m_clients m))
    (accounts (m_players m)) (omap (deal_of (m_games m)) (m_invs m)).

(** ** Lemmas on maps *)

Lemma among_lookup {V} (l : list ptr) (h : gmap nat V) k :
  among l h !! k = if decide (k ∈ l) then h !! k else None.
Proof.
  unfold among. destruct (decide (k ∈ l)) as [Hk|Hk].
  - destruct (h !! k) as [v|] eqn:E; [by apply map_lookup_filter_Some|].
    by apply map_lookup_filter_None_2; left.
  - apply map_lookup_filter_None_2. right. by intros v _ ?.
Qed.

Lemma omap_same {A B} (f : A → option B) (h : gmap nat A) k v v' :
  h !! k = Some v → f v' = f v → omap f (<[k := v']> h) = omap f h.
Proof.
  intros Hk Hf. apply map_eq. intros x. rewrite !lookup_omap. destruct (decide (x = k)) as [->|Hne].
  - rewrite lookup_insert_eq, Hk. exact Hf.
  - by rewrite lookup_insert_ne.
Qed.

Lemma fmap_same {A B} (f : A → B) (h : gmap nat A) k v v' :
  h !! k = Some v → f v' = f v → f <$> <[k := v']> h = f <$> h.
Proof. intros Hk Hf. rewrite fmap_insert, Hf. apply insert_id. by rewrite lookup_fmap, Hk. Qed.

Lemma omap_insert_to {A B} (f : A → option B) (h : gmap nat A) k v b :
  f v = Some b → omap f (<[k := v]> h) = <[k := b]> (omap f h).
Proof.
  intros Hf. apply map_eq. intros x. rewrite lookup_omap. destruct (decide (x = k)) as [->|Hne].
  - by rewrite !lookup_insert_eq.
  - by rewrite !lookup_insert_ne, lookup_omap.
Qed.

Lemma omap_insert_none {A B} (f : A → option B) (h : gmap nat A) k v :
  f v = None → omap f (<[k := v]> h) = delete k (omap f h).
Proof.
  intros Hf. apply map_eq. intros x. rewrite lookup_omap. destruct (decide (x = k)) as [->|Hne].
  - by rewrite lookup_insert_eq, lookup_delete_eq.
  - by rewrite lookup_insert_ne, lookup_delete_ne, lookup_omap.
Qed.

Lemma omap_delete_key {A B} (f : A → option B) (h : gmap nat A) k : omap f (delete k h) = delete k (omap f h).
Proof.
  apply map_eq. intros x. rewrite lookup_omap. destruct (decide (x = k)) as [->|Hne].
  - by rewrite !lookup_delete_eq.
  - by rewrite !lookup_delete_ne, lookup_omap.
Qed.

(** Clients that keep their descriptor and their session are the same peers. *)
Definition same_face (c c' : CLIENT) : Prop := c_fd c' = c_fd c ∧ session_of c' = session_of c.

Lemma face_fields c c' : c_fd c' = c_fd c → c_player c' = c_player c → c_logged_in c' = c_logged_in c → same_face c c'.
Proof. intros E1 E2 E3. split; [done|]. unfold session_of. by rewrite E2, E3. Qed.

Lemma face_drop q c d : same_face c (add_refs d (drop_node q c)).
Proof. destruct (drop_node_fields q c) as (_ & _ & Ef & _ & Ep & El & _). by apply face_fields. Qed.

Definition faces (h : gmap nat CLIENT) : gmap nat Z * gmap nat ptr := (c_fd <$> h, omap session_of h).

Lemma faces_insert h p c c' : h !! p = Some c → same_face c c' → faces (<[p := c']> h) = faces h.
Proof. intros Hp [Ef Es]. unfold faces. by rewrite (fmap_same _ _ _ c), (omap_same _ _ _ c). Qed.

Lemma faces_upd2 h s t cs ct cs' ct' : s ≠ t → h !! s = Some cs → h !! t = Some ct →
  same_face cs cs' → same_face ct ct' → faces (upd2 s t cs' ct' h) = faces h.
Proof.
  intros Hne Hs Ht Fs Ft. unfold upd2. rewrite (faces_insert _ t ct), (faces_insert _ s cs); try done.
  by rewrite lookup_insert_ne.
Qed.

(** ** Games *)

(** A game belongs to one invitation. *)
Lemma game_owner regs names held m x y i j :
  mem_ok regs names held m → m_invs m !! x = Some i → m_invs m !! y = Some j →
  i_game i ≠ NULL → i_game j = i_game i → x = y.
Proof.
  intros Hm Hi Hj Hg E. destruct (decide (x = y)) as [|Hne]; [done|exfalso].
  assert (∃ v, m_games m !! i_game i = Some v ∧ g_ref_count v = 1) as (v & Hv & Hr).
  { pose proof (iw_state _ _ _ (mo_invs _ _ _ _ Hm x i Hi)) as Hs.
    destruct (i_state i); [done| |done]. destruct Hs as (v & Hv & Hp & _). exists v.
    split; [done|by apply played_ref_count]. }
  pose proof (mo_game_count _ _ _ _ Hm _ _ Hv) as Hc.
  pose proof (msum_two (game_refs (i_game i)) _ x y i j (game_refs_nonneg _) Hne Hi Hj) as H2.
  unfold game_refs in H2 at 1 2. rewrite E, decide_True in H2 by done. lia.
Qed.

Lemma deal_of_games g1 g2 i : (i_state i = INV_ACCEPTED_STATE → g2 !! i_game i = g1 !! i_game i) → deal_of g2 i = deal_of g1 i.
Proof. unfold deal_of. intros E. destruct (i_state i); [done| |done]. by rewrite E. Qed.

Section games.
Context (regs names held : list ptr) (m : mem) (x : ptr) (i : INVITATION).
Context (Hm : mem_ok regs names held m) (Hx : m_invs m !! x = Some i).

(** What happens to the game of [x] concerns no other invitation. *)
Lemma deals_other games y j : (∀ a, a ≠ i_game i → games !! a = m_games m !! a) → m_games m !! NULL = None →
  (i_game i = NULL → games !! NULL = None) →
  y ≠ x → m_invs m !! y = Some j → deal_of games j = deal_of (m_games m) j.
Proof.
  intros Hg Hnull Hnull' Hne Hy. apply deal_of_games. intros _. destruct (decide (i_game j = i_game i)) as [E|E]; [|by apply Hg].
  destruct (decide (i_game i = NULL)) as [Hn|Hn]; [rewrite E, Hn, Hnull; auto|].
  by destruct (Hne (eq_sym (game_owner _ _ _ _ _ _ _ _ Hm Hx Hy Hn E))).
Qed.

Lemma null_game : m_games m !! NULL = None.
Proof.
  destruct (m_games m !! NULL) as [g|] eqn:E; [|done]. exfalso.
  assert (0 < NULL)%nat; [|unfold NULL in *; lia]. apply (mo_game_keys _ _ _ _ Hm). by exists g.
Qed.

Lemma deals_drop :
  omap (deal_of (if decide (i_game i = NULL) then m_games m else delete (i_game i) (m_games m))) (delete x (m_invs m)) =
  delete x (omap (deal_of (m_games m)) (m_invs m)).
Proof.
  rewrite <-omap_delete_key. apply map_eq. intros y. rewrite !lookup_omap.
  destruct (decide (y = x)) as [->|Hne]; [by rewrite lookup_delete_eq|].
  rewrite lookup_delete_ne by done. destruct (m_invs m !! y) as [j|] eqn:Hy; [|done]. cbn.
  apply (deals_other _ y); [|exact null_game| |done|done].
  - intros a Ha. case_decide; [done|]. by rewrite lookup_delete_ne.
  - intros E. rewrite decide_True by done. exact null_game.
Qed.

Lemma deals_set games i' d : (∀ a, a ≠ i_game i → games !! a = m_games m !! a) →
  (i_game i = NULL → games !! NULL = None) → deal_of games i' = Some d →
  omap (deal_of games) (<[x := i']> (m_invs m)) = <[x := d]> (omap (deal_of (m_games m)) (m_invs m)).
Proof.
  intros Hg Hn Hd. apply map_eq. intros y. rewrite lookup_omap.
  destruct (decide (y = x)) as [->|Hne]; [by rewrite !lookup_insert_eq|].
  rewrite !lookup_insert_ne, lookup_omap by done. destruct (m_invs m !! y) as [j|] eqn:Hy; [|done]. cbn.
  apply (deals_other _ y); [done|exact null_game|done|done|done].
Qed.
End games.

(** ** Ratings *)

Section ratings.
Context `{LibmLaws}.

Lemma accounts_posted a1 a2 winner h :
  accounts (posted a1 a2 (role_int winner) h) = settle a1 a2 winner (accounts h).
Proof.
  unfold posted, settle. destruct (decide (a1 = a2)); [done|]. unfold accounts. rewrite !lookup_fmap.
  destruct (h !! a1) as [v1|]; [|done]. destruct (h !! a2) as [v2|]; [|done]. cbn.
  destruct (elo_update _ _ _) as [[n1 n2]|]; [|done]. by rewrite !fmap_insert.
Qed.

End ratings.

(** ** The lobby after each update *)

Section updates.
Context `{LibmLaws}.
Context (regs names : list ptr).
Implicit Types (m : mem) (w : world).

Abbreviation lobby := (lobby_of regs).

Lemma lobby_drop m h x i s t cs ct :
  mem_ok regs names [] m → m_invs m !! x = Some i → s ≠ t →
  m_clients m !! s = Some cs → m_clients m !! t = Some ct →
  lobby (drop_inv x s t (i_game i) cs ct (m_set_players h m)) =
  set_accounts (accounts h) (set_deals (delete x (lb_deals (lobby m))) (lobby m)).
Proof.
  intros Hm Hx Hne Hs Ht. unfold lobby_of, set_accounts, set_deals. cbn.
  pose proof (faces_upd2 (m_clients m) s t cs ct _ _ Hne Hs Ht (face_drop x cs (-1)) (face_drop x ct (-1))) as [= -> ->].
  by rewrite (deals_drop _ _ _ _ _ _ Hm Hx).
Qed.

Lemma lobby_close_one m x p c i :
  m_clients m !! p = Some c → m_invs m !! x = Some i →
  lobby (close_one x p c i m) = set_deals (delete x (lb_deals (lobby m))) (lobby m).
Proof.
  intros Hp Hx. unfold lobby_of, set_deals, close_one. cbn.
  assert (same_face c (drop_node x c)) as Hf.
  { destruct (drop_node_fields x c) as (_ & _ & Ef & _ & Ep & El & _). by apply face_fields. }
  pose proof (faces_insert _ _ _ _ Hp Hf) as [= -> ->]. f_equal. by apply omap_insert_none.
Qed.

Lemma lobby_accept m x i : mem_ok regs names [] m → m_invs m !! x = Some i → i_state i = INV_OPEN_STATE →
  lobby (accept_inv x i m) =
  set_deals (<[x := set_stage (Playing game_create)
    (mkDEAL (i_source i) (i_target i) (i_source_role i) (i_target_role i) Offered)]> (lb_deals (lobby m))) (lobby m).
Proof.
  intros Hm Hx Hs. pose proof (iw_state _ _ _ (mo_invs _ _ _ _ Hm x i Hx)) as Hg. rewrite Hs in Hg.
  unfold lobby_of, set_deals, accept_inv. cbn. f_equal.
  pose proof (mo_brk _ _ _ _ Hm) as Hb. pose proof (fresh_None _ _ (mo_game_keys _ _ _ _ Hm)) as Hfresh.
  apply map_eq. intros y. rewrite lookup_omap. destruct (decide (y = x)) as [->|Hne].
  { rewrite !lookup_insert_eq. cbn. unfold deal_of. cbn. by rewrite lookup_insert_eq. }
  rewrite !lookup_insert_ne, lookup_omap by done. destruct (m_invs m !! y) as [j|] eqn:Hy; [|done]. cbn.
  apply deal_of_games. intros Hj. pose proof (iw_state _ _ _ (mo_invs _ _ _ _ Hm y j Hy)) as Hgj. rewrite Hj in Hgj.
  destruct Hgj as (g & Hg' & _). rewrite lookup_insert_ne; [done|]. intros E. by rewrite E, Hg' in Hfresh.
Qed.

Lemma lobby_move m x i g g' : mem_ok regs names [] m → m_invs m !! x = Some i →
  i_state i = INV_ACCEPTED_STATE → m_games m !! i_game i = Some g →
  lobby (m_set_games (<[i_game i := g']> (m_games m)) m) =
  set_deals (<[x := mkDEAL (i_source i) (i_target i) (i_source_role i) (i_target_role i) (Playing g')]>
    (lb_deals (lobby m))) (lobby m).
Proof.
  intros Hm Hx Hs Hg. unfold lobby_of, set_deals. cbn. f_equal.
  rewrite <-(insert_id (m_invs m) x i Hx) at 1.
  apply (deals_set _ _ _ _ _ _ Hm Hx).
  - intros a Ha. by rewrite lookup_insert_ne.
  - intros E. rewrite E, (null_game _ _ _ _ Hm) in Hg. done.
  - unfold deal_of. by rewrite Hs, lookup_insert_eq.
Qed.

Lemma lobby_make m s t rs rt cs ct cs' ct' ids idt :
  mem_ok regs names [] m → s ≠ t → m_clients m !! s = Some cs → m_clients m !! t = Some ct →
  take_id (add_refs 1 cs) = Some (ids, cs') → take_id (add_refs 1 ct) = Some (idt, ct') →
  lobby (make_inv s t rs rt cs' ct' ids idt m) =
  set_deals (<[m_brk m := mkDEAL s t rs rt Offered]> (lb_deals (lobby m))) (lobby m) ∧
  lb_deals (lobby m) !! m_brk m = None.
Proof.
  intros Hm Hne Hs Ht Es Et. unfold lobby_of, set_deals, make_inv. cbn.
  assert (∀ c c' id a q, take_id (add_refs 1 c) = Some (id, c') → same_face c (with_node a id q c')) as Hf.
  { intros c c' id a q E. destruct (take_id_fields _ _ _ E) as (_ & _ & Ef & _ & Ep & El & _). by apply face_fields. }
  pose proof (faces_upd2 _ _ _ _ _ _ _ Hne Hs Ht (Hf _ _ _ (m_brk m + 1)%nat (m_brk m) Es)
    (Hf _ _ _ (m_brk m + 2)%nat (m_brk m) Et)) as [= -> ->].
  split; [f_equal; by apply omap_insert_to|].
  by rewrite lookup_omap, (fresh_None _ _ (mo_inv_keys _ _ _ _ Hm)).
Qed.

(** The two sides of an open invitation or a game are logged in. *)
Lemma side_session m x i p : mem_ok regs names [] m → m_invs m !! x = Some i → i_state i ≠ INV_CLOSED_STATE →
  p = i_source i ∨ p = i_target i → ∃ c, m_clients m !! p = Some c ∧
    lb_sessions (lobby m) !! p = Some (c_player c).
Proof.
  intros Hm Hx Hs Hp. destruct (iw_open _ _ _ (mo_invs _ _ _ _ Hm x i Hx) Hs p Hp) as [_ (c & Hc & Hon)].
  exists c. split; [done|]. cbn. rewrite lookup_omap, Hc. cbn. unfold session_of. by rewrite decide_True.
Qed.

Lemma lobby_ended w w' p x c i g winner :
  mem_ok regs names [] (mem_of w) → w_clients w !! p = Some c → w_invs w !! x = Some i →
  i_source i = p ∨ i_target i = p → i_state i = INV_ACCEPTED_STATE → w_games w !! i_game i = Some g →
  ended p x c i winner w w' →
  lobby (mem_of w') = conclude x (mkDEAL (i_source i) (i_target i) (i_source_role i) (i_target_role i) (Playing g))
    winner (lobby (mem_of w)).
Proof.
  intros Hm Hp Hx Hpi Hs Hg (co & Hco & ->).
  pose proof (mo_invs _ _ _ _ Hm x i Hx) as Hiw. pose proof (iw_distinct _ _ _ Hiw) as Hne.
  destruct (iw_roles _ _ _ Hiw) as [Hr1 Hr2].
  destruct (other_party p i Hpi Hne) as (Hside & _).
  assert (p ≠ other p i) as Hpo by (destruct Hside as [[<- <-]|[<- <-]]; congruence).
  rewrite (lobby_drop (mem_of w) _ x i p (other p i) c co); try done.
  destruct (side_session _ x i (i_source i) Hm Hx) as (c1 & Hc1 & S1); [by rewrite Hs|by left|].
  destruct (side_session _ x i (i_target i) Hm Hx) as (c2 & Hc2 & S2); [by rewrite Hs|by right|].
  change (w_clients w !! i_source i = Some c1) in Hc1. change (w_clients w !! i_target i = Some c2) in Hc2.
  set (L := lobby (mem_of w)) in *.
  assert (∀ a1 a2, accounts (posted a1 a2 (role_int winner) (w_players w)) = settle a1 a2 winner (lb_accounts L)) as Hsettle
    by (intros a1 a2; apply accounts_posted).
  unfold conclude, first_side, second_side, settled, side. cbn [d_source d_target d_source_role d_target_role].
  destruct Hside as [[Esrc Etgt]|[Esrc Etgt]].
  - rewrite (decide_True (P := p = i_source i)) by done. rewrite Etgt in *. rewrite Esrc in *.
    rewrite Hp in Hc1. injection Hc1 as <-. rewrite Hco in Hc2. injection Hc2 as <-.
    destruct (decide (i_source_role i = FIRST_PLAYER_ROLE)); rewrite S1, S2; by rewrite Hsettle.
  - rewrite (decide_False (P := p = i_source i)) by congruence. rewrite Etgt in *. rewrite Esrc in *.
    rewrite Hco in Hc1. injection Hc1 as <-. rewrite Hp in Hc2. injection Hc2 as <-. rewrite Hr2.
    unfold opponent_of. destruct (i_source_role i); [done| |]; repeat (case_decide; try done);
      rewrite ?S1, ?S2; cbn [mbind option_bind]; rewrite ?S1, ?S2; by rewrite Hsettle.
Qed.
End updates.

(** ** Requests *)

Section requests.
Context `{LibmLaws}.
Context (regs names : list ptr).
Implicit Types (w : world) (p : ptr).

Abbreviation lobby w := (lobby_of regs (mem_of w)).
Abbreviation steps p := (rtc (lobby_request p)).

Lemma lobby_mem w w' : mem_of w' = mem_of w → lobby w' = lobby w.
Proof. by intros ->. Qed.

Lemma steps_same p w w' : mem_of w' = mem_of w → steps p (lobby w) (lobby w').
Proof. intros ->. constructor. Qed.

Lemma deal_lookup m x i d : m_invs m !! x = Some i → deal_of (m_games m) i = Some d →
  lb_deals (lobby_of regs m) !! x = Some d.
Proof. intros Hx Hd. cbn. by rewrite lookup_omap, Hx. Qed.

(** What a client finds on its list it is a party of. *)
Lemma known_party m p c id i : mem_ok regs names [] m → m_clients m !! p = Some c →
  m_invs m !! known_as c id = Some i → i_source i = p ∨ i_target i = p.
Proof.
  intros Hm Hp Hi. unfold known_as, find_node in Hi. destruct (find _ _) as [n|] eqn:E.
  - apply find_some in E as [Hn _]. apply list_elem_of_In in Hn.
    destruct (cw_invs _ _ _ _ _ (mo_clients _ _ _ _ Hm p c Hp) (n_invitation n)) as (j & Hj & Hpj);
      [by apply list_elem_of_fmap_2|]. congruence.
  - exfalso. assert (0 < NULL)%nat; [|unfold NULL in *; lia]. apply (mo_inv_keys _ _ _ _ Hm). by exists i.
Qed.

Lemma withdraw_steps m m' p x i : mem_ok regs names [] m → m_invs m !! x = Some i →
  i_state i = INV_OPEN_STATE → i_source i = p ∨ i_target i = p →
  lobby_of regs m' = set_deals (delete x (lb_deals (lobby_of regs m))) (lobby_of regs m) →
  steps p (lobby_of regs m) (lobby_of regs m').
Proof.
  intros Hm Hx Hs Hp ->. apply rtc_once. eapply L_withdraw;
    [apply (deal_lookup m x i); [done|unfold deal_of; by rewrite Hs]|exact Hp|done].
Qed.

Lemma drop_open_steps m p o x i c co : mem_ok regs names [] m → m_invs m !! x = Some i →
  i_state i = INV_OPEN_STATE → i_source i = p ∨ i_target i = p → p ≠ o →
  m_clients m !! p = Some c → m_clients m !! o = Some co →
  steps p (lobby_of regs m) (lobby_of regs (drop_inv x p o NULL c co m)).
Proof.
  intros Hm Hx Hs Hpi Hne Hp Ho. eapply withdraw_steps; [done|done|done|done|].
  pose proof (iw_state _ _ _ (mo_invs _ _ _ _ Hm x i Hx)) as Hg. rewrite Hs in Hg. rewrite <-Hg.
  exact (lobby_drop regs names m (m_players m) x i p o c co Hm Hx Hne Hp Ho).
Qed.

Lemma resign_steps w w' p x i c : mem_ok regs names [] (mem_of w) → w_invs w !! x = Some i →
  i_state i = INV_ACCEPTED_STATE → i_source i = p ∨ i_target i = p → w_clients w !! p = Some c →
  ended p x c i (opponent_of (side p i)) w w' → steps p (lobby w) (lobby w').
Proof.
  intros Hm Hx Hs Hpi Hp He. pose proof (iw_state _ _ _ (mo_invs _ _ _ _ Hm x i Hx)) as Hg. rewrite Hs in Hg.
  destruct Hg as (g & Hg & _). rewrite (lobby_ended regs names w w' p x c i g _ Hm Hp Hx Hpi Hs Hg He).
  apply rtc_once. eapply (L_resign p (lobby w) x (mkDEAL _ _ _ _ (Playing g)) g);
    [apply (deal_lookup (mem_of w) x i); [done|]|exact Hpi|done].
  unfold deal_of. by rewrite Hs, Hg.
Qed.

Lemma revoke_steps w w' p id s : mem_ok regs names [] (mem_of w) → revoke_spec p id w s w' → steps p (lobby w) (lobby w').
Proof.
  intros Hm (c & Hp & Hs). destruct (w_invs w !! known_as c id) as [i|] eqn:Hi; [|destruct Hs; by apply steps_same].
  pose proof (known_party _ _ _ _ _ Hm Hp Hi) as Hpi. pose proof (iw_distinct _ _ _ (mo_invs _ _ _ _ Hm _ _ Hi)) as Hne.
  destruct (decide (i_state i = INV_OPEN_STATE)); [|destruct Hs; by apply steps_same].
  destruct (decide (i_source i = p)) as [Hsrc|].
  - destruct Hs as (_ & ct & Hct & ->). apply (drop_open_steps (mem_of w) p (i_target i) _ i); try done. congruence.
  - destruct Hs as [_ ->]. eapply withdraw_steps; [done|done|done|done|]. by apply lobby_close_one.
Qed.

Lemma decline_steps w w' p id s : mem_ok regs names [] (mem_of w) → decline_spec p id w s w' → steps p (lobby w) (lobby w').
Proof.
  intros Hm (c & Hp & Hs). destruct (w_invs w !! known_as c id) as [i|] eqn:Hi; [|destruct Hs; by apply steps_same].
  pose proof (known_party _ _ _ _ _ Hm Hp Hi) as Hpi. pose proof (iw_distinct _ _ _ (mo_invs _ _ _ _ Hm _ _ Hi)) as Hne.
  destruct (decide (i_state i = INV_OPEN_STATE)); [|destruct Hs; by apply steps_same].
  destruct (decide (i_target i = p)) as [Htgt|].
  - destruct Hs as (_ & cs & Hcs & ->). apply (drop_open_steps (mem_of w) p (i_source i) _ i); try done. congruence.
  - destruct Hs as [_ ->]. eapply withdraw_steps; [done|done|done|done|]. by apply lobby_close_one.
Qed.

Lemma accept_steps w w' p id s : mem_ok regs names [] (mem_of w) → accept_spec p id w s w' → steps p (lobby w) (lobby w').
Proof.
  intros Hm (c & Hp & Hs). destruct (w_invs w !! known_as c id) as [i|] eqn:Hi; [|destruct Hs; by apply steps_same].
  destruct (decide _) as [[Htgt Ho]|]; [|destruct Hs; by apply steps_same]. destruct Hs as [_ ->].
  rewrite (lobby_accept regs names (mem_of w) _ i Hm Hi Ho). apply rtc_once.
  apply L_accept; [|done|done]. eapply deal_lookup; [done|]. unfold deal_of. by rewrite Ho.
Qed.

Lemma resign_request_steps w w' p id s : mem_ok regs names [] (mem_of w) → resign_spec p id w s w' → steps p (lobby w) (lobby w').
Proof.
  intros Hm (c & Hp & Hs). destruct (w_invs w !! known_as c id) as [i|] eqn:Hi; [|destruct Hs; by apply steps_same].
  destruct (decide _) as [Ha|]; [|destruct Hs; by apply steps_same]. destruct Hs as [_ He].
  eapply resign_steps; [done|exact Hi|done|by eapply known_party|done|done].
Qed.

Lemma move_steps w w' p id mv s : mem_ok regs names [] (mem_of w) → move_spec p id mv w s w' → steps p (lobby w) (lobby w').
Proof.
  intros Hm (c & Hp & [(_ & Hs & _)|(_ & i & g & move & g' & Hi & Hg & Hparse & Happly & Hs)]); [by apply steps_same|].
  pose proof (known_party _ _ _ _ _ Hm Hp Hi) as Hpi.
  pose proof (iw_state _ _ _ (mo_invs _ _ _ _ Hm _ i Hi)) as Hst.
  assert (i_state i = INV_ACCEPTED_STATE) as Ha.
  { pose proof (null_game _ _ _ _ Hm) as Hn. change (w_games w !! NULL = None) in Hn.
    destruct (i_state i); [|done|]; rewrite Hst in Hg; congruence. }
  assert (lb_deals (lobby w) !! known_as c id =
    Some (mkDEAL (i_source i) (i_target i) (i_source_role i) (i_target_role i) (Playing g))) as Hd.
  { eapply deal_lookup; [done|]. unfold deal_of. rewrite Ha. cbn. by rewrite Hg. }
  destruct (game_parse_move_range _ _ _ _ Hparse) as [_ Hrole].
  apply rtc_once. destruct (Z.eqb_spec (g_is_over g') 0) as [Ho|Ho].
  - change (m_set_games _ _) with (m_set_games (<[i_game i := g']> (m_games (mem_of w))) (mem_of w)) in Hs.
    rewrite Hs, (lobby_move regs names (mem_of w) (known_as c id) i g g' Hm Hi Ha Hg).
    exact (L_move p (lobby w) _ _ g move g' Hd Hpi eq_refl Hrole Happly Ho).
  - rewrite (lobby_ended regs names w w' p _ c i g _ Hm Hp Hi Hpi Ha Hg Hs).
    exact (L_last_move p (lobby w) _ _ g move g' Hd Hpi eq_refl Hrole Happly Ho).
Qed.

Lemma invite_steps w w' s t rs r cs ct :
  mem_ok regs names [] (mem_of w) → s ≠ t → rs ≠ NULL_ROLE →
  w_clients w !! s = Some cs → c_logged_in cs = CLIENT_LOGGED_IN →
  w_clients w !! t = Some ct → c_logged_in ct = CLIENT_LOGGED_IN →
  invite_spec s t rs (opponent_of rs) w r w' → steps s (lobby w) (lobby w').
Proof.
  intros Hm Hne Hrs Hcs Hons Hct Hont (cs0 & ct0 & cs' & ct' & idt & E1 & E2 & Ts & Tt & _ & ->).
  rewrite Hcs in E1. injection E1 as <-. rewrite Hct in E2. injection E2 as <-.
  destruct (lobby_make regs names (mem_of w) s t rs (opponent_of rs) cs ct cs' ct' r idt Hm Hne Hcs Hct Ts Tt) as [-> Hn].
  assert (∀ p c, w_clients w !! p = Some c → c_logged_in c = CLIENT_LOGGED_IN → is_Some (lb_sessions (lobby w) !! p)) as Hon.
  { intros p c Hp Hl. cbn. rewrite lookup_omap, Hp. cbn. unfold session_of. rewrite decide_True by done. by eexists. }
  apply rtc_once. apply L_invite; eauto.
Qed.

(** Logging out. *)
Lemma undo_steps p w w' : rtc (undo regs names p) w w' → steps p (lobby w) (lobby w').
Proof.
  induction 1 as [|w1 w2 w3 Hu _ IH]; [constructor|]. etrans; [|exact IH].
  destruct Hu as [Hm|(x & i & c & co & Hm & Hp & Hi & Hpi & Hco & [[Ho ->]|[Ha He]])]; [by apply steps_same|..].
  - apply (drop_open_steps (mem_of w1) p (other p i) x i); try done.
    pose proof (iw_distinct _ _ _ (mo_invs _ _ _ _ Hm x i Hi)). unfold other. case_decide; naive_solver.
  - by eapply resign_steps.
Qed.

Lemma logout_steps names' p w s w' : mem_ok regs names' [] (mem_of w') → logout_spec regs names p w s w' →
  steps p (lobby w) (lobby w').
Proof.
  intros Hm (_ & c & Hp & Hs). destruct (decide _) as [Hon|]; [|destruct Hs; by apply steps_same].
  destruct Hs as (_ & (w0 & w1 & c1 & v & v' & Hm0 & Hu & Hp1 & Epl & Hon1 & Hv & Hv' & Hm') & c' & Hp' & Hout & _).
  etrans; [by apply (steps_same p w w0)|]. etrans; [by apply undo_steps|].
  assert (lobby w' = set_sessions (delete p (lb_sessions (lobby w1))) (lobby w1)) as E.
  { rewrite Hm'. unfold lobby_of, set_sessions. cbn.
    rewrite (fmap_same _ _ _ c1) by done. rewrite omap_insert_none by done. f_equal.
    by apply (accounts_insert_same _ _ v); [done|apply player_unref_name|apply player_unref_rating]. }
  rewrite E. apply rtc_once. apply L_leave.
  - cbn. rewrite lookup_omap, Hp1. cbn. unfold session_of. rewrite decide_True by done. by eexists.
  - intros x d Hx Hd. assert (lb_deals (lobby w') !! x = Some d) as Hx' by (by rewrite E).
    cbn in Hx'. apply lookup_omap_Some in Hx' as (i & Hdi & Hi).
    assert (i_state i ≠ INV_CLOSED_STATE ∧ d_source d = i_source i ∧ d_target d = i_target i) as (Hst & E1 & E2).
    { unfold deal_of in Hdi. destruct (i_state i); [by injection Hdi as <-| |done].
      apply fmap_Some in Hdi as (g & _ & ->). done. }
    destruct (iw_open _ _ _ (mo_invs _ _ _ _ Hm x i Hi) Hst p) as [_ (c2 & Hc2 & Hon2)].
    { unfold party in Hd. rewrite E1, E2 in Hd. destruct Hd; auto. }
    change (w_clients w' !! p = Some c2) in Hc2. congruence.
Qed.
End requests.

(** ** The steps of the server *)

Section server.
Context `{LibmLaws}.
Context (cr pr : ptr) (r : CLIENT_REGISTRY) (q : PLAYER_REGISTRY).
Implicit Types (w : world) (p : ptr).

Abbreviation regs := (cr_registered r).
Abbreviation names := (pr_head q).
Abbreviation lobby w := (lobby_of regs (mem_of w)).
Abbreviation steps p := (rtc (lobby_request p)).

Lemma lobby_parts w : lobby w = mkLOBBY (among regs (c_fd <$> w_clients w)) (omap session_of (w_clients w))
  (accounts (w_players w)) (omap (deal_of (w_games w)) (w_invs w)).
Proof. done. Qed.

Lemma registered_peer w p c : p ∈ regs → w_clients w !! p = Some c → is_Some (lb_peers (lobby w) !! p).
Proof. intros Hp Hc. cbn. rewrite among_lookup, decide_True, lookup_fmap, Hc by done. by eexists. Qed.

Lemma no_session w p c : w_clients w !! p = Some c → c_logged_in c ≠ CLIENT_LOGGED_IN →
  lb_sessions (lobby w) !! p = None.
Proof. intros Hc Hl. cbn. rewrite lookup_omap, Hc. cbn. unfold session_of. by rewrite decide_False. Qed.

Lemma login_steps w w' p payload hdr s : mem_ok regs names [] (mem_of w) → p ∈ regs →
  login_spec r q p payload hdr w s w' → steps p (lobby w) (lobby w').
Proof.
  intros Hm Hp (c & Hcp & Hs). destruct payload as [m|]; [|destruct Hs; by apply (steps_same regs)].
  destruct (decide _) as [|Hno]; [destruct Hs; by apply (steps_same regs)|].
  set (name := cstr _) in Hs. destruct Hs as (_ & Ei & Eg & Hs).
  pose proof (mo_clients _ _ _ _ Hm p c Hcp) as Hwf.
  destruct (existsb _ _) eqn:Etaken.
  { destruct Hs as [Ec Ea]. rewrite !lobby_parts, Ec, Ei, Eg, Ea. constructor. }
  destruct Hs as (pl & Ec & Hacc).
  assert (c_player c = NULL) as Hz by (apply dec_stable; naive_solver).
  assert (c_logged_in c ≠ CLIENT_LOGGED_IN) as Hoff.
  { intros Hon. by destruct (cw_logged_in _ _ _ _ _ Hwf Hon). }
  pose proof (registered_peer w p c Hp Hcp) as Hpeer. pose proof (no_session w p c Hcp Hoff) as Hnone.
  assert (lobby w' = mkLOBBY (lb_peers (lobby w)) (<[p := pl]> (lb_sessions (lobby w)))
    (accounts (w_players w')) (lb_deals (lobby w))) as ->.
  { rewrite !lobby_parts, Ec, Ei, Eg. rewrite (fmap_same _ _ _ c) by done.
    rewrite (omap_insert_to _ _ _ _ pl) by (unfold session_of, playing; by rewrite decide_True). done. }
  apply rtc_once. destruct Hacc as [(Hin & [rt Hpl] & ->)|(Hfresh & Hpl & ->)].
  - apply L_login; [done|done|by eexists|]. intros x Hx. cbn in Hx.
    apply lookup_omap_Some in Hx as (cx & Hsx & Hcx). unfold session_of in Hsx.
    destruct (decide _) as [Hon|]; [|done]. injection Hsx as Epl.
    pose proof (mo_clients _ _ _ _ Hm x cx Hcx) as Hwfx. destruct (cw_logged_in _ _ _ _ _ Hwfx Hon) as [Hnx Hx].
    apply not_true_iff_false in Etaken. apply Etaken, existsb_exists. exists pl. split.
    + apply list_elem_of_In. rewrite <-Epl. by eapply in_players_of.
    + unfold accounts in Hpl. rewrite lookup_fmap in Hpl. unfold name_of.
      destruct (w_players w !! pl) as [v|]; [|done]. injection Hpl as E _. by apply bool_decide_true.
  - apply (L_signup p (lobby w) pl name); [done|done|done|]. intros b n rt Hb ->. cbn in Hb.
    unfold accounts in Hb. rewrite lookup_fmap in Hb. destruct (w_players w !! b) as [v|] eqn:Hv; [|done].
    injection Hb as E _. specialize (Hfresh b). unfold name_of in Hfresh.
    rewrite Hv, bool_decide_true in Hfresh by done. enough (true = false) by done. apply Hfresh.
    apply (mo_registered _ _ _ _ Hm). by exists v.
Qed.

Lemma invite_request_steps w w' p hdr payload s : mem_ok regs names [] (mem_of w) → p ∈ regs → invite_guard r p payload w →
  invite_request_spec r p hdr payload w s w' → steps p (lobby w) (lobby w').
Proof.
  intros Hm Hp Hg Hs. unfold invite_request_spec in Hs.
  destruct payload as [user|]; [|destruct Hs; by apply (steps_same regs)].
  destruct (invite_roles (h_role hdr)) as [[rs rt]|] eqn:Er; [|destruct Hs; by apply (steps_same regs)].
  destruct (decide _) as [|Hf]; [destruct Hs; by apply (steps_same regs)|]. destruct Hs as (_ & id & Hs).
  apply Decidable.not_or in Hf as [Hf1 Hf2].
  assert (rs ≠ NULL_ROLE ∧ rt = opponent_of rs) as [Hrs ->].
  { unfold invite_roles in Er. destruct (_ =? 1); [by injection Er as <- <-|]. destruct (_ =? 2); [by injection Er as <- <-|done]. }
  destruct (Hg user eq_refl Hf1 Hf2) as [(cs & Hcs & Hons) (ct & Hct & Hont)].
  by apply (invite_steps regs names w w' p (found w regs user) rs id cs ct).
Qed.

Lemma dispatch_steps w w' p hdr payload flag res q' :
  mem_ok regs names [] (mem_of w) → serves cr pr r q' w' → p ∈ regs →
  dispatch_guard r p hdr payload flag w → dispatch_spec r q p hdr payload flag w res w' →
  steps p (lobby w) (lobby w').
Proof.
  intros Hm Hw' Hp [_ Hg] Hs. unfold dispatch_spec in Hs.
  destruct (h_type hdr =? JEUX_LOGIN_PKT); [destruct Hs as (_ & Hs & _); by eapply login_steps|].
  destruct (h_type hdr =? JEUX_NO_PKT).
  { destruct Hs as (_ & [s Hs] & _). eapply logout_steps; [|exact Hs]. apply (serves_core _ _ _ _ w' Hw'). }
  destruct Hs as [_ Hs]. destruct (Z.eqb_spec flag 0) as [|Hf]; [destruct Hs as [Hs _]; by apply (steps_same regs)|].
  unfold request_spec in Hs.
  destruct (_ =? JEUX_USERS_PKT); [destruct Hs as [Hs _]; by apply (steps_same regs)|].
  destruct (Z.eqb_spec (h_type hdr) JEUX_INVITE_PKT) as [Et|_].
  { destruct Hs as (s & Hs & _). by eapply invite_request_steps; [|..|apply Hg|]. }
  destruct (_ =? JEUX_REVOKE_PKT); [destruct Hs as (s & Hs & _); by eapply revoke_steps|].
  destruct (_ =? JEUX_ACCEPT_PKT); [destruct Hs as (s & str & Hs & _); by eapply accept_steps|].
  destruct (_ =? JEUX_DECLINE_PKT); [destruct Hs as (s & Hs & _); by eapply decline_steps|].
  destruct (_ =? JEUX_MOVE_PKT).
  { destruct Hs as (s & Hs & _). unfold move_request_spec in Hs.
    destruct payload; [by eapply move_steps|destruct Hs; by apply (steps_same regs)]. }
  destruct (_ =? JEUX_RESIGN_PKT); [destruct Hs as (s & Hs & _); by eapply resign_request_steps|].
  destruct Hs as [Hs _]. by apply (steps_same regs).
Qed.

Lemma iteration_steps w w' p flag res q' : serves cr pr r q w → serves cr pr r q' w' → p ∈ regs →
  iteration_spec r q p flag w res w' → steps p (lobby w) (lobby w').
Proof.
  intros Hw Hw' Hp [(_ & w1 & s & Hm & Hs)|(w1 & hdr & payload & Hm & Hg & Hs)].
  - etrans; [by apply (steps_same regs p w w1)|]. eapply logout_steps; [|exact Hs].
    apply (serves_core _ _ _ _ w' Hw').
  - rewrite <-(lobby_mem regs w w1 Hm).
    eapply dispatch_steps; [|exact Hw'|done|exact Hg|exact Hs]. rewrite Hm. apply (serves_core _ _ _ _ w Hw).
Qed.

Lemma requests_steps p L L' : rtc (lobby_request p) L L' → rtc (lobby_step p) L L'.
Proof. induction 1; [constructor|]. eapply rtc_l; [by apply L_request|done]. Qed.

Lemma connect_steps w w' fd : serves cr pr r q w → fd_unused regs fd w →
  mem_of w' = mkMEM (S (w_brk w)) (<[w_brk w := fresh_client cr fd]> (w_clients w)) (w_invs w) (w_games w) (w_players w) →
  lobby_step (w_brk w) (lobby w) (lobby_of (regs ++ [w_brk w]) (mem_of w')).
Proof.
  intros Hw Hfree Hm'. pose proof (co_mem _ _ _ _ (serves_core _ _ _ _ w Hw)) as Hm.
  pose proof (fresh_None _ _ (mo_client_keys _ _ _ _ Hm)) as Hfresh. change (w_clients w !! w_brk w = None) in Hfresh.
  assert (w_brk w ∉ regs) as Hnin.
  { intros Hin. destruct (mo_regs _ _ _ _ Hm _ Hin) as [c Hc]. change (w_clients w !! w_brk w = Some c) in Hc. congruence. }
  assert (lobby_of (regs ++ [w_brk w]) (mem_of w') = set_peers (<[w_brk w := fd]> (lb_peers (lobby w))) (lobby w)) as ->.
  { rewrite Hm'. unfold lobby_of, set_peers. cbn. f_equal.
    - apply map_eq. intros x. rewrite among_lookup. destruct (decide (x = w_brk w)) as [->|Hne].
      + rewrite decide_True by (apply elem_of_app; right; by left). by rewrite lookup_fmap, !lookup_insert_eq.
      + rewrite lookup_insert_ne, among_lookup, !lookup_fmap, lookup_insert_ne by done.
        destruct (decide (x ∈ regs)) as [Hx|Hx]; [rewrite decide_True by (apply elem_of_app; by left); done|].
        rewrite decide_False; [done|]. intros [?|?%list_elem_of_singleton]%elem_of_app; done.
    - rewrite omap_insert_none by done. apply delete_id. by rewrite lookup_omap, Hfresh. }
  apply L_connect; cbn.
  - by rewrite among_lookup, decide_False.
  - by rewrite lookup_omap, Hfresh.
  - intros x fd' Hx. rewrite among_lookup in Hx. destruct (decide (x ∈ regs)) as [Hin|]; [|done].
    rewrite lookup_fmap in Hx. destruct (w_clients w !! x) as [c|] eqn:Hc; [|done]. injection Hx as <-.
    by apply (Hfree x c).
Qed.

Lemma disconnect_steps w w' p i : serves cr pr r q w → regs !! i = Some p → unregister_spec r q p w w' →
  rtc (lobby_step p) (lobby w) (lobby_of (delete i regs) (mem_of w')).
Proof.
  intros Hw Hi (w1 & s & c & Hlog & Hm1 & Hcp & Hout & Hm').
  pose proof (delete_Permutation regs i p Hi) as Hperm.
  assert (p ∈ regs) as Hp by (by eapply list_elem_of_lookup_2).
  assert ((p ∉ delete i regs) ∧ ∀ x, x ≠ p → (x ∈ delete i regs ↔ x ∈ regs)) as [Hnin Hother].
  { pose proof (mo_regs_nodup _ _ _ _ Hm1) as Hnd. rewrite Hperm in Hnd. apply NoDup_cons in Hnd as [Hn _].
    split; [done|]. intros x Hx. pose proof (elem_of_Permutation_proper x _ _ Hperm) as Hin.
    rewrite elem_of_cons in Hin. naive_solver. }
  etrans; [apply requests_steps; by eapply logout_steps|].
  assert (lobby_of (delete i regs) (mem_of w') = set_peers (delete p (lb_peers (lobby w1))) (lobby w1)) as ->.
  { rewrite Hm'. unfold lobby_of, set_peers. cbn.
    assert (∀ x, x ≠ p → unref_client p c (w_clients w1) !! x = w_clients w1 !! x) as Hsame.
    { intros x Hx. unfold unref_client. destruct (_ =? 1); [by rewrite lookup_delete_ne|by rewrite lookup_insert_ne]. }
    f_equal.
    - apply map_eq. intros x. rewrite among_lookup. destruct (decide (x = p)) as [->|Hne].
      + by rewrite decide_False, lookup_delete_eq.
      + rewrite lookup_delete_ne, among_lookup, !lookup_fmap, Hsame by done.
        by rewrite (decide_ext _ _ _ _ (Hother x Hne)).
    - apply map_eq. intros x. rewrite !lookup_omap. destruct (decide (x = p)) as [->|Hne]; [|by rewrite Hsame].
      rewrite Hcp. cbn. unfold session_of at 2. rewrite decide_False by congruence.
      unfold unref_client. destruct (_ =? 1); [by rewrite lookup_delete_eq|]. rewrite lookup_insert_eq. cbn.
      unfold session_of. cbn. by rewrite Hout. }
  apply rtc_once. apply L_disconnect; [by eapply registered_peer|apply (no_session w1 p c Hcp); by rewrite Hout].
Qed.
End server.

(** ** The simulation *)

Section simulation.
Context `{LibmLaws}.
Context (cr pr : ptr).
Implicit Types (w : world) (p : ptr).

(** The lobby that a state of the server stands for. *)
Definition lobby_at w : LOBBY := lobby_of (registered cr w) (mem_of w).

Lemma lobby_at_serves r q w : serves cr pr r q w → lobby_at w = lobby_of (cr_registered r) (mem_of w).
Proof. intros Hw. unfold lobby_at. by rewrite (registered_serves cr pr r q w Hw). Qed.

Lemma step_refines w w' : serving cr pr w → Z.of_nat (w_brk w) ≤ MAX_BRK → orderly_step cr pr w w' →
  ∃ p, rtc (lobby_step p) (lobby_at w) (lobby_at w').
Proof.
  intros (r & q & Hw) Hb (e & He & Hh). rewrite (lobby_at_serves r q w Hw).
  pose proof (registered_serves cr pr r q w Hw) as Er.
  destruct Hh as [fd w p w' E|p fd flag w res w' E|p w s w' E|fd k w|fd k' w|fd w]; cbn [in_order] in He;
    rewrite ?Er in *.
  - destruct He as [(k & Hk & Hkw) Hfree]. destruct (decide (MAX_CLIENTS ≤ cr_length r ∨ cr_no r = 1)) as [Hfull|Hroom].
    + rewrite (creg_register_full cr pr r q fd w Hw Hfull) in E. injection E as <- <-.
      exists NULL. rewrite (lobby_at_serves r q w Hw). constructor.
    + apply Decidable.not_or in Hroom as [H1 H2].
      pose proof (creg_register_safe cr pr r q fd w k Hw Hk Hkw Hfree ltac:(lia) H2) as Hwp.
      unfold wp in Hwp. rewrite E in Hwp. destruct Hwp as (-> & Hw' & _ & Hm'). exists (w_brk w).
      rewrite (lobby_at_serves _ _ w' Hw').
      destruct (creg_add_ok r (w_brk w) (sv_wf _ _ _ _ _ Hw) ltac:(lia)) as [_ ->].
      apply rtc_once. by apply (connect_steps cr pr r q w w' fd).
  - destruct He as (Hp & (k & Hk) & Hg).
    pose proof (service_iteration_safe cr pr r q w p fd flag k Hw Hp Hb Hk) as Hwp.
    unfold wp in Hwp. rewrite E in Hwp.
    destruct Hwp as (q' & Hw' & Hs & _); [intros res1 w1; apply Hg; exact (serves_creg _ _ _ _ _ Hw)|].
    exists p. rewrite (lobby_at_serves _ _ w' Hw'). apply requests_steps. by eapply iteration_steps.
  - pose proof (creg_unregister_safe cr pr r q p w Hw He Hb) as Hwp. unfold wp in Hwp. rewrite E in Hwp.
    destruct Hwp as (_ & i & Hi & Hw' & Hs & _). exists p. rewrite (lobby_at_serves _ _ w' Hw').
    destruct (creg_del_ok r i (sv_wf _ _ _ _ _ Hw)) as [_ ->]; [by eapply lookup_lt_Some|].
    by apply (disconnect_steps cr pr r q w w').
  - destruct He. exists NULL. rewrite (lobby_at_serves r q); [constructor|by apply peer_serves].
  - destruct He as (k & Hk & Hout). exists NULL. rewrite (lobby_at_serves r q); [constructor|by apply (serves_read cr pr r q w fd k k')].
  - exists NULL. rewrite (lobby_at_serves r q); [constructor|by apply (serves_close cr pr)].
Qed.

(** Any client may take the next step. *)
Definition any_step (L L' : LOBBY) : Prop := ∃ p, lobby_step p L L'.

Lemma steps_any p L L' : rtc (lobby_step p) L L' → rtc any_step L L'.
Proof. induction 1; [constructor|]. eapply rtc_l; [by exists p|done]. Qed.

Lemma orderly_refines w0 w : serving cr pr w0 → orderly cr pr w0 w → rtc any_step (lobby_at w0) (lobby_at w).
Proof.
  intros Hstart. induction 1 as [|w w' Hr IH Hb Hs]; [constructor|]. etrans; [exact IH|].
  destruct (step_refines w w' (orderly_serving cr pr w0 w Hstart Hr) Hb Hs) as [p Hp]. by eapply steps_any.
Qed.

Lemma any_step_ok L L' : rtc any_step L L' → lobby_ok L → lobby_ok L'.
Proof. induction 1 as [|L1 L2 L3 [p Hp] _ IH]; [done|]. intros Hl. apply IH. by eapply lobby_step_ok. Qed.
End simulation.

(** The lobby opens with the first client. *)
Lemma boot_lobby `{LibmLaws} fd k w : writable k → boot fd (boot_world fd k) = Ret (1%nat, 2%nat, 3%nat) w →
  rtc any_step lobby_empty (lobby_at 1 w).
Proof.
  intros Hk E. destruct (empty_serves fd k) as (r & q & Hw & Hl & Hno).
  assert (lobby_at 1 (empty_server fd k) = lobby_empty) as <-.
  { rewrite (lobby_at_serves 1 2 r q _ Hw). done. }
  rewrite boot_register in E.
  destruct (creg_register 1 fd (empty_server fd k)) as [p w'| | |] eqn:E1; try done.
  rewrite (bind_run _ _ _ _ _ E1) in E. injection E as -> ->.
  edestruct (step_refines 1 2 (empty_server fd k) w) as [x Hx]; [by exists r, q|done| |by eapply steps_any].
  eapply orderly_connect; [apply lookup_singleton_eq|exact Hk| |exact E1].
  intros x c _ Hx. cbn in Hx. by rewrite lookup_empty in Hx.
Qed.
