(* ===== verification/Loop.v ===== *)
(** * A connection from start to end

    [jeux_client_service] of [src/server.c] returns on every input: each turn
    of its loop but the last takes at least a header from the input, so that
    the length of the input bounds the number of turns.  When it returns the
    client is out of the registry and the connection closed. *)
From stdpp Require Import relations.
From S2P Require Import Prelude Game Player Elo World Objects Protocol Wire PlayerRegistry Invitation Client Sessions ClientRegistry Server Accounting Effects Handlers Directory Playing Logout Requests Login Service Lifecycle Lobby Refinement.

Section loop.
Context `{LibmLaws}.
Context (cr pr : ptr).
Implicit Types (w : world) (p : ptr).

(** The states at the head of the loop. *)
Inductive heads (fd : Z) (p : ptr) : Z → world → Z → world → Prop :=
| heads_here flag w : heads fd p flag w flag w
| heads_next flag w res w1 flag' w' :
    service_iteration cr pr fd p flag w = Ret res w1 → res.1 ≠ 0 →
    heads fd p res.2 w1 flag' w' → heads fd p flag w flag' w'.

(** Memory lasts, and the packets respect the guards. *)
Definition loop_guard (fd : Z) (p : ptr) (flag : Z) w : Prop := ∀ flag' w',
  heads fd p flag w flag' w' → Z.of_nat (w_brk w') ≤ MAX_BRK ∧ packet_guard cr p fd flag' w'.

Lemma loop_guard_next fd p flag w res w1 :
  loop_guard fd p flag w → service_iteration cr pr fd p flag w = Ret res w1 → res.1 ≠ 0 →
  loop_guard fd p res.2 w1.
Proof. intros Hg E Hr flag' w' Hh. apply Hg. by eapply heads_next. Qed.

Lemma loop_guard_step fd p flag w :
  Z.of_nat (w_brk w) ≤ MAX_BRK → packet_guard cr p fd flag w →
  (∀ res w1, service_iteration cr pr fd p flag w = Ret res w1 → res.1 ≠ 0 → loop_guard fd p res.2 w1) →
  loop_guard fd p flag w.
Proof.
  intros Hb Hg Hnext flag' w' Hh. inversion Hh as [|? ? res w1 ? ? E Hne Hrest]; subst; [done|].
  by apply (Hnext res w1 E Hne).
Qed.

(** The input of the other connections is untouched. *)
Definition others_keep (fd : Z) w w' : Prop := ∀ fd' k, fd' ≠ fd → w_net w !! fd' = Some k →
  ∃ k', w_net w' !! fd' = Some k' ∧ same_input k k'.

Lemma others_keep_trans fd w1 w2 w3 : others_keep fd w1 w2 → others_keep fd w2 w3 → others_keep fd w1 w3.
Proof.
  intros H1 H2 fd' k Hne Hk. destruct (H1 fd' k Hne Hk) as (k2 & Hk2 & E2).
  destruct (H2 fd' k2 Hne Hk2) as (k3 & Hk3 & E3). exists k3. split; [done|by trans k2].
Qed.

Lemma sends_others fd w w' k : only_sends (set_conn fd k w) w' → others_keep fd w w'.
Proof.
  intros Hs fd' k' Hne Hk. destruct (Hs fd' k') as (k2 & Hk2 & _ & Hin & _).
  - cbn. by rewrite lookup_insert_ne.
  - by exists k2.
Qed.

Lemma sends_keep fd w w' : only_sends w w' → others_keep fd w w'.
Proof. intros Hs fd' k Hne Hk. destruct (Hs fd' k Hk) as (k2 & Hk2 & _ & Hin & _). by exists k2. Qed.

(** The last turn takes no memory. *)
Lemma last_turn_brk r q p flag w res w' : iteration_spec r q p flag w res w' → res.1 = 0 → w_brk w' = w_brk w.
Proof.
  intros [(_ & w1 & s & Hm & Hb & _)|(w1 & hdr & payload & Hm & _ & Hs)] Hr.
  - rewrite Hb. exact (mem_brk _ _ Hm).
  - unfold dispatch_spec in Hs. destruct (_ =? JEUX_LOGIN_PKT); [destruct Hs; lia|].
    destruct (_ =? JEUX_NO_PKT); [|destruct Hs as [-> _]; done].
    destruct Hs as (_ & (s & Hb & _) & _). rewrite Hb. exact (mem_brk _ _ Hm).
Qed.

Lemma service_loop_ends r p fd fuel : p ∈ cr_registered r → ∀ q flag w k,
  serves cr pr r q w → w_net w !! fd = Some k → (length (k_in k) < fuel)%nat → loop_guard fd p flag w →
  wp (service_loop cr pr fuel fd p flag) w (λ _ w', ∃ q', serves cr pr r q' w' ∧
    Z.of_nat (w_brk w') ≤ MAX_BRK ∧ rtc (lobby_request p) (lobby_at cr w) (lobby_at cr w') ∧ others_keep fd w w').
Proof.
  intros Hp. induction fuel as [|fuel IH]; intros q flag w k Hw Hk Hf Hg; [lia|]. cbn [service_loop].
  destruct (Hg flag w (heads_here fd p flag w)) as [Hb Hpk]. apply wp_bind.
  destruct (wp_inv _ _ _ (service_iteration_safe cr pr r q w p fd flag k Hw Hp Hb Hk
    ltac:(intros res1 w1; apply Hpk; exact (serves_creg _ _ _ _ _ Hw)))) as (res & w1 & E & q1 & Hw1 & Hs & k' & _ & Hn & Hless).
  unfold wp at 1. rewrite E. pose proof (iteration_steps cr pr r q w w1 p flag res q1 Hw Hw1 Hp Hs) as Hsteps.
  rewrite (lobby_at_serves cr pr r q w Hw). rewrite <-(lobby_at_serves cr pr r q1 w1 Hw1) in Hsteps.
  destruct (Z.eqb_spec res.1 0) as [Hz|Hz].
  - apply wp_ret. exists q1. split; [done|]. rewrite (last_turn_brk r q p flag w res w1 Hs Hz).
    split; [done|]. split; [done|]. by apply (sends_others fd w w1 k').
  - destruct (Hn fd k' (set_conn_lookup fd k' w)) as (k2 & Hk2 & _ & [Ein _] & _).
    eapply wp_mono; [apply (IH q1 res.2 w1 k2 Hw1 Hk2); [|by eapply loop_guard_next]|].
    + rewrite Ein. specialize (Hless Hz). lia.
    + intros [] w2 (q2 & Hw2 & Hb2 & Hs2 & Ho2). exists q2. split; [done|]. split; [done|]. split; [by etrans|].
      eapply others_keep_trans; [by apply (sends_others fd w w1 k')|done].
Qed.

(** ** Closing *)

(** The descriptors of the registered clients, by the lobby. *)
Lemma fd_unused_peers r q w fd : serves cr pr r q w →
  (fd_unused (cr_registered r) fd w ↔ ∀ x fd', lb_peers (lobby_at cr w) !! x = Some fd' → fd' ≠ fd).
Proof.
  intros Hw. rewrite (lobby_at_serves cr pr r q w Hw). cbn. split.
  - intros Hfree x fd' Hx. rewrite among_lookup in Hx. destruct (decide (x ∈ cr_registered r)) as [Hin|]; [|done].
    rewrite lookup_fmap in Hx. destruct (w_clients w !! x) as [c|] eqn:Hc; [|done]. injection Hx as <-. by apply (Hfree x c).
  - intros Hp x c Hx Hc. apply (Hp x). by rewrite among_lookup, decide_True, lookup_fmap, Hc by done.
Qed.

Lemma rtc_peers p L L' x : rtc (lobby_step p) L L' → x ≠ p → lb_peers L' !! x = lb_peers L !! x.
Proof. induction 1 as [|L1 L2 L3 H1 _ IH]; intros Hx; [done|]. rewrite IH by done. by eapply step_peers. Qed.

Lemma delete_last (l : list ptr) p i : NoDup (l ++ [p]) → (l ++ [p]) !! i = Some p → delete i (l ++ [p]) = l.
Proof.
  intros Hnd Hi. assert (i = length l) as ->.
  { eapply NoDup_lookup; [done|exact Hi|]. rewrite lookup_app_r, Nat.sub_diag by lia. done. }
  rewrite delete_middle. by rewrite app_nil_r.
Qed.

(** What a service thread has left to do once its client is registered. *)
Definition thread_rest (fuel : nat) (fd : Z) (p : ptr) (flag : Z) : M () :=
  service_loop cr pr fuel fd p flag;; creg_unregister cr p;; sys_close fd.

Lemma peer_fd r q w p c : serves cr pr r q w → p ∈ cr_registered r → w_clients w !! p = Some c →
  lb_peers (lobby_at cr w) !! p = Some (c_fd c).
Proof.
  intros Hw Hp Hc. rewrite (lobby_at_serves cr pr r q w Hw). cbn.
  by rewrite among_lookup, decide_True, lookup_fmap, Hc.
Qed.

Lemma thread_rest_ends r q w p c fd k flag fuel :
  serves cr pr r q w → p ∈ cr_registered r → w_clients w !! p = Some c → c_fd c = fd →
  w_net w !! fd = Some k → (length (k_in k) < fuel)%nat → loop_guard fd p flag w →
  wp (thread_rest fuel fd p flag) w (λ _ w', w_net w' !! fd = None ∧ Z.of_nat (w_brk w') ≤ MAX_BRK ∧
    ∃ i q', cr_registered r !! i = Some p ∧ serves cr pr (creg_del r i) q' w' ∧
      cr_registered (creg_del r i) = delete i (cr_registered r) ∧
      rtc (lobby_step p) (lobby_at cr w) (lobby_at cr w') ∧ others_keep fd w w').
Proof.
  intros Hw Hp Hc Hfd Hk Hf Hg. unfold thread_rest. apply wp_bind. eapply wp_mono.
  { by eapply (service_loop_ends r p fd fuel Hp q flag w k). }
  intros [] w2 (q2 & Hw2 & Hb2 & Hs2 & Ho2). apply wp_bind.
  eapply wp_mono; [by apply (creg_unregister_safe cr pr r q2 p w2)|].
  intros s w3 (-> & i & Hi & Hw3 & Hu & Hn3 & _).
  destruct (creg_del_ok r i (sv_wf _ _ _ _ _ Hw)) as [_ Hr3]; [by eapply lookup_lt_Some|].
  pose proof (disconnect_steps cr pr r q2 w2 w3 p i Hw2 Hi Hu) as Hs3.
  rewrite <-Hr3, <-(lobby_at_serves cr pr _ _ w3 Hw3), <-(lobby_at_serves cr pr _ _ w2 Hw2) in Hs3.
  assert (rtc (lobby_step p) (lobby_at cr w) (lobby_at cr w3)) as Hall
    by (etrans; [by apply requests_steps|done]).
  assert (fd_unused (cr_registered (creg_del r i)) fd w3) as Hfree.
  { apply (fd_unused_peers (creg_del r i) q2); [done|]. intros x fd' Hx ->.
    assert (x ≠ p) as Hxp.
    { intros ->. rewrite (lobby_at_serves cr pr _ _ w3 Hw3) in Hx. cbn in Hx. rewrite among_lookup in Hx.
      destruct (decide (p ∈ cr_registered (creg_del r i))) as [Hin|]; [|done]. rewrite Hr3 in Hin.
      pose proof (mo_regs_nodup _ _ _ _ (co_mem _ _ _ _ (serves_core _ _ _ _ w Hw))) as Hnd.
      rewrite (delete_Permutation _ i p Hi) in Hnd. by apply NoDup_cons in Hnd as [? _]. }
    rewrite (rtc_peers p _ _ x Hall Hxp) in Hx. rewrite (lobby_at_serves cr pr r q w Hw) in Hx. cbn in Hx.
    rewrite among_lookup in Hx. destruct (decide (x ∈ cr_registered r)) as [Hin|]; [|done].
    rewrite lookup_fmap in Hx. destruct (w_clients w !! x) as [cx|] eqn:Hcx; [|done]. injection Hx as Ex.
    apply Hxp. eapply (co_fds _ _ _ _ (serves_core _ _ _ _ w Hw)); [done|done|done|done|congruence]. }
  unfold wp, sys_close. split; [apply lookup_delete_eq|].
  split; [cbn; by rewrite (unregister_brk r q2 p w2 w3 Hu)|].
  exists i, q2. split; [done|]. split; [by apply (serves_close cr pr)|]. split; [done|].
  split; [exact Hall|]. eapply others_keep_trans; [exact Ho2|].
  eapply others_keep_trans; [by apply sends_keep|]. intros fd' k' Hne Hk'. exists k'. split; [|done].
  cbn. by rewrite lookup_delete_ne.
Qed.

(** The whole service of a connection. *)
Lemma client_service_ends r q w fd k :
  serves cr pr r q w → w_net w !! fd = Some k → writable k → fd_unused (cr_registered r) fd w →
  (∀ p w1, creg_register cr fd w = Ret p w1 → p ≠ NULL → loop_guard fd p 0 w1) →
  wp (jeux_client_service cr pr (S (length (k_in k))) fd) w (λ _ w', w_net w' !! fd = None ∧
    ∃ r' q', serves cr pr r' q' w' ∧ cr_registered r' = cr_registered r ∧
      rtc any_step (lobby_at cr w) (lobby_at cr w') ∧ others_keep fd w w').
Proof.
  intros Hw Hk Hkw Hfree Hg. unfold jeux_client_service.
  destruct (decide (MAX_CLIENTS ≤ cr_length r ∨ cr_no r = 1)) as [Hfull|Hroom].
  { step (creg_register_full cr pr r q fd w Hw Hfull). rewrite decide_True by done. unfold wp, sys_close.
    split; [apply lookup_delete_eq|]. exists r, q. split; [by apply (serves_close cr pr)|]. split; [done|]. split; [constructor|].
    intros fd' k' Hne Hk'. exists k'. split; [|done]. cbn. by rewrite lookup_delete_ne. }
  apply Decidable.not_or in Hroom as [H1 H2].
  destruct (wp_inv _ _ _ (creg_register_safe cr pr r q fd w k Hw Hk Hkw Hfree ltac:(lia) H2))
    as (p & w1 & E & Ep & Hw1 & Hn1 & Hm1).
  destruct (creg_add_ok r p (sv_wf _ _ _ _ _ Hw) ltac:(lia)) as [_ Hr1].
  pose proof (mo_brk _ _ _ _ (co_mem _ _ _ _ (serves_core _ _ _ _ w Hw))) as Hb0. cbn in Hb0.
  assert (p ≠ NULL) as Hp0 by (unfold NULL; lia).
  assert (p ∈ cr_registered (creg_add r p)) as Hp by (rewrite Hr1; apply elem_of_app; right; by left).
  step E. rewrite decide_False by done. eapply wp_mono.
  { apply (thread_rest_ends (creg_add r p) q w1 p (fresh_client cr fd) fd k 0); try done;
      [rewrite (mem_clients _ _ Hm1), Ep; apply lookup_insert_eq|by rewrite Hn1|lia|by apply Hg]. }
  intros [] w3 (Hnone & _ & i & q3 & Hi & Hw3 & Hr3 & Hs3 & Ho3). split; [done|].
  exists (creg_del (creg_add r p) i), q3. split; [done|]. split.
  { rewrite Hr3. rewrite Hr1 in *. apply (delete_last _ p); [|done].
    pose proof (mo_regs_nodup _ _ _ _ (co_mem _ _ _ _ (serves_core _ _ _ _ w1 Hw1))) as Hnd. by rewrite Hr1 in Hnd. }
  split; [|by unfold others_keep in *; rewrite <-Hn1].
  eapply rtc_l; [|by eapply steps_any]. exists p.
  rewrite (lobby_at_serves cr pr r q w Hw), (lobby_at_serves cr pr _ _ w1 Hw1), Hr1, Ep.
  by apply (connect_steps cr pr r q w w1 fd).
Qed.
End loop.
