(* ===== verification/Shutdown.v ===== *)
(** * Shutting down

    The parts of [terminate] of [src/main.c]: [creg_shutdown_all] makes every
    connection deliver the end of its input, and when no client is left
    [creg_fini] and [preg_fini] free the registries and all players.  [System]
    puts the service threads in between. *)
From stdpp Require Import relations.
From S2P Require Import Prelude Game Player Elo World Objects Protocol Wire PlayerRegistry Invitation Client Sessions ClientRegistry Server Accounting Effects Handlers Directory Playing Logout Requests Login Service Lifecycle Lobby Refinement Loop.

Section shutdown.
Context `{LibmLaws}.
Context (cr pr : ptr).
Implicit Types (w : world) (p : ptr).

(** The connection [fd] delivers nothing more. *)
Definition shut (fd : Z) w : Prop := ∃ k, w_net w !! fd = Some k ∧ k_in k = [].

(** [shutdown_clients] touches nothing but the input of the connections. *)
Lemma shutdown_clients_run l w :
  (∀ p, p ∈ l → p ≠ NULL ∧ ∃ c k, w_clients w !! p = Some c ∧ w_net w !! c_fd c = Some k) →
  ∃ n, shutdown_clients l w = Ret () (set_net n w) ∧
    (∀ fd k, w_net w !! fd = Some k → ∃ k', n !! fd = Some k' ∧ same_output k k' ∧ (k_in k = [] → k_in k' = [])) ∧
    (∀ p c, p ∈ l → w_clients w !! p = Some c → shut (c_fd c) (set_net n w)).
Proof.
  revert w. induction l as [|p l IH]; intros w Hl.
  { exists (w_net w). split; [by destruct w|]. split; [|intros p c Hp; by apply elem_of_nil in Hp].
    intros fd k Hk. by exists k. }
  destruct (Hl p ltac:(by left)) as (Hn & c & k & Hc & Hk). cbn [shutdown_clients]. rewrite decide_False by done.
  assert (client_get_fd p w = Ret (c_fd c) w) as Efd by (unfold client_get_fd; by run load_client_run by exact Hc).
  set (w1 := set_conn (c_fd c) (mkCONN (k_out k) (k_wscript k) [] []) w).
  assert (sys_shutdown_rd (c_fd c) w = Ret () w1) as Esh by (unfold sys_shutdown_rd; by rewrite Hk).
  run Efd. run Esh.
  destruct (IH w1) as (n & E & Hkeep & Hshut).
  { intros x Hx. destruct (Hl x ltac:(by right)) as (Hxn & cx & kx & Hcx & Hkx). split; [done|].
    destruct (decide (c_fd cx = c_fd c)) as [Ef|Ef].
    - exists cx, (mkCONN (k_out k) (k_wscript k) [] []). split; [done|]. rewrite Ef. apply set_conn_lookup.
    - exists cx, kx. split; [done|]. cbn. by rewrite lookup_insert_ne by congruence. }
  exists n. split; [rewrite E; by destruct w|]. split.
  - intros fd k1 Hk1. destruct (decide (fd = c_fd c)) as [->|Hne].
    + rewrite Hk in Hk1. injection Hk1 as <-.
      destruct (Hkeep (c_fd c) _ (set_conn_lookup _ _ _)) as (k' & Hk' & [Ho1 Ho2] & He). exists k'.
      split; [done|]. split; [done|]. intros _. by apply He.
    + apply Hkeep. cbn. by rewrite lookup_insert_ne.
  - intros x cx [->|Hx]%elem_of_cons Hcx; [|exact (Hshut x cx Hx Hcx)].
    destruct (Hkeep (c_fd c) _ (set_conn_lookup _ _ _)) as (k' & Hk' & _ & He). exists k'.
    assert (cx = c) as -> by congruence. split; [done|by apply He].
Qed.

(** The counters of the registry change. *)
Lemma serves_reg r r' q w : serves cr pr r q w → creg_wf r' → cr_registered r' = cr_registered r →
  serves cr pr r' q (in_reg cr r' w).
Proof.
  intros [H1 H2 H3 Hnodes H4 Hc H6] Hwf Hregs. split; try done. rewrite Hregs. destruct Hc. split; try done.
  intros x Hx. destruct (co_open x Hx) as (c & k & Hcx & Hk & Hw & [r0 Hr0]). exists c, k.
  rewrite H2 in Hr0. apply lookup_singleton_Some in Hr0 as [<- _]. repeat (split; [done|]).
  eexists. apply lookup_singleton_eq.
Qed.

Lemma serves_net r q w n : serves cr pr r q w →
  (∀ fd k, w_net w !! fd = Some k → ∃ k', n !! fd = Some k' ∧ (writable k → writable k')) →
  serves cr pr r q (set_net n w).
Proof.
  intros [H1 H2 H3 Hnodes H4 Hc H6] Hn. split; try done. destruct Hc. split; try done.
  intros x Hx. destruct (co_open x Hx) as (c & k & Hcx & Hk & Hw & Hcr). destruct (Hn _ _ Hk) as (k' & Hk' & Hw').
  exists c, k'. auto.
Qed.

Lemma shutdown_all_shuts r q w : serves cr pr r q w →
  wp (creg_shutdown_all cr) w (λ _ w', serves cr pr (cr_set_no 1 r) q w' ∧ mem_of w' = mem_of w ∧
    (∀ fd k, w_net w !! fd = Some k → ∃ k', w_net w' !! fd = Some k' ∧ (writable k → writable k')) ∧
    ∀ p c, p ∈ cr_registered r → w_clients w' !! p = Some c → shut (c_fd c) w').
Proof.
  intros Hw. pose proof (sv_wf _ _ _ _ _ Hw) as Hwf. rewrite (in_reg_id cr pr r q w Hw) at 1.
  unfold creg_shutdown_all. step reg_lock by apply Hwf. step reg_update. step reg_load.
  set (r1 := cr_set_no 1 _). destruct (shutdown_clients_run (cr_registered r1) (in_reg cr r1 w)) as (n & E & Hkeep & Hshut).
  { intros x Hx. change (x ∈ cr_registered r) in Hx.
    destruct (co_open _ _ _ _ (serves_core _ _ _ _ w Hw) x Hx) as (c & k & Hc & Hk & _). split; [|by exists c, k].
    by eapply client_key; [apply (serves_core _ _ _ _ w Hw)|exact Hc]. }
  eapply wp_step; [exact E|].
  assert (unlock_creg cr (set_net n (in_reg cr r1 w)) = Ret () (set_net n (in_reg cr (cr_set_no 1 r) w))) as Eu.
  { change (set_net n (in_reg cr r1 w)) with (in_reg cr r1 (set_net n w)). rewrite reg_unlock.
    assert (cr_set_mutex false r1 = cr_set_no 1 r) as ->; [|done].
    unfold r1, cr_set_mutex, cr_set_no. cbn. by rewrite (rw_mutex _ Hwf). }
  assert (∀ fd k, w_net w !! fd = Some k → ∃ k', n !! fd = Some k' ∧ (writable k → writable k')) as Hwr.
  { intros fd k Hk. destruct (Hkeep fd k Hk) as (k' & Hk' & [_ Ew] & _). exists k'. split; [done|].
    unfold writable. by rewrite Ew. }
  eapply wp_run; [exact Eu|]. split; [|done]. apply serves_net; [|exact Hwr].
  apply (serves_reg r); [done| |done]. by destruct Hwf; split.
Qed.

(** A connection that is shut delivers no packet. *)
Lemma shut_guard r q w p fd flag : serves cr pr r q w → shut fd w → packet_guard cr p fd flag w.
Proof.
  intros Hw (k & Hk & Hin) r1 res w1 _ E Hne.
  pose proof (proto_recv_any _ _ _ Hk (co_oom _ _ _ _ (serves_core _ _ _ _ w Hw))) as Hwp. unfold wp in Hwp.
  rewrite E in Hwp. destruct Hwp as (k' & _ & _ & Hlt). specialize (Hlt Hne). rewrite Hin in Hlt. cbn in Hlt. lia.
Qed.

(** ** The registries are taken down *)

(** Nobody is left: the last reference to each player is the registry's. *)
Lemma nobody_logged_in names m : mem_ok [] names [] m →
  (∀ p c, m_clients m !! p = Some c → c_logged_in c = CLIENT_LOGGED_OUT) ∧
  (∀ x i, m_invs m !! x = Some i → i_state i = INV_CLOSED_STATE) ∧
  (∀ p v, m_players m !! p = Some v → p_ref_count v = cnt p names ∧ p ∈ names).
Proof.
  intros Hm. assert (∀ p c, m_clients m !! p = Some c → c_logged_in c = CLIENT_LOGGED_OUT) as Hout.
  { intros p c Hp. destruct (c_logged_in c) eqn:E; [done|].
    destruct (cw_logged_in _ _ _ _ _ (mo_clients _ _ _ _ Hm p c Hp) E) as [_ Hin]. by apply elem_of_nil in Hin. }
  split; [done|]. split.
  - intros x i Hx. destruct (decide (i_state i = INV_CLOSED_STATE)) as [|Hne]; [done|].
    destruct (iw_open _ _ _ (mo_invs _ _ _ _ Hm x i Hx) Hne (i_source i)) as [_ (c & Hc & Hon)]; [by left|].
    rewrite (Hout _ _ Hc) in Hon. done.
  - intros p v Hv. split; [|apply (mo_registered _ _ _ _ Hm); by exists v].
    rewrite (mo_player_count _ _ _ _ Hm p v Hv), (msum_zero (player_refs p)); [cbn; lia|].
    intros x c Hx. unfold player_refs. rewrite decide_False; [done|]. rewrite (Hout x c Hx). by intros [].
Qed.

(** The players and the count of the nodes go down together. *)
Lemma preg_unref_all_frees names q w :
  w_pregs w !! pr = Some q → pr_length q = Z.of_nat (length names) → pr_length q ≤ INT_MAX →
  NoDup names → (∀ p, p ∈ names ↔ is_Some (w_players w !! p)) →
  (∀ p v, w_players w !! p = Some v → p_ref_count v = cnt p names) →
  preg_unref_all pr names w =
    Ret () (set_pregs (<[pr := mkPREG (pr_head q) 0]> (w_pregs w)) (set_players ∅ w)).
Proof.
  revert q w. induction names as [|p names IH]; intros q w Hq Hlen Hmax Hnd Hin Hcnt; cbn [preg_unref_all].
  { assert (w_players w = ∅) as E.
    { apply map_eq. intros p. rewrite lookup_empty. destruct (w_players w !! p) eqn:Hp; [|done].
      assert (p ∈ []) as H1%elem_of_nil by (apply Hin; by rewrite Hp). done. }
    rewrite <-E, insert_id; [by destruct w|]. rewrite Hq. destruct q. cbn in Hlen. by subst. }
  apply NoDup_cons in Hnd as [Hni Hnd]. destruct (proj1 (Hin p) ltac:(by left)) as [v Hv].
  assert (p_ref_count v = 1) as Hv1.
  { rewrite (Hcnt p v Hv). cbn [cnt]. by rewrite decide_True, cnt_notin by done. }
  assert (player_unref_at p w = Ret () (set_players (delete p (w_players w)) w)) as Eu.
  { rewrite (player_unref_at_run p v None w Hv); [done|]. rewrite player_unref_add by (rewrite Hv1; done). by rewrite Hv1. }
  run Eu. cbn [length] in Hlen.
  assert (pr_count (-1) q = Some (mkPREG (pr_head q) (pr_length q + -1))) as Ec.
  { unfold pr_count. rewrite int_op_Some; [done|]. unfold INT_MIN, INT_MAX in *. lia. }
  run (update_opt_run (V:=PLAYER_REGISTRY) pr _ q) by (first [exact Hq|exact Ec]).
  rewrite (IH (mkPREG (pr_head q) (pr_length q + -1))); [cbn; by rewrite insert_insert_eq|apply lookup_insert_eq|
    cbn; lia|cbn; lia|done| |].
  - intros x. cbn. destruct (decide (x = p)) as [->|Hne].
    + rewrite lookup_delete_eq. split; [done|]. intros [? ?]. done.
    + rewrite lookup_delete_ne by done. rewrite <-Hin. set_solver.
  - cbn. intros x u [Hne Hx]%lookup_delete_Some. rewrite (Hcnt x u Hx). cbn [cnt].
    by rewrite decide_False by done.
Qed.

(** What is left when the registries are gone: clients that closed
    invitations keep, and those invitations. *)
Definition taken_down w : Prop :=
  w_cregs w = ∅ ∧ w_pregs w !! pr = None ∧ w_players w = ∅ ∧
  (∀ p c, w_clients w !! p = Some c → c_logged_in c = CLIENT_LOGGED_OUT) ∧
  (∀ x i, w_invs w !! x = Some i → i_state i = INV_CLOSED_STATE).

Lemma registries_fini r q w : serves cr pr r q w → cr_registered r = [] →
  wp (creg_fini cr;; preg_fini pr) w (λ _ w', taken_down w' ∧ w_brk w' = w_brk w).
Proof.
  intros Hw Hr. pose proof (serves_core _ _ _ _ w Hw) as Hc. pose proof (co_mem _ _ _ _ Hc) as Hm. rewrite Hr in Hm.
  destruct (nobody_logged_in _ _ Hm) as (Hout & Hclosed & Hcnt).
  assert (creg_fini cr w = Ret () (set_cregs ∅ w)) as E1.
  { unfold creg_fini, free. cbn. rewrite (sv_creg _ _ _ _ _ Hw), lookup_singleton_eq, delete_singleton_eq. done. }
  step E1. unfold preg_fini. step (load_run (V:=PLAYER_REGISTRY)) by exact (sv_preg _ _ _ _ _ Hw).
  destruct (sv_nodes _ _ _ _ _ Hw) as [Hlen Hmax].
  eapply wp_step; [apply (preg_unref_all_frees _ q)|].
  - exact (sv_preg _ _ _ _ _ Hw).
  - exact Hlen.
  - exact Hmax.
  - apply (mo_names_nodup _ _ _ _ Hm).
  - intros p. split; [apply (mo_names _ _ _ _ Hm)|]. apply (mo_registered _ _ _ _ Hm).
  - intros p v Hp. by apply Hcnt.
  - unfold wp, free. cbn. rewrite lookup_insert_eq. unfold taken_down. cbn. by rewrite lookup_delete_eq.
Qed.
End shutdown.
