(* ===== verification/System.v ===== *)
(** * The threads together

    The whole server as a transition system: the service threads and the main
    thread of [Main] take turns in any order, while connections, bytes and
    signals arrive.  The invariant of the memory and the threads agree: each
    registered client has one thread, and each thread its own connection. *)
From stdpp Require Import relations.
From S2P Require Import Prelude Game Player Elo World Objects Protocol Wire PlayerRegistry Invitation Client Sessions ClientRegistry Server Main Accounting Effects Handlers Directory Playing Logout Requests Login Service Lifecycle Lobby Refinement Loop Shutdown.

(** ** The system *)

Record SYSTEM : Type := mkSYS {
  sy_world : world;
  sy_threads : list THREAD;
  sy_main : MAIN;
  sy_signal : Z
}.

(** The connection of a thread, and the client it has registered. *)
Definition t_fd (t : THREAD) : Z :=
  match t with T_start fd => fd | T_loop fd _ _ => fd | T_leave fd _ => fd end.
Definition t_owner (t : THREAD) : option (ptr * Z) :=
  match t with T_start _ => None | T_loop fd p _ => Some (p, fd) | T_leave fd p => Some (p, fd) end.

(** The thread in slot [i] is now [o]. *)
Definition set_thread (i : nat) (o : option THREAD) (ts : list THREAD) : list THREAD :=
  option_list o ++ delete i ts.

Section system.
Context `{Libm}.
Context (cr pr : ptr).

(** A thread takes a turn: the service thread in slot [Some i], or the main
    thread.  Every turn that returns, whatever it finds: one that is undefined
    or waits leads nowhere. *)
Inductive turn : option nat → SYSTEM → SYSTEM → Prop :=
| turn_thread i t o w w' ts m s :
    ts !! i = Some t → thread_turn cr pr t w = Ret o w' →
    turn (Some i) (mkSYS w ts m s) (mkSYS w' (set_thread i o ts) m s)
| turn_main m m' w w' ts s :
    m ≠ M_exit → main_turn cr pr m w = Ret m' w' →
    turn None (mkSYS w ts m s) (mkSYS w' ts m' s).
Definition any_turn (s s' : SYSTEM) : Prop := ∃ who, turn who s s'.

(** The packet a thread is about to receive respects the guards. *)
Definition thread_guard (t : THREAD) (w : world) : Prop :=
  match t with T_loop fd p flag => packet_guard cr p fd flag w | _ => True end.

(** [terminate] begins when every thread has registered its client, and the
    registry has not been empty since the first (see [Findings]). *)
Definition shutdown_guard (ts : list THREAD) (w : world) : Prop :=
  (∀ t, t ∈ ts → t_owner t ≠ None) ∧
  ∀ r, w_cregs w !! cr = Some r → cr_sem r = 0 ∨ cr_registered r = [].

(** What is assumed of a turn. *)
Definition turn_guard (who : option nat) (s : SYSTEM) : Prop :=
  match who with
  | Some i => ∀ t, sy_threads s !! i = Some t → thread_guard t (sy_world s)
  | None => sy_main s = M_shutdown → shutdown_guard (sy_threads s) (sy_world s)
  end.

(** A connection is accepted, a signal interrupts [Accept], a signal arrives,
    bytes arrive. *)
Inductive event : SYSTEM → SYSTEM → Prop :=
| ev_accept fd k w ts s :
    w_net w !! fd = None → writable k →
    event (mkSYS w ts M_accept s)
      (mkSYS (set_conn fd k w) ((accept_turn fd s).2 ++ ts) (accept_turn fd s).1 s)
| ev_interrupt w ts s :
    Z.land s HANDLE_SIGHUP ≠ 0 →
    event (mkSYS w ts M_accept s) (mkSYS w ((accept_turn (-1) s).2 ++ ts) (accept_turn (-1) s).1 s)
| ev_signal signum w ts m s :
    event (mkSYS w ts m s) (mkSYS w ts m (sighup_handler signum s))
| ev_input fd k k' w ts m s :
    m = M_accept ∨ m = M_shutdown → w_net w !! fd = Some k → same_output k k' →
    event (mkSYS w ts m s) (mkSYS (set_conn fd k' w) ts m s).

(** The states of the orderly executions from [s0] on: the turns in any order,
    each a whole packet, connection or end of a service, and each within the
    guards, as long as memory lasts. *)
Inductive sys_orderly (s0 : SYSTEM) : SYSTEM → Prop :=
| sys_start : sys_orderly s0 s0
| sys_next s s' : sys_orderly s0 s → Z.of_nat (w_brk (sy_world s)) ≤ MAX_BRK →
    (∃ who, turn_guard who s ∧ turn who s s') ∨ event s s' → sys_orderly s0 s'.
End system.

(** ** Threads and clients *)

Section threads.
Context `{LibmLaws}.
Context (cr pr : ptr).
Implicit Types (w : world) (p : ptr) (t : THREAD) (ts : list THREAD).

Abbreviation peers w := (lb_peers (lobby_at cr w)).

Record threads_ok ts w : Prop := {
  to_fds : NoDup (t_fd <$> ts);
  to_owner p fd : peers w !! p = Some fd ↔ Some (p, fd) ∈ t_owner <$> ts;
  to_open t : t ∈ ts → ∃ k, w_net w !! t_fd t = Some k ∧ writable k
}.

#[global] Instance threads_ok_perm : Proper ((≡ₚ) ==> (=) ==> iff) threads_ok.
Proof.
  intros ts ts' E w w' <-. split; intros [H1 H2 H3]; split.
  - by rewrite <-E.
  - intros p fd. rewrite <-E. apply H2.
  - intros t Ht. apply H3. by rewrite E.
  - by rewrite E.
  - intros p fd. rewrite E. apply H2.
  - intros t Ht. apply H3. by rewrite <-E.
Qed.

Lemma owner_fd t p fd : t_owner t = Some (p, fd) → t_fd t = fd.
Proof. destruct t; cbn; congruence. Qed.

(** The clients of the other threads are those that are not this one's. *)
Lemma other_owner t ts w p fd : threads_ok (t :: ts) w →
  Some (p, fd) ∈ t_owner <$> ts ↔ peers w !! p = Some fd ∧ t_owner t ≠ Some (p, fd).
Proof.
  intros Hok. rewrite (to_owner _ _ Hok). rewrite fmap_cons, elem_of_cons. split.
  - intros Hin. split; [by right|]. intros E. pose proof (to_fds _ _ Hok) as Hnd.
    rewrite fmap_cons in Hnd. apply NoDup_cons in Hnd as [Hnd _]. apply Hnd.
    apply list_elem_of_fmap in Hin as (t2 & E2 & Ht2). apply list_elem_of_fmap. exists t2. split; [|done].
    rewrite (owner_fd _ _ _ E). by rewrite (owner_fd t2 p fd).
  - intros [[E|Hin] Hne]; [congruence|done].
Qed.

(** One thread moves on, the others stay. *)
Lemma threads_next t o ts w w' : threads_ok (t :: ts) w →
  (∀ t', o = Some t' → t_fd t' = t_fd t ∧ ∃ k, w_net w' !! t_fd t = Some k ∧ writable k) →
  (∀ p fd, peers w' !! p = Some fd ↔
     (t' ← o; t_owner t') = Some (p, fd) ∨ (peers w !! p = Some fd ∧ t_owner t ≠ Some (p, fd))) →
  (∀ fd k, fd ≠ t_fd t → w_net w !! fd = Some k → writable k → ∃ k', w_net w' !! fd = Some k' ∧ writable k') →
  threads_ok (option_list o ++ ts) w'.
Proof.
  intros Hok Hfd Hown Hnet. pose proof (to_fds _ _ Hok) as Hnd. rewrite fmap_cons in Hnd.
  apply NoDup_cons in Hnd as [Hni Hnd]. split.
  - destruct o as [t'|]; [|done]. cbn. destruct (Hfd t' eq_refl) as [-> _]. by apply NoDup_cons.
  - intros p fd. rewrite Hown, <-other_owner by done. rewrite fmap_app, elem_of_app.
    destruct o as [t'|]; cbn; [|split; [intros [?|?]; [done|by right]|intros [?%elem_of_nil|?]; [done|by right]]].
    rewrite list_elem_of_singleton. naive_solver.
  - intros t2 [Ht2|Ht2]%elem_of_app.
    + destruct o as [t'|]; [|by apply elem_of_nil in Ht2]. apply list_elem_of_singleton in Ht2 as ->.
      by destruct (Hfd t' eq_refl) as [-> ?].
    + destruct (to_open _ _ Hok t2 ltac:(by right)) as (k & Hk & Hw). apply (Hnet _ k); [|done|done].
      intros E. apply Hni. rewrite <-E. by apply list_elem_of_fmap_2.
Qed.

(** The connection of a thread without a client is not that of a client. *)
Lemma start_unused r q t ts w : serves cr pr r q w → threads_ok (t :: ts) w → t_owner t = None →
  fd_unused (cr_registered r) (t_fd t) w.
Proof.
  intros Hw Hok Ht. apply (fd_unused_peers cr pr r q); [done|]. intros x fd' Hx ->.
  apply (to_owner _ _ Hok) in Hx. rewrite fmap_cons, elem_of_cons in Hx. destruct Hx as [?|Hx]; [congruence|].
  apply list_elem_of_fmap in Hx as (t2 & E2 & Ht2). pose proof (to_fds _ _ Hok) as Hnd. rewrite fmap_cons in Hnd.
  apply NoDup_cons in Hnd as [Hni _]. apply Hni. rewrite <-(owner_fd t2 x (t_fd t)) by done. by apply list_elem_of_fmap_2.
Qed.

(** The client of a thread is registered, on the thread's connection. *)
Lemma owner_registered r q t ts w p fd : serves cr pr r q w → threads_ok (t :: ts) w → t_owner t = Some (p, fd) →
  p ∈ cr_registered r ∧ ∃ c, w_clients w !! p = Some c ∧ c_fd c = fd.
Proof.
  intros Hw Hok Ht. assert (peers w !! p = Some fd) as Hp.
  { apply (to_owner _ _ Hok). rewrite fmap_cons, Ht. by left. }
  rewrite (lobby_at_serves cr pr r q w Hw) in Hp. cbn in Hp. rewrite among_lookup in Hp.
  destruct (decide (p ∈ cr_registered r)) as [Hin|]; [|done]. split; [done|]. rewrite lookup_fmap in Hp.
  destruct (w_clients w !! p) as [c|]; [|done]. injection Hp as <-. eauto.
Qed.
End threads.

(** ** The turns of a service thread *)

Section thread_turns.
Context `{LibmLaws}.
Context (cr pr : ptr).
Implicit Types (w : world) (p : ptr) (t : THREAD) (ts : list THREAD).

Abbreviation peers w := (lb_peers (lobby_at cr w)).

(** Steps of [Lifecycle], while memory lasts. *)
Definition bounded_step w w' : Prop := Z.of_nat (w_brk w) ≤ MAX_BRK ∧ orderly_step cr pr w w'.

Lemma orderly_steps w0 w w' : orderly cr pr w0 w → rtc bounded_step w w' → orderly cr pr w0 w'.
Proof. intros Hr. induction 1 as [w|w w1 w' [Hb Hs] _ IH]; [done|]. apply IH. by eapply orderly_next. Qed.

(** What a turn does to the registry and to the thread. *)
Definition turned t (r : CLIENT_REGISTRY) w (o : option THREAD) (r' : CLIENT_REGISTRY) w' : Prop :=
  match t with
  | T_start fd => (o = None ∧ r' = r) ∨ (∃ p, o = Some (T_loop fd p 0) ∧ r' = creg_add r p)
  | T_loop fd p _ => r' = r ∧
      ((∃ flag, o = Some (T_loop fd p flag) ∧ ¬ shut fd w) ∨ (o = Some (T_leave fd p) ∧ w_brk w' = w_brk w))
  | T_leave fd p => o = None ∧ w_brk w' = w_brk w ∧ ∃ i, cr_registered r !! i = Some p ∧
      r' = creg_del r i ∧ cr_registered r' = delete i (cr_registered r)
  end.

(** After the turn the invariant holds, the threads and the clients agree, no
    other connection has lost its state, and the world has made steps of
    [Lifecycle]. *)
Definition turn_post t ts (r : CLIENT_REGISTRY) w (o : option THREAD) w' : Prop := ∃ r' q',
  serves cr pr r' q' w' ∧ threads_ok cr (option_list o ++ ts) w' ∧ turned t r w o r' w' ∧
  (∀ fd, fd ≠ t_fd t → shut fd w → shut fd w') ∧ rtc bounded_step w w'.

Lemma peers_lookup r q w x fd : serves cr pr r q w →
  peers w !! x = Some fd ↔ x ∈ cr_registered r ∧ ∃ c, w_clients w !! x = Some c ∧ c_fd c = fd.
Proof.
  intros Hw. rewrite (lobby_at_serves cr pr r q w Hw). cbn. rewrite among_lookup.
  destruct (decide (x ∈ cr_registered r)) as [Hin|]; [|naive_solver]. rewrite lookup_fmap.
  destruct (w_clients w !! x) as [c|]; cbn; naive_solver.
Qed.

Lemma start_turn r q fd ts w : serves cr pr r q w → threads_ok cr (T_start fd :: ts) w →
  Z.of_nat (w_brk w) ≤ MAX_BRK →
  wp (thread_turn cr pr (T_start fd)) w (turn_post (T_start fd) ts r w).
Proof.
  intros Hw Hok Hb. pose proof (start_unused cr pr r q _ ts w Hw Hok eq_refl) as Hfree. cbn [t_fd] in Hfree.
  destruct (to_open _ _ _ Hok (T_start fd) ltac:(by left)) as (k & Hk & Hkw). cbn [t_fd] in Hk.
  assert (fd_unused (registered cr w) fd w) as Hfree' by (by rewrite (registered_serves cr pr r q w Hw)).
  cbn [thread_turn]. destruct (decide (MAX_CLIENTS ≤ cr_length r ∨ cr_no r = 1)) as [Hfull|Hroom].
  - pose proof (creg_register_full cr pr r q fd w Hw Hfull) as E. step E. rewrite decide_True by done. norm.
    eapply wp_step; [reflexivity|]. apply wp_ret. exists r, q. split; [by apply serves_close|]. split; [|split; [by left|split]].
    + apply (threads_next cr (T_start fd) None ts w); try done.
      * intros x fd'. rewrite (peers_lookup r q) by (by apply serves_close). cbn.
        rewrite (peers_lookup r q w) by done. naive_solver.
      * intros fd' k' Hne Hk' Hw'. exists k'. cbn in *. by rewrite lookup_delete_ne.
    + intros fd' Hne (k' & Hk' & Hin). exists k'. cbn in *. by rewrite lookup_delete_ne.
    + eapply rtc_l; [split; [done|by apply (orderly_connect cr pr fd k w NULL)]|].
      apply rtc_once. split; [done|by apply orderly_close].
  - apply Decidable.not_or in Hroom as [H1 H2].
    destruct (wp_inv _ _ _ (creg_register_safe cr pr r q fd w k Hw Hk Hkw Hfree ltac:(lia) H2))
      as (p & w1 & E & Ep & Hw1 & Hn1 & Hm1).
    destruct (creg_add_ok r p (sv_wf _ _ _ _ _ Hw) ltac:(lia)) as [_ Hr1].
    pose proof (co_mem _ _ _ _ (serves_core _ _ _ _ w Hw)) as Hm. pose proof (mo_brk _ _ _ _ Hm) as Hb0. cbn in Hb0.
    assert (p ≠ NULL) as Hp0 by (unfold NULL; lia).
    step E. rewrite decide_False by done. apply wp_ret. exists (creg_add r p), q.
    split; [done|]. split; [|split; [right; by exists p|split]].
    + apply (threads_next cr (T_start fd) _ ts w); [done| | |].
      * intros t' [= <-]. split; [done|]. exists k. by rewrite Hn1.
      * intros x fd'. rewrite (peers_lookup _ q w1), (peers_lookup r q w), Hr1, (mem_clients _ _ Hm1) by done. cbn.
        rewrite elem_of_app, list_elem_of_singleton, <-Ep.
        assert (p ∉ cr_registered r) as Hnin.
        { intros Hin. destruct (mo_regs _ _ _ _ Hm p Hin) as [c Hc].
          pose proof (mo_client_keys _ _ _ _ Hm p ltac:(by exists c)). cbn in *. lia. }
        destruct (decide (x = p)) as [->|Hne].
        -- rewrite lookup_insert_eq. split.
           ++ intros [_ (c & [= <-] & <-)]. by left.
           ++ intros [[= <-]|[[? _] _]]; [|done]. split; [by right|]. eauto.
        -- rewrite lookup_insert_ne by done. naive_solver.
      * intros fd' k' _ Hk' Hw'. exists k'. by rewrite Hn1.
    + intros fd' _ (k' & Hk' & Hin). exists k'. by rewrite Hn1.
    + apply rtc_once. split; [done|]. by apply (orderly_connect cr pr fd k w p).
Qed.

Lemma loop_turn r q fd p flag ts w : serves cr pr r q w → threads_ok cr (T_loop fd p flag :: ts) w →
  Z.of_nat (w_brk w) ≤ MAX_BRK → packet_guard cr p fd flag w →
  wp (thread_turn cr pr (T_loop fd p flag)) w (turn_post (T_loop fd p flag) ts r w).
Proof.
  intros Hw Hok Hb Hg. destruct (owner_registered cr pr r q _ ts w p fd Hw Hok eq_refl) as (Hp & _).
  destruct (to_open _ _ _ Hok (T_loop fd p flag) ltac:(by left)) as (k & Hk & Hkw). cbn [t_fd] in Hk.
  cbn [thread_turn]. apply wp_bind. eapply wp_mono_run; [apply (service_iteration_safe cr pr r q w p fd flag k Hw Hp Hb Hk)|].
  { intros res w1. apply Hg. exact (serves_creg _ _ _ _ _ Hw). }
  intros res w' E (q' & Hw' & Hs & k' & Hout & Hn & Hless). apply wp_ret. exists r, q'. split; [done|].
  assert (peers w' = peers w) as Epeers.
  { pose proof (iteration_steps cr pr r q w w' p flag res q' Hw Hw' Hp Hs) as Hst.
    rewrite (lobby_at_serves cr pr r q w Hw), (lobby_at_serves cr pr r q' w' Hw').
    remember (lobby_of (cr_registered r) (mem_of w)) as L. remember (lobby_of (cr_registered r) (mem_of w')) as L'.
    clear -Hst. induction Hst as [|L1 L2 L3 H1 _ IH]; [done|]. by rewrite IH, (request_peers p L1). }
  split; [|split; [split; [done|]|split]].
  - set (t' := if res.1 =? 0 then T_leave fd p else T_loop fd p res.2).
    assert (t_fd t' = fd ∧ t_owner t' = Some (p, fd)) as [Et Eo] by (unfold t'; by destruct (res.1 =? 0)).
    apply (threads_next cr (T_loop fd p flag) (Some t') ts w); [done| | |].
    + intros t2 [= <-]. split; [done|]. destruct (Hn fd k' (set_conn_lookup fd k' w)) as (k2 & Hk2 & Hw2 & _).
      exists k2. split; [done|]. apply Hw2. unfold writable. by rewrite (proj2 Hout).
    + intros x fd'. rewrite Epeers. cbn. rewrite Eo. destruct (decide (Some (p, fd) = Some (x, fd'))) as [E1|E1]; [|naive_solver].
      rewrite <-E1. split; [by left|]. intros _. injection E1 as <- <-.
      apply (to_owner _ _ _ Hok). rewrite fmap_cons. by left.
    + intros fd' k0 Hne Hk0 Hw0. cbn in Hne. destruct (Hn fd' k0) as (k2 & Hk2 & Hw2 & _).
      { cbn. by rewrite lookup_insert_ne. }
      exists k2. auto.
  - destruct (Z.eqb_spec res.1 0) as [Hz|Hz]; [right; split; [done|by eapply last_turn_brk]|].
    left. eexists. split; [done|]. intros (k0 & Hk0 & Hin). assert (k0 = k) as -> by congruence.
    specialize (Hless Hz). rewrite Hin in Hless. cbn in Hless. lia.
  - intros fd' Hne (k0 & Hk0 & Hin). cbn in Hne. destruct (Hn fd' k0) as (k2 & Hk2 & _ & [Ein _] & _).
    { cbn. by rewrite lookup_insert_ne. }
    exists k2. split; [done|congruence].
  - apply rtc_once. split; [done|]. eapply (orderly_packet cr pr p fd k flag); try done.
    by rewrite (registered_serves cr pr r q w Hw).
Qed.

Lemma leave_turn r q fd p ts w : serves cr pr r q w → threads_ok cr (T_leave fd p :: ts) w →
  Z.of_nat (w_brk w) ≤ MAX_BRK →
  wp (thread_turn cr pr (T_leave fd p)) w (turn_post (T_leave fd p) ts r w).
Proof.
  intros Hw Hok Hb. destruct (owner_registered cr pr r q _ ts w p fd Hw Hok eq_refl) as (Hp & c & Hc & Hfd).
  cbn [thread_turn].
  destruct (wp_inv _ _ _ (creg_unregister_safe cr pr r q p w Hw Hp Hb)) as (s & w1 & E & -> & i & Hi & Hw1 & Hu & Hn1 & _).
  destruct (creg_del_ok r i (sv_wf _ _ _ _ _ Hw)) as [_ Hr1]; [by eapply lookup_lt_Some|].
  step E. eapply wp_step; [reflexivity|]. apply wp_ret.
  pose proof (disconnect_steps cr pr r q w w1 p i Hw Hi Hu) as Hs.
  rewrite <-(lobby_at_serves cr pr r q w Hw), <-Hr1, <-(lobby_at_serves cr pr _ _ w1 Hw1) in Hs.
  assert (∀ x fd', peers w1 !! x = Some fd' ↔ peers w !! x = Some fd' ∧ x ≠ p) as Hpeers.
  { intros x fd'. destruct (decide (x = p)) as [->|Hne].
    - split; [|by intros [_ ?]]. rewrite (peers_lookup _ q w1), Hr1 by done. intros [Hin _]. exfalso.
      pose proof (mo_regs_nodup _ _ _ _ (co_mem _ _ _ _ (serves_core _ _ _ _ w Hw))) as Hnd.
      rewrite (delete_Permutation _ i p Hi) in Hnd. by apply NoDup_cons in Hnd as [? _].
    - rewrite (rtc_peers p _ _ x Hs Hne). naive_solver. }
  assert (peers w !! p = Some fd) as Hpp by (apply (peers_lookup r q); [done|eauto]).
  assert (fd_unused (cr_registered (creg_del r i)) fd w1) as Hfree.
  { apply (fd_unused_peers cr pr _ q); [done|]. intros x fd' [Hx Hne]%Hpeers ->. apply Hne.
    apply (peers_lookup r q) in Hx as (Hx & cx & Hcx & Ex); [|done].
    eapply (co_fds _ _ _ _ (serves_core _ _ _ _ w Hw)); [done|done|done|done|congruence]. }
  pose proof (unregister_brk r q p w w1 Hu) as Eb.
  exists (creg_del r i), q. split; [by apply serves_close|]. split; [|split; [|split]].
  - apply (threads_next cr (T_leave fd p) None ts w); [done|done| |].
    + intros x fd'. change (peers (set_net (delete fd (w_net w1)) w1)) with (peers w1). rewrite Hpeers. cbn.
      split; [intros [? ?]; right; split; [done|congruence]|]. intros [|[Hx Hne]]; [done|]. split; [done|].
      change (peers w !! x = Some fd') in Hx. intros ->. apply Hne. congruence.
    + intros fd' k0 Hne Hk0 Hw0. destruct (Hn1 fd' k0 Hk0) as (k2 & Hk2 & Hw2 & _). exists k2. cbn in *.
      rewrite lookup_delete_ne by done. auto.
  - split; [done|]. split; [exact Eb|]. by exists i.
  - intros fd' Hne (k0 & Hk0 & Hin). destruct (Hn1 fd' k0 Hk0) as (k2 & Hk2 & _ & [Ein _] & _). exists k2.
    cbn in *. rewrite lookup_delete_ne by done. split; [done|congruence].
  - eapply rtc_l; [split; [done|]|apply rtc_once; split; [by rewrite Eb|]].
    + eapply (orderly_disconnect cr pr p); [by rewrite (registered_serves cr pr r q w Hw)|exact E].
    + apply orderly_close. by rewrite (registered_serves cr pr _ q w1 Hw1).
Qed.

(** Every thread can take its turn. *)
Lemma thread_turn_safe r q t ts w : serves cr pr r q w → threads_ok cr (t :: ts) w →
  Z.of_nat (w_brk w) ≤ MAX_BRK → thread_guard cr t w →
  wp (thread_turn cr pr t) w (turn_post t ts r w).
Proof.
  intros Hw Hok Hb Hg. destruct t; [by eapply start_turn|by eapply loop_turn|by eapply leave_turn].
Qed.
End thread_turns.

(** ** The invariant of the system *)

Section invariant.
Context `{LibmLaws}.
Context (cr pr : ptr).
Implicit Types (w : world) (p : ptr) (t : THREAD) (ts : list THREAD).

(** After [creg_shutdown_all]: every thread has its client, the connections
    on which one waits are shut, and the semaphore is zero until the registry
    is empty. *)
Definition closing (r : CLIENT_REGISTRY) ts w : Prop :=
  (∀ t, t ∈ ts → t_owner t ≠ None) ∧ (cr_sem r = 0 ∨ cr_registered r = []) ∧
  (∀ fd p flag, T_loop fd p flag ∈ ts → shut fd w).

Definition phase (m : MAIN) (r : CLIENT_REGISTRY) ts w : Prop :=
  match m with
  | M_accept | M_shutdown => True
  | M_check => closing r ts w
  | M_wait => closing r ts w ∧ (cr_registered r = [] → 0 < cr_sem r)
  | M_fini => closing r ts w ∧ cr_registered r = []
  | M_exit => False
  end.

Definition sys_ok (s : SYSTEM) : Prop :=
  (∃ r q, serves cr pr r q (sy_world s) ∧ threads_ok cr (sy_threads s) (sy_world s) ∧
     phase (sy_main s) r (sy_threads s) (sy_world s)) ∨
  (sy_main s = M_exit ∧ sy_threads s = [] ∧ taken_down pr (sy_world s)).

Lemma pick_thread ts i t : ts !! i = Some t → ts ≡ₚ t :: delete i ts.
Proof. apply delete_Permutation. Qed.

Lemma owner_nonempty r q t ts w : serves cr pr r q w → threads_ok cr (t :: ts) w → t_owner t ≠ None →
  cr_registered r ≠ [].
Proof.
  intros Hw Hok Ht. destruct (t_owner t) as [[p fd]|] eqn:E; [|done].
  destruct (owner_registered cr pr r q t ts w p fd Hw Hok E) as [Hp _]. intros E'. rewrite E' in Hp. by apply elem_of_nil in Hp.
Qed.

(** Nobody is left without threads, and no thread without a client. *)
Lemma closing_empty r q ts w : serves cr pr r q w → threads_ok cr ts w → closing r ts w →
  cr_registered r = [] → ts = [].
Proof.
  intros Hw Hok (Hown & _) Hr. destruct ts as [|t ts]; [done|]. exfalso.
  eapply (owner_nonempty r q t ts w); [done|done|apply Hown; by left|done].
Qed.

(** A turn of a thread while the server closes. *)
Lemma closing_turn r q t ts w o w' : serves cr pr r q w → threads_ok cr (t :: ts) w → closing r (t :: ts) w →
  turn_post cr pr t ts r w o w' →
  w_brk w' = w_brk w ∧ ∃ r' q', serves cr pr r' q' w' ∧ threads_ok cr (option_list o ++ ts) w' ∧
    closing r' (option_list o ++ ts) w' ∧ (cr_registered r' = [] → 0 < cr_sem r') ∧
    match t with T_loop fd p _ => o = Some (T_leave fd p) | _ => o = None end.
Proof.
  intros Hw Hok (Hown & Hsem & Hshut) (r' & q' & Hw' & Hok' & Ht & Hother & _).
  pose proof (owner_nonempty r q t ts w Hw Hok (Hown t ltac:(by left))) as Hne.
  destruct Hsem as [Hsem|]; [|done].
  assert (∀ fd p flag, T_loop fd p flag ∈ ts → shut fd w') as Hshut'.
  { intros fd p flag Hin. apply Hother; [|apply (Hshut fd p flag); by right]. intros E.
    pose proof (to_fds _ _ _ Hok) as Hnd. rewrite fmap_cons in Hnd. apply NoDup_cons in Hnd as [Hni _].
    apply Hni. rewrite <-E. exact (list_elem_of_fmap_2 t_fd ts _ Hin). }
  destruct t as [fd|fd p flag|fd p]; cbn in Ht.
  - by destruct (Hown (T_start fd) ltac:(by left)).
  - destruct Ht as [-> [(flag' & -> & Hns)|[-> Hb]]].
    + exfalso. apply Hns, (Hshut fd p flag). by left.
    + split; [done|]. exists r, q'. split; [done|]. split; [done|]. split; [|done]. split; [|split; [by left|]].
      * intros t [->|Hin]%elem_of_cons; [done|]. apply Hown. by right.
      * intros fd' p' flag' [?|Hin]%elem_of_cons; [done|]. by apply (Hshut' fd' p' flag').
  - destruct Ht as (-> & Hb & i & Hi & -> & Hregs). split; [done|]. exists (creg_del r i), q'.
    pose proof (registered_length r (sv_wf _ _ _ _ _ Hw)) as Hlen.
    pose proof (rw_length _ (sv_wf _ _ _ _ _ Hw)) as Hl0. apply lookup_lt_Some in Hi as Hlt.
    assert (length (cr_registered (creg_del r i)) = (length (cr_registered r) - 1)%nat) as Hlen'.
    { rewrite Hregs. apply length_delete. by apply lookup_lt_is_Some. }
    split; [done|]. split; [done|]. split; [split; [|split; [|done]]|split; [|done]].
    + intros t Hin. apply Hown. by right.
    + cbn. destruct (Z.eqb_spec (cr_length r - 1) 0); [right|by left].
      apply length_zero_iff_nil. lia.
    + intros E. rewrite E in Hlen'. cbn. destruct (Z.eqb_spec (cr_length r - 1) 0); cbn in Hlen'; lia.
Qed.

(** ** The turns of the main thread *)

(** The threads and the clients agree whatever the main thread does to the
    registry and to the input. *)
Lemma threads_ok_world r r' q q' ts w w' : serves cr pr r q w → serves cr pr r' q' w' → threads_ok cr ts w →
  cr_registered r' = cr_registered r → w_clients w' = w_clients w →
  (∀ fd k, w_net w !! fd = Some k → writable k → ∃ k', w_net w' !! fd = Some k' ∧ writable k') →
  threads_ok cr ts w'.
Proof.
  intros Hw Hw' [H1 H2 H3] Hr Hc Hn. split; [done| |].
  - intros p fd. rewrite <-H2, (peers_lookup cr pr r' q' w'), (peers_lookup cr pr r q w), Hr, Hc; done.
  - intros t Ht. destruct (H3 t Ht) as (k & Hk & Hkw). by eapply Hn.
Qed.

Lemma shutdown_turn r q ts w : serves cr pr r q w → threads_ok cr ts w → shutdown_guard cr ts w →
  wp (main_turn cr pr M_shutdown) w (λ m' w', m' = M_check ∧ w_brk w' = w_brk w ∧ ∃ r' q', serves cr pr r' q' w' ∧
    threads_ok cr ts w' ∧ closing r' ts w').
Proof.
  intros Hw Hok [Hown Hsem]. cbn [main_turn]. apply wp_bind.
  eapply wp_mono; [apply (shutdown_all_shuts cr pr r q w Hw)|].
  intros [] w' (Hw' & Hm & Hn & Hshut). apply wp_ret. split; [done|].
  split; [exact (mem_brk _ _ Hm)|]. exists (cr_set_no 1 r), q.
  assert (threads_ok cr ts w') as Hok'.
  { eapply (threads_ok_world r); [done|exact Hw'|done|done|exact (mem_clients _ _ Hm)|].
    intros fd k Hk Hkw. destruct (Hn fd k Hk) as (k' & ? & ?). eauto. }
  split; [done|]. split; [done|]. split; [done|]. split; [exact (Hsem r (serves_creg _ _ _ _ _ Hw))|].
  intros fd p flag Hin. apply list_elem_of_lookup in Hin as [i Hi]. rewrite (pick_thread ts i _ Hi) in Hok'.
  destruct (owner_registered cr pr _ q _ _ w' p fd Hw' Hok' eq_refl) as (Hp & c & Hc & <-). by apply (Hshut p c).
Qed.

Lemma check_turn r q w : serves cr pr r q w →
  main_turn cr pr M_check w = Ret (if 0 <? cr_length r then M_wait else M_fini) w.
Proof. intros Hw. cbn [main_turn]. by run (load_run (V:=CLIENT_REGISTRY)) by exact (serves_creg _ _ _ _ _ Hw). Qed.

(** The main thread waits as long as no thread has posted. *)
Lemma wait_turn r q ts w : serves cr pr r q w → threads_ok cr ts w → closing r ts w →
  (cr_registered r = [] → 0 < cr_sem r) →
  if 0 <? cr_sem r then ∃ w' r', main_turn cr pr M_wait w = Ret M_fini w' ∧ serves cr pr r' q w' ∧
    threads_ok cr ts w' ∧ closing r' ts w' ∧ cr_registered r' = [] ∧ w_brk w' = w_brk w
  else main_turn cr pr M_wait w = Stuck ∧ ts ≠ [].
Proof.
  intros Hw Hok (Hown & Hsem & Hshut) Hpost. cbn [main_turn].
  pose proof (load_run (V:=CLIENT_REGISTRY) cr r w (serves_creg _ _ _ _ _ Hw)) as El.
  pose proof (rw_sem _ (sv_wf _ _ _ _ _ Hw)) as Hge. destruct (Z.ltb_spec 0 (cr_sem r)) as [Hs|Hs].
  - destruct Hsem as [?|Hregs]; [lia|].
    assert (serves cr pr (cr_set_sem (cr_sem r - 1) r) q (in_reg cr (cr_set_sem (cr_sem r - 1) r) w)) as Hw'.
    { apply (serves_reg cr pr r); [done| |done]. pose proof (sv_wf _ _ _ _ _ Hw) as []. split; cbn; try done. lia. }
    eexists _, _. split.
    { unfold creg_wait_sem. run El. rewrite (proj2 (Z.ltb_lt _ _) Hs).
      rewrite (in_reg_id cr pr r q w Hw) at 1. run reg_store. reflexivity. }
    split; [exact Hw'|]. split; [|split; [|done]].
    + by eapply (threads_ok_world r); [done|exact Hw'|done|done|done|eauto].
    + split; [done|]. split; [by right|done].
  - split.
    { unfold creg_wait_sem. unfold mbind at 1, M_bind at 1. run El. destruct (Z.ltb_spec 0 (cr_sem r)); [lia|done]. }
    intros ->. assert (cr_registered r = []) as E; [|specialize (Hpost E); lia].
    destruct (cr_registered r) as [|p l] eqn:E; [done|]. exfalso.
    destruct (co_open _ _ _ _ (serves_core _ _ _ _ w Hw) p) as (c & k & Hc & _); [rewrite E; by left|].
    assert (lb_peers (lobby_at cr w) !! p = Some (c_fd c)) as Hp.
    { apply (peers_lookup cr pr r q w); [done|]. split; [rewrite E; by left|eauto]. }
    apply (to_owner _ _ _ Hok) in Hp. by apply elem_of_nil in Hp.
Qed.

Lemma fini_turn r q ts w : serves cr pr r q w → threads_ok cr ts w → closing r ts w → cr_registered r = [] →
  wp (main_turn cr pr M_fini) w (λ m' w', m' = M_exit ∧ ts = [] ∧ taken_down pr w' ∧ w_brk w' = w_brk w).
Proof.
  intros Hw Hok Hcl Hr. cbn [main_turn]. pose proof (registries_fini cr pr r q w Hw Hr) as Hwp.
  apply wp_inv in Hwp as ([] & w' & E & Hd & Hb). apply (wp_run _ w M_exit w').
  { revert E. unfold mbind, M_bind. destruct (creg_fini cr w) as [[] w1| | |]; try done. by intros ->. }
  split; [done|]. split; [|done]. by eapply closing_empty.
Qed.

(** ** Events *)

Lemma threads_ok_peer r q fd k ts w : serves cr pr r q w → threads_ok cr ts w → w_net w !! fd = None → writable k →
  serves cr pr r q (set_conn fd k w) ∧ threads_ok cr (T_start fd :: ts) (set_conn fd k w) ∧
  threads_ok cr ts (set_conn fd k w).
Proof.
  intros Hw Hok Hfd Hk. split; [by apply peer_serves|].
  assert (threads_ok cr ts (set_conn fd k w)) as Hok'.
  { eapply (threads_ok_world r); [done|by apply peer_serves|done|done|done|]. intros fd' k' Hk' Hw'. exists k'.
    split; [|done]. cbn. rewrite lookup_insert_ne; [done|]. intros <-. congruence. }
  split; [|done]. destruct Hok' as [H1 H2 H3]. split.
  - rewrite fmap_cons. apply NoDup_cons. split; [|done]. intros (t & Et & Ht)%list_elem_of_fmap.
    destruct (to_open _ _ _ Hok t Ht) as (k' & Hk' & _). cbn in Et. congruence.
  - intros p fd'. rewrite H2, fmap_cons, elem_of_cons. naive_solver.
  - intros t [->|Ht]%elem_of_cons; [|by apply H3]. exists k. split; [apply set_conn_lookup|done].
Qed.

Lemma threads_ok_input r q fd k k' ts w : serves cr pr r q w → threads_ok cr ts w → w_net w !! fd = Some k →
  same_output k k' → serves cr pr r q (set_conn fd k' w) ∧ threads_ok cr ts (set_conn fd k' w).
Proof.
  intros Hw Hok Hk Ho. assert (serves cr pr r q (set_conn fd k' w)) as Hw' by (by apply (serves_read cr pr r q w fd k k')).
  split; [done|]. eapply (threads_ok_world r); [exact Hw|exact Hw'|done|done|done|]. intros fd0 k0 Hk0 Hkw.
  destruct (decide (fd0 = fd)) as [->|Hne].
  - exists k'. split; [apply set_conn_lookup|]. assert (k0 = k) as -> by congruence.
    unfold writable. by rewrite (proj2 Ho).
  - exists k0. split; [|done]. cbn. by rewrite lookup_insert_ne.
Qed.

Lemma event_ok s s' : sys_ok s → event s s' → sys_ok s'.
Proof.
  intros Hs He. destruct He as [fd k w ts s Hfd Hk|w ts s Hz|signum w ts m s|fd k k' w ts m s Hm Hk Ho].
  - destruct Hs as [(r & q & Hw & Hok & _)|[? _]]; [|done]. cbn in Hw, Hok. left. exists r, q.
    destruct (threads_ok_peer r q fd k ts w Hw Hok Hfd Hk) as (H1 & H2 & H3). cbn.
    unfold accept_turn. by destruct (Z.land s HANDLE_SIGHUP =? 0).
  - destruct Hs as [(r & q & Hw & Hok & _)|[? _]]; [|done]. left. exists r, q. cbn. unfold accept_turn.
    by destruct (Z.eqb_spec (Z.land s HANDLE_SIGHUP) 0).
  - exact Hs.
  - destruct Hs as [(r & q & Hw & Hok & Hp)|[E _]]; [|cbn in E; by destruct Hm; subst]. left. exists r, q.
    destruct (threads_ok_input r q fd k k' ts w Hw Hok Hk Ho). split; [done|]. split; [done|]. by destruct Hm as [->| ->].
Qed.

(** ** Turns keep the invariant *)

Lemma phase_turn m r q t ts w o w' : serves cr pr r q w → threads_ok cr (t :: ts) w → phase m r (t :: ts) w →
  turn_post cr pr t ts r w o w' →
  ∃ r' q', serves cr pr r' q' w' ∧ threads_ok cr (option_list o ++ ts) w' ∧ phase m r' (option_list o ++ ts) w'.
Proof.
  intros Hw Hok Hph Hpost. destruct m; cbn in Hph; try done.
  1,2: destruct Hpost as (r' & q' & ? & ? & _); eauto.
  1: destruct (closing_turn r q t ts w o w' Hw Hok Hph Hpost) as (_ & r' & q' & ? & ? & ? & _); exists r', q'; done.
  1: destruct Hph as [Hph _].
  1: destruct (closing_turn r q t ts w o w' Hw Hok Hph Hpost) as (_ & r' & q' & ? & ? & ? & ? & _); exists r', q'; done.
  destruct Hph as [Hph Hr]. discriminate (closing_empty r q _ w Hw Hok Hph Hr).
Qed.

Lemma phase_perm m r ts ts' w : ts ≡ₚ ts' → phase m r ts w → phase m r ts' w.
Proof.
  intros E. assert (closing r ts w → closing r ts' w) as Hc; [|destruct m; cbn; naive_solver].
  intros (H1 & H2 & H3). split; [|split; [done|]].
  - intros t. rewrite <-E. apply H1.
  - intros fd p flag. rewrite <-E. apply H3.
Qed.

(** The thread in slot [i] takes its turn. *)
Lemma thread_runs r q i t ts w m : serves cr pr r q w → threads_ok cr ts w → phase m r ts w → ts !! i = Some t →
  Z.of_nat (w_brk w) ≤ MAX_BRK → thread_guard cr t w →
  wp (thread_turn cr pr t) w (λ o w', turn_post cr pr t (delete i ts) r w o w' ∧
    ∃ r' q', serves cr pr r' q' w' ∧ threads_ok cr (set_thread i o ts) w' ∧ phase m r' (set_thread i o ts) w').
Proof.
  intros Hw Hok Hph Hi Hb Hg. pose proof (pick_thread ts i t Hi) as E. rewrite E in Hok.
  apply (phase_perm _ _ _ _ _ E) in Hph. eapply wp_mono; [by apply (thread_turn_safe cr pr r q t)|].
  intros o w' Hpost. split; [done|]. by eapply phase_turn.
Qed.

Lemma turn_ok who s s' : sys_ok s → Z.of_nat (w_brk (sy_world s)) ≤ MAX_BRK → turn_guard cr who s →
  turn cr pr who s s' → sys_ok s'.
Proof.
  intros Hs Hb Hg Ht. destruct Ht as [i t o w w' ts m s Hi E|m m' w w' ts s Hm E]; cbn [turn_guard sy_threads sy_world sy_main] in Hg;
    [specialize (Hg t Hi)|].
  - destruct Hs as [(r & q & Hw & Hok & Hph)|(_ & Hts & _)]; [|cbn in Hts; by subst]. cbn in *. left.
    pose proof (thread_runs r q i t ts w m Hw Hok Hph Hi Hb Hg) as Hwp. unfold wp in Hwp. rewrite E in Hwp.
    destruct Hwp as [_ (r' & q' & ? & ? & ?)]. exists r', q'. done.
  - destruct Hs as [(r & q & Hw & Hok & Hph)|(? & _)]; [|done]. cbn in *. destruct m; cbn [phase] in Hph; try done.
    + pose proof (shutdown_turn r q ts w Hw Hok (Hg eq_refl)) as Hwp. unfold wp in Hwp. rewrite E in Hwp.
      destruct Hwp as (-> & _ & r' & q' & ? & ? & ?). left. exists r', q'. done.
    + rewrite (check_turn r q w Hw) in E. injection E as <- <-. left. exists r, q. split; [done|]. split; [done|].
      pose proof (registered_length r (sv_wf _ _ _ _ _ Hw)) as Hlen. cbn.
      destruct (Z.ltb_spec 0 (cr_length r)); cbn [phase].
      * split; [done|]. intros Er. rewrite Er in Hlen. cbn in Hlen. lia.
      * split; [done|]. apply length_zero_iff_nil. lia.
    + destruct Hph as [Hcl Hpost]. pose proof (wait_turn r q ts w Hw Hok Hcl Hpost) as Hwait.
      destruct (0 <? cr_sem r); [|destruct Hwait as [E' _]; congruence].
      destruct Hwait as (w2 & r' & E' & ? & ? & ? & ? & _). rewrite E in E'. injection E' as -> ->. left. exists r', q. done.
    + destruct Hph as [Hcl Hr]. pose proof (fini_turn r q ts w Hw Hok Hcl Hr) as Hwp. unfold wp in Hwp. rewrite E in Hwp.
      destruct Hwp as (-> & -> & ? & _). by right.
Qed.

Lemma sys_orderly_ok s0 s : sys_ok s0 → sys_orderly cr pr s0 s → sys_ok s.
Proof.
  intros H1. induction 1 as [|s s' _ IH Hb [(who & Hg & Ht)|He]]; [done|by eapply turn_ok|by eapply event_ok].
Qed.
End invariant.

(** ** Progress, and the way down *)

Section progress.
Context `{LibmLaws}.
Context (cr pr : ptr).
Implicit Types (w : world) (p : ptr) (t : THREAD) (ts : list THREAD).

(** No turn fails: each returns, and only the wait for the last client may
    have to wait, while a thread is left. *)
Lemma turns_run s : sys_ok cr pr s → Z.of_nat (w_brk (sy_world s)) ≤ MAX_BRK →
  (∀ i t, sy_threads s !! i = Some t → thread_guard cr t (sy_world s) →
     ∃ o w', thread_turn cr pr t (sy_world s) = Ret o w') ∧
  (sy_main s ≠ M_accept → (sy_main s = M_shutdown → shutdown_guard cr (sy_threads s) (sy_world s)) →
     (∃ m' w', main_turn cr pr (sy_main s) (sy_world s) = Ret m' w') ∨
     (sy_main s = M_wait ∧ main_turn cr pr M_wait (sy_world s) = Stuck ∧ sy_threads s ≠ [])).
Proof.
  destruct s as [w ts m sig]. cbn. intros Hs Hb. split.
  - intros i t Hi Hg. destruct Hs as [(r & q & Hw & Hok & Hph)|(_ & Hts & _)]; [|cbn in Hts; by subst]. cbn in *.
    destruct (wp_inv _ _ _ (thread_runs cr pr r q i t ts w m Hw Hok Hph Hi Hb Hg)) as (o & w' & E & _). eauto.
  - intros Hm Hg. destruct Hs as [(r & q & Hw & Hok & Hph)|(E & _)]; [|cbn in E; subst; left; by eexists _, _].
    cbn in *. destruct m; cbn [phase] in Hph; try done.
    + destruct (wp_inv _ _ _ (shutdown_turn cr pr r q ts w Hw Hok (Hg eq_refl))) as (m' & w' & E & _). eauto.
    + rewrite (check_turn cr pr r q w Hw). eauto.
    + destruct Hph as [Hcl Hpost]. pose proof (wait_turn cr pr r q ts w Hw Hok Hcl Hpost) as Hwait.
      destruct (0 <? cr_sem r); [destruct Hwait as (w' & r' & E & _); eauto|]. right. by destruct Hwait.
    + destruct Hph as [Hcl Hr]. destruct (wp_inv _ _ _ (fini_turn cr pr r q ts w Hw Hok Hcl Hr)) as (m' & w' & E & _). eauto.
Qed.

(** The main thread is past [creg_shutdown_all]. *)
Definition going_down (m : MAIN) : bool :=
  match m with M_accept | M_shutdown => false | _ => true end.

(** Turns left: two for each thread in its loop, one for a thread past it. *)
Definition main_turns (m : MAIN) : nat :=
  match m with M_accept | M_shutdown => 4 | M_check => 3 | M_wait => 2 | M_fini => 1 | M_exit => 0 end.
Definition thread_turns (t : THREAD) : nat := match t with T_leave _ _ => 1 | _ => 2 end.
Definition turns_left (s : SYSTEM) : nat := main_turns (sy_main s) + sum_list_with thread_turns (sy_threads s).

Lemma sum_list_with_perm {A} (f : A → nat) l l' : l ≡ₚ l' → sum_list_with f l = sum_list_with f l'.
Proof. induction 1; cbn; lia. Qed.

Lemma phase_closing r ts w m : phase m r ts w → going_down m = true → m ≠ M_exit → closing r ts w.
Proof. destruct m; cbn; naive_solver. Qed.

(** On the way down every turn is within the guards: what is left to receive
    is the end of the input. *)
Lemma closing_thread_guard r q ts w t : serves cr pr r q w → closing r ts w → t ∈ ts → thread_guard cr t w.
Proof.
  intros Hw (_ & _ & Hshut) Ht. destruct t as [|fd p flag|]; [done| |done].
  apply (shut_guard cr pr r q w p fd flag Hw). by apply (Hshut fd p flag).
Qed.

Lemma closing_guard who s : sys_ok cr pr s → going_down (sy_main s) = true → turn_guard cr who s.
Proof.
  intros Hs Hd. destruct who as [i|]; [|by intros E; rewrite E in Hd]. intros t Hi.
  destruct Hs as [(r & q & Hw & _ & Hph)|(_ & Hts & _)]; [|by rewrite Hts in Hi].
  assert (sy_main s ≠ M_exit) as Hm by (intros E; by rewrite E in Hph).
  eapply (closing_thread_guard r q (sy_threads s)); [done|by eapply phase_closing|by eapply list_elem_of_lookup_2].
Qed.

Lemma closing_turn_left s s' : sys_ok cr pr s → going_down (sy_main s) = true →
  Z.of_nat (w_brk (sy_world s)) ≤ MAX_BRK → any_turn cr pr s s' → sys_ok cr pr s' ∧
  going_down (sy_main s') = true ∧ (turns_left s' < turns_left s)%nat ∧
  Z.of_nat (w_brk (sy_world s')) ≤ MAX_BRK.
Proof.
  intros Hs Hd Hb [who Ht]. pose proof (closing_guard who s Hs Hd) as Hg. split; [by eapply turn_ok|].
  destruct Ht as [i t o w w' ts m s Hi E|m m' w w' ts s Hm E]; cbn [turn_guard sy_main sy_world sy_threads] in *;
    [specialize (Hg t Hi)|].
  - destruct Hs as [(r & q & Hw & Hok & Hph)|(_ & Hts & _)]; [|cbn in Hts; by subst].
    cbn [sy_main sy_world sy_threads] in *. assert (m ≠ M_exit) as Hm by (intros ->; done). pose proof (phase_closing r ts w m Hph Hd Hm) as Hcl.
    pose proof (thread_runs cr pr r q i t ts w m Hw Hok Hph Hi Hb Hg) as Hwp. unfold wp in Hwp. rewrite E in Hwp.
    destruct Hwp as [Hpost _]. pose proof (pick_thread ts i t Hi) as Eperm. rewrite Eperm in Hok.
    assert (closing r (t :: delete i ts) w) as Hcl' by (apply (phase_perm M_check r ts); [done|exact Hcl]).
    destruct (closing_turn cr pr r q t _ w o w' Hw Hok Hcl' Hpost) as (Eb & r' & q' & _ & _ & _ & _ & Eo).
    split; [done|]. split; [|lia]. unfold turns_left, set_thread. cbn [sy_main sy_threads].
    assert (sum_list_with thread_turns ts = (thread_turns t + sum_list_with thread_turns (delete i ts))%nat) as ->
      by (by rewrite (sum_list_with_perm _ _ _ Eperm)).
    rewrite sum_list_with_app. destruct t; subst o; cbn; lia.
  - destruct Hs as [(r & q & Hw & Hok & Hph)|(Ex & _)]; [|done]. cbn [sy_main sy_world sy_threads] in *.
    destruct m; cbn [phase] in Hph; try done.
    + rewrite (check_turn cr pr r q w Hw) in E. injection E as <- <-.
      unfold turns_left. cbn [sy_main sy_threads main_turns]. destruct (0 <? cr_length r); cbn; split_and!; try done; lia.
    + destruct Hph as [Hcl Hpost]. pose proof (wait_turn cr pr r q ts w Hw Hok Hcl Hpost) as Hwait.
      destruct (0 <? cr_sem r); [|destruct Hwait as [E' _]; congruence].
      destruct Hwait as (w2 & r' & E' & _ & _ & _ & _ & Eb). rewrite E in E'. injection E' as -> ->.
      unfold turns_left. cbn [sy_main sy_threads main_turns]. split_and!; [done|lia|lia].
    + destruct Hph as [Hcl Hr]. pose proof (fini_turn cr pr r q ts w Hw Hok Hcl Hr) as Hwp. unfold wp in Hwp. rewrite E in Hwp.
      destruct Hwp as (-> & -> & _ & Eb). unfold turns_left. cbn. split_and!; [done|lia|lia].
Qed.

Lemma closing_runs n s s' : sys_ok cr pr s → going_down (sy_main s) = true →
  Z.of_nat (w_brk (sy_world s)) ≤ MAX_BRK → nsteps (any_turn cr pr) n s s' →
  sys_ok cr pr s' ∧ going_down (sy_main s') = true ∧ Z.of_nat (w_brk (sy_world s')) ≤ MAX_BRK ∧
  (n + turns_left s' ≤ turns_left s)%nat.
Proof.
  intros Hs Hd Hb Hn. revert Hs Hd Hb. induction Hn as [s|n s s1 s' Ht _ IH]; intros Hs Hd Hb; [done|].
  destruct (closing_turn_left s s1 Hs Hd Hb Ht) as (Hs1 & Hd1 & Hlt & Hb1).
  destruct IH as (H1 & H2 & H3 & Hle); [done..|]. split_and!; [done..|lia].
Qed.

(** The turn of [creg_shutdown_all]. *)
Lemma shutdown_begins s : sys_ok cr pr s → sy_main s = M_shutdown → shutdown_guard cr (sy_threads s) (sy_world s) →
  Z.of_nat (w_brk (sy_world s)) ≤ MAX_BRK → ∃ s1, turn cr pr None s s1.
Proof.
  intros Hs Hm Hg Hb. destruct s as [w ts m sig]. cbn in *. subst m.
  destruct (proj2 (turns_run _ Hs Hb) ltac:(done) ltac:(done)) as [(m' & w' & E)|[? _]]; [|done].
  eexists. by eapply turn_main.
Qed.

Lemma shutdown_turn_left s s1 : sys_ok cr pr s → sy_main s = M_shutdown →
  shutdown_guard cr (sy_threads s) (sy_world s) → Z.of_nat (w_brk (sy_world s)) ≤ MAX_BRK → turn cr pr None s s1 →
  sys_ok cr pr s1 ∧ going_down (sy_main s1) = true ∧ Z.of_nat (w_brk (sy_world s1)) ≤ MAX_BRK ∧
  sy_threads s1 = sy_threads s.
Proof.
  intros Hs Hm Hg Hb Ht. split; [apply (turn_ok cr pr None s); [done|done|by intros _|done]|].
  inversion Ht as [|m m' w w' ts sg Hx E]; subst. cbn in *. subst m.
  destruct Hs as [(r & q & Hw & Hok & Hph)|(? & _)]; [|done]. cbn in * |-. change (main_turn cr pr M_shutdown w = Ret m' w') in E. cbn.
  pose proof (shutdown_turn cr pr r q ts w Hw Hok Hg) as Hwp. unfold wp in Hwp. rewrite E in Hwp.
  destruct Hwp as (-> & -> & r2 & q2 & _). by split_and!.
Qed.

(** Only a server that is down has no turn left. *)
Lemma next_turn s : sys_ok cr pr s → going_down (sy_main s) = true → Z.of_nat (w_brk (sy_world s)) ≤ MAX_BRK →
  (∃ s', any_turn cr pr s s') ∨ (sy_main s = M_exit ∧ sy_threads s = [] ∧ taken_down pr (sy_world s)).
Proof.
  intros Hs Hd Hb. destruct (turns_run s Hs Hb) as [Hthreads Hmain].
  destruct Hs as [(r & q & Hw & Hok & Hph)|]; [left|by right]. destruct s as [w ts m sig]. cbn in *.
  assert (m ≠ M_exit) as Hm by (intros ->; done). pose proof (phase_closing r ts w m Hph Hd Hm) as Hcl.
  destruct ts as [|t ts].
  - destruct Hmain as [(m' & w' & E)|(_ & _ & ?)]; [by intros ->|by intros ->| |done].
    eexists. exists None. eapply turn_main; [done|exact E].
  - pose proof (closing_thread_guard r q (t :: ts) w t Hw Hcl ltac:(by left)) as Hg.
    destruct (Hthreads 0%nat t eq_refl Hg) as (o & w' & E).
    eexists. exists (Some 0%nat). exact (turn_thread cr pr 0 t o w w' (t :: ts) m sig eq_refl E).
Qed.

Lemma turns_left_bound s : going_down (sy_main s) = true → (turns_left s ≤ 3 + 2 * length (sy_threads s))%nat.
Proof.
  intros Hd. unfold turns_left. assert (main_turns (sy_main s) ≤ 3)%nat by (destruct (sy_main s); cbn in *; (done || lia)).
  assert (sum_list_with thread_turns (sy_threads s) ≤ 2 * length (sy_threads s))%nat; [|lia].
  induction (sy_threads s) as [|t ts IH]; cbn; [lia|]. destruct t; cbn; lia.
Qed.

(** ** The worlds of the system are those of [Lifecycle] *)

Lemma up_before s s' : any_turn cr pr s s' ∨ event s s' → going_down (sy_main s') = false → going_down (sy_main s) = false.
Proof.
  intros [[who Ht]|He]; [destruct Ht as [|m m' w w' ts sg Hm E]|destruct He]; cbn; try done.
  destruct m; cbn; try done; cbn [main_turn] in E.
  - unfold mbind, M_bind in E. destruct (load cr w) as [r w1| | |]; try done.
    injection E as <- _. by destruct (0 <? cr_length r).
  - unfold mbind, M_bind in E. destruct (creg_wait_sem cr w) as [[] w1| | |]; try done. by injection E as <- _.
  - unfold mbind, M_bind in E. destruct (creg_fini cr w) as [[] w1| | |]; try done.
    destruct (preg_fini pr w1) as [[] w2| | |]; try done. by injection E as <- _.
Qed.

Lemma worlds_orderly s0 s : sys_ok cr pr s0 → sys_orderly cr pr s0 s → going_down (sy_main s) = false →
  orderly cr pr (sy_world s0) (sy_world s).
Proof.
  intros H0s. induction 1 as [|s s' Hr IH Hb Hst]; intros Hd; [constructor|].
  assert (any_turn cr pr s s' ∨ event s s') as Hst' by (destruct Hst as [(who & _ & ?)|?]; [left; by exists who|by right]).
  pose proof (up_before s s' Hst' Hd) as Hd1. specialize (IH Hd1).
  pose proof (sys_orderly_ok cr pr s0 s H0s Hr) as Hs. destruct Hst as [(who & Hg & Ht)|He].
  - destruct Ht as [i t o w w' ts m sg Hi E|m m' w w' ts sg Hm E]; cbn [turn_guard sy_main sy_world sy_threads] in *.
    + destruct Hs as [(r & q & Hw & Hok & Hph)|(_ & Hts & _)]; [|cbn in Hts; by subst].
      cbn [sy_main sy_world sy_threads] in *.
      pose proof (thread_runs cr pr r q i t ts w m Hw Hok Hph Hi Hb (Hg t Hi)) as Hwp. unfold wp in Hwp. rewrite E in Hwp.
      destruct Hwp as [(r' & q' & _ & _ & _ & _ & Hsteps) _]. by eapply orderly_steps.
    + exfalso. destruct m; cbn in Hd1; try done; cbn [main_turn] in E.
      unfold mbind, M_bind in E. destruct (creg_shutdown_all cr w) as [[] w1| | |]; try done. by injection E as <- _.
  - destruct He as [fd k w ts sg Hfd Hk|w ts sg Hz|signum w ts m sg|fd k k' w ts m sg Hm Hk Ho];
      cbn [sy_main sy_world] in *; try done.
    + eapply orderly_next; [exact IH|exact Hb|]. by apply orderly_peer.
    + eapply orderly_next; [exact IH|exact Hb|]. by eapply orderly_input.
Qed.
End progress.

(** ** Starting *)

(** The first client's thread, after [boot]. *)
Definition sys_init (w0 : world) (p0 : ptr) (fd0 : Z) : SYSTEM := mkSYS w0 [T_loop fd0 p0 0] M_accept 0.

Lemma empty_threads_ok `{LibmLaws} fd k : writable k → threads_ok 1 [T_start fd] (empty_server fd k).
Proof.
  intros Hk. split.
  - repeat constructor. by intros ?%elem_of_nil.
  - intros p fd'. destruct (empty_serves fd k) as (r & q & Hw & _). rewrite (peers_lookup 1 2 r q) by done.
    cbn. split; [|by intros [?|?%elem_of_nil]%elem_of_cons]. intros (_ & c & Hc & _). by rewrite lookup_empty in Hc.
  - intros t ->%list_elem_of_singleton. exists k. split; [apply lookup_singleton_eq|done].
Qed.

Lemma boot_sys_ok `{LibmLaws} fd k w : writable k → boot fd (boot_world fd k) = Ret (1%nat, 2%nat, 3%nat) w →
  sys_ok 1 2 (sys_init w 3 fd).
Proof.
  intros Hk E. destruct (empty_serves fd k) as (r & q & Hw & Hl & Hno).
  pose proof (start_turn 1 2 r q fd [] _ Hw (empty_threads_ok fd k Hk) ltac:(done)) as Hwp.
  cbn [thread_turn] in Hwp. rewrite boot_register in E. unfold wp, mbind, M_bind, mret, M_ret in *.
  destruct (creg_register 1 fd (empty_server fd k)) as [p w1| | |]; try done.
  injection E as -> ->. rewrite decide_False in Hwp by done. destruct Hwp as (r' & q' & H1 & H2 & _).
  left. exists r', q'. done.
Qed.
