(* ===== verification/Demo.v ===== *)
(** * A session

    Concrete states of the server, each computed from the one before by the
    code itself: two clients connect and log in, one invites the other, and
    they play.  They show that the hypotheses of the theorems can hold, and
    they are the scenarios of [Findings]. *)
From S2P Require Import Prelude Game Player Elo World Objects Protocol Wire PlayerRegistry Invitation Client Sessions ClientRegistry Server Main Accounting Effects Handlers Directory Playing Logout Requests Login Service Lifecycle Lobby Refinement Loop Shutdown System.

#[local] Existing Instance step_pow.
#[local] Existing Instance step_pow_laws.

(** A connection that delivers nothing and accepts everything. *)
Definition idle : CONN := mkCONN [] [] [] [].

Lemma idle_writable : writable idle.
Proof. constructor. Qed.

(** The world a call leaves. *)
Definition world_of {A} (o : outcome A) (w : world) : world :=
  match o with Ret _ w' => w' | _ => w end.

(** A packet of this type, identifier and role, for a payload of [n] bytes. *)
Definition packet (type id role n : Z) : JEUX_PACKET_HEADER := mkHDR type id role (htons n) 0 0.

Definition alice : list byte := [97].
Definition bob : list byte := [98].

(** Two peers connect, on descriptors 4 and 5: clients 3 and 4. *)
Definition s_one : world := Eval vm_compute in world_of (boot 4 (boot_world 4 idle)) (boot_world 4 idle).
Definition s_peer : world := Eval vm_compute in set_conn 5 idle s_one.
Definition s_two : world := Eval vm_compute in world_of (creg_register 1 5 s_peer) s_peer.

(** They log in as alice and bob. *)
Definition s_alice : world := Eval vm_compute in
  world_of (process_login 2 (Some alice) (packet 1 0 0 1) 3 s_two) s_two.
Definition s_bob : world := Eval vm_compute in
  world_of (process_login 2 (Some bob) (packet 1 0 0 1) 4 s_alice) s_alice.

(** Alice invites bob to play first, bob accepts. *)
Definition s_invited : world := Eval vm_compute in
  world_of (process_invite 1 (Some bob) 3 (packet 3 0 1 1) s_bob) s_bob.
Definition s_playing : world := Eval vm_compute in
  world_of (process_accept None 4 (packet 5 0 0 0) s_invited) s_invited.


(** ** The invariant holds in each of them *)

Lemma wp_at {A} (m : M A) w (Q : A → world → Prop) a w' : wp m w Q → m w = Ret a w' → Q a w'.
Proof. unfold wp. by intros HQ E; rewrite E in HQ. Qed.

(** The registries, as the world holds them. *)
Definition creg_of (w : world) : CLIENT_REGISTRY := default (mkCREG false 0 0 0 [] 0) (w_cregs w !! 1%nat).
Definition preg_of (w : world) : PLAYER_REGISTRY := default (mkPREG [] 0) (w_pregs w !! 2%nat).

Definition good (w : world) : Prop := serves 1 2 (creg_of w) (preg_of w) w.

Lemma serving_good w : serving 1 2 w → good w.
Proof.
  intros (r & q & Hw). unfold good, creg_of, preg_of.
  by rewrite (serves_creg _ _ _ _ _ Hw), (sv_preg _ _ _ _ _ Hw).
Qed.

Lemma serves_good r q w : serves 1 2 r q w → good w.
Proof. intros Hw. apply serving_good. by exists r, q. Qed.

Lemma s_one_good : good s_one.
Proof.
  destruct (boot_serving 4 idle idle_writable) as (w & E & r & q & Hw).
  assert (boot 4 (boot_world 4 idle) = Ret (1%nat, 2%nat, 3%nat) s_one) as E' by (vm_compute; reflexivity).
  rewrite E' in E. injection E as <-. by eapply serves_good.
Qed.

Lemma s_peer_good : good s_peer.
Proof.
  assert (s_peer = set_conn 5 idle s_one) as -> by (vm_compute; reflexivity).
  eapply serves_good, (peer_serves _ _ _ _ _ _ _ s_one_good); [reflexivity|exact idle_writable].
Qed.

Lemma s_peer_unused : fd_unused (cr_registered (creg_of s_peer)) 5 s_peer.
Proof.
  assert (map_Forall (λ _ c, c_fd c ≠ 5) (w_clients s_peer)) as Hall
    by (apply (bool_decide_eq_true_1 _); vm_compute; reflexivity).
  intros p c _ Hc. exact (Hall p c Hc).
Qed.

Lemma s_two_good : good s_two.
Proof.
  apply serving_good.
  refine (wp_at (creg_register 1 5) s_peer _ 4%nat s_two (connect_runs 1 2 s_peer 5 idle _ _ idle_writable s_peer_unused) _).
  - eexists _, _. exact s_peer_good.
  - reflexivity.
  - vm_compute. reflexivity.
Qed.

Lemma s_alice_good : good s_alice.
Proof.
  destruct (wp_at _ _ _ 1 s_alice (process_login_safe 1 2 _ _ s_two 3 (Some alice) (packet 1 0 0 1) s_two_good ltac:(by left) ltac:(vm_compute; discriminate)))
    as (q & Hw & _); [vm_compute; reflexivity|by eapply serves_good].
Qed.

Lemma s_bob_good : good s_bob.
Proof.
  destruct (wp_at _ _ _ 1 s_bob (process_login_safe 1 2 _ _ s_alice 4 (Some bob) (packet 1 0 0 1) s_alice_good ltac:(by right; left) ltac:(vm_compute; discriminate)))
    as (q & Hw & _); [vm_compute; reflexivity|by eapply serves_good].
Qed.

(** In [s_bob] both are online, so inviting is safe. *)
Lemma s_bob_guard : invite_guard (creg_of s_bob) 3 (Some bob) s_bob.
Proof.
  intros user [= <-] _ _. assert (found s_bob (cr_registered (creg_of s_bob)) bob = 4%nat) as ->
    by (vm_compute; reflexivity).
  split; eexists; (split; [vm_compute; reflexivity|reflexivity]).
Qed.


Lemma s_invited_run : process_invite 1 (Some bob) 3 (packet 3 0 1 1) s_bob = Ret 0 s_invited.
Proof. vm_compute. reflexivity. Qed.
Lemma s_playing_run : process_accept None 4 (packet 5 0 0 0) s_invited = Ret 0 s_playing.
Proof. vm_compute. reflexivity. Qed.

Lemma s_bob_brk : Z.of_nat (w_brk s_bob) ≤ MAX_BRK.
Proof. vm_compute. discriminate. Qed.

Lemma handled_good {A} (op : M A) w Q a w' :
  handled 1 2 (creg_of w) (preg_of w) op w Q → op w = Ret a w' → good w' ∧ Q a w'.
Proof.
  intros Ho E. unfold handled in Ho. apply (wp_at _ _ _ _ _ Ho) in E as (Hw & _ & HQ).
  split; [by eapply serves_good|done].
Qed.

(** With the packets in the normal form [l']. *)
Lemma handled_told {A} (op : M A) w (Q : A → world → Prop) (l : A → list NOTICE) a w' l' :
  handled 1 2 (creg_of w) (preg_of w) op w (λ a w', Q a w' ∧ told w w' (l a)) →
  op w = Ret a w' → l a = l' → Q a w' ∧ told w w' l'.
Proof. intros Ho E <-. exact (proj2 (handled_good op w _ a w' Ho E)). Qed.

Lemma handled_runs {A} (op : M A) r q w Q :
  handled 1 2 r q op w Q → ∃ a w', op w = Ret a w' ∧ Q a w'.
Proof.
  intros Ho. unfold handled in Ho. destruct (wp_inv _ _ _ Ho) as (a & w' & E & _ & _ & HQ). eauto.
Qed.

Lemma registered_in w p : existsb (Nat.eqb p) (cr_registered (creg_of w)) = true → p ∈ cr_registered (creg_of w).
Proof. intros (x & Hx & ->%Nat.eqb_eq)%existsb_exists. by apply list_elem_of_In. Qed.

Lemma s_invited_good : good s_invited.
Proof.
  refine (proj1 (handled_good _ _ _ _ _ (process_invite_handled 1 2 _ _ s_bob 3 (packet 3 0 1 1) (Some bob)
    s_bob_good _ s_bob_brk s_bob_guard) s_invited_run)).
  apply registered_in. vm_compute. reflexivity.
Qed.

Lemma s_playing_good : good s_playing.
Proof.
  refine (proj1 (handled_good _ _ _ _ _ (process_accept_handled 1 2 _ _ s_invited 4 (packet 5 0 0 0)
    s_invited_good _) s_playing_run)).
  apply registered_in. vm_compute. reflexivity.
Qed.

(** ** A session on the wire

    The same beginning as steps of the server: the peers connect, and send
    LOGIN packets. *)

Lemma s_two_orderly : orderly 1 2 s_one s_two.
Proof.
  apply orderly_next with s_peer; [apply orderly_next with s_one; [constructor| |]| |].
  - vm_compute. discriminate.
  - assert (s_peer = set_conn 5 idle s_one) as -> by (vm_compute; reflexivity).
    apply orderly_peer; [reflexivity|exact idle_writable].
  - vm_compute. discriminate.
  - apply orderly_connect with 5 idle 4%nat; [reflexivity|exact idle_writable|exact s_peer_unused|].
    vm_compute. reflexivity.
Qed.

(** This input arrives on [fd]. *)
Definition incoming (fd : Z) (k : CONN) (bytes : list byte) (w : world) : world :=
  set_conn fd (mkCONN (k_out k) (k_wscript k) bytes []) w.

Lemma packet_step w p fd k bytes flag res w' :
  w_net w !! fd = Some k → p ∈ registered 1 w → Z.of_nat (w_brk w) ≤ MAX_BRK →
  packet_guard 1 p fd flag (incoming fd k bytes w) →
  service_iteration 1 2 fd p flag (incoming fd k bytes w) = Ret res w' →
  orderly 1 2 s_one w → orderly 1 2 s_one w'.
Proof.
  intros Hk Hp Hb Hg E Hr. apply orderly_next with (incoming fd k bytes w).
  - apply orderly_next with w; [done|done|]. by apply orderly_input with k.
  - done.
  - eapply orderly_packet; [exact Hp|apply set_conn_lookup|exact Hg|exact E].
Qed.

(** A LOGIN packet is always safe. *)
Lemma login_guard p fd flag w :
  match proto_recv_packet fd true w with Ret res _ => h_type res.1.2 = JEUX_LOGIN_PKT | _ => False end →
  packet_guard 1 p fd flag w.
Proof. intros Ht r res w1 _ E _. rewrite E in Ht. split; rewrite Ht; discriminate. Qed.

Definition login_packet (name : list byte) : list byte :=
  header_bytes (packet JEUX_LOGIN_PKT 0 0 (Z.of_nat (length name))) ++ name.

Definition t_alice : world := Eval vm_compute in
  let w := incoming 4 idle (login_packet alice) s_two in world_of (service_iteration 1 2 4 3 0 w) w.
Definition t_bob : world := Eval vm_compute in
  let w := incoming 5 idle (login_packet bob) t_alice in world_of (service_iteration 1 2 5 4 0 w) w.

Lemma registered_now w p : existsb (Nat.eqb p) (registered 1 w) = true → p ∈ registered 1 w.
Proof. intros (x & Hx & ->%Nat.eqb_eq)%existsb_exists. by apply list_elem_of_In. Qed.

Lemma t_alice_orderly : orderly 1 2 s_one t_alice.
Proof.
  eapply (packet_step s_two 3 4 idle (login_packet alice) 0 (1, 1)); [reflexivity| | | | |exact s_two_orderly].
  - apply registered_now. vm_compute. reflexivity.
  - vm_compute. discriminate.
  - apply login_guard. vm_compute. reflexivity.
  - vm_compute. reflexivity.
Qed.

Lemma t_bob_orderly : orderly 1 2 s_one t_bob.
Proof.
  eapply (packet_step t_alice 4 5 idle (login_packet bob) 0 (1, 1)); [reflexivity| | | | |exact t_alice_orderly].
  - apply registered_now. vm_compute. reflexivity.
  - vm_compute. discriminate.
  - apply login_guard. vm_compute. reflexivity.
  - vm_compute. reflexivity.
Qed.

Lemma s_one_started : started 1 2 3 4 idle s_one.
Proof. split; [exact idle_writable|]. vm_compute. reflexivity. Qed.

(** ** The threads of a session

    The second peer is accepted and its thread registers it; then SIGHUP
    arrives, and [creg_shutdown_all] runs. *)
Definition y_one : SYSTEM := sys_init s_one 3 4.
Definition y_two : SYSTEM := mkSYS s_two [T_loop 5 4 0; T_loop 4 3 0] M_accept 0.
Definition z_two : world := Eval vm_compute in world_of (creg_shutdown_all 1 s_two) s_two.
Definition y_down : SYSTEM := mkSYS z_two [T_loop 5 4 0; T_loop 4 3 0] M_check 1.

Lemma y_two_runs : sys_orderly 1 2 y_one y_two.
Proof.
  apply sys_next with (mkSYS s_peer [T_start 5; T_loop 4 3 0] M_accept 0); [apply sys_next with y_one; [constructor| |]| |].
  - vm_compute. discriminate.
  - right. assert (s_peer = set_conn 5 idle s_one) as -> by (vm_compute; reflexivity).
    exact (ev_accept 5 idle s_one [T_loop 4 3 0] 0 ltac:(vm_compute; reflexivity) idle_writable).
  - vm_compute. discriminate.
  - left. exists (Some 0%nat). split; [by intros t [= <-]|].
    apply (turn_thread 1 2 0 (T_start 5) (Some (T_loop 5 4 0)) s_peer s_two [T_start 5; T_loop 4 3 0]); [reflexivity|].
    vm_compute. reflexivity.
Qed.

Lemma y_two_brk : Z.of_nat (w_brk (sy_world y_two)) ≤ MAX_BRK.
Proof. vm_compute. discriminate. Qed.

(** SIGHUP arrives, and [accept] returns: the main thread is about to run
    [terminate]. *)
Definition y_stop : SYSTEM := mkSYS s_two [T_loop 5 4 0; T_loop 4 3 0] M_shutdown 1.

Lemma y_stop_runs : sys_orderly 1 2 y_one y_stop.
Proof.
  apply sys_next with (mkSYS s_two [T_loop 5 4 0; T_loop 4 3 0] M_accept 1);
    [apply sys_next with y_two; [exact y_two_runs|exact y_two_brk|]|exact y_two_brk|].
  - right. exact (ev_signal SIGHUP s_two [T_loop 5 4 0; T_loop 4 3 0] M_accept 0).
  - right. exact (ev_interrupt s_two [T_loop 5 4 0; T_loop 4 3 0] 1 ltac:(discriminate)).
Qed.

Lemma y_stop_guard : shutdown_guard 1 (sy_threads y_stop) (sy_world y_stop).
Proof.
  split.
  - intros t [->|[->|[]%elem_of_nil]%elem_of_cons]%elem_of_cons; discriminate.
  - intros r Hr. left. vm_compute in Hr. by injection Hr as <-.
Qed.

Lemma y_down_turn : turn 1 2 None y_stop y_down.
Proof. apply turn_main; [discriminate|vm_compute; reflexivity]. Qed.

(** A connection that has sent the packet of a LOGIN and nothing else. *)
Definition eager : CONN := mkCONN [] [] (login_packet bob) [].
Definition s_eager : world := Eval vm_compute in set_conn 5 eager s_one.

Lemma s_eager_good : good s_eager.
Proof.
  assert (s_eager = set_conn 5 eager s_one) as -> by (vm_compute; reflexivity).
  eapply serves_good, (peer_serves _ _ _ _ _ _ _ s_one_good); [reflexivity|constructor].
Qed.

Lemma s_eager_unused : fd_unused (cr_registered (creg_of s_eager)) 5 s_eager.
Proof.
  assert (map_Forall (λ _ c, c_fd c ≠ 5) (w_clients s_eager)) as Hall
    by (apply (bool_decide_eq_true_1 _); vm_compute; reflexivity).
  intros p c _ Hc. exact (Hall p c Hc).
Qed.

(** Its service receives one packet and sees the end of the input. *)
Definition s_eager1 : world := Eval vm_compute in world_of (creg_register 1 5 s_eager) s_eager.
Definition s_eager2 : world := Eval vm_compute in world_of (service_iteration 1 2 5 4 0 s_eager1) s_eager1.

Lemma s_eager_guard p w1 : creg_register 1 5 s_eager = Ret p w1 → p ≠ NULL → loop_guard 1 2 5 p 0 w1.
Proof.
  assert (creg_register 1 5 s_eager = Ret 4%nat s_eager1) as -> by (vm_compute; reflexivity).
  intros [= <- <-] _. apply loop_guard_step; [vm_compute; discriminate|apply login_guard; vm_compute; reflexivity|].
  assert (service_iteration 1 2 5 4 0 s_eager1 = Ret (1, 1) s_eager2) as -> by (vm_compute; reflexivity).
  intros res w1 [= <- <-] _. apply loop_guard_step; [vm_compute; discriminate| |].
  - intros r res w1 _ E Hne. exfalso. apply Hne. vm_compute in E. by injection E as <- _.
  - intros res w1 E Hne. exfalso. apply Hne. vm_compute in E. by injection E as <- _.
Qed.
