(* ===== verification/Findings.v ===== *)
(** * What modelling showed

    Runs of the code, on the states of [Demo], that end otherwise than the
    comments in the code say, or in undefined behaviour or a deadlock.  They
    are the reasons for the guards of [dispatch_guard] and for the assumption
    that memory lasts. *)
From S2P Require Import Prelude Game Player Elo World Objects Protocol Wire PlayerRegistry Invitation Client Sessions ClientRegistry Server Options Main Accounting Effects Handlers Directory Playing Logout Requests Replies Login Service Lifecycle Lobby Refinement Loop Shutdown System Demo.

#[local] Existing Instance step_pow.
#[local] Existing Instance step_pow_laws.

(** What a run leaves, if it returns [a]. *)
Definition ends_with {A} (o : outcome A) (a : A) (P : world → Prop) : Prop :=
  match o with Ret a' w => a' = a ∧ P w | _ => False end.

(** The identifiers and the states of the invitations a client lists. *)
Definition listed (p : ptr) (w : world) : list (Z * INVITATION_STATE) :=
  match w_clients w !! p with
  | Some c => omap (λ n, (λ i, (n_id n, i_state i)) <$> w_invs w !! n_invitation n) (c_invite_head c)
  | None => []
  end.

(** The types of the packets that were written to [fd]. *)
Definition packets_on (fd : Z) (w : world) : list Z :=
  match w_net w !! fd with
  | Some k => (fix go n l := match n, l with S n', t :: l' => t :: go n' (drop 15 l') | _, _ => [] end)
      (length (k_out k)) (k_out k)
  | None => []
  end.

(** REVOKE by the target of an invitation, which only the source may take
    back: the request is refused, yet the invitation is closed, and the source
    keeps it in its list. *)
Lemma target_revokes :
  listed 3 s_invited = [(0, INV_OPEN_STATE)] ∧ listed 4 s_invited = [(0, INV_OPEN_STATE)] ∧
  ends_with (process_revoke None 4 (packet JEUX_REVOKE_PKT 0 0 0) s_invited) (-1)
    (λ w, listed 3 w = [(0, INV_CLOSED_STATE)] ∧ listed 4 w = []).
Proof. vm_compute. done. Qed.

(** DECLINE by the source, which only the target may refuse: it is accepted,
    the source is the one who is told of it, and the target keeps a closed
    invitation in its list. *)
Lemma source_declines :
  ends_with (process_decline None 3 (packet JEUX_DECLINE_PKT 0 0 0) s_invited) 0
    (λ w, listed 3 w = [] ∧ listed 4 w = [(0, INV_CLOSED_STATE)] ∧
      packets_on 4 w = [JEUX_ACK_PKT; JEUX_ACK_PKT; JEUX_DECLINED_PKT; JEUX_ACK_PKT]).
Proof. vm_compute. done. Qed.

(** The closed invitation keeps the client that left in memory for ever. *)
Lemma client_leaks :
  ends_with ((process_revoke None 4 (packet JEUX_REVOKE_PKT 0 0 0);; creg_unregister 1 4;; creg_unregister 1 3) s_invited) 0
    (λ w, cr_registered (creg_of w) = [] ∧ (∃ c, w_clients w !! 3%nat = Some c) ∧ ∃ c, w_clients w !! 4%nat = Some c).
Proof. vm_compute. eauto 10. Qed.

(** LOGIN under a name in use: the answer is a NACK followed by an ACK, and
    the login flag of the service loop is set for a client with no player. *)
Lemma failed_login_acknowledged :
  ends_with (process_login 2 (Some alice) (packet JEUX_LOGIN_PKT 0 0 1) 4 s_alice) 1
    (λ w, packets_on 5 w = [JEUX_NACK_PKT; JEUX_ACK_PKT] ∧
      (c_logged_in <$> w_clients w !! 4%nat) = Some CLIENT_LOGGED_OUT).
Proof. vm_compute. done. Qed.

(** INVITE from such a client reads the name of a null player. *)
Lemma crash_after_failed_login :
  (f ← process_login 2 (Some alice) (packet JEUX_LOGIN_PKT 0 0 1) 4;
   dispatch 1 2 4 (packet JEUX_INVITE_PKT 0 1 1) (Some alice) f) s_alice = Undef.
Proof. vm_compute. reflexivity. Qed.

(** The other way round, a LOGIN without a name sets the flag as well, since
    the result -1 of [process_login] is not 0. *)
Lemma refused_login_sets_flag :
  ends_with (dispatch 1 2 3 (packet JEUX_LOGIN_PKT 0 0 0) None 0 s_two) (1, -1)
    (λ w, packets_on 4 w = [JEUX_NACK_PKT]).
Proof. vm_compute. done. Qed.

(** [client_login] on a client that is logged in leaves [CLIENT_LOGIN_SEM]
    taken: the next login of any client waits for ever. *)
Lemma login_semaphore_leaks :
  ends_with (client_login 3 5 s_alice) (-1) (λ w, head (w_sems w) = Some 0) ∧
  (client_login 3 5;; client_login 4 5) s_alice = Stuck.
Proof. vm_compute. done. Qed.

(** [calloc] fails while a client connects: a null pointer is registered. *)
Definition out_of_memory (w : world) : world :=
  mkWORLD (w_brk w) (w_clients w) (w_invs w) (w_games w) (w_players w) (w_cregs w) (w_pregs w)
    (w_sems w) (w_is_sem_init w) (w_net w) [true] (w_clock w).

Lemma null_client_registered :
  ends_with (creg_register 1 5 (out_of_memory s_peer)) NULL (λ w, cr_registered (creg_of w) = [3%nat; NULL]).
Proof. vm_compute. done. Qed.

(** [creg_all_players] returns with the mutex of the registry locked when it
    finds no memory: the next client that connects waits for ever. *)
Lemma all_players_keeps_mutex :
  ends_with (creg_all_players 1 (out_of_memory s_peer)) None (λ w, creg_register 1 5 w = Stuck).
Proof. vm_compute. done. Qed.

(** [get_available_id] gives up without memory when the table is full: it
    returns with the mutex of the client locked, the table lost and its
    recorded size doubled; the next call for that client waits for ever. *)
Definition all_ids_used (w : world) : world :=
  match w_clients w !! 3%nat with
  | Some c => upd_client 3 (c_set_ids (replicate 100 (-1)) 100 100 c) w
  | None => w
  end.

Lemma available_id_keeps_mutex :
  ends_with (get_available_id 3 (out_of_memory (all_ids_used s_two))) (-1)
    (λ w, c_current_id_size <$> w_clients w !! 3%nat = Some 200 ∧ get_available_id 3 w = Stuck).
Proof. vm_compute. done. Qed.

(** An invitation that arrives after [client_logout] in [jeux_client_service]
    and before [creg_unregister]: the invited client leaves the registry but
    not memory, and when the inviter takes the invitation back,
    [client_remove_invitation] frees the client and then uses it. *)
Lemma invited_while_leaving :
  ends_with ((client_logout 3;; id ← client_make_invitation 4 3 FIRST_PLAYER_ROLE SECOND_PLAYER_ROLE;
              creg_unregister 1 3;; mret id) s_bob) 0
    (λ w, cr_registered (creg_of w) = [4%nat] ∧ listed 4 w = [(0, INV_OPEN_STATE)] ∧
      client_revoke_invitation 4 0 w = Undef).
Proof. vm_compute. done. Qed.

(** The semaphore of [creg_wait_for_empty] counts every time the registry
    becomes empty: after one client has come and gone, a wait returns at once
    although another client is registered. *)
Lemma wait_for_empty_returns_early :
  ends_with ((creg_unregister 1 3;; creg_register 1 5;; creg_wait_for_empty 1) s_peer) ()
    (λ w, length (cr_registered (creg_of w)) = 1%nat).
Proof. vm_compute. done. Qed.

(** So a server on which the last client has once left is taken down under its
    clients: the registry is freed while a thread is still in its loop, and
    the thread unregisters its client from it. *)
Lemma registry_freed_in_use :
  (creg_unregister 1 3;; p ← creg_register 1 5; terminate 1 2;; creg_unregister 1 p) s_peer = Undef.
Proof. vm_compute. reflexivity. Qed.

(** A thread that was started, but has not registered its client when the
    server goes down, reads the freed registry: [creg_shutdown_all] and
    [creg_wait_for_empty] know of the registered clients only. *)
Lemma registry_freed_before_register :
  (creg_unregister 1 3;; terminate 1 2;; thread_turn 1 2 (T_start 5)) s_peer = Undef.
Proof. vm_compute. reflexivity. Qed.

(** The size of a USERS answer is cut to sixteen bits: of a list of 65541
    bytes the header announces five, and five are sent. *)
Lemma long_list_cut :
  let lines := replicate (Z.to_nat 65541) 97 in
  let hdr := answer_header JEUX_ACK_PKT (strlen lines) (0, 0) in
  packet_bytes hdr (Some lines) = header_bytes hdr ++ replicate 5 97 ∧ ntohs (h_size hdr) = 5.
Proof.
  cbn zeta. assert (strlen (replicate (Z.to_nat 65541) 97) = 65541) as -> by (unfold strlen; rewrite length_replicate; lia).
  destruct (answer_bytes JEUX_ACK_PKT 65541 (replicate (Z.to_nat 65541) 97) (0, 0)) as [-> ->].
  split; [by rewrite take_replicate|done].
Qed.

(** USERS writes each line into a buffer for four digits. *)
Lemma rating_overflows_line :
  user_line alice 9999 = Some (alice ++ [9] ++ text "9999" ++ [10]) ∧ user_line alice 10000 = None ∧
  user_line alice (-1000) = None.
Proof. vm_compute. done. Qed.

(** [-p] at the end of the command line: [strtol] reads a null pointer. *)
Lemma port_missing : option_processor [(OPT_p, None)] no_options = None.
Proof. reflexivity. Qed.

(** [game_apply_move] goes on after a win, and [game_resign] accepts a drawn
    game: [move_accepted_after_win] and [resign_accepted_after_draw] of
    [Game]. *)
