(* ===== verification/Properties.v ===== *)
(** * The properties of the server

    What the development shows of the server as a whole and of each request,
    stated on any state that satisfies the invariant [serves], with a state
    of [Demo] in which the hypotheses hold. *)
From S2P Require Import Prelude Game Player Elo World Objects Protocol Wire PlayerRegistry Invitation Client Sessions ClientRegistry Server Accounting Effects Handlers Directory Playing Logout Requests Replies Login Service Lifecycle Demo.

Section system.
Context `{LibmLaws}.
Context (cr pr p0 : ptr) (fd0 : Z) (k0 : CONN) (w0 : world).

Abbreviation started := (started cr pr p0 fd0 k0 w0).

(** C1: no call of an orderly execution fails.  In an [orderly] execution the
    calls of [creg_register], [creg_unregister] and one turn of the service
    loop are taken whole, one at a time, a thread serves its own registered
    client, and packets meet [packet_guard]: both parties of an INVITE are
    logged in, and the ratings that a USERS prints have at most four
    characters.  As long as memory lasts ([MAX_BRK]), a client that then
    connects is registered or refused, a packet of a registered client that
    meets the guard is served to the end, and every client that leaves is
    logged out and unregistered.  None of these calls deadlocks on a semaphore
    or mutex, touches freed memory, overflows an [int], the reference counts
    and the lengths of the registries among them, or runs out of fuel, and
    the bound on the nesting of [client_unref] is large enough.  Packets
    outside the guard can fail ([Findings.crash_after_failed_login],
    [Findings.rating_overflows_line]), and so can calls whose steps interleave
    ([Races.invited_client_freed], [Races.logout_invitation_freed]). *)
Theorem server_never_fails w :
  started → orderly cr pr w0 w → Z.of_nat (w_brk w) ≤ MAX_BRK →
  (∀ fd k, w_net w !! fd = Some k → writable k → fd_unused (registered cr w) fd w →
     ∃ c w', creg_register cr fd w = Ret c w') ∧
  (∀ p fd k flag, p ∈ registered cr w → w_net w !! fd = Some k → packet_guard cr p fd flag w →
     ∃ res w', service_iteration cr pr fd p flag w = Ret res w') ∧
  (∀ p, p ∈ registered cr w → ∃ w', creg_unregister cr p w = Ret 0 w').
Proof.
  intros Hs Hr Hb. pose proof (started_serving cr pr p0 fd0 k0 w0 w Hs Hr) as Hw. split_and!.
  - intros fd k Hk Hkw Hfree. destruct (wp_inv _ _ _ (connect_runs cr pr w fd k Hw Hk Hkw Hfree)) as (c & w' & E & _). eauto.
  - intros p fd k flag Hp Hk Hg.
    destruct (wp_inv _ _ _ (packet_runs cr pr w p fd k flag Hw Hb Hp Hk Hg)) as (res & w' & E & _). eauto.
  - intros p Hp. destruct (wp_inv _ _ _ (disconnect_runs cr pr w p Hw Hb Hp)) as (s & w' & E & -> & _). eauto.
Qed.


(** C14: in every state of an orderly execution (whole calls, one at a time,
    and packets within [packet_guard]) no player is logged in twice: two
    registered clients that are logged in under the same name are the same
    client.  [client_login] itself is not enough for that: between its test
    and the login another thread can log in under the name
    ([Races.name_logged_in_twice]). *)
Theorem no_name_logged_in_twice w p p' c c' v v' :
  started → orderly cr pr w0 w →
  w_clients w !! p = Some c → c_logged_in c = CLIENT_LOGGED_IN → w_players w !! c_player c = Some v →
  w_clients w !! p' = Some c' → c_logged_in c' = CLIENT_LOGGED_IN → w_players w !! c_player c' = Some v' →
  p_name v = p_name v' → p = p'.
Proof.
  intros Hs Hr Hp Hon Hv Hp' Hon' Hv' Hname. destruct (started_serving cr pr p0 fd0 k0 w0 w Hs Hr) as (r & q & Hw).
  pose proof (serves_core _ _ _ _ w Hw) as Hc. pose proof (co_mem _ _ _ _ Hc) as Hm.
  pose proof (mo_clients _ _ _ _ Hm p c Hp) as Hwf. pose proof (mo_clients _ _ _ _ Hm p' c' Hp') as Hwf'.
  destruct (cw_logged_in _ _ _ _ _ Hwf Hon) as [Hn Hin]. destruct (cw_logged_in _ _ _ _ _ Hwf' Hon') as [Hn' Hin'].
  destruct (cw_player _ _ _ _ _ Hwf) as [|Hpl]; [done|]. destruct (cw_player _ _ _ _ _ Hwf') as [|Hpl']; [done|].
  eapply (co_unique _ _ _ _ Hc p p' c c'); try done.
  by eapply (mo_unique_names _ _ _ _ Hm).
Qed.

(** C30: in every state of an orderly execution in which memory lasts, every rating is near
    enough to the initial one for the next result between any two players to
    be computed without overflow. *)
Theorem ratings_never_overflow w p1 p2 v1 v2 result :
  started → orderly cr pr w0 w → Z.of_nat (w_brk w) ≤ MAX_BRK →
  w_players w !! p1 = Some v1 → w_players w !! p2 = Some v2 →
  Z.abs (p_rating v1 - PLAYER_INITIAL_RATING) ≤ 32 * Z.of_nat (w_brk w) ∧
  ∃ n1 n2, elo_update (p_rating v1) (p_rating v2) result = Some (n1, n2).
Proof.
  intros Hs Hr Hb H1 H2. destruct (started_serving cr pr p0 fd0 k0 w0 w Hs Hr) as (r & q & Hw).
  pose proof (co_rated _ _ _ _ (serves_core _ _ _ _ w Hw)) as Hrated.
  pose proof (Hrated p1 v1 H1) as R1. pose proof (Hrated p2 v2 H2) as R2. cbn in R1, R2.
  split; [lia|]. unfold MAX_BRK, PLAYER_INITIAL_RATING in *.
  destruct (elo_update_gain (p_rating v1) (p_rating v2) result (-32) 32) as (n1 & n2 & E & _);
    [unfold MAX_RATING; lia|unfold MAX_RATING; lia|lia|lia|apply gain_range; unfold MAX_RATING; lia|eauto].
Qed.
End system.

(** ** The requests *)

Section requests.
Context `{LibmLaws}.
Context (cr pr : ptr) (r : CLIENT_REGISTRY) (q : PLAYER_REGISTRY).
Implicit Types (w : world) (p : ptr).

(** C18: LOGIN.  A client that already has a player, or sends an empty name, is
    refused and nothing changes.  A name under which a registered client
    plays leaves the client logged out.  Any other name logs the client in
    under the registered player of that name, with the rating that player
    had, or under a new one rated 1500.  No other client, invitation, game or
    rating changes.  The client gets an ACK, or a NACK, or, when the name is
    taken, one after the other; nobody else is sent anything.  Memory has to
    last ([MAX_BRK]). *)
Theorem login_correct w p payload hdr :
  serves cr pr r q w → p ∈ cr_registered r → Z.of_nat (w_brk w) ≤ MAX_BRK →
  wp (process_login pr payload hdr p) w
    (λ s w', ∃ q', serves cr pr r q' w' ∧ login_spec r q p payload hdr w s w' ∧
      told w w' (login_notices r p payload hdr w)).
Proof.
  intros Hw Hp Hb. eapply wp_mono; [by apply (process_login_safe cr pr r q)|].
  intros s w' (q' & Hw' & _ & Hs & Ht). eauto.
Qed.

(** C19: INVITE.  Suppose that, when the name is that of another registered
    client, both the sender and that client are logged in ([invite_guard]).
    The first registered client of that name, other than the
    sender, gets a new open invitation, under an identifier free on each of
    the two sides, with the role asked for in the packet and the other role
    for the sender; an unknown name, the sender's own name or a role other
    than 1 and 2 is refused and changes nothing.  On success the target is
    sent INVITED, with its identifier and role and the sender's name, and the
    sender an ACK with the identifier of its side; otherwise the sender gets a
    NACK, and nobody else anything.  The code does not check the guard: the
    packet of a sender without a player is a crash
    ([Findings.crash_after_failed_login]), and a target that has logged out but
    is still registered gets an invitation that outlives it
    ([Findings.invited_while_leaving]). *)
Theorem invite_correct w p hdr payload :
  serves cr pr r q w → p ∈ cr_registered r → Z.of_nat (w_brk w) ≤ MAX_BRK → invite_guard r p payload w →
  handled cr pr r q (process_invite cr payload p hdr) w (λ s w',
    invite_request_spec r p hdr payload w s w' ∧ told w w' (invite_request_notices r p hdr payload w)).
Proof. apply process_invite_handled. Qed.

(** C20: ACCEPT.  Only the target of an open invitation can accept it; a game
    with an empty board is then attached to it.  The source is sent ACCEPTED,
    and the target an ACK, one of them with the board: the side that moves
    first.  A refusal is a NACK, and changes nothing. *)
Theorem accept_correct w p hdr :
  serves cr pr r q w → p ∈ cr_registered r →
  handled cr pr r q (process_accept None p hdr) w (λ s w', ∃ str,
    accept_spec p (h_id hdr) w (s, str) w' ∧ told w w' (accept_notices p (h_id hdr) w ++ [answer w p s str])).
Proof. apply process_accept_handled. Qed.

(** C17: MOVE.  A move is applied to the game of the invitation exactly when it
    parses for the sender's role and the game accepts it.  If it ends the game
    the ratings of both players are updated with the winner of the board, the
    invitation leaves both lists, and the invitation and the game are freed;
    otherwise nothing but the game changes.  The opponent is sent MOVED with
    the new board, both sides ENDED with the winner when the game is over, each
    under its own identifier, and the sender at last an ACK; a refused move is
    answered with a NACK alone. *)
Theorem move_correct w p hdr payload :
  serves cr pr r q w → p ∈ cr_registered r → Z.of_nat (w_brk w) ≤ MAX_BRK →
  handled cr pr r q (process_move payload p hdr) w (λ s w', move_request_spec p hdr payload w s w' ∧
    told w w' (move_request_notices p hdr payload w ++ [answer w p s None])).
Proof. apply process_move_handled. Qed.

(** C21: RESIGN.  Either party of a game in progress can resign it: the
    opponent is the winner for the ratings, and the invitation and the game
    are freed.  An identifier without a game in progress is refused and
    changes nothing.  The opponent is sent RESIGNED, the sender an ACK or, for
    a refusal, a NACK. *)
Theorem resign_correct w p hdr :
  serves cr pr r q w → p ∈ cr_registered r → Z.of_nat (w_brk w) ≤ MAX_BRK →
  handled cr pr r q (process_resign None p hdr) w (λ s w', resign_spec p (h_id hdr) w s w' ∧
    told w w' (resign_notices p (h_id hdr) w ++ [answer w p s None])).
Proof. apply process_resign_handled. Qed.

(** C22: REVOKE.  The source of an open invitation takes it back: it leaves
    both lists and is freed.  From the target it closes the invitation, which
    stays on the list of the source, and the answer is a refusal; anything
    else is refused and changes nothing.  Whoever closes it, the target is
    sent REVOKED before the sender gets its ACK or NACK. *)
Theorem revoke_correct w p hdr :
  serves cr pr r q w → p ∈ cr_registered r →
  handled cr pr r q (process_revoke None p hdr) w (λ s w', revoke_spec p (h_id hdr) w s w' ∧
    told w w' (revoke_notices p (h_id hdr) w ++ [answer w p s None])).
Proof. apply process_revoke_handled. Qed.

(** C23: DECLINE.  The target of an open invitation declines it: it leaves
    both lists and is freed.  From the source it closes the invitation, which
    stays on the list of the target, and the answer is positive; anything
    else is refused and changes nothing.  Whoever closes it, the source is
    sent DECLINED before the sender gets its ACK or NACK. *)
Theorem decline_correct w p hdr :
  serves cr pr r q w → p ∈ cr_registered r →
  handled cr pr r q (process_decline None p hdr) w (λ s w', decline_spec p (h_id hdr) w s w' ∧
    told w w' (decline_notices p (h_id hdr) w ++ [answer w p s None])).
Proof. apply process_decline_handled. Qed.

(** C29: USERS.  While every rating has at most four characters, the answer
    is an ACK for the text that has one line, name and rating, for the player
    of each registered client, in the order of the registry.  The size in the
    header is the length of the text modulo 65536, and the payload that many
    bytes from the start of the text: the whole text when it is shorter than
    65536 bytes, and cut off otherwise.  Every reference taken to build it is
    dropped again, and nothing but the sender's connection and the clock has
    changed. *)
Theorem users_correct w p :
  serves cr pr r q w → p ∈ cr_registered r → users_guard w →
  ∃ w', process_users cr None p w = Ret 0 w' ∧ serves cr pr r q w' ∧
    let lines := users_text (w_players w) (players_of (w_clients w) (cr_registered r)) in
    let hdr := answer_header JEUX_ACK_PKT (strlen lines) (now w) in
    answered_with p JEUX_ACK_PKT (strlen lines) (Some lines) w w' ∧
    ntohs (h_size hdr) = strlen lines mod 65536 ∧
    packet_bytes hdr (Some lines) = header_bytes hdr ++ take (Z.to_nat (strlen lines mod 65536)) lines ∧
    (strlen lines < 65536 → packet_bytes hdr (Some lines) = header_bytes hdr ++ lines).
Proof.
  intros Hw Hp Hg. destruct (process_users_run cr pr r q w p Hw Hp Hg) as (w' & E & Ha).
  pose proof (process_users_handled cr pr r q w p Hw Hp Hg) as Ho. unfold handled, wp in Ho. rewrite E in Ho.
  exists w'. split; [done|]. split; [apply Ho|]. cbn zeta. set (lines := users_text _ _) in *.
  destruct (answer_bytes JEUX_ACK_PKT (strlen lines) lines (now w)) as (Hsz & Hb). split_and!; [done..|].
  intros Hlt. rewrite Hb, Z.mod_small by (pose proof (strlen_nonneg lines); lia).
  unfold strlen. by rewrite Nat2Z.id, firstn_all.
Qed.

(** C15: one packet that meets [dispatch_guard]: after a LOGIN has been
    handled, both parties of an INVITE that names another registered client
    are logged in, and the ratings that a USERS prints have at most four
    characters.  LOGIN sets the flag of the loop to its result, a packet
    of type 0 logs out and ends the loop, and every other request has its own
    effect, and sends its own packets, once a LOGIN has been handled; until
    then it is answered with one NACK packet and has no effect.  The flag does
    not say that the client is logged in: a refused LOGIN sets it too, and an
    INVITE then is undefined ([Findings.crash_after_failed_login],
    [Findings.refused_login_sets_flag]). *)
Theorem dispatch_correct w p hdr payload flag :
  serves cr pr r q w → p ∈ cr_registered r → Z.of_nat (w_brk w) ≤ MAX_BRK →
  dispatch_guard r p hdr payload flag w →
  wp (dispatch cr pr p hdr payload flag) w
    (λ res w', (∃ q', serves cr pr r q' w' ∧ dispatch_spec r q p hdr payload flag w res w') ∧
       (flag = 0 → h_type hdr ∈ requests → res = (1, 0) ∧ answered_with p JEUX_NACK_PKT 0 None w w')).
Proof.
  intros Hw Hp Hb Hg. eapply wp_mono_run; [by apply (dispatch_safe cr pr r q)|].
  intros res w' E (q' & Hw' & _ & Hs). split; [eauto|]. intros -> Ht.
  destruct (refused_run cr pr r q w p hdr payload Hw Hp Ht) as (w2 & E2 & Ha). rewrite E in E2. by injection E2 as -> ->.
Qed.

(** C24: logging out leaves nothing open: after [client_logout] every
    invitation of which the client is a party is closed, so that no game in
    progress and no pending invitation refers to a client that is gone; and
    the other side of each of them is told, in the order of the list: RESIGNED
    for a game, REVOKED or DECLINED for an open invitation. *)
Theorem logout_closes_everything w p :
  serves cr pr r q w → p ∈ cr_registered r → Z.of_nat (w_brk w) ≤ MAX_BRK →
  wp (client_logout p) w (λ _ w', serves cr pr r q w' ∧
    (∃ c, w_clients w' !! p = Some c ∧ c_logged_in c = CLIENT_LOGGED_OUT) ∧
    (∀ x i, w_invs w' !! x = Some i → i_source i = p ∨ i_target i = p → i_state i = INV_CLOSED_STATE) ∧
    told w w' (logout_notices p w)).
Proof.
  intros Hw Hp Hb. eapply wp_mono; [by apply (logout_handled cr pr r q)|].
  intros s w' (Hw' & _ & (_ & c & Hcp & Hcase) & Ht). split; [done|].
  assert (∃ c', w_clients w' !! p = Some c' ∧ c_logged_in c' = CLIENT_LOGGED_OUT) as (c' & Hcp' & Hout).
  { case_decide; [destruct Hcase as (_ & _ & c' & ? & ? & _); eauto|]. destruct Hcase as [_ Hm].
    exists c. rewrite (mem_clients _ _ Hm). split; [done|]. by destruct (c_logged_in c). }
  split; [eauto|]. split; [|done]. intros x i Hi Hpi.
  destruct (decide (i_state i = INV_CLOSED_STATE)) as [|Hne]; [done|].
  pose proof (co_mem _ _ _ _ (serves_core _ _ _ _ w' Hw')) as Hm.
  destruct (iw_open _ _ _ (mo_invs _ _ _ _ Hm x i Hi) Hne p) as [_ (c2 & Hc2 & Hon)]; [naive_solver|].
  change (w_clients w' !! p = Some c2) in Hc2. congruence.
Qed.

(** C27: connecting.  While fewer than 64 clients are registered and the
    server is not shutting down, a new logged-out client is added at the end
    of the registry, with one reference, no invitations and 100 free
    identifiers; no other object changes. *)
Theorem register_correct fd w k :
  serves cr pr r q w → w_net w !! fd = Some k → writable k → fd_unused (cr_registered r) fd w →
  cr_length r < MAX_CLIENTS → cr_no r ≠ 1 →
  wp (creg_register cr fd) w (λ p w', p = w_brk w ∧ serves cr pr (creg_add r p) q w' ∧
    cr_registered (creg_add r p) = cr_registered r ++ [p] ∧
    mem_of w' = mkMEM (S (w_brk w)) (<[w_brk w := fresh_client cr fd]> (w_clients w))
      (w_invs w) (w_games w) (w_players w)).
Proof.
  intros Hw Hk Hkw Hfree Hlt Hno. eapply wp_mono; [by apply (creg_register_safe cr pr r q fd w k)|].
  intros p w' (H1 & H2 & H3 & H4). split; [done|]. split; [done|]. split; [|done].
  apply creg_add_ok; [apply Hw|done].
Qed.

(** C28: disconnecting.  The client is logged out and taken out of the
    registry, the clients after it moving up one slot; its object is freed
    unless a closed invitation still refers to it; and the wait for an empty
    registry is released when it was the last.  The other side of each of its
    open invitations and games is told, and nobody else. *)
Theorem unregister_correct p w :
  serves cr pr r q w → p ∈ cr_registered r → Z.of_nat (w_brk w) ≤ MAX_BRK →
  wp (creg_unregister cr p) w (λ s w', s = 0 ∧ ∃ i, cr_registered r !! i = Some p ∧
    serves cr pr (creg_del r i) q w' ∧ cr_registered (creg_del r i) = delete i (cr_registered r) ∧
    unregister_spec r q p w w' ∧ told w w' (logout_notices p w)).
Proof.
  intros Hw Hp Hb. eapply wp_mono; [by apply (creg_unregister_safe cr pr r q p w)|].
  intros s w' (-> & i & Hi & Hs & Hu & _ & Ht). split; [done|]. exists i. split; [done|]. split; [done|]. split; [|done].
  apply creg_del_ok; [apply Hw|by eapply lookup_lt_Some].
Qed.

(** The two lists after an invitation is made and taken back. *)
Lemma drop_with_node a id x c :
  c_invite_head (drop_node x (with_node a id x c)) = c_invite_head c.
Proof. unfold drop_node, with_node, find_node. cbn. by rewrite Nat.eqb_refl. Qed.

Lemma taken_back a id x c i c' :
  take_id (add_refs 1 c) = Some (i, c') →
  let c2 := add_refs (-1) (drop_node x (with_node a id x c')) in
  c_invite_head c2 = c_invite_head c ∧ c_ref_count c2 = c_ref_count c ∧
  c_logged_in c2 = c_logged_in c ∧ c_player c2 = c_player c.
Proof.
  intros Ht. destruct (take_id_fields _ _ _ Ht) as (_ & _ & _ & Er & Ep & El & Eh).
  destruct (drop_node_fields x (with_node a id x c')) as (_ & _ & _ & Fr & Fp & Fl & _).
  cbn. rewrite drop_with_node, Fr, Fp, Fl, Eh. cbn. rewrite Er, Ep, El. cbn. split_and!; [done|lia|done|done].
Qed.

(** C26: making an invitation and revoking it at once is accepted, and leaves
    every invitation list, reference count, login, game and rating as it was;
    the target is sent INVITED and then REVOKED, under the same identifier. *)
Theorem invite_revoke_roundtrip w s t rs rt cs ct :
  serves cr pr r q w → s ∈ cr_registered r → t ∈ cr_registered r → s ≠ t →
  Z.of_nat (w_brk w) ≤ MAX_BRK →
  w_clients w !! s = Some cs → c_logged_in cs = CLIENT_LOGGED_IN →
  w_clients w !! t = Some ct → c_logged_in ct = CLIENT_LOGGED_IN →
  rs ≠ NULL_ROLE → rt = opponent_of rs →
  handled cr pr r q (id ← client_make_invitation s t rs rt; client_revoke_invitation s id) w
    (λ x w', x = 0 ∧ w_invs w' = w_invs w ∧ w_games w' = w_games w ∧ w_players w' = w_players w ∧
      (∀ p c, w_clients w !! p = Some c → ∃ c', w_clients w' !! p = Some c' ∧
        c_invite_head c' = c_invite_head c ∧ c_ref_count c' = c_ref_count c ∧
        c_logged_in c' = c_logged_in c ∧ c_player c' = c_player c) ∧
      told w w' [note w t JEUX_INVITED_PKT (new_id w t) (role_int rt) (Some (name_for w s));
                 note w t JEUX_REVOKED_PKT (new_id w t) 0 None]).
Proof.
  intros Hw Hs Ht Hne Hb Hcs Hon Hct Hont Hrs Hrt.
  pose proof (co_mem _ _ _ _ (serves_core _ _ _ _ w Hw)) as Hm.
  eapply handled_bind.
  { apply handled_safe; [done|]. by eapply (client_make_invitation_safe _ _ w s t rs rt cs ct); [apply Hw|..]. }
  intros id w1 Hw1 [(cs0 & ct0 & cs' & ct' & idt & Hcs0 & Hct0 & Es & Et & Hid & M1) T1].
  rewrite Hcs in Hcs0. injection Hcs0 as <-. rewrite Hct in Hct0. injection Hct0 as <-.
  eapply handled_mono; [apply handled_safe; [done|]; by apply client_revoke_safe; [apply Hw1|]|].
  set (b := w_brk w) in *. set (cs1 := with_node (b + 1) id b cs') in *. set (ct1 := with_node (b + 2) idt b ct') in *.
  assert (w_clients w1 = upd2 s t cs1 ct1 (w_clients w)) as Ec1 by exact (mem_clients _ _ M1).
  assert (w_invs w1 = <[b := new_inv s t rs rt]> (w_invs w)) as Ei1 by exact (mem_invs _ _ M1).
  assert (known_as cs1 id = b) as Hk by (unfold known_as, cs1, with_node, find_node; cbn; by rewrite Z.eqb_refl).
  intros x w2 [(c & Hc & Hspec) T2]. rewrite Ec1, upd2_source in Hc by done. injection Hc as <-.
  rewrite Hk, Ei1, lookup_insert_eq in Hspec. cbn [new_inv i_state i_source i_target] in Hspec.
  rewrite !decide_True in Hspec by done. destruct Hspec as (-> & c & Hc & M2).
  rewrite Ec1, upd2_target in Hc. injection Hc as <-.
  split; [done|]. split.
  { rewrite (mem_invs _ _ M2). cbn. rewrite Ei1. apply delete_insert_id.
    exact (fresh_None _ _ (mo_inv_keys _ _ _ _ Hm)). }
  split; [rewrite (mem_games _ _ M2); exact (mem_games _ _ M1)|].
  split; [rewrite (mem_players _ _ M2); exact (mem_players _ _ M1)|]. split.
  2: { refine (told_trans _ _ _ _ _ T1 _).
       assert (revoke_notices s id w1 = [note w t JEUX_REVOKED_PKT (new_id w t) 0 None]) as <-; [|done].
       unfold revoke_notices, invitation_of, id_for, note, fd_of, new_id.
       rewrite Ec1, upd2_source by done. cbn. rewrite Hk, Ei1, lookup_insert_eq. cbn.
       rewrite upd2_target, Hct. cbn. rewrite Et. unfold id_of, find_node. cbn. rewrite Nat.eqb_refl.
       by destruct (take_id_fields _ _ _ Et) as (_ & _ & -> & _). }
  intros p c Hp. rewrite (mem_clients _ _ M2). cbn. rewrite Ec1.
  destruct (decide (p = s)) as [->|Hps]; [|destruct (decide (p = t)) as [->|Hpt]].
  - rewrite upd2_source by done. rewrite Hcs in Hp. injection Hp as <-. eexists. split; [done|]. by eapply taken_back.
  - rewrite upd2_target. rewrite Hct in Hp. injection Hp as <-. eexists. split; [done|]. by eapply taken_back.
  - exists c. unfold upd2. by rewrite !lookup_insert_ne by done.
Qed.
End requests.

(** ** The life of an invitation *)

Lemma game_resign_result g role : (game_resign g role).2 =
  if decide (g_winner g = NULL_ROLE)
  then mkGAME (g_rows g) (g_ref_count g) 1 NULL_ROLE (opponent_of role) else g.
Proof. unfold game_resign. by destruct (g_winner g). Qed.

(** C25: the transitions of an invitation.  [inv_accept] moves an open
    invitation, and no other, to the accepted state with a new game.
    [inv_close] moves an open one to the closed state when no player resigns,
    and an accepted one when a player does; the game of the latter, unless it
    has a winner already, is then over and won by the opponent, on the board
    it had, and a game that has a winner stays as it is.  Every
    other call is refused and changes nothing, so that a closed invitation
    stays closed. *)
Theorem invitation_transitions w x i role :
  x ≠ NULL → w_invs w !! x = Some i → w_oom w = [] → w_brk w ≠ 0%nat →
  (i_state i = INV_ACCEPTED_STATE ↔ i_game i ≠ NULL) →
  (i_game i ≠ NULL → is_Some (w_games w !! i_game i)) →
  inv_accept x w =
    (match i_state i with
     | INV_OPEN_STATE =>
         Ret 0 (upd_inv x (i_set_game (w_brk w) (i_set_state INV_ACCEPTED_STATE i))
           (set_brk (S (w_brk w)) (set_games (<[w_brk w := game_create]> (w_games w)) w)))
     | _ => Ret (-1) w
     end) ∧
  inv_close x role w =
    (match i_state i, w_games w !! i_game i with
     | INV_OPEN_STATE, _ =>
         if decide (role = NULL_ROLE) then Ret 0 (upd_inv x (i_set_state INV_CLOSED_STATE i) w) else Ret (-1) w
     | INV_ACCEPTED_STATE, Some g =>
         if decide (role = NULL_ROLE) then Ret (-1) w
         else Ret 0 (upd_inv x (i_set_state INV_CLOSED_STATE i)
                (set_games (<[i_game i := if decide (g_winner g = NULL_ROLE)
                    then mkGAME (g_rows g) (g_ref_count g) 1 NULL_ROLE (opponent_of role) else g]> (w_games w)) w))
     | _, _ => Ret (-1) w
     end).
Proof.
  intros Hn Hx Hoom Hb Hg Hlive. split.
  - destruct (decide (i_state i = INV_OPEN_STATE)) as [Hs|Hs].
    + rewrite Hs. by apply inv_accept_run.
    + unfold inv_accept. rewrite decide_False by done. run load_inv_run by exact Hx.
      rewrite decide_True by done. by destruct (i_state i).
  - destruct (i_state i) eqn:Hs.
    + assert (i_game i = NULL) as Hgn by (apply dec_stable; intros Hne; naive_solver).
      case_decide as Hr; [subst; by apply inv_close_open_run|]. eapply inv_close_fail_run; [done|exact Hx|tauto].
    + destruct Hlive as [g Hgm]; [naive_solver|]. rewrite Hgm.
      case_decide as Hr; [eapply inv_close_fail_run; [done|exact Hx|tauto]|].
      rewrite <-game_resign_result.
      apply inv_close_accepted_run; naive_solver.
    + eapply inv_close_fail_run; [done|exact Hx|tauto].
Qed.

(** ** The hypotheses can hold *)

#[local] Existing Instance step_pow.
#[local] Existing Instance step_pow_laws.

Lemma server_never_fails_witness :
  (∀ fd k, w_net s_two !! fd = Some k → writable k → fd_unused (registered 1 s_two) fd s_two →
     ∃ c w', creg_register 1 fd s_two = Ret c w') ∧
  (∀ p fd k flag, p ∈ registered 1 s_two → w_net s_two !! fd = Some k → packet_guard 1 p fd flag s_two →
     ∃ res w', service_iteration 1 2 fd p flag s_two = Ret res w') ∧
  (∀ p, p ∈ registered 1 s_two → ∃ w', creg_unregister 1 p s_two = Ret 0 w').
Proof.
  apply (server_never_fails 1 2 3 4 idle s_one s_two);
    [exact s_one_started|exact s_two_orderly|vm_compute; discriminate].
Defined.


(** Alice's session is the only one under her name. *)
Lemma no_name_logged_in_twice_witness :
  ∃ c v, w_clients t_bob !! 3%nat = Some c ∧ c_logged_in c = CLIENT_LOGGED_IN ∧
    w_players t_bob !! c_player c = Some v ∧ p_name v = alice ∧
    ∀ p' c' v', w_clients t_bob !! p' = Some c' → c_logged_in c' = CLIENT_LOGGED_IN →
      w_players t_bob !! c_player c' = Some v' → p_name v' = alice → 3%nat = p'.
Proof.
  eexists _, _. split; [vm_compute; reflexivity|]. split; [reflexivity|]. split; [vm_compute; reflexivity|].
  split; [reflexivity|]. intros p' c' v' Hp' Hon' Hv' Hname.
  eapply (no_name_logged_in_twice 1 2 3 4 idle s_one t_bob 3 p' _ c' _ v' s_one_started t_bob_orderly);
    [vm_compute; reflexivity|reflexivity|vm_compute; reflexivity|done|done|done|by rewrite Hname].
Defined.

(** Alice beats bob. *)
Lemma ratings_never_overflow_witness :
  ∃ v1 v2, w_players t_bob !! 5%nat = Some v1 ∧ w_players t_bob !! 6%nat = Some v2 ∧
    ∃ n1 n2, elo_update (p_rating v1) (p_rating v2) 1 = Some (n1, n2).
Proof.
  eexists _, _. split; [vm_compute; reflexivity|]. split; [vm_compute; reflexivity|].
  refine (proj2 (ratings_never_overflow 1 2 3 4 idle s_one t_bob 5 6 _ _ 1 s_one_started t_bob_orderly _ _ _));
    [vm_compute; discriminate|vm_compute; reflexivity|vm_compute; reflexivity].
Defined.

(** Alice's connection is 4, bob's is 5. *)
Lemma login_correct_witness :
  ∃ w', process_login 2 (Some alice) (packet 1 0 0 1) 3 s_two = Ret 1 w' ∧ w' = s_alice ∧
  login_spec (creg_of s_two) (preg_of s_two) 3 (Some alice) (packet 1 0 0 1) s_two 1 w' ∧
  told s_two w' [mkNOTICE 4 JEUX_ACK_PKT 0 0 None].
Proof.
  exists s_alice. split; [vm_compute; reflexivity|]. split; [reflexivity|].
  destruct (wp_at _ _ _ 1 s_alice
    (login_correct 1 2 (creg_of s_two) (preg_of s_two) s_two 3 (Some alice) (packet 1 0 0 1) s_two_good ltac:(by left)
      ltac:(vm_compute; discriminate)))
    as (q' & _ & Hs & Ht); [vm_compute; reflexivity|]. split; [exact Hs|exact Ht].
Defined.

(** Alice invites bob to play first. *)
Lemma invite_correct_witness :
  invite_request_spec (creg_of s_bob) 3 (packet 3 0 1 1) (Some bob) s_bob 0 s_invited ∧
  told s_bob s_invited [mkNOTICE 5 JEUX_INVITED_PKT 0 1 (Some alice); mkNOTICE 4 JEUX_ACK_PKT 0 0 None].
Proof.
  refine (handled_told _ _ _ _ _ _ _ (invite_correct 1 2 _ _ s_bob 3 (packet 3 0 1 1) (Some bob)
    s_bob_good _ s_bob_brk s_bob_guard) s_invited_run _).
  - apply registered_in. vm_compute. reflexivity.
  - vm_compute. reflexivity.
Defined.

(** He accepts, and gets the board. *)
Lemma accept_correct_witness : ∃ str, accept_spec 4 0 s_invited (0, str) s_playing ∧
  told s_invited s_playing (accept_notices 4 0 s_invited ++ [answer s_invited 4 0 str]).
Proof.
  refine (proj2 (handled_good _ _ _ _ _ (accept_correct 1 2 _ _ s_invited 4 (packet 5 0 0 0)
    s_invited_good _) s_playing_run)).
  apply registered_in. vm_compute. reflexivity.
Defined.

(** Bob moves first, and alice sees the board. *)
Lemma move_correct_witness :
  ∃ w', process_move (Some [53; 60; 45; 88]) 4 (packet 7 0 0 4) s_playing = Ret 0 w' ∧ w' ≠ s_playing ∧
  move_request_spec 4 (packet 7 0 0 4) (Some [53; 60; 45; 88]) s_playing 0 w' ∧
  told s_playing w'
    [mkNOTICE 4 JEUX_MOVED_PKT 0 0 (Some (text " | | " ++ [10] ++ text "-----" ++ [10] ++ text " |X| " ++ [10] ++
       text "-----" ++ [10] ++ text " | | " ++ [10] ++ text "O to move" ++ [10])); mkNOTICE 5 JEUX_ACK_PKT 0 0 None].
Proof.
  eexists. split; [vm_compute; reflexivity|]. split; [by intros E; apply (f_equal w_games) in E|].
  refine (handled_told _ _ _ _ _ _ _ (move_correct 1 2 _ _ s_playing 4 (packet 7 0 0 4) _
    s_playing_good _ _) _ _); [apply registered_in; vm_compute; reflexivity|vm_compute; discriminate| |].
  - vm_compute. reflexivity.
  - vm_compute. reflexivity.
Defined.

(** Alice gives up the game. *)
Lemma resign_correct_witness :
  ∃ w', process_resign None 3 (packet 8 0 0 0) s_playing = Ret 0 w' ∧ w_games w' = ∅ ∧
  resign_spec 3 0 s_playing 0 w' ∧
  told s_playing w' [mkNOTICE 5 JEUX_RESIGNED_PKT 0 0 None; mkNOTICE 4 JEUX_ACK_PKT 0 0 None].
Proof.
  eexists. split; [vm_compute; reflexivity|]. split; [reflexivity|].
  refine (handled_told _ _ _ _ _ _ _ (resign_correct 1 2 _ _ s_playing 3 (packet 8 0 0 0)
    s_playing_good _ _) _ _); [apply registered_in; vm_compute; reflexivity|vm_compute; discriminate| |].
  - vm_compute. reflexivity.
  - vm_compute. reflexivity.
Defined.

Lemma revoke_correct_witness :
  ∃ w', process_revoke None 3 (packet 4 0 0 0) s_invited = Ret 0 w' ∧ w_invs w' = ∅ ∧
  revoke_spec 3 0 s_invited 0 w' ∧
  told s_invited w' [mkNOTICE 5 JEUX_REVOKED_PKT 0 0 None; mkNOTICE 4 JEUX_ACK_PKT 0 0 None].
Proof.
  eexists. split; [vm_compute; reflexivity|]. split; [reflexivity|].
  refine (handled_told _ _ _ _ _ _ _ (revoke_correct 1 2 _ _ s_invited 3 (packet 4 0 0 0)
    s_invited_good _) _ _); [apply registered_in; vm_compute; reflexivity| |].
  - vm_compute. reflexivity.
  - vm_compute. reflexivity.
Defined.

Lemma decline_correct_witness :
  ∃ w', process_decline None 4 (packet 6 0 0 0) s_invited = Ret 0 w' ∧ w_invs w' = ∅ ∧
  decline_spec 4 0 s_invited 0 w' ∧
  told s_invited w' [mkNOTICE 4 JEUX_DECLINED_PKT 0 0 None; mkNOTICE 5 JEUX_ACK_PKT 0 0 None].
Proof.
  eexists. split; [vm_compute; reflexivity|]. split; [reflexivity|].
  refine (handled_told _ _ _ _ _ _ _ (decline_correct 1 2 _ _ s_invited 4 (packet 6 0 0 0)
    s_invited_good _) _ _); [apply registered_in; vm_compute; reflexivity| |].
  - vm_compute. reflexivity.
  - vm_compute. reflexivity.
Defined.

Lemma s_bob_users : users_guard s_bob.
Proof.
  assert (map_Forall (λ _ v, -999 ≤ p_rating v ≤ 9999) (w_players s_bob)) as Hall
    by (apply (bool_decide_eq_true_1 _); vm_compute; reflexivity).
  intros p v Hv. exact (Hall p v Hv).
Qed.

Lemma users_correct_witness :
  ∃ w', process_users 1 None 3 s_bob = Ret 0 w' ∧
    answered_with 3 JEUX_ACK_PKT 14 (Some (alice ++ [9] ++ text "1500" ++ [10] ++ bob ++ [9] ++ text "1500" ++ [10])) s_bob w'.
Proof.
  assert (3%nat ∈ cr_registered (creg_of s_bob)) as Hp by (apply registered_in; vm_compute; reflexivity).
  destruct (users_correct 1 2 _ _ s_bob 3 s_bob_good Hp s_bob_users) as (w' & E & _ & Ha & _). exists w'.
  split; [exact E|]. vm_compute in Ha. vm_compute. exact Ha.
Defined.

(** A packet of type 0 ends the session. *)
Lemma dispatch_correct_witness :
  ∃ w' s, dispatch 1 2 3 (packet 0 0 0 0) None 1 s_playing = Ret (0, 1) w' ∧ logout_spec (cr_registered (creg_of s_playing)) (pr_head (preg_of s_playing)) 3 s_playing s w'.
Proof.
  assert (dispatch_guard (creg_of s_playing) 3 (packet 0 0 0 0) None 1 s_playing) as Hg by (split; discriminate).
  destruct (wp_inv _ _ _ (dispatch_correct 1 2 _ _ s_playing 3 (packet 0 0 0 0) None 1
    s_playing_good ltac:(apply registered_in; vm_compute; reflexivity) ltac:(vm_compute; discriminate) Hg))
    as (res & w' & E & (q' & _ & Hs) & _).
  destruct Hs as (-> & [s Hs] & _). exists w', s. by split.
Defined.

Lemma logout_closes_everything_witness :
  ∃ w', client_logout 3 s_playing = Ret 0 w' ∧ 
    (∀ x i, w_invs w' !! x = Some i → i_source i = 3%nat ∨ i_target i = 3%nat → i_state i = INV_CLOSED_STATE) ∧
    told s_playing w' (logout_notices 3 s_playing) ∧ logout_notices 3 s_playing = [mkNOTICE 5 JEUX_RESIGNED_PKT 0 0 None].
Proof.
  eexists. split; [vm_compute; reflexivity|].
  refine (match wp_at _ _ _ 0 _ (logout_closes_everything 1 2 _ _ s_playing 3 s_playing_good _ _) _ with
    conj _ (conj _ (conj Hx Ht)) => conj Hx (conj Ht _) end);
    [apply registered_in; vm_compute; reflexivity|vm_compute; discriminate| |].
  - vm_compute. reflexivity.
  - vm_compute. reflexivity.
Defined.

Lemma register_correct_witness :
  ∃ w', creg_register 1 5 s_peer = Ret 4%nat w' ∧ cr_registered (creg_of w') = [3%nat; 4%nat] ∧
    mem_of w' = mkMEM 5 (<[4%nat := fresh_client 1 5]> (w_clients s_peer))
      (w_invs s_peer) (w_games s_peer) (w_players s_peer).
Proof.
  eexists. split; [vm_compute; reflexivity|]. split; [vm_compute; reflexivity|].
  refine (proj2 (proj2 (proj2 (wp_at _ _ _ 4%nat _ (register_correct 1 2 _ _ 5 s_peer idle s_peer_good _ idle_writable s_peer_unused _ _) _))));
    [reflexivity|vm_compute; reflexivity|vm_compute; discriminate|].
  vm_compute. reflexivity.
Defined.

Lemma unregister_correct_witness :
  ∃ w', creg_unregister 1 3 s_playing = Ret 0 w' ∧ cr_registered (creg_of w') = [4%nat] ∧
    unregister_spec (creg_of s_playing) (preg_of s_playing) 3 s_playing w'.
Proof.
  assert (3%nat ∈ cr_registered (creg_of s_playing)) as Hp by (apply registered_in; vm_compute; reflexivity).
  assert (∃ w', creg_unregister 1 3 s_playing = Ret 0 w' ∧ cr_registered (creg_of w') = [4%nat]) as (w' & E & Hr)
    by (eexists; split; vm_compute; reflexivity).
  exists w'. split; [exact E|]. split; [exact Hr|].
  destruct (wp_at _ _ _ 0 w' (unregister_correct 1 2 _ _ 3 s_playing s_playing_good Hp ltac:(vm_compute; discriminate)) E)
    as (_ & i & _ & _ & _ & Hu & _). exact Hu.
Defined.

Lemma invite_revoke_roundtrip_witness :
  ∃ w', (id ← client_make_invitation 3 4 SECOND_PLAYER_ROLE FIRST_PLAYER_ROLE; client_revoke_invitation 3 id) s_bob = Ret 0 w' ∧
    w_invs w' = w_invs s_bob ∧ w_games w' = w_games s_bob ∧ w_players w' = w_players s_bob.
Proof.
  assert (3%nat ∈ cr_registered (creg_of s_bob)) as H3 by (apply registered_in; vm_compute; reflexivity).
  assert (4%nat ∈ cr_registered (creg_of s_bob)) as H4 by (apply registered_in; vm_compute; reflexivity).
  assert (∃ c, w_clients s_bob !! 3%nat = Some c ∧ c_logged_in c = CLIENT_LOGGED_IN) as (c3 & E3 & O3)
    by (eexists; split; [vm_compute; reflexivity|reflexivity]).
  assert (∃ c, w_clients s_bob !! 4%nat = Some c ∧ c_logged_in c = CLIENT_LOGGED_IN) as (c4 & E4 & O4)
    by (eexists; split; [vm_compute; reflexivity|reflexivity]).
  destruct (handled_runs _ _ _ _ _ (invite_revoke_roundtrip 1 2 _ _ s_bob 3 4 SECOND_PLAYER_ROLE FIRST_PLAYER_ROLE
    c3 c4 s_bob_good H3 H4 ltac:(discriminate) s_bob_brk E3 O3 E4 O4 ltac:(discriminate) eq_refl))
    as (x & w' & E & -> & Hi & Hg & Hpl & _). eauto.
Defined.

Lemma invitation_transitions_witness :
  ∃ i, w_invs s_playing !! 7%nat = Some i ∧ inv_accept 7 s_playing = Ret (-1) s_playing ∧
    inv_close 7 NULL_ROLE s_playing = Ret (-1) s_playing ∧
    ∃ w', inv_close 7 FIRST_PLAYER_ROLE s_playing = Ret 0 w' ∧
      (g_winner <$> w_games w' !! i_game i) = Some SECOND_PLAYER_ROLE.
Proof.
  eexists. split; [vm_compute; reflexivity|].
  epose proof (λ role, invitation_transitions s_playing 7 _ role ltac:(discriminate) ltac:(vm_compute; reflexivity)
    eq_refl ltac:(discriminate) ltac:(split; [discriminate|reflexivity])
    ltac:(intros _; eexists; vm_compute; reflexivity)) as Ht.
  split; [exact (proj1 (Ht NULL_ROLE))|]. split; [exact (proj2 (Ht NULL_ROLE))|].
  eexists. split; [exact (proj2 (Ht FIRST_PLAYER_ROLE))|vm_compute; reflexivity].
Defined.
