(* ===== verification/Interleaving.v ===== *)
(** * The properties of the threads together

    What the development shows of the server as a whole: its threads in any
    order, its way down, and the lobby it implements.  The witnesses continue
    the session of [Demo]. *)
From stdpp Require Import relations.
From S2P Require Import Options Prelude Game Player Elo World Objects Protocol Wire PlayerRegistry Invitation Client Sessions ClientRegistry Server Main Accounting Effects Handlers Directory Playing Logout Requests Login Service Lifecycle Lobby Refinement Loop Shutdown System Demo.

Section threads.
Context `{LibmLaws}.
Context (cr pr p0 : ptr) (fd0 : Z) (k0 : CONN) (w0 : world).

Abbreviation started := (started cr pr p0 fd0 k0 w0).
Abbreviation runs := (sys_orderly cr pr (sys_init w0 p0 fd0)).

Lemma started_sys_ok s : started → runs s → sys_ok cr pr s.
Proof.
  intros [Hk E] Hr. destruct (boot_serving fd0 k0 Hk) as (w1 & E1 & _).
  rewrite E in E1. injection E1 as -> -> -> ->. eapply sys_orderly_ok; [by apply (boot_sys_ok fd0 k0)|exact Hr].
Qed.

Lemma started_sys_init : started → sys_ok cr pr (sys_init w0 p0 fd0).
Proof. intros Hs. apply started_sys_ok; [done|constructor]. Qed.

Lemma started_lobby : started → rtc any_step lobby_empty (lobby_at cr w0).
Proof.
  intros [Hk E]. destruct (boot_serving fd0 k0 Hk) as (w1 & E1 & _).
  rewrite E in E1. injection E1 as -> -> -> ->. by apply (boot_lobby fd0 k0).
Qed.

(** C2: refinement.  In every orderly execution what the server does is what
    the lobby does: the clients, sessions, ratings, invitations and games of
    the server are those of a lobby that some sequence of its steps has
    reached, and each further event of the server, a connection, a packet, a
    disconnection or the arrival of input, is a sequence of steps of the
    lobby, all done by one client.  An execution is [orderly] when the calls
    of [creg_register], [creg_unregister] and one turn of the service loop are
    taken whole, one at a time, and each event is [in_order]: a thread serves
    its own registered client, and a packet meets [packet_guard], so that both
    parties of an INVITE are logged in and the ratings that a USERS prints fit
    their line; [MAX_BRK] bounds the memory that has been used.  Outside these
    the server leaves the lobby: [Races.name_logged_in_twice] interleaves the
    steps of two calls of [client_login], and
    [Findings.crash_after_failed_login] and [Findings.invited_while_leaving]
    invite without a session on one side. *)
Theorem server_refines_lobby w :
  started → orderly cr pr w0 w → rtc any_step lobby_empty (lobby_at cr w) ∧
  (Z.of_nat (w_brk w) ≤ MAX_BRK → ∀ e w', in_order cr e w → happens cr pr e w w' →
     ∃ p, rtc (lobby_step p) (lobby_at cr w) (lobby_at cr w')).
Proof.
  intros Hs Hr. pose proof (started_serving cr pr p0 fd0 k0 w0 w0 Hs (orderly_start cr pr w0)) as Hw0. split.
  - etrans; [by apply started_lobby|]. by apply (orderly_refines cr pr).
  - intros Hb e w' Ho He. apply (step_refines cr pr w w'); [by eapply orderly_serving|done|by exists e].
Qed.

(** Until the server is shut down, its memory is a state of [Lifecycle]. *)
Lemma interleaving_sound s :
  started → runs s → going_down (sy_main s) = false → orderly cr pr w0 (sy_world s).
Proof. intros Hs Hr Hd. exact (worlds_orderly cr pr _ s (started_sys_init Hs) Hr Hd). Qed.

(** C12: the threads in any order, whole packets, connections and ends of a
    service taking turns, reach only states that one call at a time reaches,
    until the server is shut down, as long as every packet meets
    [packet_guard] when its turn comes (both parties of an INVITE are logged
    in at that moment, the ratings that a USERS prints fit their line) and
    memory stays below [MAX_BRK].  There what the lobby promises holds: a
    session belongs to a connected client and a registered account, no
    account has two sessions and no name two accounts, no two clients share
    a descriptor, the two sides of an open invitation or a game are two
    different logged-in clients with the two roles, and a game that is
    attached to an invitation has been played by the rules and is not over.
    Without the guard an INVITE to a client that is leaving makes an open
    invitation with a logged-out side ([Findings.invited_while_leaving]), and
    with turns smaller than a packet two sessions can share an account
    ([Races.name_logged_in_twice]). *)
Theorem lobby_guarantees s :
  started → runs s → going_down (sy_main s) = false →
  orderly cr pr w0 (sy_world s) ∧ lobby_ok (lobby_at cr (sy_world s)).
Proof.
  intros Hs Hr Hd. pose proof (interleaving_sound s Hs Hr Hd) as Hw. split; [exact Hw|].
  pose proof (started_serving cr pr p0 fd0 k0 w0 w0 Hs (orderly_start cr pr w0)) as Hw0.
  eapply any_step_ok; [|apply lobby_empty_ok]. etrans; [by apply started_lobby|]. by apply (orderly_refines cr pr).
Qed.

(** The threads are those of the clients. *)
Definition threads_matched (s : SYSTEM) : Prop :=
  NoDup (t_fd <$> sy_threads s) ∧
  (∀ t, t ∈ sy_threads s → ∃ k, w_net (sy_world s) !! t_fd t = Some k) ∧
  (sy_main s ≠ M_exit → ∀ p fd,
     p ∈ registered cr (sy_world s) ∧ (∃ c, w_clients (sy_world s) !! p = Some c ∧ c_fd c = fd) ↔
     ∃ t, t ∈ sy_threads s ∧ t_owner t = Some (p, fd)) ∧
  (sy_main s = M_fini ∨ sy_main s = M_exit → sy_threads s = []).

Lemma threads_match_clients s : started → runs s → threads_matched s.
Proof.
  intros Hs Hr. unfold threads_matched. destruct (started_sys_ok s Hs Hr) as [(r & q & Hw & Hok & Hph)|(Em & -> & Hd)].
  - split; [apply Hok|]. split; [|split].
    + intros t Ht. destruct (to_open _ _ _ Hok t Ht) as (k & Hk & _). eauto.
    + intros _ p fd. rewrite (registered_serves cr pr r q _ Hw), <-(peers_lookup cr pr r q _ p fd Hw).
      rewrite (to_owner _ _ _ Hok), list_elem_of_fmap. naive_solver.
    + intros [E|E]; rewrite E in Hph; [|done]. destruct Hph as [Hcl Hregs]. by eapply closing_empty.
  - split; [constructor|]. split; [by intros t ?%elem_of_nil|]. done.
Qed.

(** C3: no turn of an orderly execution fails.  A turn is a whole packet, a
    whole connection or the end of a service of a service thread, or a step of
    the main thread; they come in any order.  As long as memory stays below
    [MAX_BRK], the next turn of every service thread returns when the packet
    it is about to receive meets [packet_guard]: both parties of an INVITE are
    logged in, the ratings that a USERS prints fit their line.  The next
    turn of the main thread returns, or it waits for the last client to leave
    and then a service thread is there to take a turn, when [terminate] begins
    under [shutdown_guard]: every thread has registered its client, and the
    registry has not been empty since the first connection unless it is empty
    now.  No two threads serve the same connection, the connection of every
    thread is open, the registered clients are those of the threads that are
    past [creg_register], and no thread is left when the registries are taken
    down ([threads_matched]).  The guards are needed:
    [Findings.crash_after_failed_login] is a packet that fails,
    [Findings.registry_freed_in_use] and
    [Findings.registry_freed_before_register] take the registry down under a
    thread. *)
Theorem threads_never_fail s :
  started → runs s → threads_matched s ∧ (Z.of_nat (w_brk (sy_world s)) ≤ MAX_BRK →
  (∀ i t, sy_threads s !! i = Some t → thread_guard cr t (sy_world s) →
     ∃ o w', thread_turn cr pr t (sy_world s) = Ret o w') ∧
  (sy_main s ≠ M_accept → (sy_main s = M_shutdown → shutdown_guard cr (sy_threads s) (sy_world s)) →
     (∃ m' w', main_turn cr pr (sy_main s) (sy_world s) = Ret m' w') ∨
     (sy_main s = M_wait ∧ main_turn cr pr M_wait (sy_world s) = Stuck ∧ sy_threads s ≠ []))).
Proof.
  intros Hs Hr. split; [by apply threads_match_clients|]. intros Hb.
  exact (turns_run cr pr s (started_sys_ok s Hs Hr) Hb).
Qed.

(** C4: shutdown.  When [terminate] begins under [shutdown_guard], that is,
    every thread has registered its client, and the registry has not been
    empty since the first connection unless it is empty now, the server comes
    down, in whatever order the threads take turns from then on and whatever
    they find: [creg_shutdown_all] returns; after it at most two more turns for
    each thread and three for the main thread are possible; the next turn of
    every service thread returns; and when no turn is possible any more,
    [main] has reached [exit], every service thread has returned, both
    registries and all players are freed, nobody is logged in, and no
    invitation is open.  Without the guard the registry is freed under the
    threads that are left: [Findings.registry_freed_in_use] and
    [Findings.registry_freed_before_register].  Once a socket is shut down for
    reading, nothing more is received from it. *)
Theorem shutdown_completes s :
  started → runs s → sy_main s = M_shutdown → shutdown_guard cr (sy_threads s) (sy_world s) →
  Z.of_nat (w_brk (sy_world s)) ≤ MAX_BRK →
  (∃ s1, turn cr pr None s s1) ∧
  ∀ s1, turn cr pr None s s1 →
    (∀ n s', nsteps (any_turn cr pr) n s1 s' → (n ≤ 3 + 2 * length (sy_threads s))%nat) ∧
    (∀ s', rtc (any_turn cr pr) s1 s' →
       (∀ i t, sy_threads s' !! i = Some t → ∃ o w', thread_turn cr pr t (sy_world s') = Ret o w') ∧
       ((∃ s'', any_turn cr pr s' s'') ∨
        (sy_main s' = M_exit ∧ sy_threads s' = [] ∧ taken_down pr (sy_world s')))).
Proof.
  intros Hs Hr Hm Hg Hb. pose proof (started_sys_ok s Hs Hr) as Hok. split; [by apply shutdown_begins|].
  intros s1 Ht. destruct (shutdown_turn_left cr pr s s1 Hok Hm Hg Hb Ht) as (Hok1 & Hd1 & Hb1 & <-). split.
  - intros n s' Hn. destruct (closing_runs cr pr n s1 s' Hok1 Hd1 Hb1 Hn) as (_ & _ & _ & Hle).
    pose proof (turns_left_bound s1 Hd1). lia.
  - intros s' [n Hn]%rtc_nsteps. destruct (closing_runs cr pr n s1 s' Hok1 Hd1 Hb1 Hn) as (Hok' & Hd' & Hb' & _).
    split; [|by apply next_turn]. intros i t Hi. apply (proj1 (turns_run cr pr s' Hok' Hb') i t Hi).
    by apply (closing_guard cr pr (Some i) s' Hok' Hd' t Hi).
Qed.
End threads.

(** C13: termination.  [jeux_client_service] returns on every input of a
    connection whose packets meet [loop_guard], which asks of each packet, when
    its turn comes, that both parties of an INVITE are logged in and the
    ratings that a USERS prints fit their line, and that memory stays below
    [MAX_BRK]; it says nothing of any other packet.  Each turn of the loop but
    the last consumes a packet header, so the length of the input bounds the
    number of turns.  When the service returns its connection is closed and
    the registered clients are the ones there were before; meanwhile the lobby
    has made steps and the input of the other connections is untouched.  An
    INVITE after a refused LOGIN does not return
    ([Findings.crash_after_failed_login]). *)
Theorem client_service_terminates `{LibmLaws} cr pr r q w fd k :
  serves cr pr r q w → w_net w !! fd = Some k → writable k → fd_unused (cr_registered r) fd w →
  (∀ p w1, creg_register cr fd w = Ret p w1 → p ≠ NULL → loop_guard cr pr fd p 0 w1) →
  ∃ w', jeux_client_service cr pr (S (length (k_in k))) fd w = Ret () w' ∧ w_net w' !! fd = None ∧
    ∃ r' q', serves cr pr r' q' w' ∧ cr_registered r' = cr_registered r ∧
      rtc any_step (lobby_at cr w) (lobby_at cr w') ∧ others_keep fd w w'.
Proof.
  intros Hw Hk Hkw Hfree Hg.
  destruct (wp_inv _ _ _ (client_service_ends cr pr r q w fd k Hw Hk Hkw Hfree Hg)) as ([] & w' & E & Hrest). eauto.
Qed.

(** C39: the start of [main].  The command line is a sequence of [-p]s, each
    followed by an argument, and a rest.  When the rest is empty, there is a
    [-p], the signal handler can be installed and the socket calls succeed,
    [main] goes on to accept at the low 16 bits of the number given last, with
    the two registries, and the first connection finds a server that satisfies
    the invariant.  When a socket call fails it exits, with status 0.
    Without a [-p], with another option, or when [sigaction] or [sigaddset]
    fails, it exits with a failure and has allocated nothing; a [-p] that ends
    the command line is undefined behaviour, since the option string does not
    say that it takes an argument. *)
Theorem startup_correct calls sigaction_result sigaddset_result so fd k : writable k →
  ∃ pre rest, calls = pre ++ rest ∧ Forall port_call pre ∧
  let start := main_start calls sigaction_result sigaddset_result so (boot_world fd k) in
  let failed := start = Ret (Exited EXIT_FAILURE) (boot_world fd k) in
  match rest with
  | (opt, _) :: _ => if decide (opt = OPT_p) then start = Undef else failed
  | [] =>
      match last pre with
      | None => failed
      | Some c =>
          let port := int_of_long (strtol10 (default [] c.2)) in
          if decide (sigaction_result = -1 ∨ sigaddset_result = -1) then failed
          else if decide (binds so port) then
            ∃ w p w' sin, start = Ret (Listens 1 2 (so_socket so) sin) w ∧ ntohs sin = port mod 65536 ∧
              creg_register 1 fd w = Ret p w' ∧ p ≠ NULL ∧ ∃ r q, serves 1 2 r q w'
          else ∃ w, start = Ret (Exited 0) w
      end
  end.
Proof.
  intros Hk. destruct (option_processor_splits calls) as (pre & rest & -> & Hp & Ho). exists pre, rest.
  split; [done|]. split; [done|]. unfold main_start. destruct rest as [|[opt arg] rest].
  - destruct (last pre) as [c|]; [|by rewrite Ho]. destruct Ho as (o & -> & <-). cbn [defined]. rewrite bind_ret. cbn [fst snd Z.eqb negb].
    unfold setup_signal_handler. destruct (Z.eqb_spec sigaction_result (-1)); [by rewrite decide_True by auto|].
    destruct (Z.eqb_spec sigaddset_result (-1)); [by rewrite decide_True by auto|]. rewrite decide_False by tauto.
    rewrite Open_listenfd_binds. destruct (boot_serving fd k Hk) as (w & E & r & q & Hw). unfold boot in E.
    unfold mbind, M_bind in E. destruct (creg_init (boot_world fd k)) as [cr w1| | |] eqn:E1; [|done..].
    destruct (preg_init w1) as [pr w2| | |] eqn:E2; [|done..].
    destruct (creg_register cr fd w2) as [p w3| | |] eqn:E3; [|done..]. injection E as -> -> -> ->.
    rewrite (bind_run _ _ _ _ _ E1), (bind_run _ _ _ _ _ E2). case_decide; [|by exists w2].
    exists w2, 3%nat, w, (sin_port (PORT o)). split; [done|]. split; [|by eauto].
    apply ntohs_sin_port.
  - case_decide; [by destruct Ho as [_ ->]|]. by destruct Ho as [o ->].
Qed.

(** ** Witnesses *)

#[local] Existing Instance step_pow.
#[local] Existing Instance step_pow_laws.

Lemma server_refines_lobby_witness :
  rtc any_step lobby_empty (lobby_at 1 t_bob) ∧
  (∀ e w', in_order 1 e t_bob → happens 1 2 e t_bob w' → ∃ p, rtc (lobby_step p) (lobby_at 1 t_bob) (lobby_at 1 w')) ∧
  lb_sessions (lobby_at 1 t_bob) !! 3%nat = Some 5%nat ∧
  lb_accounts (lobby_at 1 t_bob) !! 5%nat = Some (alice, PLAYER_INITIAL_RATING).
Proof.
  destruct (server_refines_lobby 1 2 3 4 idle s_one t_bob s_one_started t_bob_orderly) as [H1 H2].
  split; [exact H1|]. split; [apply H2; vm_compute; discriminate|]. split; vm_compute; reflexivity.
Defined.

Lemma lobby_guarantees_witness : orderly 1 2 s_one s_two ∧ lobby_ok (lobby_at 1 s_two).
Proof. exact (lobby_guarantees 1 2 3 4 idle s_one y_two s_one_started y_two_runs eq_refl). Defined.

Lemma threads_never_fail_witness :
  (∀ i t, sy_threads y_two !! i = Some t → thread_guard 1 t s_two → ∃ o w', thread_turn 1 2 t s_two = Ret o w') ∧
  sy_threads y_two = [T_loop 5 4 0; T_loop 4 3 0] ∧
  NoDup (t_fd <$> sy_threads y_two) ∧ ∃ t, t ∈ sy_threads y_two ∧ t_owner t = Some (4%nat, 5).
Proof.
  destruct (threads_never_fail 1 2 3 4 idle s_one y_two s_one_started y_two_runs) as [(H1 & _ & H3 & _) Hturns].
  split; [exact (proj1 (Hturns y_two_brk))|]. split; [reflexivity|].
  split; [exact H1|]. apply H3; [discriminate|]. split; [apply registered_now; vm_compute; reflexivity|].
  eexists. split; vm_compute; reflexivity.
Defined.

Lemma shutdown_completes_witness :
  turn 1 2 None y_stop y_down ∧
  (∀ n s', nsteps (any_turn 1 2) n y_down s' → (n ≤ 7)%nat) ∧
  (∀ s', rtc (any_turn 1 2) y_down s' →
     (∀ i t, sy_threads s' !! i = Some t → ∃ o w', thread_turn 1 2 t (sy_world s') = Ret o w') ∧
     ((∃ s'', any_turn 1 2 s' s'') ∨
      (sy_main s' = M_exit ∧ sy_threads s' = [] ∧ taken_down 2 (sy_world s')))).
Proof.
  split; [exact y_down_turn|].
  exact (proj2 (shutdown_completes 1 2 3 4 idle s_one y_stop s_one_started y_stop_runs eq_refl y_stop_guard y_two_brk) y_down y_down_turn).
Defined.

Lemma client_service_terminates_witness :
  ∃ w', jeux_client_service 1 2 (S (length (login_packet bob))) 5 s_eager = Ret () w' ∧ w_net w' !! 5 = None ∧
    rtc any_step (lobby_at 1 s_eager) (lobby_at 1 w').
Proof.
  destruct (client_service_terminates 1 2 (creg_of s_eager) (preg_of s_eager) s_eager 5 eager s_eager_good
    ltac:(vm_compute; reflexivity) ltac:(constructor) s_eager_unused s_eager_guard)
    as (w' & E & Hn & r' & q' & _ & _ & Hs & _). exists w'. split; [exact E|]. split; [exact Hn|exact Hs].
Defined.

(** Jeux on port 3333, and the port of a number that is too large. *)
Definition port_option (n : Z) : list (Z * option (list byte)) := [(OPT_p, Some (decimal n))].
Definition sockets : SOCKETS := mkSOCKETS 3 0 (λ _, 0) 0.

Lemma startup_correct_witness :
  ∃ w p w' sin, main_start (port_option 3333) 0 0 sockets (boot_world 4 idle) = Ret (Listens 1 2 3 sin) w ∧
    ntohs sin = 3333 ∧ creg_register 1 4 w = Ret p w' ∧ p ≠ NULL ∧ ∃ r q, serves 1 2 r q w'.
Proof.
  destruct (startup_correct (port_option 3333) 0 0 sockets 4 idle ltac:(by constructor)) as (pre & rest & E & Hpre & H).
  destruct rest as [|[opt arg] rest].
  - rewrite app_nil_r in E. subst pre. exact H.
  - destruct pre as [|c pre]; [|by destruct pre]. injection E as <- <- <-. cbn in H. by vm_compute in H.
Defined.
