(* ===== verification/Parallel.v ===== *)
(** * Calls of several threads at the same time

    The calls that [src/client.c] makes under a semaphore from their first
    step to their last: [client_login] under [CLIENT_LOGIN_SEM], and the
    operations on invitations under [CLIENT_INVITE_OP_SEM].  Here their single
    steps interleave in any order.  [Critical] turns an interleaving into an
    execution call by call, and the theorems of [Login], [Handlers] and
    [Playing] carry the invariant through that. *)
From stdpp Require Import relations.
From S2P Require Import Prelude Game Player Elo World Threads Critical Objects Protocol Wire PlayerRegistry Invitation Client Sessions ClientRegistry Server Atomic Steps Accounting Effects Handlers Directory Playing Logout Requests Login Lifecycle Lobby Refinement.

(** ** Logging in *)

(** The threads of clients that are about to log in: the client and the
    player of the name it has asked for. *)
Definition login_script (l : ptr * ptr) : script (semaphore CLIENT_LOGIN_SEM) Z := Call (client_login l.1 l.2) Halt.
Definition logins (ls : list (ptr * ptr)) : list (prog Z) := fine <$> (login_script <$> ls).
Definition logins_in_turn (ls : list (ptr * ptr)) : list (prog Z) := whole <$> (login_script <$> ls).

Section logins.
Context `{LibmLaws}.
Context (cr pr : ptr) (r : CLIENT_REGISTRY) (q : PLAYER_REGISTRY) (held : list ptr).
Implicit Types (w : world) (ls : list (ptr * ptr)) (ts : list (prog Z)).

Abbreviation regs := (cr_registered r).
Abbreviation names := (pr_head q).
Abbreviation holding := (holding cr pr r q held).

(** A registered client has the account. *)
Definition plays w (p pl : ptr) : Prop :=
  p ∈ regs ∧ ∃ c, w_clients w !! p = Some c ∧ c_player c = pl.

(** Different clients, connected and not logged in, and registered players. *)
Record may_log_in ls w : Prop := {
  ml_distinct : NoDup ls.*1;
  ml_client p pl : (p, pl) ∈ ls → p ∈ regs ∧ ∃ c, w_clients w !! p = Some c ∧ c_player c = NULL;
  ml_player p pl : (p, pl) ∈ ls → pl ∈ names
}.

Lemma holding_ref w pl v : holding w → pl ∈ names → w_players w !! pl = Some v →
  core regs names (pl :: held) (set_players (<[pl := player_add 1 v]> (w_players w)) w).
Proof.
  intros Hh Hin Hv. pose proof (ho_core _ _ _ _ _ _ Hh) as Hc. pose proof (co_mem _ _ _ _ Hc) as Hm.
  apply (core_same_clients r names _ held (pl :: held) w); try done.
  - apply (player_ref_ok _ _ _ (mem_of w)); [done..|].
    by destruct (few_count _ _ _ _ _ _ Hm (ho_few _ _ _ _ _ _ Hh) Hv).
  - exact (rated_player (mem_of w) pl v (player_add 1 v) (co_rated _ _ _ _ Hc) Hv eq_refl).
Qed.

Lemma players_of_inv h l x : x ∈ players_of h l → ∃ p c, p ∈ l ∧ h !! p = Some c ∧ c_player c = x.
Proof.
  induction l as [|p l IH]; [by intros ?%elem_of_nil|]. cbn. intros Hx.
  assert (x ∈ players_of h l → ∃ p0 c, p0 ∈ p :: l ∧ h !! p0 = Some c ∧ c_player c = x) as IH'.
  { intros (p0 & c & H1 & H2)%IH. exists p0, c. split; [by right|done]. }
  destruct (h !! p) as [c|] eqn:Hp; [|auto]. case_decide; [auto|].
  apply elem_of_cons in Hx as [->|Hx]; [|auto]. exists p, c. split; [by left|done].
Qed.

(** A name is taken when a client has its account. *)
Lemma taken_plays w pl v : holding w → pl ∈ names → w_players w !! pl = Some v →
  existsb (name_of (w_players w) (p_name v)) (players_of (w_clients w) regs) = true → ∃ p, plays w p pl.
Proof.
  intros Hh Hin Hv (x & Hx & Hn)%existsb_exists. apply list_elem_of_In in Hx.
  pose proof (ho_core _ _ _ _ _ _ Hh) as Hc. pose proof (co_mem _ _ _ _ Hc) as Hm.
  destruct (players_of_names regs names held w regs x Hc (ho_few _ _ _ _ _ _ Hh) ltac:(done) Hx) as (Hxn & u & Hu & _).
  unfold name_of in Hn. rewrite Hu in Hn. apply bool_decide_eq_true in Hn.
  destruct (players_of_inv _ _ _ Hx) as (p & c & Hp & Hcp & <-). exists p. split; [done|]. exists c. split; [done|].
  exact (mo_unique_names _ _ _ _ Hm _ _ u v Hxn Hin Hu Hv Hn).
Qed.

(** One login, whoever else plays. *)
Lemma login_run w p pl c : holding w → creg_wf r → p ∈ regs → w_clients w !! p = Some c → c_player c = NULL →
  pl ∈ names →
  (client_login p pl w = Ret (-1) w ∧ ∃ p', plays w p' pl) ∨
  (∃ v, client_login p pl w = Ret 0 (upd_client p (playing pl c) (set_players (<[pl := v]> (w_players w)) w)) ∧
    holding (upd_client p (playing pl c) (set_players (<[pl := v]> (w_players w)) w))).
Proof.
  intros Hh Hwf Hp Hcp Hz Hin. pose proof (co_mem _ _ _ _ (ho_core _ _ _ _ _ _ Hh)) as Hm.
  destruct (mo_names _ _ _ _ Hm pl Hin) as [v Hv]. change (w_players w !! pl = Some v) in Hv.
  rewrite (client_login_run cr pr r q held pl w p c v) by done.
  destruct (existsb _ _) eqn:Etaken; [left; split; [done|by eapply taken_plays]|right].
  exists (player_add 1 v). split; [done|].
  apply (logged_in_holding cr pr r q held pl _ p c (player_add 1 v)); try done; try apply Hh.
  - by apply holding_ref.
  - cbn. by rewrite lookup_insert_eq.
  - intros ->. assert (live (m_players (mem_of w)) NULL) as Hl by (by exists v).
    destruct (mo_player_keys _ _ _ _ Hm NULL Hl) as [Hlt _]. unfold NULL in Hlt. lia.
  - unfold name_free. cbn. rewrite <-Etaken. clear -Hv. induction (players_of (w_clients w) regs) as [|x l IH]; [done|].
    cbn. rewrite IH. f_equal. unfold name_of. destruct (decide (x = pl)) as [->|Hne].
    + rewrite lookup_insert_eq, Hv. done.
    + by rewrite lookup_insert_ne.
Qed.

(** Where the thread of a login is between two calls. *)
Inductive login_stage w (p pl : ptr) : prog Z → Prop :=
| login_waits c : w_clients w !! p = Some c → c_player c = NULL → login_stage w p pl (whole (login_script (p, pl)))
| login_won c : w_clients w !! p = Some c → c_player c = pl → c_logged_in c = CLIENT_LOGGED_IN →
    login_stage w p pl (Done 0)
| login_lost c p' : w_clients w !! p = Some c → c_player c = NULL → plays w p' pl → login_stage w p pl (Done (-1)).

Section pool.
Context (ls : list (ptr * ptr)) (w0 : world) (Hwf : creg_wf r) (Hls : may_log_in ls w0).

Definition logging_in (c : list (prog Z) * world) : Prop :=
  holding c.2 ∧ length c.1 = length ls ∧
  ∀ i t p pl, c.1 !! i = Some t → ls !! i = Some (p, pl) → login_stage c.2 p pl t.

Lemma account_not_null w pl : holding w → pl ∈ names → pl ≠ NULL.
Proof.
  intros Hh Hin ->. pose proof (co_mem _ _ _ _ (ho_core _ _ _ _ _ _ Hh)) as Hm.
  destruct (mo_player_keys _ _ _ _ Hm NULL (mo_names _ _ _ _ Hm NULL Hin)) as [Hlt _]. unfold NULL in Hlt. lia.
Qed.

(** A login of [p0] does not disturb the others. *)
Lemma login_stage_other w h p0 pl0 c0 p pl t :
  w_clients w !! p0 = Some c0 → c_player c0 = NULL → p ≠ p0 → pl ≠ NULL → login_stage w p pl t →
  login_stage (upd_client p0 (playing pl0 c0) (set_players h w)) p pl t.
Proof.
  intros Hc0 Hz Hne Hpl Hst. set (w' := upd_client _ _ _).
  assert (∀ x, x ≠ p0 → w_clients w' !! x = w_clients w !! x) as Hx by (intros x ?; cbn; by rewrite lookup_insert_ne).
  destruct Hst as [c Hc Hcz|c Hc E Hon|c p' Hc Hcz (Hin & c' & Hc' & E)].
  - eapply login_waits; [by rewrite Hx|done].
  - eapply login_won; [by rewrite Hx|done|done].
  - eapply login_lost; [by rewrite Hx|done|]. split; [done|]. exists c'. split; [|done].
    rewrite Hx; [done|]. intros ->. congruence.
Qed.

Lemma logging_in_step ts w i t t' w' :
  logging_in (ts, w) → ts !! i = Some t → advance t w = Ret t' w' → logging_in (<[i := t']> ts, w').
Proof.
  intros (Hh & Hlen & Hst) Hi Ht. cbn in *.
  destruct (lookup_lt_is_Some_2 ls i) as [[p pl] Hl]; [rewrite <-Hlen; by eapply lookup_lt_Some|].
  pose proof (list_elem_of_lookup_2 _ _ _ Hl) as Hin. destruct (ml_client _ _ Hls p pl Hin) as [Hp _].
  pose proof (ml_player _ _ Hls p pl Hin) as Hpl.
  destruct (Hst i t p pl Hi Hl) as [c Hc Hz|c Hc E Hon|c p' Hc Hz Hpl']; try done.
  cbn in Ht. unfold mbind, M_bind in Ht.
  destruct (login_run w p pl c Hh Hwf Hp Hc Hz Hpl) as [[E [p' Hp']]|(v & E & Hh')]; rewrite E in Ht;
    injection Ht as <- <-; (split; [done|]); (split; [cbn; by rewrite length_insert|]); cbn;
    intros j u x pl' Hj Hlj; destruct (decide (j = i)) as [->|Hne].
  - rewrite list_lookup_insert_eq in Hj by (by eapply lookup_lt_Some). rewrite Hl in Hlj. simplify_eq.
    by eapply login_lost.
  - rewrite list_lookup_insert_ne in Hj by done. by apply (Hst j).
  - rewrite list_lookup_insert_eq in Hj by (by eapply lookup_lt_Some). rewrite Hl in Hlj. simplify_eq.
    eapply login_won; [apply upd_client_lookup|done|done].
  - rewrite list_lookup_insert_ne in Hj by done. apply login_stage_other; [done|done| | |by apply (Hst j)].
    + intros ->. apply Hne. apply (NoDup_lookup ls.*1 j i p); [apply Hls|by rewrite list_lookup_fmap, Hlj|].
      by rewrite list_lookup_fmap, Hl.
    + apply (account_not_null w); [done|]. exact (ml_player _ _ Hls x pl' (list_elem_of_lookup_2 _ _ _ Hlj)).
Qed.

Lemma logging_in_ready c : logging_in c → all_ready c.
Proof.
  intros (Hh & Hlen & Hst) i t Hi Hf.
  destruct (lookup_lt_is_Some_2 ls i) as [[p pl] Hl]; [rewrite <-Hlen; by eapply lookup_lt_Some|].
  pose proof (list_elem_of_lookup_2 _ _ _ Hl) as Hin. destruct (ml_client _ _ Hls p pl Hin) as [Hp _].
  destruct (Hst i t p pl Hi Hl) as [c' Hc Hz|? ? ? ?|? ? ? ? ?]; try done. cbn. unfold mbind, M_bind.
  destruct (login_run _ p pl c' Hh Hwf Hp Hc Hz (ml_player _ _ Hls p pl Hin)) as [[E _]|(v & E & _)];
    rewrite E; cbn; eauto.
Qed.

Lemma logging_in_start : holding w0 → logging_in (logins_in_turn ls, w0).
Proof.
  intros Hh. split; [done|]. split; [cbn; unfold logins_in_turn; by rewrite !length_fmap|]. cbn.
  intros i t p pl Hi Hl. unfold logins_in_turn in Hi. rewrite !list_lookup_fmap, Hl in Hi. injection Hi as <-.
  destruct (ml_client _ _ Hls p pl (list_elem_of_lookup_2 _ _ _ Hl)) as [_ (c & Hc & Hz)]. by eapply login_waits.
Qed.

Lemma logging_in_reached c : holding w0 → rtc pool_step (logins_in_turn ls, w0) c → logging_in c.
Proof.
  intros Hh. apply pool_invariant; [|by apply logging_in_start].
  intros ts w i t t' w' HJ. by apply logging_in_step.
Qed.
End pool.

(** Two clients with the same name are the same client. *)
Lemma holding_unique w p p' c c' v v' : holding w → p ∈ regs → p' ∈ regs →
  w_clients w !! p = Some c → c_player c ≠ NULL → w_players w !! c_player c = Some v →
  w_clients w !! p' = Some c' → c_player c' ≠ NULL → w_players w !! c_player c' = Some v' →
  p_name v = p_name v' → p = p'.
Proof.
  intros Hh Hp Hp' Hc Hn Hv Hc' Hn' Hv' Ename. pose proof (ho_core _ _ _ _ _ _ Hh) as Hcore.
  pose proof (co_mem _ _ _ _ Hcore) as Hm.
  destruct (cw_player _ _ _ _ _ (mo_clients _ _ _ _ Hm p c Hc)) as [|Hpl]; [done|].
  destruct (cw_player _ _ _ _ _ (mo_clients _ _ _ _ Hm p' c' Hc')) as [|Hpl']; [done|].
  eapply (co_unique _ _ _ _ Hcore p p' c c'); try done. by eapply (mo_unique_names _ _ _ _ Hm).
Qed.

(** C5: any number of clients that log in at the same time, their steps in
    any order, while the calls under way hold references to the players
    [held], fewer than would overflow a count ([few]): no step is undefined,
    some thread can go on until all have
    returned, and no execution goes on for ever.  When all have returned they
    have done what some order of whole calls of [client_login] does: each
    client either plays under its account or was refused because another
    client has the account, and no name is used by two clients. *)
Theorem logins_serialize ls w ts w' :
  holding w → creg_wf r → may_log_in ls w → rtc pool_step (logins ls, w) (ts, w') →
  ¬ faulty (ts, w') ∧ (all_finished ts ∨ ∃ c, pool_step (ts, w') c) ∧ Acc (flip pool_step) (ts, w') ∧
  (all_finished ts → rtc pool_step (logins_in_turn ls, w) (ts, w') ∧ holding w' ∧
    (∀ i p pl, ls !! i = Some (p, pl) →
      (ts !! i = Some (Done 0) ∧ plays w' p pl) ∨ (ts !! i = Some (Done (-1)) ∧ ∃ p', p' ≠ p ∧ plays w' p' pl)) ∧
    (∀ p p' c c' v v', p ∈ regs → p' ∈ regs →
      w_clients w' !! p = Some c → c_player c ≠ NULL → w_players w' !! c_player c = Some v →
      w_clients w' !! p' = Some c' → c_player c' ≠ NULL → w_players w' !! c_player c' = Some v' →
      p_name v = p_name v' → p = p')).
Proof.
  intros Hh Hwf Hls Hr.
  assert (binary (semaphore CLIENT_LOGIN_SEM) w) as Hb by (right; cbn; by rewrite (ho_sems _ _ _ _ _ _ Hh)).
  assert (∀ c, rtc pool_step (logins_in_turn ls, w) c → all_ready c) as Hsure.
  { intros c Hc. eapply logging_in_ready; [exact Hwf|exact Hls|]. by eapply logging_in_reached. }
  destruct (interleaved_ready _ _ _ _ Hb Hsure Hr) as [Hnf Hgo].
  split; [done|]. split; [done|]. split; [apply pool_terminates|]. intros Hall.
  pose proof (serializable _ _ _ _ _ Hb Hr Hall) as Hr'. split; [done|].
  destruct (logging_in_reached ls w Hwf Hls _ Hh Hr') as (Hh' & Hlen & Hst). cbn in Hh', Hlen, Hst. split; [done|].
  split; [|intros p p' c c' v v'; by apply holding_unique].
  intros i p pl Hl. destruct (lookup_lt_is_Some_2 ts i) as [t Hi]; [rewrite Hlen; by eapply lookup_lt_Some|].
  pose proof (list_elem_of_lookup_2 _ _ _ Hl) as Hin. destruct (ml_client _ _ Hls p pl Hin) as [Hp _].
  pose proof (account_not_null w' pl Hh' (ml_player _ _ Hls p pl Hin)) as Hn.
  pose proof (all_finished_lookup _ _ _ Hall Hi) as Hf.
  destruct (Hst i t p pl Hi Hl) as [? ? ?|c Hc E Hon|c p' Hc Hz Hp']; [done|left|right].
  - split; [done|]. split; [done|]. eauto.
  - split; [done|]. exists p'. split; [|done]. destruct Hp' as (_ & c' & Hc' & <-). intros ->. congruence.
Qed.
End logins.

(** ** The operations on invitations *)

(** A call of a service thread, with the client it serves. *)
Inductive operation : Type :=
| Invite (client target : ptr) (source_role target_role : GAME_ROLE)
| Revoke (client : ptr) (id : Z)
| Decline (client : ptr) (id : Z)
| Accept (client : ptr) (id : Z)
| Resign (client : ptr) (id : Z)
| Move (client : ptr) (id : Z) (move : list byte).

Definition perform `{Libm} (o : operation) : M (Z * option (list byte)) :=
  match o with
  | Invite client target rs rt => r ← client_make_invitation client target rs rt; mret (r, None)
  | Revoke client id => r ← client_revoke_invitation client id; mret (r, None)
  | Decline client id => r ← client_decline_invitation client id; mret (r, None)
  | Accept client id => client_accept_invitation client id
  | Resign client id => r ← client_resign_game client id; mret (r, None)
  | Move client id move => r ← client_make_move client id move; mret (r, None)
  end.

#[export] Instance perform_critical `{Libm} o : Critical (semaphore CLIENT_INVITE_OP_SEM) (perform o).
Proof. destruct o; cbn [perform]; apply _. Defined.

Definition op_client (o : operation) : ptr :=
  match o with
  | Invite c _ _ _ | Revoke c _ | Decline c _ | Accept c _ | Resign c _ | Move c _ _ => c
  end.

(** The client is registered; one that invites is logged in, and so is the
    other client that it invites, for the opposite role. *)
Definition allowed (regs : list ptr) (w : world) (o : operation) : Prop :=
  op_client o ∈ regs ∧
  match o with
  | Invite c t rs rt => t ∈ regs ∧ c ≠ t ∧ online (mem_of w) c ∧ online (mem_of w) t ∧ rs ≠ NULL_ROLE ∧ rt = opponent_of rs
  | _ => True
  end.

(** A call takes at most three addresses. *)
Definition CALL_ROOM : Z := 3.

Section operations.
Context `{LibmLaws}.
Context (cr pr : ptr) (r : CLIENT_REGISTRY) (q : PLAYER_REGISTRY).
Implicit Types (w : world) (o : operation).

Abbreviation regs := (cr_registered r).
Abbreviation names := (pr_head q).

(** Nobody logs out, and memory grows by little. *)
Definition steady (m m' : mem) : Prop :=
  (∀ p, online m p → online m' p) ∧ Z.of_nat (m_brk m') ≤ Z.of_nat (m_brk m) + CALL_ROOM.

Lemma steady_same m : steady m m.
Proof. split; [done|unfold CALL_ROOM; lia]. Qed.

Lemma steady_clients m m' p c c' :
  m_clients m !! p = Some c → c_logged_in c' = c_logged_in c → m_clients m' = <[p := c']> (m_clients m) →
  m_brk m' = m_brk m → steady m m'.
Proof.
  intros Hp E Ec Eb. split; [|unfold CALL_ROOM; lia]. intros x (cx & Hx & Hon). unfold online. rewrite Ec.
  destruct (decide (x = p)) as [->|Hne]; [|rewrite lookup_insert_ne by done; eauto].
  rewrite lookup_insert_eq. eexists. split; [done|]. congruence.
Qed.

Lemma steady_two m m' s t cs ct cs' ct' :
  m_clients m !! s = Some cs → m_clients m !! t = Some ct →
  c_logged_in cs' = c_logged_in cs → c_logged_in ct' = c_logged_in ct →
  m_clients m' = upd2 s t cs' ct' (m_clients m) → Z.of_nat (m_brk m') ≤ Z.of_nat (m_brk m) + CALL_ROOM → steady m m'.
Proof.
  intros Hs Ht Es Et Ec Eb. split; [|done]. intros x (cx & Hx & Hon). unfold online, upd2 in *. rewrite Ec.
  destruct (decide (x = t)) as [->|Hxt]; [rewrite lookup_insert_eq; eexists; split; [done|congruence]|].
  rewrite lookup_insert_ne by done.
  destruct (decide (x = s)) as [->|Hxs]; [rewrite lookup_insert_eq; eexists; split; [done|congruence]|].
  rewrite lookup_insert_ne by done. eauto.
Qed.

Lemma drop_logged_in x d c : c_logged_in (add_refs d (drop_node x c)) = c_logged_in c.
Proof. by destruct (drop_node_fields x c) as (_ & _ & _ & _ & _ & El & _). Qed.

Lemma steady_drop m m2 x p t g cp ct :
  m_clients m !! p = Some cp → m_clients m !! t = Some ct → m_clients m2 = m_clients m → m_brk m2 = m_brk m →
  steady m (drop_inv x p t g cp ct m2).
Proof.
  intros Hp Ht Ec Eb. eapply steady_two; [exact Hp|exact Ht|apply drop_logged_in|apply drop_logged_in|cbn; by rewrite Ec|].
  cbn. rewrite Eb. unfold CALL_ROOM. lia.
Qed.

Lemma steady_close m x p c i : m_clients m !! p = Some c → steady m (close_one x p c i m).
Proof.
  intros Hp. eapply steady_clients; [exact Hp| |done|done]. by destruct (drop_node_fields x c) as (_ & _ & _ & _ & _ & El & _).
Qed.

Lemma revoke_steady w w' p id s : revoke_spec p id w s w' → steady (mem_of w) (mem_of w').
Proof.
  intros (c & Hp & Hs). destruct (w_invs w !! _) as [i|]; [|destruct Hs as [_ ->]; apply steady_same].
  case_decide; [|destruct Hs as [_ ->]; apply steady_same]. case_decide.
  - destruct Hs as (_ & ct & Ht & ->). by apply steady_drop.
  - destruct Hs as [_ ->]. by apply steady_close.
Qed.

Lemma decline_steady w w' p id s : decline_spec p id w s w' → steady (mem_of w) (mem_of w').
Proof.
  intros (c & Hp & Hs). destruct (w_invs w !! _) as [i|]; [|destruct Hs as [_ ->]; apply steady_same].
  case_decide; [|destruct Hs as [_ ->]; apply steady_same]. case_decide.
  - destruct Hs as (_ & ct & Ht & ->). by apply steady_drop.
  - destruct Hs as [_ ->]. by apply steady_close.
Qed.

Lemma accept_steady w w' p id s : accept_spec p id w s w' → steady (mem_of w) (mem_of w').
Proof.
  intros (c & Hp & Hs). destruct (w_invs w !! _) as [i|]; [|destruct Hs as [_ ->]; apply steady_same].
  case_decide; destruct Hs as [_ ->]; [|apply steady_same]. split; [done|]. cbn. unfold CALL_ROOM. lia.
Qed.

Lemma ended_steady w w' p x c i winner : w_clients w !! p = Some c → ended p x c i winner w w' →
  steady (mem_of w) (mem_of w').
Proof. intros Hp (co & Ho & ->). by apply steady_drop. Qed.

Lemma resign_steady w w' p id s : resign_spec p id w s w' → steady (mem_of w) (mem_of w').
Proof.
  intros (c & Hp & Hs). destruct (w_invs w !! _) as [i|]; [|destruct Hs as [_ ->]; apply steady_same].
  case_decide; destruct Hs as [_ Hs]; [by eapply ended_steady|rewrite Hs; apply steady_same].
Qed.

Lemma move_steady w w' p id mv s : move_spec p id mv w s w' → steady (mem_of w) (mem_of w').
Proof.
  intros (c & Hp & [(_ & -> & _)|(_ & i & g & move & g' & _ & _ & _ & _ & Hs)]); [apply steady_same|].
  case_match; [|by eapply ended_steady]. rewrite Hs. split; [done|cbn; unfold CALL_ROOM; lia].
Qed.

Lemma invite_steady w w' s t rs rt res : invite_spec s t rs rt w res w' →
  steady (mem_of w) (mem_of w').
Proof.
  intros (cs & ct & cs' & ct' & idt & Hs & Ht & Ts & Tt & _ & ->).
  destruct (take_id_fields _ _ _ Ts) as (_ & _ & _ & _ & _ & Ls & _).
  destruct (take_id_fields _ _ _ Tt) as (_ & _ & _ & _ & _ & Lt & _).
  eapply (steady_two _ _ s t cs ct); [exact Hs|exact Ht| | |cbn; reflexivity|cbn; unfold CALL_ROOM; lia].
  - exact Ls.
  - exact Lt.
Qed.

(** One call, whatever the others have done before. *)
Definition performs w (a : Z * option (list byte)) w' : Prop :=
  serves cr pr r q w' ∧ steady (mem_of w) (mem_of w') ∧ rtc any_step (lobby_at cr w) (lobby_at cr w').

Lemma performs_intro {A} (op : M A) w p (f : A → Z * option (list byte)) (Q : A → world → Prop) :
  serves cr pr r q w → safe regs names op w Q →
  (∀ a w', Q a w' → steady (mem_of w) (mem_of w') ∧
    rtc (lobby_request p) (lobby_of regs (mem_of w)) (lobby_of regs (mem_of w'))) →
  wp (op ≫= λ a, mret (f a)) w (performs w).
Proof.
  intros Hw Hop HQ. apply wp_bind. eapply wp_mono; [exact Hop|]. intros a w' (Hs & Hq & _ & Hc & Ha).
  destruct (HQ a w' Ha) as [Hst Hl]. assert (serves cr pr r q w') as Hw' by (by eapply serves_quiet).
  split; [done|]. split; [done|]. rewrite (lobby_at_serves cr pr r q w Hw), (lobby_at_serves cr pr r q w' Hw').
  eapply (steps_any p). by apply requests_steps.
Qed.

Lemma wp_map_id {A} (op : M A) w Q : wp (op ≫= λ a, mret a) w Q → wp op w Q.
Proof. unfold wp, mbind, M_bind. by destruct (op w). Qed.

Lemma perform_runs o w : serves cr pr r q w → allowed regs w o → Z.of_nat (w_brk w) ≤ MAX_BRK →
  wp (perform o) w (performs w).
Proof.
  intros Hw [Hp Ho] Hb. pose proof (serves_core _ _ _ _ w Hw) as Hc. pose proof (co_mem _ _ _ _ Hc) as Hm.
  destruct o as [p t rs rt|p id|p id|p id|p id|p id mv]; cbn [perform op_client] in *.
  - destruct Ho as (Ht & Hne & (c & Hcp & Hon) & (ct & Hct & Hont) & Hrs & ->).
    eapply (performs_intro _ w p); [done|by eapply (client_make_invitation_safe regs names w p t rs _ c ct)|].
    intros a w' [Ha _]. split; [by eapply invite_steady|by eapply invite_steps].
  - eapply (performs_intro _ w p); [done|by apply client_revoke_safe|].
    intros a w' [Ha _]. split; [by eapply revoke_steady|by eapply revoke_steps].
  - eapply (performs_intro _ w p); [done|by apply client_decline_safe|].
    intros a w' [Ha _]. split; [by eapply decline_steady|by eapply decline_steps].
  - apply wp_map_id. eapply (performs_intro _ w p (λ a, a)); [done|by apply client_accept_safe|].
    intros a w' [Ha _]. split; [by eapply accept_steady|by eapply accept_steps].
  - eapply (performs_intro _ w p); [done|by apply client_resign_safe|].
    intros a w' [Ha _]. split; [by eapply resign_steady|by eapply resign_request_steps].
  - eapply (performs_intro _ w p); [done|by apply client_make_move_safe|].
    intros a w' [Ha _]. split; [by eapply move_steady|by eapply move_steps].
Qed.

Lemma allowed_steady w w' o : steady (mem_of w) (mem_of w') → allowed regs w o → allowed regs w' o.
Proof. intros [Hon _] [Hp Ho]. split; [done|]. destruct o; try done. naive_solver. Qed.

(** ** The pool *)

(** How many calls the threads still have to make. *)
Definition calls_left (threads : list (list operation)) : nat := sum_list (length <$> threads).

(** What is left to do can be done. *)
Definition can_serve (w0 : world) (rest : list (list operation)) w : Prop :=
  serves cr pr r q w ∧ Forall (Forall (allowed regs w)) rest ∧
  Z.of_nat (w_brk w) + CALL_ROOM * Z.of_nat (calls_left rest) ≤ MAX_BRK ∧
  rtc any_step (lobby_at cr w0) (lobby_at cr w).

Lemma calls_left_insert rest i o os : rest !! i = Some (o :: os) →
  calls_left rest = S (calls_left (<[i := os]> rest)).
Proof.
  revert i. induction rest as [|x rest IH]; intros [|i] Hi; [done|done| |].
  - by injection Hi as ->.
  - change (length x + calls_left rest = S (length x + calls_left (<[i := os]> rest)))%nat.
    specialize (IH i Hi). lia.
Qed.

Lemma serve_next w0 rest w i o os :
  can_serve w0 rest w → rest !! i = Some (o :: os) →
  ∃ a w', perform o w = Ret a w' ∧ can_serve w0 (<[i := os]> rest) w'.
Proof.
  intros (Hw & Hall & Hb & Hl) Hi. pose proof (calls_left_insert rest i o os Hi) as Hn.
  pose proof (proj1 (Forall_lookup _ _) Hall i _ Hi) as Hos. apply Forall_cons in Hos as [Ho Hos].
  assert (Z.of_nat (w_brk w) ≤ MAX_BRK) as Hb' by (unfold CALL_ROOM in Hb; lia).
  destruct (wp_inv _ _ _ (perform_runs o w Hw Ho Hb')) as (a & w' & E & Hw' & Hst & Hl').
  exists a, w'. split; [done|]. split; [done|]. split; [|split; [|by etrans]].
  - apply Forall_insert.
    + apply (Forall_impl _ _ _ Hall). intros l Hl0. apply (Forall_impl _ _ _ Hl0). intros o'. by apply allowed_steady.
    + apply (Forall_impl _ _ _ Hos). intros o'. by apply allowed_steady.
  - destruct Hst as [_ Hbrk]. cbn in Hbrk. rewrite Hn in Hb. lia.
Qed.

(** C6: any number of service threads that carry out operations on
    invitations at the same time, each one after another, their steps in any
    order.  Each operation is [allowed]: its client is registered, and to
    invite, both parties are different registered clients that are logged in,
    with opposite roles; and there is memory for all the calls.  Then no step
    is undefined, some thread can
    go on until all have returned, and no execution goes on for ever.  When
    all have returned, their results and the state are those of some order of
    whole calls; the invariant of the server holds, and the lobby has made
    steps.  An invitation by a client without a player is not allowed, and is
    undefined ([Findings.crash_after_failed_login]). *)
Theorem operations_serialize threads w ts w' :
  serves cr pr r q w → Forall (Forall (allowed regs w)) threads →
  Z.of_nat (w_brk w) + CALL_ROOM * Z.of_nat (calls_left threads) ≤ MAX_BRK →
  rtc pool_step (calls perform threads, w) (ts, w') →
  ¬ faulty (ts, w') ∧ (all_finished ts ∨ ∃ c, pool_step (ts, w') c) ∧ Acc (flip pool_step) (ts, w') ∧
  (all_finished ts → rtc pool_step (calls_in_turn perform threads, w) (ts, w') ∧ serves cr pr r q w' ∧
    rtc any_step (lobby_at cr w) (lobby_at cr w')).
Proof.
  intros Hw Hall Hb Hr.
  assert (binary (semaphore CLIENT_INVITE_OP_SEM) w) as Hbin by (right; cbn; by rewrite (sv_sems _ _ _ _ _ Hw)).
  assert (can_serve w threads w) as HJ by (split; [done|split; [done|split; [done|constructor]]]).
  destruct (calls_serialize _ perform (can_serve w) (serve_next w) threads w ts w' Hbin HJ Hr) as (H1 & H2 & H3 & Hend).
  split; [done|]. split; [done|]. split; [done|]. intros Hfin.
  destruct (Hend Hfin) as (Hseq & rest & _ & Hw' & _ & _ & Hl). done.
Qed.
End operations.

(** ** Packets to one client *)

(** The calls of [src/client.c] that send to a client: a packet whose header
    [create_header] has made, when the clock read [ts], an ACK, and a NACK. *)
Inductive delivery : Type :=
| Packet (type id role : Z) (ts : Z * Z) (data : option (list byte))
| Ack (data : option (list byte))
| Nack.

(** What the peer on [fd] is to receive. *)
Definition delivery_notice (fd : Z) (d : delivery) : NOTICE :=
  match d with
  | Packet type id role _ data => mkNOTICE fd type id role data
  | Ack data => mkNOTICE fd JEUX_ACK_PKT 0 0 data
  | Nack => mkNOTICE fd JEUX_NACK_PKT 0 0 None
  end.

Definition deliver (p : ptr) (d : delivery) : M Z :=
  match d with
  | Packet type id role ts data =>
      client_send_packet p (notice_header (mkNOTICE 0 type id role data) ts) data
  | Ack data => client_send_ack p data (data_len data)
  | Nack => client_send_nack p
  end.

#[export] Instance deliver_critical p d : Critical (client_mutex p) (deliver p d).
Proof. destruct d; cbn [deliver]; apply _. Defined.

Section deliveries.
Context (p : ptr) (c : CLIENT).
Implicit Types (w : world) (d : delivery).

(** The client can be sent to. *)
Definition connected w : Prop :=
  w_clients w !! p = Some c ∧ c_lock c = false ∧ w_oom w = [] ∧
  ∃ k, w_net w !! c_fd c = Some k ∧ writable k.

Lemma deliver_runs w d : connected w →
  ∃ s w', deliver p d w = Ret s w' ∧ connected w' ∧ mem_of w' = mem_of w ∧ told w w' [delivery_notice (c_fd c) d].
Proof.
  intros (Hp & Hl & Hoom & k & Hk & Hw).
  assert (∃ Q, sends (deliver p d) w [delivery_notice (c_fd c) d] Q) as (Q & s & w' & (E & _ & Hq) & Hm & Ht & _).
  { destruct d as [type id role ts data|data|]; cbn [deliver].
    - eexists. by apply (client_send_packet_sends p c k (mkNOTICE (c_fd c) type id role data) ts w).
    - pose proof (send_simple_sends p c k JEUX_ACK_PKT data w Hoom Hp Hl Hk Hw) as Hs. unfold note in Hs.
      rewrite (fd_of_lookup w p c Hp) in Hs. eexists. exact Hs.
    - pose proof (send_simple_sends p c k JEUX_NACK_PKT None w Hoom Hp Hl Hk Hw) as Hs. unfold note in Hs.
      rewrite (fd_of_lookup w p c Hp) in Hs. eexists. exact Hs. }
  exists s, w'. split; [done|]. split; [|done]. destruct Hq as (Ho & _ & _ & _ & Hn).
  destruct (Hn _ _ Hk) as (k' & Hk' & Hw' & _).
  split; [by rewrite (mem_clients _ _ Hm)|]. split; [done|]. split; [congruence|]. eauto.
Qed.

(** What has been sent, and what is left, make up what was asked for. *)
Definition delivering (w0 : world) (threads rest : list (list delivery)) w : Prop :=
  connected w ∧ mem_of w = mem_of w0 ∧ ∃ l, told w0 w (delivery_notice (c_fd c) <$> l) ∧
    ∀ l', shuffle rest l' → shuffle threads (l ++ l').

Lemma deliver_next w0 threads rest w i d ds :
  delivering w0 threads rest w → rest !! i = Some (d :: ds) →
  ∃ s w', deliver p d w = Ret s w' ∧ delivering w0 threads (<[i := ds]> rest) w'.
Proof.
  intros (Hc & Hm & l & Ht & Hl) Hi. destruct (deliver_runs w d Hc) as (s & w' & E & Hc' & Hm' & Ht').
  exists s, w'. split; [done|]. split; [done|]. split; [congruence|]. exists (l ++ [d]). split.
  - rewrite fmap_app. by eapply told_trans.
  - intros l' Hl'. rewrite <-app_assoc. apply Hl. by eapply shuffle_cons.
Qed.

(** C7: any number of threads that send packets, ACKs and NACKs to one
    client at the same time, the system calls of the threads in any order and
    each of them writing any part of what is left: no step is undefined, some
    thread can go on until all have returned, and no execution goes on for
    ever.  When all have returned, the peer has been sent whole packets, one
    after another, each thread's in its order. *)
Theorem packets_never_mix threads w ts w' :
  connected w → rtc pool_step (calls (deliver p) threads, w) (ts, w') →
  ¬ faulty (ts, w') ∧ (all_finished ts ∨ ∃ s, pool_step (ts, w') s) ∧ Acc (flip pool_step) (ts, w') ∧
  (all_finished ts → mem_of w' = mem_of w ∧
    ∃ l, shuffle threads l ∧ told w w' (delivery_notice (c_fd c) <$> l)).
Proof.
  intros Hc Hr.
  assert (binary (client_mutex p) w) as Hb.
  { right. destruct Hc as (Hp & Hl & _). cbn. unfold locked_client. by rewrite Hp, <-Hl. }
  assert (delivering w threads threads w) as HJ.
  { split; [done|]. split; [done|]. exists []. split; [apply told_refl|done]. }
  destruct (calls_serialize _ (deliver p) (delivering w threads) (deliver_next w threads) threads w ts w' Hb HJ Hr)
    as (H1 & H2 & H3 & Hend).
  split; [done|]. split; [done|]. split; [done|]. intros Hfin.
  destruct (Hend Hfin) as (_ & rest & Hrest & _ & Hm & l & Ht & Hl). split; [done|].
  exists l. split; [|done]. rewrite <-(app_nil_r l). apply Hl. by constructor.
Qed.
End deliveries.
