(* ===== verification/Races.v ===== *)
(** * Races

    Executions of the whole service threads, step by step, that no order of
    their calls produces: what the semaphores of [src/client.c] do not
    protect.  Each is a schedule, the numbers of the threads that take the
    steps, computed by [exec].  The witnesses of [Parallel] are here too. *)
From stdpp Require Import relations.
From S2P Require Import Prelude Game Player Elo World Threads Critical Objects Protocol Wire PlayerRegistry Invitation Client Sessions ClientRegistry Server Atomic Steps Typing Accounts Framing Main Accounting Effects Handlers Directory Playing Logout Requests Login Service Lifecycle Lobby Refinement Loop Shutdown System Demo Parallel.

#[local] Existing Instance step_pow.
#[local] Existing Instance step_pow_laws.

(** [n] steps of a thread. *)
Definition turns (n thread : nat) : list nat := replicate n thread.

(** ** Two clients under one name *)

(** Two peers have connected and sent the same LOGIN; nobody is registered. *)
Definition both_alice : CONN := mkCONN [] [] (login_packet alice) [].
Definition r_empty : world :=
  mkWORLD 1 ∅ ∅ ∅ ∅ ∅ ∅ (replicate CLIENT_SEM_FUNCTIONS 0) 0 {[4 := both_alice; 5 := both_alice]} [] [].
Definition r_start : world := Eval vm_compute in world_of ((creg_init;; preg_init) r_empty) r_empty.
Definition r_threads : list (prog ()) :=
  [steps (H := sems nobody) (jeux_client_service 1 2 3 4); steps (H := sems nobody) (jeux_client_service 1 2 3 5)].

(** The client is logged in, and its player. *)
Definition logged_in_as (w : world) (p pl : ptr) : Prop :=
  ((λ c, (c_logged_in c, c_player c)) <$> w_clients w !! p) = Some (CLIENT_LOGGED_IN, pl).
#[local] Instance logged_in_as_dec w p pl : Decision (logged_in_as w p pl).
Proof. unfold logged_in_as. apply _. Defined.

(** The first client has [CLIENT_LOGIN_SEM] and has found the name free when
    the second connects: [client_create] initialises the semaphores again,
    the second logs in under the same name, and then the first does. *)
Definition r_schedule : list nat := turns 29 0 ++ turns 37 1 ++ turns 7 0.

Lemma name_logged_in_twice :
  ∃ ts w', rtc pool_step (r_threads, r_start) (ts, w') ∧ logged_in_as w' 3 4 ∧ logged_in_as w' 5 4.
Proof. apply (exec_reaches r_schedule). vm_compute. done. Qed.

(** ** The invited client is freed *)

(** The rest of the service of a client that has logged in. *)
Definition rest_of_service (fd : Z) (p : ptr) : prog () :=
  steps (H := sems nobody) (service_loop 1 2 3 fd p 1;; creg_unregister 1 p;; sys_close fd).
Definition u_threads : list (prog ()) := [rest_of_service 4 3; rest_of_service 5 4].

(** Alice has sent an INVITE for bob; bob has closed his connection. *)
Definition u_start : world := Eval vm_compute in
  set_conn 4 (mkCONN [] [] (header_bytes (packet JEUX_INVITE_PKT 0 1 1) ++ bob) []) s_bob.

(** [process_invite] gives back the reference of [creg_lookup] before it uses
    the client; bob's thread unregisters and frees it in between. *)
Lemma invited_client_freed : ∃ c, rtc pool_step (u_threads, u_start) c ∧ faulty c.
Proof. apply (exec_faults (turns 18 0 ++ turns 23 1 ++ turns 2 0)). vm_compute. reflexivity. Qed.

(** ** The invitation of a logout is freed *)

(** They play; alice's connection is closed and bob resigns. *)
Definition l_start : world := Eval vm_compute in
  set_conn 5 (mkCONN [] [] (header_bytes (packet JEUX_RESIGN_PKT 0 0 0)) []) s_playing.

(** The loop of [client_logout] has read a node of the list when the other
    client resigns the game of its invitation, which removes the node and
    frees the invitation. *)
Lemma logout_invitation_freed : ∃ c, rtc pool_step (u_threads, l_start) c ∧ faulty c.
Proof. apply (exec_faults (turns 6 0 ++ turns 71 1 ++ turns 1 0)). vm_compute. reflexivity. Qed.

(** ** Witnesses for the calls that are protected *)

(** Both clients have asked for the name alice, and each call holds its
    reference to the player. *)
Definition s_rivals : world := Eval vm_compute in
  world_of ((preg_register 2 alice;; preg_register 2 alice) s_two) s_two.
Definition rivals : list (ptr * ptr) := [(3%nat, 5%nat); (4%nat, 5%nat)].
Definition s_rivals_end : world := Eval vm_compute in
  world_of (exec (turns 16 0 ++ turns 14 1) (logins rivals) s_rivals) s_rivals.

Lemma s_rivals_holding :
  Login.holding 1 2 (creg_of s_two) (preg_of s_rivals) [5%nat; 5%nat] s_rivals.
Proof.
  destruct (preg_register_run 1 2 _ _ s_two alice s_two_good ltac:(vm_compute; discriminate)) as (q' & pl & w1 & E & Hh & _).
  assert (preg_register 2 alice s_two = Ret 5%nat (world_of (preg_register 2 alice s_two) s_two)) as E'
    by (vm_compute; reflexivity).
  rewrite E' in E. injection E as <- <-.
  assert (q' = preg_of s_rivals) as ->.
  { pose proof (ho_preg _ _ _ _ _ _ Hh) as Hq. vm_compute in Hq. injection Hq as <-. vm_compute. reflexivity. }
  assert (few [5%nat; 5%nat]) as Hfew by (vm_compute; discriminate).
  split; [apply Hh|apply Hh|apply Hh|exact Hfew| |apply Hh].
  refine (eq_rect _ _ (holding_ref 1 2 _ _ _ _ 5 (mkPLAYER alice 2 1500) Hh _ _) _ _).
  - left.
  - vm_compute. reflexivity.
  - vm_compute. reflexivity.
Qed.

Lemma s_rivals_may : may_log_in (creg_of s_two) (preg_of s_rivals) rivals s_rivals.
Proof.
  split.
  - apply (bool_decide_eq_true_1 _). vm_compute. reflexivity.
  - intros p pl [[= -> ->]|[[= -> ->]|[]%elem_of_nil]%elem_of_cons]%elem_of_cons;
      (split; [apply registered_in; vm_compute; reflexivity|eexists; split; vm_compute; reflexivity]).
  - intros p pl [[= -> ->]|[[= -> ->]|[]%elem_of_nil]%elem_of_cons]%elem_of_cons; left.
Qed.

Lemma rivals_run : rtc pool_step (logins rivals, s_rivals) ([Done 0; Done (-1)], s_rivals_end).
Proof. apply (exec_steps (turns 16 0 ++ turns 14 1)). vm_compute. reflexivity. Qed.

Lemma logins_serialize_witness :
  rtc pool_step (logins_in_turn rivals, s_rivals) ([Done 0; Done (-1)], s_rivals_end) ∧
  plays (creg_of s_two) s_rivals_end 3 5.
Proof.
  destruct (logins_serialize 1 2 (creg_of s_two) (preg_of s_rivals) [5%nat; 5%nat] rivals s_rivals
    [Done 0; Done (-1)] s_rivals_end s_rivals_holding (sv_wf _ _ _ _ _ s_two_good) s_rivals_may rivals_run)
    as (_ & _ & _ & Hend).
  destruct Hend as (Hseq & _ & Hres & _); [by repeat constructor|]. split; [exact Hseq|].
  destruct (Hres 0%nat 3%nat 5%nat eq_refl) as [[_ Hp]|[E _]]; [exact Hp|discriminate E].
Defined.

(** Bob accepts and resigns while alice revokes her invitation. *)
Definition quarrel : list (list operation) := [[Accept 4 0; Resign 4 0]; [Revoke 3 0]].
Definition s_quarrel_end : world := Eval vm_compute in
  world_of (exec (turns 24 0 ++ turns 6 1 ++ turns 64 0) (calls perform quarrel) s_invited) s_invited.
Definition quarrel_results : list (prog (list (Z * option (list byte)))) :=
  [Done [(0, Some (game_unparse_state game_create)); (0, None)]; Done [(-1, None)]].

Lemma quarrel_allowed : Forall (Forall (allowed (cr_registered (creg_of s_invited)) s_invited)) quarrel.
Proof. repeat constructor; apply registered_in; vm_compute; reflexivity. Qed.

Lemma quarrel_run : rtc pool_step (calls perform quarrel, s_invited) (quarrel_results, s_quarrel_end).
Proof. apply (exec_steps (turns 24 0 ++ turns 6 1 ++ turns 64 0)). vm_compute. reflexivity. Qed.

Lemma operations_serialize_witness :
  rtc pool_step (calls_in_turn perform quarrel, s_invited) (quarrel_results, s_quarrel_end) ∧ good s_quarrel_end.
Proof.
  destruct (operations_serialize 1 2 _ _ quarrel s_invited quarrel_results s_quarrel_end
    s_invited_good quarrel_allowed ltac:(vm_compute; discriminate) quarrel_run) as (_ & _ & _ & Hend).
  destruct Hend as (Hseq & Hs & _); [by repeat constructor|]. split; [exact Hseq|]. by eapply serves_good.
Defined.

(** Bob's own thread acknowledges a request while alice's sends him a move;
    the kernel takes three bytes of the first packet at first. *)
Definition s_slow : world := Eval vm_compute in set_conn 5 (mkCONN [] [3; 20] [] []) s_bob.
Definition bob_client : CLIENT := Eval vm_compute in default (fresh_client 1 5) (w_clients s_bob !! 4%nat).
Definition crossing : list (list delivery) :=
  [[Ack None]; [Packet JEUX_MOVED_PKT 0 0 (0, 0) (Some bob); Nack]].
Definition s_crossing_end : world := Eval vm_compute in
  world_of (exec (turns 7 0 ++ turns 11 1) (calls (deliver 4) crossing) s_slow) s_slow.

Lemma s_slow_connected : connected 4 bob_client s_slow.
Proof.
  split; [vm_compute; reflexivity|]. split; [reflexivity|]. split; [reflexivity|].
  eexists. split; [vm_compute; reflexivity|]. by repeat constructor.
Qed.

Lemma crossing_run :
  rtc pool_step (calls (deliver 4) crossing, s_slow) ([Done [0]; Done [0; 0]], s_crossing_end).
Proof. apply (exec_steps (turns 7 0 ++ turns 11 1)). vm_compute. reflexivity. Qed.

Lemma packets_never_mix_witness :
  ∃ l, shuffle crossing l ∧ told s_slow s_crossing_end (delivery_notice 5 <$> l).
Proof.
  destruct (packets_never_mix 4 bob_client crossing s_slow [Done [0]; Done [0; 0]] s_crossing_end
    s_slow_connected crossing_run) as (_ & _ & _ & Hend).
  destruct Hend as (_ & Hl); [by repeat constructor|]. exact Hl.
Defined.

(** Both connections are accepted in the start state. *)
Lemma r_connected : rtc (running 1 2) ([], r_start) (r_threads, r_start).
Proof.
  assert (ctype both_alice) as Hk by (apply (bool_decide_eq_true_1 _); vm_compute; reflexivity).
  eapply rtc_l; [by apply running_connect with (fd := 5) (k := both_alice) (fuel := 3%nat)|].
  eapply rtc_l; [by apply running_connect with (fd := 4) (k := both_alice) (fuel := 3%nat)|].
  by rewrite (set_conn_id 5), (set_conn_id 4) by (vm_compute; reflexivity).
Qed.

Lemma r_reached ts w : rtc pool_step (r_threads, r_start) (ts, w) → rtc (running 1 2) ([], r_start) (ts, w).
Proof.
  intros Hr. etrans; [exact r_connected|]. exact (rtc_congruence (λ c, c) _ _ _ (running_thread 1 2) Hr).
Qed.

(** Memory is typed even when two clients have got in under one name. *)
Lemma memory_stays_typed_witness : ∃ w', logged_in_as w' 3 4 ∧ logged_in_as w' 5 4 ∧ well_typed w'.
Proof.
  destruct name_logged_in_twice as (ts & w' & Hr & H3 & H5). exists w'. split; [exact H3|]. split; [exact H5|].
  apply (memory_stays_typed 1 2 r_start ts w'); [|by apply r_reached].
  apply (bool_decide_eq_true_1 _). vm_compute. reflexivity.
Defined.

(** They are one player, made by the first of them, in its [preg_register]. *)
Lemma accounts_and_boards_witness : ∃ w', logged_in_as w' 3 4 ∧ logged_in_as w' 5 4 ∧
  w_players r_start = ∅ ∧ accounts_ok w' ∧ evolves r_start w'.
Proof.
  destruct name_logged_in_twice as (ts & w' & Hr & H3 & H5). exists w'. split; [exact H3|]. split; [exact H5|].
  split; [vm_compute; reflexivity|]. apply (accounts_and_boards 1 2 r_start ts w'); [|by apply r_reached].
  apply (bool_decide_eq_true_1 _). vm_compute. reflexivity.
Defined.

(** Alice's thread sends bob an INVITED packet, of which the kernel takes
    three bytes at first; his own thread is about to answer his USERS, and
    does so when it gets the mutex. *)
Definition f_start : world := Eval vm_compute in
  set_conn 5 (mkCONN [] [3; 20] (header_bytes (packet JEUX_USERS_PKT 0 0 0)) []) u_start.
Definition f_sessions : list session := [mkSESSION 3 4 3 1; mkSESSION 3 5 4 1].
Definition f_sent : list byte := [11; 0; 1; 0; 0; 1; 0; 0; 0; 0; 0; 0; 0; 0; 0; 0; 97] ++
  [9; 0; 0; 0; 0; 14; 0; 0; 0; 0; 0; 0; 0; 0; 0; 0; 97; 9; 49; 53; 48; 48; 10; 98; 9; 49; 53; 48; 48; 10].

Lemma f_start_tuned : tuned 4 5 f_start.
Proof.
  split; [vm_compute; lia| |].
  - assert (map_Forall (λ q c, c_fd c = 5 ↔ q = 4%nat) (w_clients f_start)) as Hc; [|exact Hc].
    apply (bool_decide_eq_true_1 _). vm_compute. reflexivity.
  - intros k E. vm_compute in E. injection E as <-. by repeat constructor.
Qed.

Lemma f_run : ∃ ts w, rtc pool_step (serve_on 1 2 <$> f_sessions, f_start) (ts, w) ∧
  out 5 w = Some f_sent ∧ lock_bit 4 w = Some false.
Proof. apply (exec_reaches (turns 72 0 ++ turns 18 1 ++ turns 16 0 ++ turns 7 1)). vm_compute. done. Qed.

Lemma packets_whole_witness : ∃ l, f_sent = concat l ∧ Forall is_packet l.
Proof.
  destruct f_run as (ts & w & Hr & Ho & Hl).
  destruct (packets_whole 1 2 4 5 f_sessions f_start ts w [] f_sent f_start_tuned eq_refl
    (rtc_congruence (λ c, c) _ _ _ (attending_thread 1 2 5) Hr) Ho) as (l & part & E & Hp & _ & Hn).
  exists l. rewrite (Hn (or_introl Hl)), app_nil_r in E. split; [exact E|exact Hp].
Defined.
